(* ===== verification/_CoqProject ===== *)
-Q . S2P
Prelude.v
F32.v
RString.v
External.v
RtpCodec.v
Jitter.v
RtpTransport.v
Topology.v
SessionStore.v
ControlApi.v
PulseTags.v
PulseDaemon.v
PulseDiscovery.v
AlsaGw.v
RaftStateMachine.v
RaftLogStore.v
Monitor.v
AudioEngine.v
AudioNodes.v
FileLoad.v
BrowserGw.v
AlsaPlugin.v
PlanarNodes.v
EffectNodes.v
RoutingNodes.v
LfoNodes.v
SourceNodes.v
Render.v
Server.v
Netmap.v
Distributed.v
Rest.v
Requests.v
Live.v
Gateways.v
Diagnose.v
SelfTest.v
Reload.v
EngineCheck.v
GatewayCheck.v
Ephemeral.v
