(* ===== verification/Prelude.v ===== *)
(** * Sonicbrew: a verification library

    Sonicbrew is an audio server.  Clients describe a graph of audio nodes over
    a REST API; a session store keeps that topology durable and, with several
    nodes, replicated; an engine builds the graph and runs it in cycles; worker
    threads and gateways carry audio between the graph and the network (RTP),
    PulseAudio, ALSA and browsers; a monitor counts what happens.  This library
    models these parts from their Rust sources under [src/crates/] and proves
    what makes each of them correct.

    ** Conventions

    A [w]-bit integer is a [Z] with its range as a predicate and wrap-around
    written out ([wrap], [to_signed], saturating operations); an [f32] is its
    bit pattern with the IEEE-754 operations of {!F32}; bytes are [list Z];
    strings are lists of Unicode scalar values ({!RString}).  Fallible code
    returns [result]; code that can panic or run out of fuel returns an
    [option] or a value of its own.  An I/O failure is an input of the
    operation: which stages of a database transaction fail, whether a socket
    accepts a write, what a socket delivers.  Concurrency is a list of turns or
    a step relation, with one step per access of shared state where code locks it
    several times (requests, the rebuild thread, calls of the distributed engine).  Code of other packages ([rtrb], [audio_core_bsd],
    [audio_graph_bsd], [redb], [bincode], [openraft], [tokio]) enters as type
    classes of operations with the documented laws, each with an instance that
    shows the laws can hold; client theorems are proved against the classes.

    ** Files and the code they model

    - this file: results, machine integers, byte orders, loops that write
      arrays, planar layouts, tactics and the hint database [sonic];
    - {!F32}, {!RString}: the floats and strings of the standard library;
    - {!External}: [rtrb] rings, planar frames, [redb] tables, encodings;
    - {!RtpCodec}: [net-rtp-aes67/src/codec.rs], the RTP header and packet, L16
      and L24 payloads of [lib.rs];
    - {!Jitter}: [jitter.rs], the reorder buffer on 16-bit sequence numbers;
    - {!RtpTransport}: [transport.rs] and [worker.rs], sender and receiver
      threads composed of the two before;
    - {!Topology}: snapshots and mutations, the class of [audio_graph_bsd];
    - {!SessionStore}: [session-store/src/lib.rs], the write-ahead log engine
      and the [SessionStore] interface as a class;
    - {!ControlApi}: [control-api/src/lib.rs], the controller, its registries,
      presets and HTTP handlers, over any [SessionStore];
    - {!PulseTags}, {!PulseDaemon}, {!PulseDiscovery}: [gw-pulse/src/codec.rs],
      [tags.rs] and [daemon.rs], the tagstruct codec, the PulseAudio client and
      how it finds its daemon;
    - {!AlsaGw}: [gw-alsa/src/format.rs] and [params.rs], negotiation;
    - {!RaftStateMachine}, {!RaftLogStore}: [session-store/src/
      raft_state_machine.rs] and [raft_log_store.rs], the storage under openraft;
    - {!Monitor}: [monitor/src/lib.rs], and [parse_metrics_summary] of
      [sonicbrew/src/main.rs];
    - {!AudioEngine}: [audio-engine/src/lib.rs], graph building and hot swapping;
    - {!AudioNodes}, {!FileLoad}: [audio-engine/src/nodes/delay.rs] and
      [file_source.rs], the player and how a file is loaded into it;
    - {!BrowserGw}: [gw-browser/src/codec.rs], [server.rs] and [lib.rs], and
      [audio-engine/src/bridge.rs], the rings a gateway keeps across rebuilds;
    - {!AlsaPlugin}: [gw-alsa-plugin/src/bridge.rs] and [lib.rs], the plugin's
      socket protocol and its libasound callbacks;
    - {!PlanarNodes}, {!EffectNodes}, {!RoutingNodes}, {!LfoNodes},
      {!SourceNodes}: the other nodes of [audio-engine/src/nodes/] and
      [builtins.rs]; the loop the channel-wise effects share is a class;
    - {!Render}: the parameters of [control-api] and [render_node] of
      [sonicbrew/src/main.rs], from parameters to nodes;
    - {!Server}: the command line, seeding, the node factory and the autosave
      thread of [sonicbrew/src/main.rs];
    - {!Netmap}: [net-rtp-aes67/src/transport/netmap_layout.rs] and
      [netmap_backend.rs], the memory shared with the kernel;
    - {!Distributed}: [session-store/src/distributed.rs], [raft_network.rs] and
      the cluster's bootstrap, over an abstract consensus core;
    - {!Ephemeral}: the stores in temporary files of [session-store/src/lib.rs], who
      holds them, and the end of the rebuild thread of [audio-engine/src/lib.rs];
    - {!Rest}: the routes of [control-api], every handler and whole sessions;
    - {!Requests}: the same handlers as programs of single accesses, so that requests
      can overlap; run alone they are the handlers of {!Rest};
    - {!Live}: the running server, overlapping requests, the rebuild thread and the
      audio thread on one store ([run_server_engine] of [sonicbrew/src/main.rs]);
    - {!Gateways}: [gw-alsa/src/lib.rs], [gw-pulse/src/lib.rs], the graph nodes
      of [net-rtp-aes67/src/lib.rs], and [sonicbrew/src/bt_input.rs];
    - {!Diagnose}: [sonicbrew/src/diagnose.rs], the diagnostic screen;
    - {!SelfTest}, {!Reload}, {!EngineCheck}, {!GatewayCheck}: the metrics endpoint
      of [monitor] and the self-tests of [sonicbrew/src/main.rs]; the last two
      run against every schedule of the rebuild thread.

    The dependencies follow the program: {!Live} composes {!Server}, {!Requests},
    {!ControlApi}, {!SessionStore} and {!AudioEngine}; {!RtpTransport} composes
    {!RtpCodec} and {!Jitter}, and {!Netmap} carries its packets; {!Distributed}
    implements the store's interface on {!RaftStateMachine}; {!Diagnose} runs the
    nodes of {!EffectNodes} and {!RoutingNodes}; {!EngineCheck} drives the engine of
    {!AudioEngine}, and {!GatewayCheck} also the bridge of {!BrowserGw}.

    ** What the theorems show

    - Network audio: packets round-trip and exactly the well-formed ones parse;
      samples survive L16 and L24 up to the stated quantisation; the jitter
      buffer delivers every accepted packet once and in sequence order across
      the 16-bit wrap; draining terminates and empties it; the receive thread
      refines a loop that forwards what is not behind; sender and receiver
      composed deliver every block in order; a packet staged in a netmap ring
      is the packet the other side takes out.
    - Topology: the log restores the state after any failures; API calls made one
      after the other keep ids distinct and registries confined to installed nodes,
      imports included, and, as long as imported presets describe graphs, links attached and
      parameters of their kinds; sessions without imports have their exact effect; exporting and
      importing a preset restores the graph; a saved preset file is never torn.
    - Replication: the state machine is the fold of its log and snapshots bring
      replicas together; the log store refines a list of entries, a vote and a committed
      pointer; the clients of a cluster node see one log, in epochs that installed snapshots
      begin, and its subscribers hear of the accepted writes in the order they return.  A
      temporary store lives as long as its rebuild thread, which ends only in a panic or with the process.
    - Engine: graphs are built exactly as the topology says, and the live graph
      catches up with the topology under every interleaving, in the engine and
      in the running server; there each node is rendered from what the registries held
      after the last change of the topology, unless parameters were recorded that cannot be allocated,
      which ends the rebuild thread.
    - Nodes: the delay line is the echo recurrence, the file player plays its
      buffer, every channel-wise effect is one stream per channel whatever the
      block boundaries, no constructed effect panics, the limiter bounds its output, and
      a meter loses no peak to a concurrent reader.
    - Gateways: exactly the readable tagstructs round-trip and reading is memory-safe; requests find
      their replies; negotiation returns the best admitted configuration, and where it
      returns one that is not admitted none is; the browser
      server delivers frames in order across rebuilds; the ALSA plugin accepts
      exactly the configurations in range and its audio round-trips; Bluetooth
      input is an ordered queue that loses frames only to a full ring.
    - Monitoring and self-tests: the metrics window and the lock-free counter
      are right under every schedule, a scrape and the self-test read the
      exported text back, the reload checks measure exactly one half, the checks
      that race the rebuild thread succeed or fail for the stated reasons on every
      schedule, and the diagnostic capture stays under the limiter.
    - Some theorems record behaviour that is not what the code or its comments
      intend: re-encoding a packet with CSRCs, overlapping creations of nodes,
      a rebuild between a node's creation and the writing of its parameters, links made while
      their node is deleted, delays too long to allocate, dangling links in presets, the committed pointer of the log store,
      inverted buffer ranges, strings with embedded NULs, events out of log order, the latency summary, the waveform's width, the
      channels of a file decoded in several frames, schedules on which a
      self-test fails though the rebuild worked, temporary stores that a rebuild
      thread never lets go.

    ** Fuel and bounds

    [RtpTransport.drain_jitter] and its inner loop run with one more step than
    packets buffered, and every round removes one; [PulseTags.read_proplist]
    runs with one more step than bytes left, and every round consumes one: both
    are proved to be enough.  [FileLoad.load_file_source] is proved to return with
    more steps than the stream has frames.  [Diagnose.waveform_line] runs with one more step
    than samples, which is proved to be enough for the unit step the screen uses.
    [RString.dec] prints up to twenty digits, the length of a 64-bit number, and
    is proved to be read back.  [PulseDaemon.await_reply] takes the number of
    frames read before the deadline.  A schedule of {!EngineCheck} or {!GatewayCheck}
    lists the polls made before the deadline; 17 and 35 turns of the rebuild thread are
    proved to be enough for the first graph.  [Live.live_backlog] bounds the turns after
    which the rebuild thread of {!Live} has caught up.  All other recursion is structural.

    ** What is not modelled

    Code outside the repository: the graph, ring, database, consensus and HTTP
    libraries, the kernel and libasound.  Inside it: the asynchronous glue
    (binding sockets, spawning tasks, signals), terminal drawing, logging, the
    JSON text of presets, which is serde's, and timing: a clock's readings are
    inputs.  A vector too long for its byte count panics ([F32.vec_fits]); running out of
    memory below that, which aborts the process, is not modelled, and neither are poisoned locks. *)

From Stdlib Require Export ZArith Lia.
From stdpp Require Export base numbers option list.

#[export] Set Default Goal Selector "!".
Open Scope Z_scope.

(** ** Results of fallible code: Rust's [Result<T, E>] *)

Inductive result (A E : Type) : Type :=
| Ok (a : A)
| Err (e : E).
Arguments Ok {A E} a.
Arguments Err {A E} e.

#[export] Instance result_eq_dec {A E} `{EqDecision A, EqDecision E} :
  EqDecision (result A E).
Proof. solve_decision. Defined.

Definition rbind {A B E} (m : result A E) (k : A -> result B E) : result B E :=
  match m with Ok a => k a | Err e => Err e end.

Definition map_err {A E F} (f : E -> F) (m : result A E) : result A F :=
  match m with Ok a => Ok a | Err e => Err (f e) end.

(** [opt.ok_or(e)]. *)
Definition ok_or {A E} (m : option A) (e : E) : result A E :=
  match m with Some a => Ok a | None => Err e end.

Definition is_ok {A E} (m : result A E) : bool :=
  match m with Ok _ => true | Err _ => false end.

Declare Scope sonic_scope.
Delimit Scope sonic_scope with sonic.

(** The [?] operator. *)
Notation "'let?' x ':=' m 'in' k" := (rbind m (fun x => k))
  (at level 10, x pattern, m at level 100, k at level 200)
  : sonic_scope.
Open Scope sonic_scope.

Lemma rbind_ok {A B E} (m : result A E) (k : A -> result B E) b :
  rbind m k = Ok b <-> exists a, m = Ok a /\ k a = Ok b.
Proof. destruct m; simpl; split; [by eauto|by intros (?&[= <-]&?)|done|by intros (?&?&?)]. Qed.

Lemma rbind_err {A B E} (m : result A E) (k : A -> result B E) e :
  rbind m k = Err e <-> m = Err e \/ exists a, m = Ok a /\ k a = Err e.
Proof.
  destruct m; simpl; split.
  - by eauto.
  - by intros [?|(?&[= <-]&?)].
  - by intros [= <-]; left.
  - by intros [[= <-]|(?&?&?)].
Qed.

(** ** Machine integers

    A [w]-bit unsigned integer is a [Z] in [0, 2^w); the operations that wrap
    or saturate in the source do so explicitly here. *)

Definition uint (w : Z) (z : Z) : Prop := 0 <= z < 2 ^ w.
Abbreviation u8 := (uint 8).
Abbreviation u16 := (uint 16).
Abbreviation u32 := (uint 32).
Abbreviation u64 := (uint 64).

Definition sint (w : Z) (z : Z) : Prop := - 2 ^ (w - 1) <= z < 2 ^ (w - 1).

#[export] Instance uint_dec w z : Decision (uint w z).
Proof. unfold uint. apply _. Defined.
#[export] Instance sint_dec w z : Decision (sint w z).
Proof. unfold sint. apply _. Defined.

Definition wrap (w z : Z) : Z := z mod 2 ^ w.
(** [as i<w>]: reinterpretation of the low [w] bits as two's complement. *)
Definition to_signed (w z : Z) : Z :=
  let r := z mod 2 ^ w in if r <? 2 ^ (w - 1) then r else r - 2 ^ w.
Definition usize_max : Z := 2 ^ 64 - 1.
Definition u32_max : Z := 2 ^ 32 - 1.
Definition sat_add (w a b : Z) : Z := Z.min (a + b) (2 ^ w - 1).
Definition sat_mul (w a b : Z) : Z := Z.min (a * b) (2 ^ w - 1).
Definition sat_sub (a b : Z) : Z := Z.max 0 (a - b).

Lemma wrap_uint w z : 0 <= w -> uint w (wrap w z).
Proof. intros. unfold uint, wrap. apply Z.mod_pos_bound. lia. Qed.

Lemma wrap_id w z : uint w z -> wrap w z = z.
Proof. unfold uint, wrap. apply Z.mod_small. Qed.

Lemma to_signed_sint w z : 0 < w -> sint w (to_signed w z).
Proof.
  intros Hw. unfold sint, to_signed.
  pose proof (Z.mod_pos_bound z (2 ^ w) ltac:(lia)).
  assert (2 ^ w = 2 * 2 ^ (w - 1)) by (rewrite <- Z.pow_succ_r by lia; f_equal; lia).
  destruct (Z.ltb_spec (z mod 2 ^ w) (2 ^ (w - 1))); lia.
Qed.

Lemma to_signed_id w z : 0 < w -> sint w z -> to_signed w z = z.
Proof.
  unfold sint, to_signed. intros Hw Hz.
  assert (2 ^ w = 2 * 2 ^ (w - 1)) by (rewrite <- Z.pow_succ_r by lia; f_equal; lia).
  destruct (Z_lt_le_dec z 0).
  - replace (z mod 2 ^ w) with (z + 2 ^ w)
      by (apply (Z.mod_unique_pos _ _ (-1)); lia).
    destruct (Z.ltb_spec (z + 2 ^ w) (2 ^ (w - 1))); lia.
  - rewrite Z.mod_small by lia.
    destruct (Z.ltb_spec z (2 ^ (w - 1))); lia.
Qed.

Lemma to_signed_wrap w z : 0 <= w -> to_signed w (wrap w z) = to_signed w z.
Proof. intros. unfold to_signed, wrap. by rewrite Zmod_mod. Qed.

(** ** Byte strings *)

Abbreviation bytes := (list Z).
Definition byte_list (l : bytes) : Prop := Forall u8 l.

#[export] Instance byte_list_dec l : Decision (byte_list l).
Proof. unfold byte_list. apply _. Defined.

(** [to_le_bytes] and [from_le_bytes] at any width. *)
Fixpoint le_bytes (n : nat) (v : Z) : bytes :=
  match n with
  | O => []
  | S n => v mod 256 :: le_bytes n (v / 256)
  end.

Fixpoint of_le (l : bytes) : Z :=
  match l with
  | [] => 0
  | b :: l => b + 256 * of_le l
  end.

(** [to_be_bytes] and [from_be_bytes]. *)
Definition be_bytes (n : nat) (v : Z) : bytes := rev (le_bytes n v).
Definition of_be (l : bytes) : Z := of_le (rev l).

Lemma length_le_bytes n v : length (le_bytes n v) = n.
Proof. revert v. induction n; intros; simpl; auto. Qed.

Lemma length_be_bytes n v : length (be_bytes n v) = n.
Proof. unfold be_bytes. by rewrite length_rev, length_le_bytes. Qed.

Lemma le_bytes_u8 n v : byte_list (le_bytes n v).
Proof.
  revert v. induction n; intros; simpl; constructor; [|apply IHn].
  apply (wrap_uint 8). lia.
Qed.

Lemma be_bytes_u8 n v : byte_list (be_bytes n v).
Proof. unfold be_bytes, byte_list. apply Forall_rev, le_bytes_u8. Qed.

Lemma of_le_le_bytes n v : of_le (le_bytes n v) = v mod 256 ^ Z.of_nat n.
Proof.
  revert v. induction n as [|n IH]; intros v; [by rewrite Zmod_1_r|].
  cbn [le_bytes of_le]. rewrite IH, Nat2Z.inj_succ, Z.pow_succ_r by lia.
  rewrite Z.rem_mul_r; lia.
Qed.

Lemma of_be_be_bytes n v :
  0 <= v < 256 ^ Z.of_nat n -> of_be (be_bytes n v) = v.
Proof.
  intros. unfold of_be, be_bytes. rewrite rev_involutive, of_le_le_bytes.
  by apply Z.mod_small.
Qed.

Lemma of_le_le_bytes_id n v :
  0 <= v < 256 ^ Z.of_nat n -> of_le (le_bytes n v) = v.
Proof. intros. rewrite of_le_le_bytes. by apply Z.mod_small. Qed.

Lemma of_le_range l : byte_list l -> 0 <= of_le l < 256 ^ Z.of_nat (length l).
Proof.
  induction 1 as [|b l Hb _ IH]; [done|].
  cbn [of_le length]. rewrite Nat2Z.inj_succ, Z.pow_succ_r by lia.
  unfold uint in Hb. lia.
Qed.

Lemma of_be_range l : byte_list l -> 0 <= of_be l < 256 ^ Z.of_nat (length l).
Proof.
  intros. unfold of_be. rewrite <- length_rev.
  apply of_le_range. unfold byte_list. by apply Forall_rev.
Qed.

Lemma le_bytes_of_le l : byte_list l -> le_bytes (length l) (of_le l) = l.
Proof.
  induction 1 as [|b l Hb _ IH]; [done|].
  cbn [of_le length le_bytes]. unfold uint in Hb.
  f_equal.
  - rewrite (Z.mul_comm 256), Z_mod_plus_full. by apply Z.mod_small.
  - rewrite (Z.mul_comm 256), Z_div_plus_full by lia.
    by rewrite Z.div_small, Z.add_0_l by lia.
Qed.

Lemma be_bytes_of_be l : byte_list l -> be_bytes (length l) (of_be l) = l.
Proof.
  intros. unfold be_bytes, of_be. rewrite <- length_rev, le_bytes_of_le.
  - apply rev_involutive.
  - unfold byte_list. by apply Forall_rev.
Qed.

Lemma be2_shape v : exists a b, be_bytes 2 v = [a; b].
Proof. by do 2 eexists. Qed.
Lemma be4_shape v : exists a b c d, be_bytes 4 v = [a; b; c; d].
Proof. by do 4 eexists. Qed.

(** [from_be_bytes] on an explicit array. *)
Definition get (l : bytes) (i : nat) : Z := nth i l 0.

Lemma get_u8 l i : byte_list l -> u8 (get l i).
Proof.
  intros H. unfold get. revert i. induction H; intros [|i]; simpl; auto; unfold uint; lia.
Qed.

(** ** Automation *)

Create HintDb sonic.
#[export] Hint Resolve length_le_bytes length_be_bytes le_bytes_u8 be_bytes_u8
  get_u8 wrap_uint to_signed_sint : sonic.

(** Case analysis on every boolean guard of the goal or the hypotheses. *)
Ltac guards :=
  repeat match goal with
  | |- context [Z.ltb ?a ?b] => destruct (Z.ltb_spec a b)
  | |- context [Z.leb ?a ?b] => destruct (Z.leb_spec a b)
  | |- context [Z.eqb ?a ?b] => destruct (Z.eqb_spec a b)
  | |- context [Nat.ltb ?a ?b] => destruct (Nat.ltb_spec a b)
  | |- context [Nat.leb ?a ?b] => destruct (Nat.leb_spec a b)
  | |- context [Nat.eqb ?a ?b] => destruct (Nat.eqb_spec a b)
  end.

(** [byte_list] of an explicit list whose elements are known bytes. *)
Ltac bytes_ok := unfold byte_list; repeat (apply Forall_cons_2; [done|]); apply Forall_nil_2.

Ltac guards_in H :=
  repeat match type of H with
  | context [Z.ltb ?a ?b] => destruct (Z.ltb_spec a b)
  | context [Z.leb ?a ?b] => destruct (Z.leb_spec a b)
  | context [Z.eqb ?a ?b] => destruct (Z.eqb_spec a b)
  | context [Nat.ltb ?a ?b] => destruct (Nat.ltb_spec a b)
  | context [Nat.leb ?a ?b] => destruct (Nat.leb_spec a b)
  | context [Nat.eqb ?a ?b] => destruct (Nat.eqb_spec a b)
  end.

(** ** Bit operations as arithmetic *)

Lemma land_mask w z : 0 <= w -> Z.land z (2 ^ w - 1) = z mod 2 ^ w.
Proof. intros. rewrite <- Z.land_ones by done. by rewrite Z.ones_equiv, Z.sub_1_r. Qed.

Lemma land_pow2 a n : 0 <= n -> Z.land a (2 ^ n) = if Z.testbit a n then 2 ^ n else 0.
Proof.
  intros Hn. apply Z.bits_inj'. intros i Hi. rewrite Z.land_spec.
  destruct (Z.eq_dec n i) as [->|Hne].
  - rewrite Z.pow2_bits_true by lia. destruct (Z.testbit a i); simpl; rewrite ?Z.bits_0;
      rewrite ?Z.pow2_bits_true by lia; done.
  - rewrite Z.pow2_bits_false, andb_false_r by done.
    destruct (Z.testbit a n); rewrite ?Z.bits_0, ?Z.pow2_bits_false by done; done.
Qed.

(** Or-ing a value below [2^n] under a shifted one is addition. *)
Lemma lor_shiftl_add n a b :
  0 <= n -> 0 <= a < 2 ^ n -> Z.lor (Z.shiftl b n) a = b * 2 ^ n + a.
Proof.
  intros Hn Ha. rewrite <- Z.shiftl_mul_pow2 by done. symmetry.
  apply Z.add_nocarry_lor, Z.bits_inj'. intros i Hi.
  rewrite Z.land_spec, Z.bits_0.
  destruct (Z_lt_le_dec i n).
  - by rewrite Z.shiftl_spec_low.
  - replace a with (a mod 2 ^ n) by (by apply Z.mod_small).
    rewrite Z.mod_pow2_bits_high by lia. apply andb_false_r.
Qed.

(** ** Maxima *)

Lemma foldl_max_ge (l : list Z) i : i <= foldl Z.max i l /\ forall j, j ∈ l -> j <= foldl Z.max i l.
Proof.
  revert i. induction l as [|x l IH]; intros i; cbn.
  - split; [lia|]. by intros j ?%elem_of_nil.
  - destruct (IH (Z.max i x)) as [Hge Hall]. split; [lia|].
    intros j [->|Hj]%elem_of_cons; [lia|by apply Hall].
Qed.

(** Loops with the same bodies on the elements they visit. *)
Lemma foldl_ext_in {A B} (f g : A -> B -> A) (l : list B) (a : A) :
  (forall a b, b ∈ l -> f a b = g a b) -> foldl f a l = foldl g a l.
Proof.
  revert a. induction l as [|b l IH]; intros a Hfg; [done|]. cbn.
  rewrite Hfg by left. apply IH. intros. apply Hfg. by right.
Qed.

(** ** Loops that write an array

    [for p in l { out[f(p)] = g(p) }]. *)

Section fill.
Context {A B : Type} (f : A -> nat) (g : A -> B).

Definition fill (l : list A) (out : list B) : list B :=
  foldl (fun out p => <[f p := g p]> out) out l.

Lemma fill_cons p l out : fill (p :: l) out = fill l (<[f p := g p]> out).
Proof. done. Qed.

Lemma length_fill l out : length (fill l out) = length out.
Proof.
  revert out. induction l; intros out; [done|]. rewrite fill_cons, IHl. apply length_insert.
Qed.

Lemma fill_other l out j : j ∉ (f <$> l) -> fill l out !! j = out !! j.
Proof.
  revert out. induction l as [|p l IH]; intros out Hj; [done|].
  rewrite fmap_cons, not_elem_of_cons in Hj. destruct Hj as [Hp Hj].
  by rewrite fill_cons, IH, list_lookup_insert_ne by done.
Qed.

Lemma fill_lookup l out p :
  NoDup (f <$> l) -> p ∈ l -> (f p < length out)%nat -> fill l out !! f p = Some (g p).
Proof.
  revert out. induction l as [|q l IH]; intros out Hnd Hp Hlt; [by apply elem_of_nil in Hp|].
  rewrite fmap_cons, NoDup_cons in Hnd. destruct Hnd as [Hq Hnd].
  rewrite fill_cons. rewrite elem_of_cons in Hp.
  destruct Hp as [->|Hp].
  - rewrite fill_other by done. by apply list_lookup_insert_eq.
  - apply IH; [done..|]. by rewrite length_insert.
Qed.
End fill.

(** The index pairs of [for i in 0..n { for c in 0..m { .. } }], in order. *)
Definition pairs (n m : nat) : list (nat * nat) :=
  i ← seq 0 n; (fun c => (i, c)) <$> seq 0 m.

Lemma elem_of_pairs n m i c : (i, c) ∈ pairs n m <-> (i < n /\ c < m)%nat.
Proof.
  unfold pairs. rewrite list_elem_of_bind. setoid_rewrite list_elem_of_fmap.
  setoid_rewrite elem_of_seq. split.
  - intros (? & (? & [= -> ->] & ?) & ?). lia.
  - intros. exists i. split; [exists c; split; [done|lia]|lia].
Qed.

(** Concatenations of blocks of one length [w]. *)
Section blocks.
Context {A B : Type} (f : A -> list B) (w : nat).
Hypothesis Hw : forall a, length (f a) = w.

Lemma length_bind_const l : length (l ≫= f) = (length l * w)%nat.
Proof. induction l as [|a l IH]; [done|]. cbn. by rewrite length_app, Hw, <- IH. Qed.

Lemma bind_block l k x :
  l !! k = Some x -> take w (drop (k * w) (l ≫= f)) = f x.
Proof.
  revert k. induction l as [|a l IH]; intros [|k] Hk; [done..| |].
  - injection Hk as ->. rewrite Nat.mul_0_l, drop_0, bind_cons, take_app_le by (by rewrite Hw).
    apply take_ge. by rewrite Hw.
  - rewrite bind_cons, drop_app_ge by (rewrite Hw; lia). rewrite Hw.
    replace (S k * w - w)%nat with (k * w)%nat by lia. by apply IH.
Qed.

Lemma bind_lookup l k x c :
  l !! k = Some x -> (c < w)%nat -> (l ≫= f) !! (k * w + c)%nat = f x !! c.
Proof.
  intros Hk Hc. rewrite <- (bind_block l k x Hk).
  rewrite lookup_take_lt by done. by rewrite lookup_drop.
Qed.
End blocks.

Lemma length_pairs n m : length (pairs n m) = (n * m)%nat.
Proof.
  unfold pairs. rewrite (length_bind_const _ m); [by rewrite length_seq|].
  intros. by rewrite length_fmap, length_seq.
Qed.

Lemma pairs_lookup n m i c :
  (i < n)%nat -> (c < m)%nat -> pairs n m !! (i * m + c)%nat = Some (i, c).
Proof.
  intros Hi Hc. unfold pairs. rewrite (bind_lookup _ m) with (x := i); [| |by apply lookup_seq_lt|done].
  - by rewrite list_lookup_fmap, lookup_seq_lt.
  - intros. by rewrite length_fmap, length_seq.
Qed.

Lemma NoDup_pairs n m : NoDup (pairs n m).
Proof.
  apply NoDup_bind.
  - intros ? ? [? ?] _ _ H1 H2. rewrite list_elem_of_fmap in H1, H2.
    by destruct H1 as (? & [= <- <-] & _), H2 as (? & [= <- <-] & _).
  - intros. apply NoDup_fmap_2; [by intros ? ? [=]|]. apply NoDup_seq.
  - apply NoDup_seq.
Qed.

(** Planar positions are distinct. *)
Lemma NoDup_planar n m : NoDup ((fun '(i, c) => (c * n + i)%nat) <$> pairs n m).
Proof.
  apply NoDup_fmap_2_strong; [|apply NoDup_pairs].
  intros [i c] [i' c'] H1 H2 Heq. rewrite elem_of_pairs in H1, H2.
  assert (c = c') as -> by nia. f_equal. lia.
Qed.

(** Every position below [n * m] is a planar position. *)
Lemma planar_split n m j :
  (j < n * m)%nat -> exists i c, (i < n)%nat /\ (c < m)%nat /\ j = (c * n + i)%nat.
Proof.
  intros Hj. exists (j mod n)%nat, (j / n)%nat.
  assert (n <> 0)%nat by lia.
  pose proof (Nat.mod_upper_bound j n). pose proof (Nat.div_mod j n).
  split; [lia|]. split; [apply Nat.Div0.div_lt_upper_bound; lia|lia].
Qed.

(** [slice.chunks_exact(n)]: the whole blocks of [n], in order. *)
Definition chunks_exact {A} (n : nat) (l : list A) : list (list A) :=
  (fun k => take n (drop (k * n) l)) <$> seq 0 (length l / n).

Lemma chunks_exact_bind {A B} (f : A -> list B) w l :
  (0 < w)%nat -> (forall a, length (f a) = w) -> chunks_exact w (l ≫= f) = f <$> l.
Proof.
  intros Hw Hf. unfold chunks_exact. rewrite (length_bind_const f w Hf), Nat.div_mul by lia.
  apply list_eq. intros k. rewrite !list_lookup_fmap.
  destruct (l !! k) as [x|] eqn:Hk.
  - pose proof (lookup_lt_Some _ _ _ Hk). rewrite lookup_seq_lt by done. cbn.
    by rewrite (bind_block f w Hf l k x).
  - rewrite lookup_seq_ge; [done|]. by apply lookup_ge_None.
Qed.

Lemma chunks_exact_cons {A} (n : nat) (b l : list A) :
  (0 < n)%nat -> length b = n -> chunks_exact n (b ++ l) = b :: chunks_exact n l.
Proof.
  intros Hn Hb. unfold chunks_exact. rewrite length_app, Hb.
  replace (n + length l)%nat with (1 * n + length l)%nat by lia.
  rewrite Nat.div_add_l by lia. cbn [seq fmap list_fmap Nat.add]. f_equal.
  - rewrite Nat.mul_0_l, drop_0, take_app_le by lia. apply take_ge. lia.
  - rewrite <- fmap_S_seq, <- list_fmap_compose. apply list_fmap_ext. intros i k _. cbn.
    rewrite drop_app_ge by lia. do 2 f_equal. lia.
Qed.

(** Whole blocks put back together. *)
Lemma join_chunks_exact {A} (n : nat) (l : list A) :
  (0 < n)%nat -> (length l mod n = 0)%nat -> mjoin (chunks_exact n l) = l.
Proof.
  intros Hn Hl. remember (length l / n)%nat as q eqn:Hq.
  assert (length l = q * n)%nat as Hlen by (pose proof (Nat.div_mod (length l) n); lia).
  clear Hq Hl. revert l Hlen. induction q as [|q IH]; intros l Hlen.
  - destruct l; [|simpl in Hlen; lia]. unfold chunks_exact. by rewrite Nat.Div0.div_0_l.
  - rewrite <- (take_drop n l) at 1. rewrite chunks_exact_cons.
    + cbn. rewrite IH; [apply take_drop|]. rewrite length_drop. lia.
    + done.
    + rewrite length_take. lia.
Qed.

Lemma chunks_exact_length {A} (n : nat) (l : list A) c :
  (0 < n)%nat -> c ∈ chunks_exact n l -> length c = n.
Proof.
  intros Hn (k & -> & Hk)%list_elem_of_fmap. apply elem_of_seq in Hk.
  rewrite length_take, length_drop.
  assert (length l / n * n <= length l)%nat by (rewrite Nat.mul_comm; apply Nat.Div0.mul_div_le).
  nia.
Qed.
