(* ===== verification/F32.v ===== *)
(** * IEEE-754 binary32

    Rust's [f32] as its 32-bit pattern.  [to_bits]/[from_bits] are therefore
    the identity, and copying a sample never loses a NaN payload; arithmetic
    decodes the pattern into the Standard Library's [spec_float] at precision
    24 and maximal exponent 128, computes there with round to nearest even,
    and encodes the result (a computed NaN is the canonical quiet NaN). *)

From Stdlib Require Import SpecFloat.
From S2P Require Import Prelude.

Definition prec32 : Z := 24.
Definition emax32 : Z := 128.

Module F32.

Abbreviation f32 := Z.

Definition canonical_nan : f32 := 0x7FC00000.

Definition sign_bit (s : bool) : Z := if s then 2 ^ 31 else 0.

Definition decode (b : f32) : spec_float :=
  let s := 2 ^ 31 <=? b in
  let e := (b / 2 ^ 23) mod 256 in
  let m := b mod 2 ^ 23 in
  if e =? 255 then if m =? 0 then S754_infinity s else S754_nan
  else if e =? 0 then
    if m =? 0 then S754_zero s else S754_finite s (Z.to_pos m) (-149)
  else S754_finite s (Z.to_pos (m + 2 ^ 23)) (e - 150).

Definition encode (x : spec_float) : f32 :=
  match x with
  | S754_zero s => sign_bit s
  | S754_infinity s => sign_bit s + 0x7F800000
  | S754_nan => canonical_nan
  | S754_finite s m e =>
      if Z.pos m <? 2 ^ 23 then sign_bit s + Z.pos m
      else sign_bit s + (e + 150) * 2 ^ 23 + (Z.pos m - 2 ^ 23)
  end.

Definition lift2 (f : spec_float -> spec_float -> spec_float) (a b : f32) : f32 :=
  encode (f (decode a) (decode b)).

Definition add := lift2 (SFadd prec32 emax32).
Definition sub := lift2 (SFsub prec32 emax32).
Definition mul := lift2 (SFmul prec32 emax32).
Definition div := lift2 (SFdiv prec32 emax32).
Definition sqrt (a : f32) : f32 := encode (SFsqrt prec32 emax32 (decode a)).

(** [-x] and [x.abs()] act on the sign bit only. *)
Definition neg (a : f32) : f32 := if 2 ^ 31 <=? a then a - 2 ^ 31 else a + 2 ^ 31.
Definition abs (a : f32) : f32 := if 2 ^ 31 <=? a then a - 2 ^ 31 else a.

Definition ltb (a b : f32) : bool := SFltb (decode a) (decode b).
Definition leb (a b : f32) : bool := SFleb (decode a) (decode b).
Definition eqb (a b : f32) : bool := SFeqb (decode a) (decode b).
Definition is_nan (a : f32) : bool := negb (eqb a a).
Definition is_finite (a : f32) : bool :=
  match decode a with S754_zero _ | S754_finite _ _ _ => true | _ => false end.

(** [f32::max]/[f32::min]: the other operand when one is NaN. *)
Definition fmax (a b : f32) : f32 :=
  if is_nan a then b else if is_nan b then a else if ltb a b then b else a.
Definition fmin (a b : f32) : f32 :=
  if is_nan a then b else if is_nan b then a else if ltb b a then b else a.

(** [f32::clamp]: NaN stays NaN. *)
Definition clamp (lo hi x : f32) : f32 :=
  let x := if ltb x lo then lo else x in
  if ltb hi x then hi else x.

(** The assertion in [clamp]: bounds out of order, or NaN, panic. *)
Definition clamp_checked (lo hi x : f32) : option f32 := if leb lo hi then Some (clamp lo hi x) else None.

(** [i as f32] for an integer. *)
Definition of_Z (z : Z) : f32 := encode (binary_normalize prec32 emax32 z 0 false).

(** The magnitude [m * 2^e] rounded to the nearest integer, ties away from
    zero, and rounded towards zero. *)
Definition mag_round (m e : Z) : Z :=
  if 0 <=? e then m * 2 ^ e else (m + 2 ^ (- e - 1)) / 2 ^ (- e).
Definition mag_trunc (m e : Z) : Z :=
  if 0 <=? e then m * 2 ^ e else m / 2 ^ (- e).

(** [f32::round]. *)
Definition round (a : f32) : f32 :=
  match decode a with
  | S754_finite s m e =>
      if 0 <=? e then a
      else encode (binary_normalize prec32 emax32
                     (cond_Zopp s (mag_round (Z.pos m) e)) 0 s)
  | _ => a
  end.

(** [x as i<w>]: truncation towards zero, saturating; NaN becomes 0. *)
Definition to_int (w : Z) (a : f32) : Z :=
  match decode a with
  | S754_nan | S754_zero _ => 0
  | S754_infinity s => if s then - 2 ^ (w - 1) else 2 ^ (w - 1) - 1
  | S754_finite s m e =>
      Z.max (- 2 ^ (w - 1))
        (Z.min (2 ^ (w - 1) - 1) (cond_Zopp s (mag_trunc (Z.pos m) e)))
  end.

(** [x as u<w>]: truncation towards zero, saturating; NaN becomes 0. *)
Definition to_uint (w : Z) (a : f32) : Z :=
  match decode a with
  | S754_nan | S754_zero _ => 0
  | S754_infinity s => if s then 0 else 2 ^ w - 1
  | S754_finite s m e => if s then 0 else Z.min (2 ^ w - 1) (mag_trunc (Z.pos m) e)
  end.

(** [x % y]: the remainder with the sign of [x], which is exact. *)
Definition frem (a b : f32) : f32 :=
  match decode a, decode b with
  | S754_nan, _ | _, S754_nan | S754_infinity _, _ | _, S754_zero _ => canonical_nan
  | S754_zero _, _ | _, S754_infinity _ => a
  | S754_finite s m e, S754_finite _ m' e' =>
      let e0 := Z.min e e' in
      let r := (Z.pos m * 2 ^ (e - e0)) mod (Z.pos m' * 2 ^ (e' - e0)) in
      encode (binary_normalize prec32 emax32 (cond_Zopp s r) e0 s)
  end.

Definition zero : f32 := 0.
Definition one : f32 := 0x3F800000.
Definition neg_one : f32 := 0xBF800000.
Definition half : f32 := 0x3F000000.
Definition two : f32 := 0x40000000.

(** [f32::rem_euclid]: [let r = self % rhs; if r < 0.0 { r + rhs.abs() } else { r }]. *)
Definition rem_euclid (a b : f32) : f32 :=
  let r := frem a b in if ltb r zero then add r (abs b) else r.

(** [f32::signum]: NaN for NaN, otherwise 1 with the sign of the number. *)
Definition signum (a : f32) : f32 :=
  if is_nan a then canonical_nan else if 2 ^ 31 <=? a then neg_one else one.


(** ** Digits and shifts of mantissas *)

Lemma digits2_bounds (p : positive) :
  2 ^ (Z.pos (digits2_pos p) - 1) <= Z.pos p < 2 ^ Z.pos (digits2_pos p).
Proof.
  induction p as [p IH|p IH|]; cbn [digits2_pos]; [| |done];
    rewrite Pos2Z.inj_succ;
    replace (Z.succ (Z.pos (digits2_pos p)) - 1)
      with (Z.succ (Z.pos (digits2_pos p) - 1)) by lia;
    rewrite !Z.pow_succ_r by lia; lia.
Qed.

Lemma digits2_unique (p : positive) d :
  2 ^ (d - 1) <= Z.pos p < 2 ^ d -> Z.pos (digits2_pos p) = d.
Proof.
  intros [H1 H2]. pose proof (digits2_bounds p) as [H3 H4].
  assert (0 <= d) by (destruct (Z_lt_le_dec d 0); [rewrite Z.pow_neg_r in H2; lia|lia]).
  assert (Z.pos (digits2_pos p) - 1 < d)
    by (apply (Z.pow_lt_mono_r_iff 2); lia).
  destruct (Z.eq_dec d 0) as [->|]; [simpl in H2; lia|].
  assert (d - 1 < Z.pos (digits2_pos p))
    by (apply (Z.pow_lt_mono_r_iff 2); lia). lia.
Qed.

Lemma iter_pos_nat {A} (f : A -> A) p x :
  SpecFloat.iter_pos f p x = Nat.iter (Pos.to_nat p) f x.
Proof.
  revert x. induction p as [p IH|p IH|]; intros x; cbn [SpecFloat.iter_pos]; [| |done].
  - rewrite !IH, <- Nat.iter_add, Pos2Nat.inj_xI.
    replace (S (2 * Pos.to_nat p)) with (Pos.to_nat p + Pos.to_nat p + 1)%nat by lia.
    by rewrite (Nat.iter_add (_ + _) 1).
  - rewrite !IH, <- Nat.iter_add, Pos2Nat.inj_xO. f_equal. lia.
Qed.

Lemma shr_1_spec m r s :
  0 <= m ->
  shr_1 {| shr_m := m; shr_r := r; shr_s := s |} =
  {| shr_m := m / 2; shr_r := Z.odd m; shr_s := r || s |}.
Proof.
  intros. destruct m as [|[p|p|]|]; try lia; cbn [shr_1]; f_equal;
    try (symmetry; apply Z.div2_div); rewrite <- ?Z.div2_div; done.
Qed.

Lemma shr_iter_spec n m :
  0 <= m ->
  exists r s,
    Nat.iter n shr_1 {| shr_m := m; shr_r := false; shr_s := false |} =
      {| shr_m := m / 2 ^ Z.of_nat n; shr_r := r; shr_s := s |} /\
    (m mod 2 ^ Z.of_nat n = 0 -> r = false /\ s = false).
Proof.
  intros Hm. induction n as [|n IH].
  - exists false, false. by rewrite Z.div_1_r.
  - destruct IH as (r & s & IH & Hex). rewrite Nat.iter_succ, IH.
    rewrite shr_1_spec by (apply Z.div_pos; lia).
    eexists _, _. rewrite Nat2Z.inj_succ, Z.pow_succ_r, (Z.mul_comm 2) by lia.
    split; [by rewrite Z.div_div by lia|].
    rewrite Z.rem_mul_r by lia. intros Hz.
    pose proof (Z.mod_pos_bound m (2 ^ Z.of_nat n) ltac:(lia)).
    pose proof (Z.mod_pos_bound (m / 2 ^ Z.of_nat n) 2 ltac:(lia)).
    destruct Hex as [-> ->]; [nia|]. split; [|done].
    rewrite Zodd_mod. destruct (Z.eqb_spec ((m / 2 ^ Z.of_nat n) mod 2) 1); nia.
Qed.

(** ** Rounding to nearest even

    [binary_round_aux] drops the [k] low bits of the mantissa that binary32
    has no room for, rounds the quotient up by at most one, and
    renormalises. *)

Definition norm32 (s : bool) (n e : Z) : spec_float :=
  if n =? 0 then S754_zero s
  else if n =? 2 ^ 24 then
    if e + 1 <=? 104 then S754_finite s (Z.to_pos (2 ^ 23)) (e + 1) else S754_infinity s
  else if e <=? 104 then S754_finite s (Z.to_pos n) e else S754_infinity s.

Lemma shr_fexp_exact m e (m' := Z.pos m) (k := fexp prec32 emax32 (Zdigits2 m' + e) - e) :
  0 <= k ->
  exists r s,
    shr_fexp prec32 emax32 m' e loc_Exact =
      ({| shr_m := m' / 2 ^ k; shr_r := r; shr_s := s |}, e + k) /\
    (m' mod 2 ^ k = 0 -> r = false /\ s = false).
Proof.
  intros Hk. unfold shr_fexp. fold k. cbn [shr_record_of_loc].
  destruct k as [|k|]; [| |lia].
  - exists false, false. simpl. rewrite Z.div_1_r. split; [|done]. f_equal. lia.
  - cbn [shr]. rewrite iter_pos_nat.
    destruct (shr_iter_spec (Pos.to_nat k) m' ltac:(lia)) as (r & s & -> & Hx).
    rewrite positive_nat_Z in Hx |- *. by exists r, s.
Qed.

(** The mantissa before renormalisation: at most 24 bits, and normal unless
    the exponent is the least one. *)
Lemma quotient_bounds m e (k := fexp prec32 emax32 (Zdigits2 (Z.pos m) + e) - e) :
  0 <= k ->
  0 <= Z.pos m / 2 ^ k < 2 ^ 24 /\
  (e + k = -149 \/ -149 < e + k /\ 2 ^ 23 <= Z.pos m / 2 ^ k).
Proof.
  intros Hk. pose proof (digits2_bounds m) as [Hlo Hhi].
  assert (Hke : k = Z.max (Z.pos (digits2_pos m) - 24) (-149 - e))
    by (unfold k, fexp, emin, prec32, emax32; simpl Zdigits2; lia).
  clearbody k. set (d := Z.pos (digits2_pos m)) in *.
  split.
  - split; [apply Z.div_pos; lia|]. apply Z.div_lt_upper_bound; [lia|].
    rewrite <- Z.pow_add_r by lia.
    eapply Z.lt_le_trans; [exact Hhi|]. apply Z.pow_le_mono_r; lia.
  - destruct (Z_le_gt_dec (d - 24) (-149 - e)); [left; lia|].
    right. split; [lia|]. apply Z.div_le_lower_bound; [lia|].
    rewrite <- Z.pow_add_r by lia. replace (k + 23) with (d - 1) by lia. done.
Qed.

Lemma renorm32 s n e :
  0 <= n <= 2 ^ 24 -> -149 <= e -> (e = -149 \/ 2 ^ 23 <= n) ->
  (let '(mrs, e'') := shr_fexp prec32 emax32 n e loc_Exact in
   match shr_m mrs with
   | Z0 => S754_zero s
   | Zpos m => if e'' <=? emax32 - prec32 then S754_finite s m e'' else S754_infinity s
   | _ => S754_nan
   end) = norm32 s n e.
Proof.
  intros Hn He Hc. unfold norm32.
  destruct n as [|p|]; [| |lia].
  { unfold shr_fexp. simpl Zdigits2. unfold fexp, emin, prec32, emax32.
    destruct (Z.max (0 + e - 24) (3 - 128 - 24) - e) eqn:Hk; simpl; try done. lia. }
  destruct (Z.eqb_spec (Z.pos p) (2 ^ 24)) as [Hp|Hp].
  - assert (p = Z.to_pos (2 ^ 24)) as -> by lia. clear Hp Hc Hn.
    unfold shr_fexp, fexp, emin, prec32, emax32.
    change (Zdigits2 (Z.pos (Z.to_pos (2 ^ 24)))) with 25.
    replace (Z.max (25 + e - 24) (3 - 128 - 24) - e) with 1 by lia. done.
  - pose proof (digits2_bounds p) as Hd.
    assert (Z.pos (digits2_pos p) <= 24).
    { assert (Z.pos (digits2_pos p) - 1 < 24); [|lia].
      apply (Z.pow_lt_mono_r_iff 2); lia. }
    assert (Hk : fexp prec32 emax32 (Zdigits2 (Z.pos p) + e) - e = 0).
    { unfold fexp, emin, prec32, emax32. simpl Zdigits2.
      destruct Hc as [->|Hc]; [lia|].
      rewrite (digits2_unique p 24) by (simpl in *; lia). lia. }
    unfold shr_fexp. rewrite Hk. simpl. done.
Qed.

Lemma binary_round_aux_spec s m e (k := fexp prec32 emax32 (Zdigits2 (Z.pos m) + e) - e) :
  0 <= k ->
  exists n,
    binary_round_aux prec32 emax32 s (Z.pos m) e loc_Exact = norm32 s n (e + k) /\
    Z.pos m / 2 ^ k <= n /\ (n - 1) * 2 ^ k < Z.pos m /\
    0 <= n <= 2 ^ 24 /\ -149 <= e + k /\ (e + k = -149 \/ 2 ^ 23 <= n).
Proof.
  intros Hk. unfold binary_round_aux.
  destruct (shr_fexp_exact m e Hk) as (r & t & -> & Hex). fold k in Hex |- *.
  destruct (quotient_bounds m e Hk) as [Hq Hn]. fold k in Hq, Hn.
  cbn [shr_m]. set (q := Z.pos m / 2 ^ k) in *.
  set (n := round_nearest_even q _).
  assert (Hr : n = q \/ n = q + 1 /\ (r || t) = true).
  { unfold n. destruct r, t; simpl; [auto|destruct (Z.even q)|..]; auto. }
  pose proof (Z.div_mod (Z.pos m) (2 ^ k) ltac:(lia)) as Hdm.
  pose proof (Z.mod_pos_bound (Z.pos m) (2 ^ k) ltac:(lia)) as Hmb.
  assert (Hs : (n - 1) * 2 ^ k < Z.pos m).
  { destruct Hr as [->|[-> Hrt]]; [fold q in Hdm; nia|].
    destruct (Z.eq_dec (Z.pos m mod 2 ^ k) 0) as [Hz|].
    - destruct (Hex Hz) as [-> ->]. done.
    - fold q in Hdm. nia. }
  exists n. split; [apply renorm32; lia|]. lia.
Qed.


(** ** Encoding and decoding *)

Definition valid32 (x : spec_float) : Prop :=
  match x with
  | S754_finite _ m e =>
      -149 <= e <= 104 /\ Z.pos m < 2 ^ 24 /\ (e = -149 \/ 2 ^ 23 <= Z.pos m)
  | _ => True
  end.

Lemma norm32_valid s n e :
  0 <= n <= 2 ^ 24 -> -149 <= e -> (e = -149 \/ 2 ^ 23 <= n) -> valid32 (norm32 s n e).
Proof.
  intros Hn He Hc. unfold norm32. guards; cbn [valid32]; try done; rewrite Z2Pos.id; lia.
Qed.

Lemma decode_split s ex m :
  0 <= ex < 256 -> 0 <= m < 2 ^ 23 ->
  let b := sign_bit s + ex * 2 ^ 23 + m in
  (2 ^ 31 <=? b) = s /\ (b / 2 ^ 23) mod 256 = ex /\ b mod 2 ^ 23 = m.
Proof.
  intros Hx Hm b.
  assert (Hb : b = (sign_bit s / 2 ^ 23 + ex) * 2 ^ 23 + m)
    by (unfold b, sign_bit; destruct s; [change (2 ^ 31 / 2 ^ 23) with 256|change (0 / 2 ^ 23) with 0]; lia).
  split; [|split].
  - destruct (Z.leb_spec (2 ^ 31) b); destruct s; unfold b, sign_bit in *; lia.
  - rewrite Hb, Z.add_comm, Z_div_plus_full by lia.
    rewrite (Z.div_small m) by lia. rewrite Z.add_0_l.
    destruct s; unfold sign_bit.
    + change (2 ^ 31 / 2 ^ 23) with (1 * 256).
      rewrite Z.add_comm, Z_mod_plus_full. by apply Z.mod_small.
    + by apply Z.mod_small.
  - rewrite Hb, Z.add_comm, Z_mod_plus_full. by apply Z.mod_small.
Qed.

Lemma decode_encode x : valid32 x -> decode (encode x) = x.
Proof.
  destruct x as [s|s| |s m e]; simpl; intros Hv; [by destruct s..|done|].
  destruct Hv as (He & Hm & Hn).
  destruct (Z.ltb_spec (Z.pos m) (2 ^ 23)) as [Hlt|Hge].
  - destruct (decode_split s 0 (Z.pos m)) as (Hs & Hx & Hl); [lia..|].
    rewrite Z.mul_0_l, Z.add_0_r in Hs, Hx, Hl.
    unfold decode. rewrite Hs, Hx, Hl. cbn -[Z.pow].
    replace e with (-149) by lia. done.
  - destruct (decode_split s (e + 150) (Z.pos m - 2 ^ 23)) as (Hs & Hx & Hl); [lia..|].
    unfold decode. rewrite Hs, Hx, Hl.
    destruct (Z.eqb_spec (e + 150) 255); [lia|].
    destruct (Z.eqb_spec (e + 150) 0); [lia|].
    f_equal; lia.
Qed.

Lemma decode_valid b : valid32 (decode b).
Proof.
  unfold decode.
  pose proof (Z.mod_pos_bound (b / 2 ^ 23) 256 ltac:(lia)).
  pose proof (Z.mod_pos_bound b (2 ^ 23) ltac:(lia)).
  guards; cbn [valid32]; try done; rewrite Z2Pos.id; lia.
Qed.

(** Every pattern that is not a NaN is recovered from its value. *)
Lemma encode_decode b :
  u32 b -> decode b <> S754_nan -> encode (decode b) = b.
Proof.
  unfold uint, decode. intros Hb Hn.
  pose proof (Z.mod_pos_bound (b / 2 ^ 23) 256 ltac:(lia)) as Hx.
  pose proof (Z.mod_pos_bound b (2 ^ 23) ltac:(lia)) as Hm.
  pose proof (Z.div_mod b (2 ^ 23) ltac:(lia)) as Hd1.
  pose proof (Z.div_mod (b / 2 ^ 23) 256 ltac:(lia)) as Hd2.
  set (s := 2 ^ 31 <=? b) in *.
  assert (Hs : sign_bit s = 2 ^ 31 * (b / 2 ^ 23 / 256)).
  { unfold s. rewrite Z.div_div by lia.
    destruct (Z.leb_spec (2 ^ 31) b).
    - rewrite <- (Z.div_unique b (2 ^ 23 * 256) 1 (b - 2 ^ 31)); unfold sign_bit; lia.
    - rewrite Z.div_small by lia. done. }
  clearbody s. set (x := (b / 2 ^ 23) mod 256) in *. set (m := b mod 2 ^ 23) in *.
  destruct (Z.eqb_spec x 255).
  { destruct (Z.eqb_spec m 0); [|done]. unfold encode. lia. }
  destruct (Z.eqb_spec x 0).
  { destruct (Z.eqb_spec m 0); unfold encode; [lia|].
    rewrite Z2Pos.id by lia. destruct (Z.ltb_spec m (2 ^ 23)); lia. }
  unfold encode. rewrite Z2Pos.id by lia.
  destruct (Z.ltb_spec (m + 2 ^ 23) (2 ^ 23)); lia.
Qed.

Lemma encode_u32 x : valid32 x -> u32 (encode x).
Proof.
  unfold uint. destruct x as [s|s| |s m e]; cbn [valid32 encode]; unfold sign_bit, canonical_nan;
    [destruct s; lia..|lia|].
  intros (? & ? & ?). guards; destruct s; lia.
Qed.

(** ** Magnitudes *)

(** The magnitude of a finite number is at most the integer [M]; NaN is let
    through, infinities are not. *)
Definition mag_le (M : Z) (x : spec_float) : Prop :=
  match x with
  | S754_finite _ m e => e <= 0 /\ Z.pos m <= M * 2 ^ (- e)
  | S754_infinity _ => False
  | _ => True
  end.

Lemma clamp_unit x : mag_le 1 (decode (clamp neg_one one x)).
Proof.
  unfold clamp, ltb.
  set (lo := decode neg_one). set (hi := decode one).
  assert (Hlo : lo = S754_finite true (Z.to_pos (2 ^ 23)) (-23)) by done.
  assert (Hhi : hi = S754_finite false (Z.to_pos (2 ^ 23)) (-23)) by done.
  pose proof (decode_valid x) as Hv.
  destruct (SFltb (decode x) lo) eqn:H1.
  { change (SFltb hi (decode neg_one)) with false. cbn iota. fold lo. by rewrite Hlo. }
  destruct (SFltb hi (decode x)) eqn:H2; [fold hi; by rewrite Hhi|].
  rewrite Hlo in H1. rewrite Hhi in H2.
  destruct (decode x) as [s|s| |s m e]; simpl; [done|by destruct s|done|].
  simpl in Hv. destruct Hv as (He & Hm & Hn).
  assert (e < -23 \/ e = -23 /\ Z.pos m <= 2 ^ 23) as [Hlt|[-> ?]].
  { destruct s; unfold SFltb, SFcompare in H1, H2; clear Hlo Hhi lo hi.
    - destruct (Z.compare_spec e (-23)) as [->|?|?]; [|by left|done].
      right. split; [done|].
      change (PosDef.Pos.compare_cont Eq m (Z.to_pos (2 ^ 23)))
        with (Pos.compare m (Z.to_pos (2 ^ 23))) in H1.
      destruct (Pos.compare_spec m (Z.to_pos (2 ^ 23))); simpl in *; [lia|lia|done].
    - destruct (Z.compare_spec (-23) e) as [<-|?|?]; [|done|by left].
      right. split; [done|].
      change (PosDef.Pos.compare_cont Eq (Z.to_pos (2 ^ 23)) m)
        with (Pos.compare (Z.to_pos (2 ^ 23)) m) in H2.
      destruct (Pos.compare_spec (Z.to_pos (2 ^ 23)) m); simpl in *; [lia|done|lia]. }
  - split; [lia|]. rewrite Z.mul_1_l.
    assert (2 ^ 24 <= 2 ^ (- e)) by (apply Z.pow_le_mono_r; lia). lia.
  - simpl. lia.
Qed.


Lemma norm32_mag M s n e :
  0 <= n <= 2 ^ 24 -> -149 <= e -> (e = -149 \/ 2 ^ 23 <= n) ->
  M <= 2 ^ 23 - 1 -> e <= 0 -> n <= M * 2 ^ (- e) -> mag_le M (norm32 s n e).
Proof.
  intros Hn He Hc HM He0 Hle. unfold norm32.
  destruct (Z.eqb_spec n 0); [done|].
  destruct (Z.eqb_spec n (2 ^ 24)) as [->|].
  - destruct (Z.leb_spec (e + 1) 104); [|lia].
    assert (e <> 0) by (intros ->; lia). cbn [mag_le]. split; [lia|].
    replace (- e) with (Z.succ (- (e + 1))) in Hle by lia.
    rewrite Z.pow_succ_r in Hle by lia. change (Z.pos (Z.to_pos (2 ^ 23))) with (2 ^ 23). lia.
  - destruct (Z.leb_spec e 104); [|lia]. cbn [mag_le]. rewrite Z2Pos.id by lia. done.
Qed.

(** Scaling a sample of magnitude at most 1 by an integer constant [M] below
    [2^23] cannot exceed [M], despite the rounding. *)
Lemma mul_scale M a b ms es :
  0 < M <= 2 ^ 23 - 1 ->
  mag_le 1 (decode a) ->
  decode b = S754_finite false ms es -> es <= 0 -> Z.pos ms = M * 2 ^ (- es) ->
  mag_le M (decode (mul a b)) /\ (decode a <> S754_nan -> decode (mul a b) <> S754_nan).
Proof.
  intros HM Ha Hb Hes Hms. unfold mul, lift2. rewrite Hb.
  pose proof (decode_valid a) as Hva. pose proof (decode_valid b) as Hvb. rewrite Hb in Hvb.
  destruct (decode a) as [s|s| |s m e]; cbn [SFmul].
  1-3: by destruct s || done.
  cbn [mag_le valid32] in Ha, Hva, Hvb.
  set (k := fexp prec32 emax32 (Zdigits2 (Z.pos (m * ms)) + (e + es)) - (e + es)).
  assert (Hk : 0 <= k).
  { unfold k, fexp, emin, prec32, emax32. simpl Zdigits2.
    pose proof (digits2_bounds (m * ms)) as [_ Hd].
    assert (e + es <= -149 \/ 24 <= Z.pos (digits2_pos (m * ms))); [|lia].
    assert (e + es <= -149 \/ 2 ^ 23 <= Z.pos (m * ms)) as [?|?] by nia; [by left|right].
    assert (23 < Z.pos (digits2_pos (m * ms))); [|lia].
    apply (Z.pow_lt_mono_r_iff 2); lia. }
  destruct (binary_round_aux_spec (xorb s false) (m * ms) (e + es) Hk)
    as (n & -> & Hlo & Hhi & Hn & He & Hc). fold k in Hlo, Hhi, He, Hc |- *.
  assert (Hle : Z.pos (m * ms) <= M * 2 ^ (- (e + es))).
  { replace (- (e + es)) with (- e + - es) by lia. rewrite Z.pow_add_r by lia.
    rewrite Pos2Z.inj_mul, Hms. nia. }
  rewrite decode_encode by (by apply norm32_valid).
  assert (HE : e + es + k <= 0).
  { destruct (Z_le_gt_dec (e + es + k) 0); [done|].
    replace k with (- (e + es) + (e + es + k)) in Hhi by lia.
    rewrite Z.pow_add_r in Hhi by lia.
    assert (2 <= 2 ^ (e + es + k)) by (apply (Z.pow_le_mono_r 2 1); lia).
    assert (0 < 2 ^ (- (e + es))) by lia.
    destruct Hc as [?|Hc]; [lia|]. exfalso.
    assert (2 * 2 ^ (- (e + es)) <= 2 ^ (- (e + es)) * 2 ^ (e + es + k)) by nia.
    assert ((n - 1) * (2 * 2 ^ (- (e + es))) <= (n - 1) * (2 ^ (- (e + es)) * 2 ^ (e + es + k)))
      by (apply Z.mul_le_mono_nonneg_l; lia). nia. }
  split; [|intros _; unfold norm32; by guards].
  apply norm32_mag; try done; [lia|].
  assert (HP : M * 2 ^ (- (e + es)) = M * 2 ^ (- (e + es + k)) * 2 ^ k)
    by (rewrite <- Z.mul_assoc, <- Z.pow_add_r by lia; do 2 f_equal; lia).
  rewrite HP in Hle. assert (0 < 2 ^ k) by lia.
  assert ((n - 1) < M * 2 ^ (- (e + es + k))) by nia. lia.
Qed.

(** Integers below [2^24] convert exactly. *)
Lemma binary_normalize_exact s j :
  0 < Z.pos j < 2 ^ 24 ->
  exists m e,
    binary_normalize prec32 emax32 (cond_Zopp s (Z.pos j)) 0 s = S754_finite s m e /\
    e <= 0 /\ Z.pos m = Z.pos j * 2 ^ (- e) /\ valid32 (S754_finite s m e).
Proof.
  intros Hj. pose proof (digits2_bounds j) as Hd.
  set (d := Z.pos (digits2_pos j)) in *.
  assert (Hd24 : d <= 24).
  { assert (d - 1 < 24); [|lia]. apply (Z.pow_lt_mono_r_iff 2); lia. }
  assert (Hb : binary_normalize prec32 emax32 (cond_Zopp s (Z.pos j)) 0 s =
               binary_round prec32 emax32 s j 0) by (by destruct s).
  rewrite Hb. unfold binary_round.
  assert (Hf : fexp prec32 emax32 (Z.pos (digits2_pos j) + 0) = d - 24)
    by (unfold fexp, emin, prec32, emax32; lia).
  rewrite Hf.
  assert (Hal : exists m, shl_align j 0 (d - 24) = (m, d - 24) /\ Z.pos m = Z.pos j * 2 ^ (24 - d)).
  { unfold shl_align. rewrite Z.sub_0_r. destruct (d - 24) as [|p|p] eqn:Hp; [|lia|].
    - exists j. replace (24 - d) with 0 by lia. split; [done|lia].
    - eexists. split; [done|]. replace (24 - d) with (Z.pos p) by lia.
      rewrite <- Pos2Z.inj_pow, <- Pos2Z.inj_mul. f_equal.
      clear. induction p as [|p IH] using Pos.peano_ind; [simpl; lia|].
      rewrite Pos.iter_succ, Pos.pow_succ_r. lia. }
  destruct Hal as (m & -> & Hm).
  assert (Hmr : 2 ^ 23 <= Z.pos m < 2 ^ 24).
  { rewrite Hm. replace 23 with (d - 1 + (24 - d)) by lia.
    rewrite Z.pow_add_r by lia.
    replace (2 ^ 24) with (2 ^ d * 2 ^ (24 - d)) by (rewrite <- Z.pow_add_r by lia; f_equal; lia).
    assert (0 < 2 ^ (24 - d)) by lia. nia. }
  assert (Hk : fexp prec32 emax32 (Zdigits2 (Z.pos m) + (d - 24)) - (d - 24) = 0).
  { simpl Zdigits2. rewrite (digits2_unique m 24) by lia.
    unfold fexp, emin, prec32, emax32. lia. }
  destruct (binary_round_aux_spec s m (d - 24)) as (n & -> & Hlo & Hhi & _); [lia|].
  rewrite Hk in *. rewrite Z.div_1_r in Hlo. assert (n = Z.pos m) as -> by lia.
  unfold norm32.
  destruct (Z.eqb_spec (Z.pos m) (2 ^ 24)); [lia|]. cbn [Z.eqb].
  rewrite Z.add_0_r. destruct (Z.leb_spec (d - 24) 104); [|lia].
  exists m, (d - 24). replace (- (d - 24)) with (24 - d) by lia.
  cbn [valid32]. split; [done|]. lia.
Qed.

(** [x.round() as i<w>] of a number of magnitude at most [M] is an integer of
    magnitude at most [M]. *)
Lemma round_to_int_bound w M a :
  24 < w -> 0 <= M <= 2 ^ 23 - 1 -> mag_le M (decode a) ->
  - M <= to_int w (round a) <= M.
Proof.
  intros Hw HM Ha. unfold round.
  assert (2 ^ 24 <= 2 ^ (w - 1)) by (apply Z.pow_le_mono_r; lia).
  destruct (decode a) as [s|s| |s m e] eqn:Hd; [unfold to_int; rewrite Hd; lia|done|
    unfold to_int; rewrite Hd; lia|].
  cbn [mag_le] in Ha. destruct Ha as [He Hm].
  destruct (Z.leb_spec 0 e) as [Hz|Hz].
  { assert (e = 0) as -> by lia. unfold to_int. rewrite Hd. unfold mag_trunc.
    simpl (0 <=? 0). rewrite Z.mul_1_r in *. destruct s; simpl cond_Zopp; lia. }
  set (j := mag_round (Z.pos m) e).
  assert (Hj : 0 <= j <= M).
  { unfold j, mag_round. destruct (Z.leb_spec 0 e); [lia|].
    assert (2 ^ (- e) = 2 * 2 ^ (- e - 1))
      by (rewrite <- Z.pow_succ_r by lia; f_equal; lia).
    split; [apply Z.div_pos; lia|].
    apply Z.lt_succ_r, Z.div_lt_upper_bound; [lia|]. nia. }
  clearbody j. destruct j as [|j|]; [| |lia].
  - destruct s; simpl; unfold to_int; simpl; lia.
  - destruct (binary_normalize_exact s j ltac:(lia)) as (m' & e' & -> & He' & Hm' & Hv).
    unfold to_int. rewrite decode_encode by done.
    assert (Ht : mag_trunc (Z.pos m') e' = Z.pos j).
    { unfold mag_trunc. destruct (Z.leb_spec 0 e').
      - assert (e' = 0) as -> by lia. simpl in *. lia.
      - rewrite Hm', Z.div_mul by lia. done. }
    rewrite Ht. destruct s; simpl cond_Zopp; lia.
Qed.

(** ** Order *)

(** Non-negative numbers, infinity included, are ordered as their patterns. *)
Definition inf : f32 := 0x7F800000.

Lemma compare_bits a b : 0 <= a <= inf -> 0 <= b <= inf -> SFcompare (decode a) (decode b) = Some (a ?= b).
Proof.
  intros Ha Hb. unfold inf in *.
  assert (Hsplit : forall x, 0 <= x <= 0x7F800000 -> exists ex m, 0 <= ex < 256 /\ 0 <= m < 2 ^ 23 /\
    x = sign_bit false + ex * 2 ^ 23 + m /\ (ex = 255 -> m = 0)).
  { intros x Hx. exists (x / 2 ^ 23), (x mod 2 ^ 23).
    pose proof (Z.div_mod x (2 ^ 23) ltac:(lia)). pose proof (Z.mod_pos_bound x (2 ^ 23) ltac:(lia)).
    unfold sign_bit. lia. }
  destruct (Hsplit a Ha) as (ea & ma & Hea & Hma & -> & Hia), (Hsplit b Hb) as (eb & mb & Heb & Hmb & -> & Hib).
  clear Hsplit.
  assert (Hd : forall ex m, 0 <= ex < 256 -> 0 <= m < 2 ^ 23 ->
    decode (sign_bit false + ex * 2 ^ 23 + m) =
    if ex =? 255 then if m =? 0 then S754_infinity false else S754_nan
    else if ex =? 0 then if m =? 0 then S754_zero false else S754_finite false (Z.to_pos m) (-149)
    else S754_finite false (Z.to_pos (m + 2 ^ 23)) (ex - 150)).
  { intros ex m Hex Hm. destruct (decode_split false ex m Hex Hm) as (Hs & Hx & Hl).
    unfold decode. by rewrite Hs, Hx, Hl. }
  rewrite !Hd by done. clear Hd.
  assert (Hp : forall x y, Pos.compare_cont Eq x y = Pos.compare x y) by done.
  destruct (Z.compare_spec (sign_bit false + ea * 2 ^ 23 + ma) (sign_bit false + eb * 2 ^ 23 + mb)) as [Heq|Hlt|Hgt];
    unfold sign_bit in *;
    destruct (Z.eqb_spec ea 255), (Z.eqb_spec eb 255), (Z.eqb_spec ea 0), (Z.eqb_spec eb 0),
      (Z.eqb_spec ma 0), (Z.eqb_spec mb 0); unfold SFcompare; try done; try lia; rewrite ?Hp;
    match goal with |- context [Z.compare ?x ?y] => destruct (Z.compare_spec x y) end; try done; try lia;
    match goal with |- context [Pos.compare ?x ?y] => destruct (Pos.compare_spec x y) end; try done; lia.
Qed.

Lemma ltb_bits a b : 0 <= a <= inf -> 0 <= b <= inf -> ltb a b = (a <? b).
Proof. intros Ha Hb. unfold ltb, SFltb. rewrite compare_bits by done. unfold Z.ltb. by destruct (a ?= b). Qed.

Lemma leb_bits a b : 0 <= a <= inf -> 0 <= b <= inf -> leb a b = (a <=? b).
Proof. intros Ha Hb. unfold leb, SFleb. rewrite compare_bits by done. unfold Z.leb. by destruct (a ?= b). Qed.

Lemma abs_bits a : u32 a -> 0 <= abs a < 2 ^ 31.
Proof. unfold uint, abs. intros. destruct (Z.leb_spec (2 ^ 31) a); lia. Qed.

(** A pattern is a NaN exactly when its magnitude lies above infinity. *)
Lemma decode_nan a : u32 a -> decode a = S754_nan <-> inf < abs a.
Proof.
  unfold uint, abs, inf, decode. intros Ha.
  pose proof (Z.mod_pos_bound (a / 2 ^ 23) 256 ltac:(lia)). pose proof (Z.mod_pos_bound a (2 ^ 23) ltac:(lia)).
  pose proof (Z.div_mod a (2 ^ 23) ltac:(lia)). pose proof (Z.div_mod (a / 2 ^ 23) 256 ltac:(lia)).
  assert (0 <= a / 2 ^ 23 / 256 <= 1).
  { rewrite Z.div_div by lia. split; [apply Z.div_pos; lia|]. apply Z.lt_succ_r, Z.div_lt_upper_bound; lia. }
  destruct (Z.eqb_spec ((a / 2 ^ 23) mod 256) 255), (Z.eqb_spec (a mod 2 ^ 23) 0),
    (Z.eqb_spec ((a / 2 ^ 23) mod 256) 0), (Z.leb_spec (2 ^ 31) a); split; intros; done || lia.
Qed.

(** ** Multiplying by one *)

Lemma round_unit s m e :
  valid32 (S754_finite s m e) ->
  binary_round_aux prec32 emax32 s (Z.pos (m * Z.to_pos (2 ^ 23))) (e + -23) loc_Exact = S754_finite s m e.
Proof.
  intros (He & Hm & Hn). pose proof (digits2_bounds m) as Hd.
  set (M := (m * Z.to_pos (2 ^ 23))%positive).
  assert (HM : Z.pos M = Z.pos m * 2 ^ 23) by done.
  assert (Hdig : Z.pos (digits2_pos M) = Z.pos (digits2_pos m) + 23).
  { apply digits2_unique. rewrite HM.
    replace (Z.pos (digits2_pos m) + 23 - 1) with (Z.pos (digits2_pos m) - 1 + 23) by lia.
    rewrite !Z.pow_add_r by lia. lia. }
  assert (Hd24 : Z.pos (digits2_pos m) <= 24).
  { assert (Z.pos (digits2_pos m) - 1 < 24); [|lia]. apply (Z.pow_lt_mono_r_iff 2); lia. }
  assert (Hk : fexp prec32 emax32 (Zdigits2 (Z.pos M) + (e + -23)) - (e + -23) = 23).
  { unfold fexp, emin, prec32, emax32. simpl Zdigits2. rewrite Hdig.
    destruct Hn as [->|Hn]; [lia|]. rewrite (digits2_unique m 24) by lia. lia. }
  destruct (binary_round_aux_spec s M (e + -23)) as (n & -> & Hlo & Hhi & _); [lia|].
  rewrite Hk in *. rewrite HM, Z.div_mul in Hlo by lia.
  assert (n = Z.pos m) as -> by lia. unfold norm32.
  destruct (Z.eqb_spec (Z.pos m) (2 ^ 24)); [lia|]. cbn [Z.eqb].
  replace (e + -23 + 23) with e by lia. by destruct (Z.leb_spec e 104); [|lia].
Qed.

Lemma mul_signum a x :
  u32 a -> 0 <= a <= inf -> is_nan x = false ->
  mul a (signum x) = if 2 ^ 31 <=? x then a + 2 ^ 31 else a.
Proof.
  intros Hu Ha Hx. unfold signum. rewrite Hx.
  assert (Hna : decode a <> S754_nan).
  { intros Hn. apply decode_nan in Hn; [|done]. unfold abs, inf in *. destruct (Z.leb_spec (2 ^ 31) a); lia. }
  assert (Hsa : (2 ^ 31 <=? a) = false) by (apply Z.leb_gt; unfold inf in Ha; lia).
  pose proof (encode_decode a Hu Hna) as Hed. pose proof (decode_valid a) as Hv.
  assert (Hs : match decode a with S754_zero s | S754_infinity s | S754_finite s _ _ => s = false | _ => True end).
  { unfold decode. rewrite Hsa. guards; done. }
  destruct (2 ^ 31 <=? x); unfold mul, lift2.
  - change (decode neg_one) with (S754_finite true (Z.to_pos (2 ^ 23)) (-23)).
    destruct (decode a) as [s|s| |s m e]; cbn [SFmul]; try done; subst s; cbn [xorb].
    + rewrite <- Hed. done.
    + rewrite <- Hed. done.
    + pose proof (round_unit true m e Hv) as Hr. rewrite Hr, <- Hed. cbn [encode]. destruct (Z.pos m <? 2 ^ 23); unfold sign_bit; lia.
  - change (decode one) with (S754_finite false (Z.to_pos (2 ^ 23)) (-23)).
    destruct (decode a) as [s|s| |s m e]; cbn [SFmul]; try done; subst s; cbn [xorb]; try exact Hed.
    pose proof (round_unit false m e Hv) as Hr. rewrite Hr. exact Hed.
Qed.

(** [vec![0.0; len]] panics with a capacity overflow when its bytes exceed
    [isize::MAX].  (Running out of memory below that aborts the process.) *)
Definition vec_fits (len : nat) : bool := 4 * Z.of_nat len <=? 2 ^ 63 - 1.

End F32.
