(* ===== verification/RString.v ===== *)
(** * Rust strings

    A [String] is its sequence of Unicode scalar values.  [lit] turns an ASCII
    literal into one; [trim] removes the characters with the Unicode
    [White_Space] property at both ends, as [str::trim] does. *)

From Stdlib Require Import String Ascii.
From S2P Require Import Prelude.

Abbreviation rstring := (list Z).

Definition lit (s : String.string) : rstring :=
  (fun c => Z.of_N (N_of_ascii c)) <$> list_ascii_of_string s.

Definition is_whitespace (c : Z) : bool :=
  ((9 <=? c) && (c <=? 13)) || (c =? 32) || (c =? 133) || (c =? 160) || (c =? 5760)
  || ((8192 <=? c) && (c <=? 8202)) || (c =? 8232) || (c =? 8233) || (c =? 8239)
  || (c =? 8287) || (c =? 12288).

Fixpoint trim_start (s : rstring) : rstring :=
  match s with
  | c :: s' => if is_whitespace c then trim_start s' else s
  | [] => []
  end.

Definition trim (s : rstring) : rstring := rev (trim_start (rev (trim_start s))).

(** Decimal digits of a natural number, as [{}] prints it. *)
Fixpoint dec_digits (fuel : nat) (z : Z) (acc : rstring) : rstring :=
  match fuel with
  | O => acc
  | S fuel =>
      let acc := 48 + z mod 10 :: acc in
      if z <? 10 then acc else dec_digits fuel (z / 10) acc
  end.

(** Twenty digits hold every [u64]. *)
Definition dec (z : Z) : rstring := dec_digits 20 z [].

(** [str::lines]: split at line feeds, without a final empty line, each without
    a trailing carriage return. *)
Definition strip_cr (l : rstring) : rstring :=
  match last l with
  | Some c => if c =? 13 then removelast l else l
  | None => l
  end.

Fixpoint lines_from (acc s : rstring) : list rstring :=
  match s with
  | [] => match acc with [] => [] | _ => [rev acc] end
  | c :: s => if c =? 10 then strip_cr (rev acc) :: lines_from [] s else lines_from (c :: acc) s
  end.
Definition lines (s : rstring) : list rstring := lines_from [] s.

Fixpoint split_once (c : Z) (s : rstring) : option (rstring * rstring) :=
  match s with
  | [] => None
  | x :: s =>
      if x =? c then Some ([], s)
      else match split_once c s with Some (a, b) => Some (x :: a, b) | None => None end
  end.

(** [str::rsplit_once]: at the last occurrence. *)
Definition rsplit_once (c : Z) (s : rstring) : option (rstring * rstring) :=
  match split_once c (rev s) with Some (b, a) => Some (rev a, rev b) | None => None end.

(** [from_str] of an unsigned integer type with the given greatest value. *)
Fixpoint digits_value (max acc : Z) (s : rstring) : option Z :=
  match s with
  | [] => Some acc
  | c :: s =>
      if (48 <=? c) && (c <=? 57) then
        let v := acc * 10 + (c - 48) in
        if max <? v then None else digits_value max v s
      else None
  end.
Definition parse_uint (max : Z) (s : rstring) : option Z :=
  match s with
  | [] => None
  | 43 :: [] => None
  | 43 :: s => digits_value max 0 s
  | _ => digits_value max 0 s
  end.
Definition parse_u64 : rstring -> option Z := parse_uint (2 ^ 64 - 1).

Fixpoint starts_with (p s : rstring) : bool :=
  match p, s with
  | [], _ => true
  | a :: p, b :: s => (a =? b) && starts_with p s
  | _ :: _, [] => false
  end.
Definition ends_with (p s : rstring) : bool := starts_with (rev p) (rev s).
Fixpoint contains_str (p s : rstring) : bool :=
  starts_with p s || match s with [] => false | _ :: s => contains_str p s end.

(** Splitting and putting back together. *)
Lemma split_once_some c s a b : split_once c s = Some (a, b) -> s = a ++ c :: b /\ (c ∉ a).
Proof.
  revert a. induction s as [|x s IH]; intros a; cbn [split_once]; [done|].
  destruct (Z.eqb_spec x c) as [->|Hne].
  - intros [= <- <-]. split; [done|]. apply not_elem_of_nil.
  - destruct (split_once c s) as [[a' b']|]; [|done]. intros [= <- <-].
    destruct (IH a' eq_refl) as [-> Hc]. split; [done|].
    rewrite not_elem_of_cons. split; [congruence|done].
Qed.

Lemma split_once_none c s : split_once c s = None <-> (c ∉ s).
Proof.
  induction s as [|x s IH]; cbn [split_once].
  - split; [|done]. intros _. apply not_elem_of_nil.
  - rewrite not_elem_of_cons. destruct (Z.eqb_spec x c) as [->|Hne].
    + split; [done|]. by intros [? _].
    + destruct (split_once c s) as [[a b]|].
      * split; [done|]. intros [_ Hs]. by apply IH in Hs.
      * split; [|done]. intros _. split; [congruence|]. by apply IH.
Qed.

Lemma rsplit_once_some c s a b : rsplit_once c s = Some (a, b) -> s = a ++ c :: b /\ (c ∉ b).
Proof.
  unfold rsplit_once. destruct (split_once c (rev s)) as [[b' a']|] eqn:Hs; [|done]. intros [= <- <-].
  apply split_once_some in Hs as [Hs Hc]. apply (f_equal (@rev Z)) in Hs.
  rewrite rev_involutive, rev_app_distr in Hs. cbn in Hs. rewrite Hs, <- app_assoc. split; [done|].
  by rewrite list_elem_of_In, <- in_rev, <- list_elem_of_In.
Qed.

Lemma rsplit_once_none c s : rsplit_once c s = None <-> (c ∉ s).
Proof.
  unfold rsplit_once. transitivity (split_once c (rev s) = None).
  - destruct (split_once c (rev s)) as [[]|]; done.
  - rewrite split_once_none, list_elem_of_In, <- in_rev, <- list_elem_of_In. done.
Qed.

Lemma digits_value_range max acc s v :
  0 <= acc <= max -> digits_value max acc s = Some v -> 0 <= v <= max.
Proof.
  revert acc. induction s as [|c s IH]; intros acc Ha; cbn [digits_value].
  - by intros [= <-].
  - destruct (Z.leb_spec 48 c), (Z.leb_spec c 57); cbn [andb]; try done.
    destruct (Z.ltb_spec max (acc * 10 + (c - 48))); [done|]. apply IH. lia.
Qed.

Lemma parse_uint_range max s v : 0 <= max -> parse_uint max s = Some v -> 0 <= v <= max.
Proof.
  intros Hm Hp. unfold parse_uint in Hp. destruct s as [|c s]; [done|].
  assert (Hd : exists t, digits_value max 0 t = Some v).
  { repeat case_match; try done; eauto. }
  destruct Hd as [t Ht]. by apply (digits_value_range max 0 t); [lia|].
Qed.

(** A string trims to nothing exactly when it is all white space. *)
Lemma trim_start_nil s : trim_start s = [] <-> Forall (fun c => is_whitespace c = true) s.
Proof.
  induction s as [|c s IH]; simpl; [by split|].
  destruct (is_whitespace c) eqn:Hc; rewrite Forall_cons; [|by split; [|intros [? _]]; congruence].
  rewrite IH. by split; [|intros [_ ?]].
Qed.

Lemma trim_start_head s : match trim_start s with [] => True | c :: _ => is_whitespace c = false end.
Proof. induction s as [|c s IH]; simpl; [done|]. by destruct (is_whitespace c) eqn:?. Qed.

Lemma trim_nil s : trim s = [] <-> Forall (fun c => is_whitespace c = true) s.
Proof.
  unfold trim. split.
  - intros H. apply (f_equal (@rev Z)) in H. rewrite rev_involutive in H. simpl in H.
    apply trim_start_nil in H. apply trim_start_nil.
    pose proof (trim_start_head s) as Hh. destruct (trim_start s) as [|c t]; [done|].
    simpl in H. apply Forall_app in H as [_ H]. inversion H; congruence.
  - intros H. apply trim_start_nil in H. by rewrite H.
Qed.

(** [char::len_utf8], and [String::len], which counts bytes. *)
Definition len_utf8 (c : Z) : nat := if c <? 0x80 then 1 else if c <? 0x800 then 2 else if c <? 0x10000 then 3 else 4.
Definition string_len (s : rstring) : nat := list_sum (len_utf8 <$> s).

(** [str::split_whitespace().next_back()]: the last token. *)
Fixpoint take_token (s : rstring) : rstring :=
  match s with
  | c :: s => if is_whitespace c then [] else c :: take_token s
  | [] => []
  end.
Definition last_token (s : rstring) : option rstring :=
  match take_token (trim_start (rev s)) with [] => None | t => Some (rev t) end.

(** *** Decimal text *)

Definition is_digit (c : Z) : Prop := 48 <= c <= 57.

Lemma dec_digits_all fuel z acc : 0 <= z -> Forall is_digit acc -> Forall is_digit (dec_digits fuel z acc).
Proof.
  revert z acc. induction fuel as [|fuel IH]; intros z acc Hz Ha; cbn [dec_digits]; [done|].
  assert (Hc : Forall is_digit (48 + z mod 10 :: acc))
    by (constructor; [pose proof (Z.mod_pos_bound z 10 ltac:(lia)); unfold is_digit; lia|done]).
  destruct (Z.ltb_spec z 10); [done|]. apply IH; [apply Z.div_pos; lia|done].
Qed.

Lemma dec_all z : 0 <= z -> Forall is_digit (dec z).
Proof. intros Hz. by apply dec_digits_all. Qed.

(** Printing puts at least one digit in front. *)
Lemma dec_digits_cons fuel z acc : exists l, dec_digits (S fuel) z acc = l ++ acc /\ l <> [].
Proof.
  revert z acc. induction fuel as [|fuel IH]; intros z acc.
  - exists [48 + z mod 10]. cbn. by destruct (z <? 10).
  - change (dec_digits (S (S fuel)) z acc) with
      (if z <? 10 then 48 + z mod 10 :: acc else dec_digits (S fuel) (z / 10) (48 + z mod 10 :: acc)).
    destruct (z <? 10); [by exists [48 + z mod 10]|].
    destruct (IH (z / 10) (48 + z mod 10 :: acc)) as (l & -> & Hl). exists (l ++ [48 + z mod 10]).
    rewrite <- app_assoc. split; [done|]. by destruct l.
Qed.

Lemma dec_cons z : 0 <= z -> exists c s, dec z = c :: s /\ is_digit c.
Proof.
  intros Hz. pose proof (dec_all z Hz) as Ha. destruct (dec_digits_cons 19 z []) as (l & E & Hl).
  unfold dec in *. rewrite E, app_nil_r in *. destruct l as [|c s]; [done|]. inversion_clear Ha. by exists c, s.
Qed.

(** Reading the digits back, with an accumulator that is the part already read. *)
Lemma digits_value_dec fuel max z acc :
  0 <= z <= max -> z < 10 ^ Z.of_nat fuel -> digits_value max 0 (dec_digits fuel z acc) = digits_value max z acc.
Proof.
  revert z acc. induction fuel as [|fuel IH]; intros z acc Hz Hlt.
  { cbn in Hlt. replace z with 0 by lia. done. }
  cbn [dec_digits]. pose proof (Z.div_mod z 10 ltac:(lia)) as Hd. pose proof (Z.mod_pos_bound z 10 ltac:(lia)) as Hm.
  assert (Hq : 0 <= z / 10 <= max) by (split; [apply Z.div_pos; lia|lia]).
  assert (Hstep : forall q, q = z / 10 -> digits_value max q (48 + z mod 10 :: acc) = digits_value max z acc).
  { intros q ->. cbn [digits_value].
    destruct (Z.leb_spec 48 (48 + z mod 10)); [|lia]. destruct (Z.leb_spec (48 + z mod 10) 57); [|lia]. cbn [andb].
    replace (z / 10 * 10 + (48 + z mod 10 - 48)) with z by lia. destruct (Z.ltb_spec max z); [lia|done]. }
  destruct (Z.ltb_spec z 10).
  - apply Hstep. symmetry. apply Z.div_small. lia.
  - rewrite IH; [by apply Hstep|lia|]. apply Z.div_lt_upper_bound; [lia|].
    rewrite Nat2Z.inj_succ, Z.pow_succ_r in Hlt by lia. lia.
Qed.

(** What [{}] prints, [parse] reads. *)
Lemma parse_uint_dec max z : 0 <= z <= max -> max < 10 ^ 20 -> parse_uint max (dec z) = Some z.
Proof.
  intros Hz Hmax. destruct (dec_cons z ltac:(lia)) as (c & s & E & Hc).
  assert (Hv : digits_value max 0 (dec z) = Some z)
    by (unfold dec; rewrite digits_value_dec; [done|lia|change (Z.of_nat 20) with 20; lia]).
  rewrite E in Hv |- *. unfold parse_uint.
  destruct (Z.eq_dec c 43) as [->|Hne]; [by destruct Hc|].
  destruct c as [|p|]; try done. repeat (destruct p as [p|p|]; try done).
Qed.

Lemma digit_not_space c : is_digit c -> is_whitespace c = false.
Proof.
  unfold is_digit, is_whitespace. intros Hc.
  repeat match goal with |- context [?a <=? ?b] => destruct (Z.leb_spec a b); try lia
                       | |- context [?a =? ?b] => destruct (Z.eqb_spec a b); try lia end; reflexivity.
Qed.

(** The last token of a line that ends in a number. *)
Lemma last_token_dec h z : 0 <= z -> last_token (h ++ 32 :: dec z) = Some (dec z).
Proof.
  intros Hz. unfold last_token. rewrite rev_app_distr. cbn [rev]. rewrite <- app_assoc. cbn [app].
  pose proof (dec_all z Hz) as Ha. destruct (dec_cons z Hz) as (c & s & E & _).
  assert (Hr : Forall is_digit (rev (dec z))) by (by apply Forall_rev).
  assert (Hn : rev (dec z) <> []) by (rewrite E; cbn; by destruct (rev s)).
  rewrite <- (rev_involutive (dec z)) at 2. generalize dependent (rev (dec z)). intros l Hl Hne.
  assert (Ht : forall k, Forall is_digit k -> take_token (k ++ 32 :: rev h) = k).
  { induction k as [|d k IH]; intros Hk; [done|]. inversion_clear Hk. cbn [app take_token].
    rewrite digit_not_space by done. by rewrite IH. }
  destruct l as [|d l]; [done|]. inversion Hl; subst. cbn [app trim_start]. rewrite digit_not_space by done.
  change (d :: l ++ 32 :: rev h) with ((d :: l) ++ 32 :: rev h). by rewrite Ht.
Qed.

(** A line without control characters is read back as it was written. *)
Lemma lines_cons l s : Forall (fun c => c <> 10 /\ c <> 13) l -> lines (l ++ 10 :: s) = l :: lines s.
Proof.
  intros Hl. assert (G : forall acc, Forall (fun c => c <> 10 /\ c <> 13) acc -> lines_from acc (l ++ 10 :: s) = (rev acc ++ l) :: lines_from [] s).
  { induction l as [|c l IH]; intros acc Ha; cbn [app lines_from].
    - rewrite app_nil_r. cbn. f_equal. unfold strip_cr. destruct (last (rev acc)) as [c|] eqn:E; [|done].
      destruct (Z.eqb_spec c 13) as [->|]; [|done]. apply last_Some in E as [k E].
      assert (Hr : Forall (fun c => c <> 10 /\ c <> 13) (rev acc)) by (by apply Forall_rev).
      rewrite E, Forall_app in Hr. destruct Hr as [_ Hr]. inversion_clear Hr. lia.
    - inversion_clear Hl. destruct (Z.eqb_spec c 10) as [->|]; [lia|]. rewrite IH by (done || by constructor).
      cbn [rev]. by rewrite <- app_assoc. }
  apply (G []). constructor.
Qed.

(** No pattern that starts with a non-digit is found among digits. *)
Lemma contains_digits p q s : ~ is_digit p -> Forall is_digit s -> contains_str (p :: q) s = false.
Proof.
  intros Hp. induction 1 as [|c s Hc _ IH]; [done|]. cbn [contains_str starts_with].
  destruct (Z.eqb_spec p c) as [->|]; [done|]. exact IH.
Qed.
