(* ===== verification/External.v ===== *)
(** * Interfaces of the crates the sources call

    The single-producer single-consumer ring of [rtrb] and the planar sample
    block of [audio_core_bsd] are not part of the repository.  The components
    are parametric in them, and rely on the laws stated here; each class has a
    concrete instance, which the witnesses run on. *)

From stdpp Require Import gmap fin_maps sorting.
From S2P Require Import Prelude F32.

(** ** [rtrb::RingBuffer]

    [ring_items] is the queue content, oldest first.  A push on a full ring
    hands the value back ([PushError::Full]); a pop on an empty ring fails
    ([PopError::Empty]).  Neither blocks. *)

Class RingOps (R A : Type) : Type := {
  ring_items : R -> list A;
  ring_capacity : R -> nat;
  ring_push : R -> A -> result R A;
  ring_pop : R -> option (A * R)
}.

Class RingLaws (R A : Type) `{RingOps R A} : Prop := {
  ring_push_ok : forall r a, (length (ring_items r) < ring_capacity r)%nat ->
    exists r', ring_push r a = Ok r' /\ ring_items r' = ring_items r ++ [a] /\
      ring_capacity r' = ring_capacity r;
  ring_push_full : forall r a, (ring_capacity r <= length (ring_items r))%nat ->
    ring_push r a = Err a;
  ring_pop_empty : forall r, ring_items r = [] -> ring_pop r = None;
  ring_pop_cons : forall r a l, ring_items r = a :: l ->
    exists r', ring_pop r = Some (a, r') /\ ring_items r' = l /\
      ring_capacity r' = ring_capacity r
}.

(** A list with a capacity. *)
Record vec_ring (A : Type) : Type := { vr_items : list A; vr_capacity : nat }.
Arguments vr_items {A}.
Arguments vr_capacity {A}.
Arguments Build_vec_ring {A}.

#[export] Instance vec_ring_ops {A} : RingOps (vec_ring A) A := {
  ring_items := vr_items;
  ring_capacity := vr_capacity;
  ring_push r a :=
    if (vr_capacity r <=? length (vr_items r))%nat then Err a
    else Ok {| vr_items := vr_items r ++ [a]; vr_capacity := vr_capacity r |};
  ring_pop r :=
    match vr_items r with
    | [] => None
    | a :: l => Some (a, {| vr_items := l; vr_capacity := vr_capacity r |})
    end
}.

#[export] Instance vec_ring_laws {A} : RingLaws (vec_ring A) A.
Proof.
  split; cbn; intros.
  - destruct (Nat.leb_spec (vr_capacity r) (length (vr_items r))); [lia|eauto].
  - destruct (Nat.leb_spec (vr_capacity r) (length (vr_items r))); [done|lia].
  - by rewrite H.
  - rewrite H. eauto.
Qed.

(** [RingBuffer::new]. *)
Class RingAlloc (R A : Type) `{RingOps R A} : Type := { ring_new : nat -> R }.
Class RingAllocLaws (R A : Type) `{RingAlloc R A} : Prop := {
  ring_new_empty : forall n, ring_items (ring_new n) = [] /\ ring_capacity (ring_new n) = n
}.
#[export] Instance vec_ring_alloc {A} : RingAlloc (vec_ring A) A := {
  ring_new n := {| vr_items := []; vr_capacity := n |}
}.
#[export] Instance vec_ring_alloc_laws {A} : RingAllocLaws (vec_ring A) A.
Proof. by split. Qed.

(** A push that succeeds had room and appends; one that fails was on a full
    ring. *)
Lemma ring_push_cases {R A} `{RingLaws R A} (r : R) (a : A) :
  (exists r', ring_push r a = Ok r' /\ ring_items r' = ring_items r ++ [a] /\
     ring_capacity r' = ring_capacity r /\ (length (ring_items r) < ring_capacity r)%nat) \/
  (ring_push r a = Err a /\ (ring_capacity r <= length (ring_items r))%nat).
Proof.
  destruct (Nat.lt_ge_cases (length (ring_items r)) (ring_capacity r)) as [Hlt|Hge].
  - left. destruct (ring_push_ok r a Hlt) as (r' & ? & ? & ?). eauto.
  - right. by split; [apply ring_push_full|].
Qed.

Lemma ring_pop_cases {R A} `{RingLaws R A} (r : R) :
  (exists a r', ring_pop r = Some (a, r') /\ ring_items r = a :: ring_items r' /\
     ring_capacity r' = ring_capacity r) \/
  (ring_pop r = None /\ ring_items r = []).
Proof.
  destruct (ring_items r) as [|a l] eqn:Hr.
  - right. by split; [apply ring_pop_empty|].
  - left. destruct (ring_pop_cons r a l Hr) as (r' & ? & ? & ?). exists a, r'. by subst l.
Qed.

(** ** [audio_core_bsd::AudioFrame]

    A block of planar samples with its channel count and sample rate. *)

Class AudioFrameOps (F : Type) : Type := {
  from_planar : Z -> Z -> list F32.f32 -> F;
  frame_channels : F -> Z;
  frame_rate : F -> Z;
  frame_samples : F -> list F32.f32
}.

Class AudioFrameLaws (F : Type) `{AudioFrameOps F} : Prop := {
  from_planar_channels : forall c r s, frame_channels (from_planar c r s) = c;
  from_planar_rate : forall c r s, frame_rate (from_planar c r s) = r;
  from_planar_samples : forall c r s, frame_samples (from_planar c r s) = s
}.

Record plain_frame : Type := {
  pf_channels : Z; pf_rate : Z; pf_samples : list F32.f32
}.

#[export] Instance plain_frame_ops : AudioFrameOps plain_frame := {
  from_planar := Build_plain_frame;
  frame_channels := pf_channels;
  frame_rate := pf_rate;
  frame_samples := pf_samples
}.

#[export] Instance plain_frame_laws : AudioFrameLaws plain_frame.
Proof. by split. Qed.

(** ** [redb] tables with [u64] keys

    Iteration lists the rows in ascending key order.  A transaction that is
    not committed has no effect; the components only change a table when the
    commit succeeds. *)

Class TableOps (T V : Type) : Type := {
  tbl_empty : T;
  tbl_get : T -> Z -> option V;
  tbl_insert : T -> Z -> V -> T;
  tbl_remove : T -> Z -> T;
  tbl_iter : T -> list (Z * V)
}.

Definition key_lt {V} (a b : Z * V) : Prop := a.1 < b.1.

Class TableLaws (T V : Type) `{TableOps T V} : Prop := {
  tbl_get_empty : forall k, tbl_get tbl_empty k = None;
  tbl_get_insert : forall t k v k',
    tbl_get (tbl_insert t k v) k' = if decide (k = k') then Some v else tbl_get t k';
  tbl_get_remove : forall t k k',
    tbl_get (tbl_remove t k) k' = if decide (k = k') then None else tbl_get t k';
  tbl_iter_elem : forall t k v, (k, v) ∈ tbl_iter t <-> tbl_get t k = Some v;
  tbl_iter_sorted : forall t, StronglySorted key_lt (tbl_iter t)
}.

(** ** [serde_json] and [bincode] of a type

    [B] is the encoded form, a byte vector the sources never look into. *)

Class Encoding (A B : Type) : Type := {
  encode_value : A -> option B;
  decode_value : B -> option A
}.

Class EncodingLaws (A B : Type) `{Encoding A B} : Prop := {
  encoding_roundtrip : forall a b, encode_value a = Some b -> decode_value b = Some a
}.

(** The encoding that keeps the value. *)
#[export] Instance plain_encoding {A} : Encoding A A := {
  encode_value := Some;
  decode_value := Some
}.

#[export] Instance plain_encoding_laws {A} : EncodingLaws A A.
Proof. split. by intros a b [= ->]. Qed.

(** Two strictly ascending row lists with the same rows are equal. *)
Lemma sorted_rows_ext {V} (l k : list (Z * V)) :
  StronglySorted key_lt l -> StronglySorted key_lt k ->
  (forall p, p ∈ l <-> p ∈ k) -> l = k.
Proof.
  intros Hl. revert k. induction Hl as [|a l Hl IH Ha]; intros k Hk Hel.
  - destruct k as [|b k]; [done|]. exfalso. apply (elem_of_nil b), Hel. by left.
  - destruct Hk as [|b k Hk Hb]; [exfalso; apply (elem_of_nil a), Hel; by left|].
    rewrite Forall_forall in Ha, Hb. unfold key_lt in *.
    assert (a = b) as ->.
    { assert (a ∈ b :: k) as [->|Ha']%elem_of_cons by (apply Hel; by left); [done|].
      assert (b ∈ a :: l) as [->|Hb']%elem_of_cons by (apply Hel; by left); [done|].
      specialize (Ha _ Hb'). specialize (Hb _ Ha'). lia. }
    f_equal. apply IH; [done|]. intros p. split; intros Hp.
    + assert (p ∈ b :: k) as [->|?]%elem_of_cons by (apply Hel; by right); [|done].
      specialize (Ha _ Hp). lia.
    + assert (p ∈ b :: l) as [->|?]%elem_of_cons by (apply Hel; by right); [|done].
      specialize (Hb _ Hp). lia.
Qed.

(** A [gmap], iterated in sorted order. *)
Definition row_le {V} (a b : Z * V) : Prop := a.1 <= b.1.
#[export] Instance row_le_dec {V} (a b : Z * V) : Decision (row_le a b).
Proof. unfold row_le. apply _. Defined.

#[export] Instance gmap_table_ops {V} : TableOps (gmap Z V) V := {
  tbl_empty := ∅;
  tbl_get t k := t !! k;
  tbl_insert t k v := <[k := v]> t;
  tbl_remove t k := delete k t;
  tbl_iter t := merge_sort row_le (map_to_list t)
}.

#[export] Instance gmap_table_laws {V} : TableLaws (gmap Z V) V.
Proof.
  split; cbn.
  - intros. apply lookup_empty.
  - intros. apply lookup_insert.
  - intros. apply lookup_delete.
  - intros t k v. rewrite merge_sort_Permutation. apply elem_of_map_to_list.
  - intros t.
    assert (Hs : StronglySorted row_le (merge_sort row_le (map_to_list t))).
    { apply StronglySorted_merge_sort.
      - intros a b c. unfold row_le. lia.
      - intros a b. unfold row_le. lia. }
    assert (Hn : NoDup (merge_sort row_le (map_to_list t)).*1)
      by (rewrite merge_sort_Permutation; apply NoDup_fst_map_to_list).
    revert Hn. induction Hs as [|a l Hs IH Ha]; intros Hn; [constructor|].
    rewrite fmap_cons, NoDup_cons in Hn. destruct Hn as [Hnot Hn].
    constructor; [by apply IH|]. rewrite Forall_forall in Ha |- *. intros b Hb.
    specialize (Ha b Hb). unfold row_le, key_lt in *.
    assert (a.1 <> b.1); [|lia]. intros He. apply Hnot. rewrite He.
    by apply list_elem_of_fmap_2.
Qed.
