(* ===== verification/RtpCodec.v ===== *)
(** * RTP packets and L16/L24 PCM framing

    [crates/net-rtp-aes67/src/codec.rs], with the payload codecs and the
    transport errors of [lib.rs].  Wire bytes are lists of [u8]; samples are
    [f32] bit patterns ({!F32}).  Error texts are kept as constructors that
    carry the interpolated values. *)

From S2P Require Import Prelude F32.

Inductive Codec : Type :=
| PcmL16
| PcmL24
| Opus
| Custom (n : Z).

(** The messages of [TransportError::Network]. *)
Inductive net_msg : Type :=
| HeaderTruncated (got : nat)
| BadVersion (version : Z)
| ShorterThanHeader (got header_len : nat)
| IoError (code : Z).

Inductive TransportError : Type :=
| Unimplemented
| Network (msg : net_msg).

#[export] Instance net_msg_eq_dec : EqDecision net_msg.
Proof. solve_decision. Defined.
#[export] Instance TransportError_eq_dec : EqDecision TransportError.
Proof. solve_decision. Defined.

(** ** Headers *)

Definition RTP_VERSION : Z := 2.
Definition RTP_HEADER_LEN : nat := 12.

Record RtpHeader : Type := {
  version : Z;
  padding : bool;
  extension : bool;
  csrc_count : Z;
  marker : bool;
  payload_type : Z;
  seq : Z;
  timestamp : Z;
  ssrc : Z
}.

Definition RtpHeader_new (pt sq ts src : Z) : RtpHeader := {|
  version := RTP_VERSION;
  padding := false;
  extension := false;
  csrc_count := 0;
  marker := false;
  payload_type := Z.land pt 0x7F;
  seq := sq;
  timestamp := ts;
  ssrc := src
|}.

Definition RtpHeader_parse (buf : bytes) : result RtpHeader TransportError :=
  if (length buf <? RTP_HEADER_LEN)%nat then
    Err (Network (HeaderTruncated (length buf)))
  else
    let b := get buf in
    let v := Z.land (Z.shiftr (b 0%nat) 6) 0x03 in
    if negb (v =? RTP_VERSION) then Err (Network (BadVersion v))
    else Ok {|
      version := v;
      padding := negb (Z.land (Z.shiftr (b 0%nat) 5) 0x01 =? 0);
      extension := negb (Z.land (Z.shiftr (b 0%nat) 4) 0x01 =? 0);
      csrc_count := Z.land (b 0%nat) 0x0F;
      marker := negb (Z.land (Z.shiftr (b 1%nat) 7) 0x01 =? 0);
      payload_type := Z.land (b 1%nat) 0x7F;
      seq := of_be [b 2%nat; b 3%nat];
      timestamp := of_be [b 4%nat; b 5%nat; b 6%nat; b 7%nat];
      ssrc := of_be [b 8%nat; b 9%nat; b 10%nat; b 11%nat]
    |}.

Definition RtpHeader_encode (h : RtpHeader) : bytes :=
  let byte0 :=
    Z.lor (Z.lor (Z.lor (Z.shiftl RTP_VERSION 6) (Z.shiftl (Z.b2z (padding h)) 5))
                 (Z.shiftl (Z.b2z (extension h)) 4))
          (Z.land (csrc_count h) 0x0F) in
  let byte1 := Z.lor (Z.shiftl (Z.b2z (marker h)) 7) (Z.land (payload_type h) 0x7F) in
  [byte0; byte1] ++ be_bytes 2 (seq h) ++ be_bytes 4 (timestamp h) ++ be_bytes 4 (ssrc h).

Definition encoded_len (h : RtpHeader) : nat :=
  (RTP_HEADER_LEN + 4 * Z.to_nat (csrc_count h))%nat.

(** The ranges the field types and the wire give a header. *)
Definition wf_header (h : RtpHeader) : Prop :=
  version h = RTP_VERSION /\ 0 <= csrc_count h < 16 /\ 0 <= payload_type h < 128 /\
  u16 (seq h) /\ u32 (timestamp h) /\ u32 (ssrc h).

(** ** Packets *)

Record RtpPacket : Type := { header : RtpHeader; payload : bytes }.

Definition RtpPacket_encode (p : RtpPacket) : bytes :=
  RtpHeader_encode (header p) ++ payload p.

Definition RtpPacket_parse (buf : bytes) : result RtpPacket TransportError :=
  let? h := RtpHeader_parse buf in
  let header_len := encoded_len h in
  if (length buf <? header_len)%nat then
    Err (Network (ShorterThanHeader (length buf) header_len))
  else Ok {| header := h; payload := drop header_len buf |}.

Definition codec_to_payload_type (codec : Codec) (channels : Z) : Z :=
  match codec with
  | PcmL16 => if 2 <=? channels then 10 else 11
  | PcmL24 => 96
  | Opus => 97
  | Custom n => n
  end.

Definition bytes_per_sample (codec : Codec) : Z :=
  match codec with
  | PcmL16 => 2
  | PcmL24 => 3
  | Opus | Custom _ => 1
  end.

Definition timestamp_advance (len : nat) (codec : Codec) (channels : Z) : Z :=
  let bps := bytes_per_sample codec in
  let ch := Z.max channels 1 in
  wrap 32 (Z.of_nat len / (bps * ch)).

(** ** L16/L24 samples *)

Definition L16_FULL_SCALE : F32.f32 := F32.of_Z 32767.
Definition L16_DECODE_DIV : F32.f32 := F32.of_Z 32768.
Definition L24_FULL_SCALE : F32.f32 := F32.of_Z 8388607.
Definition L24_DECODE_DIV : F32.f32 := F32.of_Z 8388608.

(** [(x.clamp(-1.0, 1.0) * full_scale).round() as i32]. *)
Definition quantise (full_scale x : F32.f32) : Z :=
  F32.to_int 32 (F32.round (F32.mul (F32.clamp F32.neg_one F32.one x) full_scale)).

Definition dequantise (decode_div : F32.f32) (s : Z) : F32.f32 :=
  F32.div (F32.of_Z s) decode_div.

Definition pack_l16 (s : Z) : bytes := be_bytes 2 (to_signed 16 s).
Definition unpack_l16 (chunk : bytes) : Z :=
  to_signed 16 (of_be [get chunk 0; get chunk 1]).

Definition pack_l24 (s : Z) : bytes :=
  [Z.land (Z.shiftr s 16) 0xFF; Z.land (Z.shiftr s 8) 0xFF; Z.land s 0xFF].
Definition unpack_l24 (chunk : bytes) : Z :=
  let raw := Z.lor (Z.lor (Z.shiftl (get chunk 0) 16) (Z.shiftl (get chunk 1) 8))
                   (get chunk 2) in
  if negb (Z.land raw 0x00800000 =? 0) then to_signed 32 (Z.lor raw 0xFF000000)
  else raw.

(** [ch] is the channel count as a [usize]. *)
Definition encode_pcm (frames : list F32.f32) (ch : nat) (full_scale : F32.f32)
    (pack : Z -> bytes) : bytes :=
  if (ch =? 0)%nat then []
  else
    let num_frames := (length frames / ch)%nat in
    '(i, c) ← pairs num_frames ch;
    pack (quantise full_scale (nth (c * num_frames + i) frames 0)).

Definition decode_pcm (bs : bytes) (ch : nat) (decode_div : F32.f32) (width : nat)
    (unpack : bytes -> Z) : list F32.f32 :=
  if (ch =? 0)%nat then []
  else
    let num_samples := (length bs / width)%nat in
    let num_frames := (num_samples / ch)%nat in
    fill (fun '(i, c) => (c * num_frames + i)%nat)
         (fun '(i, c) =>
            let idx := ((i * ch + c) * width)%nat in
            dequantise decode_div (unpack (take width (drop idx bs))))
         (pairs num_frames ch) (replicate (num_frames * ch) F32.zero).

Definition encode_l16 (frames : list F32.f32) (ch : nat) : bytes :=
  encode_pcm frames ch L16_FULL_SCALE pack_l16.
Definition decode_l16 (bs : bytes) (ch : nat) : list F32.f32 :=
  decode_pcm bs ch L16_DECODE_DIV 2 unpack_l16.
Definition encode_l24 (frames : list F32.f32) (ch : nat) : bytes :=
  encode_pcm frames ch L24_FULL_SCALE pack_l24.
Definition decode_l24 (bs : bytes) (ch : nat) : list F32.f32 :=
  decode_pcm bs ch L24_DECODE_DIV 3 unpack_l24.

(** ** The header's first two bytes *)

Lemma byte0_value (p e : bool) cc :
  Z.lor (Z.lor (Z.lor (Z.shiftl RTP_VERSION 6) (Z.shiftl (Z.b2z p) 5))
               (Z.shiftl (Z.b2z e) 4)) (Z.land cc 0x0F)
  = (8 + 2 * Z.b2z p + Z.b2z e) * 2 ^ 4 + cc mod 16.
Proof.
  change 0x0F with (2 ^ 4 - 1). rewrite land_mask by done. change (2 ^ 4) with 16.
  pose proof (Z.mod_pos_bound cc 16 ltac:(lia)).
  rewrite <- (lor_shiftl_add 4) by (simpl; lia). by destruct p, e.
Qed.

Lemma byte1_value (m : bool) pt :
  Z.lor (Z.shiftl (Z.b2z m) 7) (Z.land pt 0x7F) = Z.b2z m * 2 ^ 7 + pt mod 128.
Proof.
  change 0x7F with (2 ^ 7 - 1). rewrite land_mask by done. change (2 ^ 7) with 128.
  pose proof (Z.mod_pos_bound pt 128 ltac:(lia)).
  rewrite <- (lor_shiftl_add 7) by (simpl; lia). done.
Qed.

(** A bit field of the parser as division and remainder. *)
Lemma field_value b k w :
  0 <= k -> 0 <= w -> Z.land (Z.shiftr b k) (2 ^ w - 1) = (b / 2 ^ k) mod 2 ^ w.
Proof. intros. rewrite land_mask by done. by rewrite Z.shiftr_div_pow2. Qed.

Lemma length_RtpHeader_encode h : length (RtpHeader_encode h) = RTP_HEADER_LEN.
Proof. unfold RtpHeader_encode. by rewrite !length_app, !length_be_bytes. Qed.

Lemma RtpHeader_encode_bytes h : byte_list (RtpHeader_encode h).
Proof.
  unfold RtpHeader_encode, byte_list. rewrite byte0_value, byte1_value.
  pose proof (Z.mod_pos_bound (csrc_count h) 16 ltac:(lia)).
  pose proof (Z.mod_pos_bound (payload_type h) 128 ltac:(lia)).
  rewrite !Forall_app. repeat split; try apply be_bytes_u8.
  repeat constructor; unfold uint;
    destruct (padding h), (extension h), (marker h); simpl Z.b2z; lia.
Qed.

(** The parser on a buffer split into its fields. *)
Lemma RtpHeader_parse_fields b0 b1 s2 s3 t4 t5 t6 t7 c8 c9 c10 c11 rest :
  RtpHeader_parse (b0 :: b1 :: s2 :: s3 :: t4 :: t5 :: t6 :: t7 :: c8 :: c9 :: c10 :: c11 :: rest) =
  let v := (b0 / 64) mod 4 in
  if negb (v =? RTP_VERSION) then Err (Network (BadVersion v))
  else Ok {| version := v;
             padding := negb ((b0 / 32) mod 2 =? 0);
             extension := negb ((b0 / 16) mod 2 =? 0);
             csrc_count := b0 mod 16;
             marker := negb ((b1 / 128) mod 2 =? 0);
             payload_type := b1 mod 128;
             seq := of_be [s2; s3];
             timestamp := of_be [t4; t5; t6; t7];
             ssrc := of_be [c8; c9; c10; c11] |}.
Proof.
  unfold RtpHeader_parse. cbn [length Nat.ltb Nat.leb RTP_HEADER_LEN].
  unfold get; cbn [nth].
  change 0x03 with (2 ^ 2 - 1). change 0x01 with (2 ^ 1 - 1).
  change 0x0F with (2 ^ 4 - 1). change 0x7F with (2 ^ 7 - 1).
  rewrite !field_value, !land_mask by done. done.
Qed.

(** A list of twelve or more bytes, split into fields. *)
Lemma split_header (buf : bytes) :
  (12 <= length buf)%nat ->
  exists b0 b1 s2 s3 t4 t5 t6 t7 c8 c9 c10 c11 rest,
    buf = b0 :: b1 :: s2 :: s3 :: t4 :: t5 :: t6 :: t7 :: c8 :: c9 :: c10 :: c11 :: rest.
Proof.
  intros H. do 12 (destruct buf as [|? buf]; [simpl in H; lia|]). by repeat eexists.
Qed.

Lemma RtpHeader_parse_encode h rest :
  wf_header h -> RtpHeader_parse (RtpHeader_encode h ++ rest) = Ok h.
Proof.
  intros (Hv & Hc & Hp & Hs & Ht & Hr). unfold RtpHeader_encode.
  rewrite byte0_value, byte1_value.
  destruct (be2_shape (seq h)) as (s0 & s1 & Es).
  destruct (be4_shape (timestamp h)) as (t0 & t1 & t2 & t3 & Et).
  destruct (be4_shape (ssrc h)) as (r0 & r1 & r2 & r3 & Er).
  pose proof (of_be_be_bytes 2 _ Hs) as Fs. pose proof (of_be_be_bytes 4 _ Ht) as Ft.
  pose proof (of_be_be_bytes 4 _ Hr) as Fr.
  rewrite Es in Fs |- *. rewrite Et in Ft |- *. rewrite Er in Fr |- *.
  cbn [app]. rewrite RtpHeader_parse_fields, Fs, Ft, Fr.
  destruct h as [v p e cc m pt sq ts sr]; cbn [version padding extension csrc_count marker
    payload_type seq timestamp ssrc] in *.
  rewrite !(Z.mod_small cc), !(Z.mod_small pt) by lia.
  set (b0 := _ * 2 ^ 4 + cc). set (b1 := _ * 2 ^ 7 + pt).
  assert ((b0 / 64) mod 4 = 2 /\ (b0 / 32) mod 2 = Z.b2z p /\ (b0 / 16) mod 2 = Z.b2z e
          /\ b0 mod 16 = cc /\ (b1 / 128) mod 2 = Z.b2z m /\ b1 mod 128 = pt)
    as (-> & -> & -> & -> & -> & ->).
  { unfold b0, b1. destruct p, e, m; simpl Z.b2z; repeat split;
      Z.div_mod_to_equations; lia. }
  subst v. by destruct p, e, m.
Qed.

Lemma RtpHeader_encode_parse buf h :
  byte_list buf -> RtpHeader_parse buf = Ok h ->
  wf_header h /\ RtpHeader_encode h = take RTP_HEADER_LEN buf.
Proof.
  intros Hb H. assert (12 <= length buf)%nat as Hl.
  { unfold RtpHeader_parse in H. destruct (Nat.ltb_spec (length buf) RTP_HEADER_LEN); [done|].
    done. }
  destruct (split_header buf Hl) as (b0&b1&s2&s3&t4&t5&t6&t7&c8&c9&c10&c11&rest&->).
  rewrite RtpHeader_parse_fields in H. cbv zeta in H.
  destruct (Z.eqb_spec ((b0 / 64) mod 4) RTP_VERSION) as [Hv|]; [|done].
  injection H as <-. unfold byte_list in Hb.
  repeat (apply Forall_cons_1 in Hb as [? Hb]).
  split.
  - repeat split; cbn [version csrc_count payload_type seq timestamp ssrc];
      try (apply Z.mod_pos_bound; lia); try done;
      apply of_be_range; bytes_ok.
  - unfold RtpHeader_encode. rewrite byte0_value, byte1_value.
    cbn [padding extension csrc_count marker payload_type seq timestamp ssrc].
    change (be_bytes 2 (of_be [s2; s3])) with (be_bytes (length [s2; s3]) (of_be [s2; s3])).
    rewrite (be_bytes_of_be [s2; s3]) by bytes_ok.
    change (be_bytes 4 (of_be [t4; t5; t6; t7])) with (be_bytes (length [t4; t5; t6; t7]) (of_be [t4; t5; t6; t7])).
    rewrite (be_bytes_of_be [t4; t5; t6; t7]) by bytes_ok.
    change (be_bytes 4 (of_be [c8; c9; c10; c11])) with (be_bytes (length [c8; c9; c10; c11]) (of_be [c8; c9; c10; c11])).
    rewrite (be_bytes_of_be [c8; c9; c10; c11]) by bytes_ok.
    cbn [app take RTP_HEADER_LEN]. rewrite !Zmod_mod. unfold uint, RTP_VERSION in *.
    f_equal; [|f_equal];
      repeat match goal with |- context [?x mod 2 =? 0] =>
        destruct (Z.eqb_spec (x mod 2) 0); simpl Z.b2z end;
      Z.div_mod_to_equations; lia.
Qed.

Lemma rtp_packet_parse_wf buf p :
  byte_list buf -> RtpPacket_parse buf = Ok p -> wf_header (header p).
Proof.
  intros Hb H. apply rbind_ok in H as (h & Hh & H). cbv zeta in H.
  destruct (Nat.ltb_spec (length buf) (encoded_len h)); [done|]. injection H as <-.
  by apply (RtpHeader_encode_parse buf).
Qed.

Lemma rtp_packet_encode_parse p :
  wf_header (header p) -> csrc_count (header p) = 0 ->
  RtpPacket_parse (RtpPacket_encode p) = Ok p.
Proof.
  intros Hwf Hc. unfold RtpPacket_parse, RtpPacket_encode.
  rewrite RtpHeader_parse_encode by done. cbn [rbind].
  unfold encoded_len. rewrite Hc, length_app, length_RtpHeader_encode.
  destruct (Nat.ltb_spec (RTP_HEADER_LEN + length (payload p)) (RTP_HEADER_LEN + 4 * Z.to_nat 0));
    [simpl in *; lia|].
  rewrite drop_app_ge, length_RtpHeader_encode by (rewrite length_RtpHeader_encode; lia).
  by destruct p.
Qed.

(** ** Packet theorems *)

(** C19: every packet this crate emits (no CSRC identifiers, fields in the
    ranges of their types) is recovered unchanged by the receiver: encoding
    and parsing are inverse, for every payload. *)
Theorem rtp_packet_roundtrip (p : RtpPacket) :
  wf_header (header p) -> csrc_count (header p) = 0 ->
  RtpPacket_parse (RtpPacket_encode p) = Ok p.
Proof. apply rtp_packet_encode_parse. Qed.

Lemma rtp_packet_roundtrip_witness :
  RtpPacket_parse (RtpPacket_encode
    {| header := RtpHeader_new 10 65535 4294967295 7; payload := [1; 2; 3] |})
  = Ok {| header := RtpHeader_new 10 65535 4294967295 7; payload := [1; 2; 3] |}.
Proof.
  apply rtp_packet_roundtrip; [|reflexivity].
  repeat split; vm_compute; congruence.
Defined.

(** C26: the parser accepts exactly the well-formed packets: a datagram parses
    to [p] if and only if it is [p]'s header, a CSRC list of the announced
    length, and [p]'s payload.  In particular the version is 2, the fields fit
    their widths, and no byte of the payload is lost or invented. *)
Theorem rtp_packet_parse_iff (buf : bytes) (p : RtpPacket) :
  byte_list buf ->
  RtpPacket_parse buf = Ok p <->
  wf_header (header p) /\
  exists csrc, length csrc = (4 * Z.to_nat (csrc_count (header p)))%nat /\
    buf = RtpHeader_encode (header p) ++ csrc ++ payload p.
Proof.
  intros Hb. unfold RtpPacket_parse. split.
  - intros H. apply rbind_ok in H as (h & Hh & H).
    destruct (RtpHeader_encode_parse _ _ Hb Hh) as [Hwf He].
    destruct (Nat.ltb_spec (length buf) (encoded_len h)) as [|Hl]; [done|].
    injection H as <-. cbn [header payload]. split; [done|].
    unfold encoded_len in *. exists (take (4 * Z.to_nat (csrc_count h)) (drop 12 buf)).
    split; [rewrite length_take, length_drop; unfold RTP_HEADER_LEN in *; lia|].
    rewrite He, <- drop_drop, take_drop. symmetry. apply take_drop.
  - intros (Hwf & csrc & Hl & ->). rewrite RtpHeader_parse_encode by done. cbn [rbind].
    unfold encoded_len. rewrite !length_app, length_RtpHeader_encode, Hl.
    destruct (Nat.ltb_spec (RTP_HEADER_LEN + (4 * Z.to_nat (csrc_count (header p)) + length (payload p)))
      (RTP_HEADER_LEN + 4 * Z.to_nat (csrc_count (header p)))); [lia|].
    rewrite <- drop_drop, (drop_app_ge (RtpHeader_encode _)), length_RtpHeader_encode
      by (rewrite length_RtpHeader_encode; lia).
    rewrite Nat.sub_diag, drop_0, <- Hl, drop_app_length. by destruct p.
Qed.

Lemma rtp_packet_parse_iff_witness :
  let buf := [0x91; 10; 0; 1; 0; 0; 0; 2; 0; 0; 0; 3; 9; 9; 9; 9; 5] in
  exists p, RtpPacket_parse buf = Ok p /\ payload p = [5] /\ wf_header (header p).
Proof.
  intros buf. eexists. split; [vm_compute; reflexivity|]. split; [reflexivity|].
  refine (proj1 (proj1 (rtp_packet_parse_iff buf _ _) _)); [|vm_compute; reflexivity].
  apply (bool_decide_eq_true_1 _). vm_compute. reflexivity.
Defined.

(** Each rejection has its own cause and its own message: a datagram
    shorter than the fixed header, a version other than 2, or a datagram
    shorter than the header with the CSRC list it announces. *)
Theorem rtp_packet_parse_err (buf : bytes) (e : TransportError) :
  RtpPacket_parse buf = Err e ->
  ((length buf < 12)%nat /\ e = Network (HeaderTruncated (length buf))) \/
  ((12 <= length buf)%nat /\ (get buf 0 / 64) mod 4 <> 2 /\
     e = Network (BadVersion ((get buf 0 / 64) mod 4))) \/
  ((12 <= length buf)%nat /\ (get buf 0 / 64) mod 4 = 2 /\
     let hl := (12 + 4 * Z.to_nat (get buf 0 mod 16))%nat in
     (length buf < hl)%nat /\ e = Network (ShorterThanHeader (length buf) hl)).
Proof.
  unfold RtpPacket_parse. intros H.
  destruct (Nat.ltb_spec (length buf) 12) as [Hl|Hl].
  { left. split; [done|]. unfold RtpHeader_parse in H.
    destruct (Nat.ltb_spec (length buf) RTP_HEADER_LEN); [|unfold RTP_HEADER_LEN in *; lia].
    by injection H as <-. }
  right. destruct (split_header buf Hl) as (b0&b1&s2&s3&t4&t5&t6&t7&c8&c9&c10&c11&rest&Eb).
  assert (get buf 0 = b0) as -> by by rewrite Eb.
  rewrite Eb in H at 1. rewrite RtpHeader_parse_fields in H. cbv zeta in H.
  destruct (Z.eqb_spec ((b0 / 64) mod 4) RTP_VERSION) as [Hv|Hv]; cbn [negb rbind] in H.
  - right. split; [done|]. split; [done|]. unfold encoded_len in H. cbn [csrc_count] in H.
    match type of H with context [(?a <? ?b)%nat] => destruct (Nat.ltb_spec a b) as [Hlt|] end;
      [|done].
    by injection H as <-.
  - left. injection H as <-. done.
Qed.

Lemma rtp_packet_parse_err_witness :
  RtpPacket_parse [0x81; 10; 0; 1; 0; 0; 0; 2; 0; 0; 0; 3; 9]
    = Err (Network (ShorterThanHeader 13 16)) /\
  (13 < 16)%nat.
Proof.
  split; [vm_compute; reflexivity|].
  destruct (rtp_packet_parse_err [0x81; 10; 0; 1; 0; 0; 0; 2; 0; 0; 0; 3; 9]
    (Network (ShorterThanHeader 13 16)) eq_refl) as [[_ [=]]|[[_ [_ [=]]]|[_ [_ [H _]]]]].
  exact H.
Defined.

(** A packet received with a CSRC list does not survive being encoded
    again.  The encoder keeps the CSRC count in the header but never emits the
    list, so the next parser takes payload bytes for the list; the header's
    documentation says the accounting in [encoded_len] keeps the framing of
    parsed headers correct. *)
Theorem rtp_csrc_reencode_loses_payload :
  exists (buf : bytes) (p q : RtpPacket),
    RtpPacket_parse buf = Ok p /\
    RtpPacket_parse (RtpPacket_encode p) = Ok q /\
    header q = header p /\ payload q = drop 4 (payload p) /\ payload p <> payload q.
Proof.
  exists [0x81; 10; 0; 1; 0; 0; 0; 2; 0; 0; 0; 3; 9; 9; 9; 9; 5; 6; 7; 8; 1].
  do 2 eexists. repeat split; vm_compute; [reflexivity..|congruence].
Qed.

(** ** Samples *)

Lemma quantise_bound M ms es x :
  0 < M <= 2 ^ 23 - 1 ->
  F32.decode (F32.of_Z M) = SpecFloat.S754_finite false ms es -> es <= 0 ->
  Z.pos ms = M * 2 ^ (- es) ->
  - M <= quantise (F32.of_Z M) x <= M.
Proof.
  intros HM Hd He Hm. unfold quantise. apply F32.round_to_int_bound; [lia..|].
  eapply F32.mul_scale; eauto using F32.clamp_unit.
Qed.

Lemma quantise_l16_bound x : -32767 <= quantise L16_FULL_SCALE x <= 32767.
Proof. apply (quantise_bound 32767 16776704 (-9)); done. Qed.

Lemma quantise_l24_bound x : -8388607 <= quantise L24_FULL_SCALE x <= 8388607.
Proof. apply (quantise_bound 8388607 16777214 (-1)); done. Qed.

Lemma unpack_pack_l16 s : sint 16 s -> unpack_l16 (pack_l16 s) = s.
Proof.
  intros Hs. unfold unpack_l16, pack_l16. rewrite (to_signed_id 16 s) by (done || lia).
  change (of_be [get (be_bytes 2 s) 0; get (be_bytes 2 s) 1]) with (of_be (be_bytes 2 s)).
  unfold of_be, be_bytes. rewrite rev_involutive, of_le_le_bytes.
  change (256 ^ Z.of_nat 2) with (2 ^ 16). fold (wrap 16 s).
  rewrite to_signed_wrap by lia. by apply to_signed_id.
Qed.

Lemma raw_l24 b0 b1 b2 :
  u8 b0 -> u8 b1 -> u8 b2 ->
  Z.lor (Z.lor (Z.shiftl b0 16) (Z.shiftl b1 8)) b2 = b0 * 2 ^ 16 + b1 * 2 ^ 8 + b2.
Proof.
  unfold uint. intros H0 H1 H2.
  replace (Z.shiftl b0 16) with (Z.shiftl (Z.shiftl b0 8) 8) by (by rewrite Z.shiftl_shiftl).
  rewrite <- Z.shiftl_lor, lor_shiftl_add, lor_shiftl_add by lia. lia.
Qed.

(** Bit 23 of a 24-bit value. *)
Lemma bit23_clear r : 0 <= r < 2 ^ 24 -> (Z.land r 0x00800000 =? 0) = (r <? 2 ^ 23).
Proof.
  intros Hr. change 0x00800000 with (2 ^ 23).
  rewrite land_pow2, Z.testbit_eqb by lia.
  destruct (Z.eqb_spec ((r / 2 ^ 23) mod 2) 1), (Z.ltb_spec r (2 ^ 23)); try done;
    Z.div_mod_to_equations; lia.
Qed.

Lemma unpack_pack_l24 s : sint 24 s -> unpack_l24 (pack_l24 s) = s.
Proof.
  unfold sint. intros Hs. unfold unpack_l24, pack_l24, get. cbn [nth].
  change 0xFF with (2 ^ 8 - 1). rewrite !field_value, land_mask by lia.
  set (b0 := (s / 2 ^ 16) mod 2 ^ 8). set (b1 := (s / 2 ^ 8) mod 2 ^ 8). set (b2 := s mod 2 ^ 8).
  assert (Hb0 : u8 b0) by (apply Z.mod_pos_bound; lia).
  assert (Hb1 : u8 b1) by (apply Z.mod_pos_bound; lia).
  assert (Hb2 : u8 b2) by (apply Z.mod_pos_bound; lia).
  rewrite raw_l24 by done. set (r := _ + _ + b2).
  assert (Hr : r = s mod 2 ^ 24) by (unfold r, b0, b1, b2; Z.div_mod_to_equations; lia).
  assert (Hrr : 0 <= r < 2 ^ 24) by (rewrite Hr; apply Z.mod_pos_bound; lia).
  rewrite bit23_clear by done. destruct (Z.ltb_spec r (2 ^ 23)) as [Hlt|Hge]; cbn [negb].
  - rewrite Hr in *. Z.div_mod_to_equations. lia.
  - rewrite Z.lor_comm. change 0xFF000000 with (Z.shiftl 255 24).
    rewrite lor_shiftl_add by lia.
    replace (255 * 2 ^ 24 + r) with (s + 1 * 2 ^ 32)
      by (rewrite Hr in *; Z.div_mod_to_equations; lia).
    rewrite <- (to_signed_wrap 32) by lia. unfold wrap. rewrite Z_mod_plus_full.
    fold (wrap 32 s). rewrite to_signed_wrap by lia. apply to_signed_id; unfold sint; lia.
Qed.

(** ** Interleaving *)

Section framing.
Context (full_scale decode_div : F32.f32) (width : nat).
Context (pack : Z -> bytes) (unpack : bytes -> Z).
Hypothesis Hwidth : (0 < width)%nat.
Hypothesis Hpack : forall s, length (pack s) = width.

Lemma length_encode_pcm frames ch :
  length (encode_pcm frames ch full_scale pack) =
  if (ch =? 0)%nat then 0%nat else (length frames / ch * ch * width)%nat.
Proof.
  unfold encode_pcm. destruct (Nat.eqb_spec ch 0); [done|].
  rewrite (length_bind_const _ width) by (intros [??]; apply Hpack).
  by rewrite length_pairs.
Qed.

(** The interleaved position of channel [c] of frame [i] carries the planar
    sample [c * num_frames + i]. *)
Lemma encode_pcm_sample frames ch i c (nf := (length frames / ch)%nat) :
  (i < nf)%nat -> (c < ch)%nat ->
  take width (drop ((i * ch + c) * width) (encode_pcm frames ch full_scale pack)) =
  pack (quantise full_scale (nth (c * nf + i) frames 0)).
Proof.
  intros Hi Hc. unfold encode_pcm. destruct (Nat.eqb_spec ch 0); [lia|].
  rewrite (bind_block _ width) with (x := (i, c)); [done| |].
  - by intros [??].
  - by apply pairs_lookup.
Qed.

Lemma length_decode_pcm bs ch :
  length (decode_pcm bs ch decode_div width unpack) =
  if (ch =? 0)%nat then 0%nat else (length bs / width / ch * ch)%nat.
Proof.
  unfold decode_pcm. destruct (Nat.eqb_spec ch 0); [done|].
  by rewrite length_fill, length_replicate.
Qed.

Lemma decode_pcm_sample bs ch i c (nf := (length bs / width / ch)%nat) :
  (i < nf)%nat -> (c < ch)%nat ->
  decode_pcm bs ch decode_div width unpack !! (c * nf + i)%nat =
  Some (dequantise decode_div (unpack (take width (drop ((i * ch + c) * width) bs)))).
Proof.
  intros Hi Hc. unfold decode_pcm. destruct (Nat.eqb_spec ch 0); [lia|]. fold nf.
  change (c * nf + i)%nat with ((fun '(i, c) => (c * nf + i)%nat) (i, c)).
  rewrite fill_lookup; [done|apply NoDup_planar|by apply elem_of_pairs|].
  rewrite length_replicate. nia.
Qed.

(** Decoding an encoded block restores the planar layout; samples beyond the
    last whole frame are dropped. *)
Lemma decode_encode_pcm frames ch :
  (0 < ch)%nat ->
  (forall x, unpack (pack (quantise full_scale x)) = quantise full_scale x) ->
  decode_pcm (encode_pcm frames ch full_scale pack) ch decode_div width unpack =
  (fun x => dequantise decode_div (quantise full_scale x)) <$>
    take (length frames / ch * ch) frames.
Proof.
  intros Hch Hun. set (nf := (length frames / ch)%nat).
  assert (Hnf : (nf * ch <= length frames)%nat)
    by (unfold nf; pose proof (Nat.div_mod (length frames) ch ltac:(lia)); nia).
  assert (Hlen : (length (encode_pcm frames ch full_scale pack) / width / ch)%nat = nf).
  { rewrite length_encode_pcm. destruct (Nat.eqb_spec ch 0); [lia|].
    rewrite !Nat.div_mul by lia. done. }
  apply list_eq_same_length with (n := (nf * ch)%nat).
  - rewrite length_fmap, length_take. lia.
  - rewrite length_decode_pcm. destruct (Nat.eqb_spec ch 0); [lia|]. by rewrite Hlen.
  - intros j x y Hj Hx Hy. destruct (planar_split nf ch j Hj) as (i & c & Hi & Hc & ->).
    pose proof (decode_pcm_sample (encode_pcm frames ch full_scale pack) ch i c) as Hd.
    cbv zeta in Hd. rewrite Hlen in Hd. rewrite (Hd Hi Hc) in Hx.
    rewrite encode_pcm_sample, Hun in Hx by done. fold nf in Hx.
    rewrite list_lookup_fmap, lookup_take_lt in Hy by done.
    destruct (lookup_lt_is_Some_2 frames (c * nf + i)) as [v Hv]; [lia|].
    rewrite Hv in Hy. rewrite (nth_lookup_Some _ _ _ _ Hv) in Hx.
    simpl in Hy. congruence.
Qed.
End framing.

Lemma length_pack_l16 s : length (pack_l16 s) = 2%nat.
Proof. done. Qed.
Lemma length_pack_l24 s : length (pack_l24 s) = 3%nat.
Proof. done. Qed.

Lemma decode_l16_encode_l16 frames ch :
  decode_l16 (encode_l16 frames ch) ch =
    (fun x => dequantise L16_DECODE_DIV (quantise L16_FULL_SCALE x)) <$>
      take (length frames / ch * ch) frames.
Proof.
  destruct (Nat.eq_dec ch O) as [->|]; [by rewrite Nat.mul_0_r|].
  apply decode_encode_pcm; [lia|apply length_pack_l16|lia|]. intros x.
  apply unpack_pack_l16. pose proof (quantise_l16_bound x). unfold sint. lia.
Qed.

(** L16 transport of a planar block, for every channel count and every
    block of [f32] bit patterns (NaNs, infinities and overdriven samples
    included): the payload has two bytes per sample of the whole frames, every
    quantised sample stays within [-32767, 32767] so that the cast to [i16]
    never wraps, and decoding returns the samples at their planar positions,
    each quantised once. *)
Theorem l16_transport (frames : list F32.f32) (ch : nat) :
  length (encode_l16 frames ch) = (length frames / ch * ch * 2)%nat /\
  (forall x, -32767 <= quantise L16_FULL_SCALE x <= 32767) /\
  decode_l16 (encode_l16 frames ch) ch =
    (fun x => dequantise L16_DECODE_DIV (quantise L16_FULL_SCALE x)) <$>
      take (length frames / ch * ch) frames.
Proof.
  split; [|split; [apply quantise_l16_bound|apply decode_l16_encode_l16]].
  unfold encode_l16. rewrite (length_encode_pcm _ 2) by apply length_pack_l16.
  destruct (Nat.eqb_spec ch 0) as [->|]; [by rewrite Nat.mul_0_r|done].
Qed.

(** The same for L24: three bytes per sample, samples within
    [-8388607, 8388607], and the sign extension of the decoder inverts the
    24-bit truncation of the encoder. *)
Theorem l24_transport (frames : list F32.f32) (ch : nat) :
  length (encode_l24 frames ch) = (length frames / ch * ch * 3)%nat /\
  (forall x, -8388607 <= quantise L24_FULL_SCALE x <= 8388607) /\
  decode_l24 (encode_l24 frames ch) ch =
    (fun x => dequantise L24_DECODE_DIV (quantise L24_FULL_SCALE x)) <$>
      take (length frames / ch * ch) frames.
Proof.
  unfold encode_l24, decode_l24.
  rewrite (length_encode_pcm _ 3) by apply length_pack_l24.
  destruct (Nat.eqb_spec ch 0) as [->|].
  - rewrite Nat.mul_0_r. split; [done|]. split; [apply quantise_l24_bound|done].
  - split; [done|]. split; [apply quantise_l24_bound|].
    apply decode_encode_pcm; [lia|apply length_pack_l24|lia|]. intros x.
    apply unpack_pack_l24. pose proof (quantise_l24_bound x). unfold sint. lia.
Qed.

(** The byte order and the sample order on a concrete stereo block:
    left [1.0, -1.0], right [0.0, 0.5]. *)
Example l16_stereo_bytes :
  encode_l16 [F32.one; F32.neg_one; F32.zero; F32.half] 2
  = [0x7F; 0xFF; 0; 0; 0x80; 0x01; 0x40; 0x00].
Proof. vm_compute. reflexivity. Qed.
