(* ===== verification/Jitter.v ===== *)
(** * The RTP receive-side jitter buffer

    [crates/net-rtp-aes67/src/jitter.rs].  Sequence numbers are [u16]; the
    [HashMap] of buffered packets is a [gmap].  Iteration over the map's keys
    has no defined order in the source, so [skip_gap] takes the enumeration as
    an argument and is proved not to depend on it. *)

From stdpp Require Import gmap fin_maps sorting.
From S2P Require Import Prelude.

Definition forward_distance (from to : Z) : Z := to_signed 16 (wrap 16 (to - from)).

Inductive PushOutcome (T : Type) : Type :=
| Accepted
| Duplicate
| Rejected (payload : T).
Arguments Accepted {T}.
Arguments Duplicate {T}.
Arguments Rejected {T} payload.

Record JitterBuffer (T : Type) : Type := {
  next_seq : option Z;
  buf : gmap Z T;
  capacity : nat
}.
Arguments next_seq {T}.
Arguments buf {T}.
Arguments capacity {T}.
Arguments Build_JitterBuffer {T}.

Section jitter.
Context {T : Type}.
Implicit Types j : JitterBuffer T.

Definition JitterBuffer_new (cap : nat) : JitterBuffer T :=
  {| next_seq := None; buf := ∅; capacity := cap |}.

Definition jitter_len j : nat := size (buf j).
Definition jitter_is_empty j : bool := (size (buf j) =? 0)%nat.

Definition set_next j n : JitterBuffer T :=
  {| next_seq := n; buf := buf j; capacity := capacity j |}.
Definition set_buf j b : JitterBuffer T :=
  {| next_seq := next_seq j; buf := b; capacity := capacity j |}.

Definition push j (seq : Z) (payload : T) : JitterBuffer T * PushOutcome T :=
  let late :=
    match next_seq j with
    | None => false
    | Some base => forward_distance base seq <? 0
    end in
  let j' := match next_seq j with None => set_next j (Some seq) | Some _ => j end in
  if late then (j, Duplicate)
  else if bool_decide (is_Some (buf j' !! seq)) then (j', Duplicate)
  else if (capacity j' <=? size (buf j'))%nat then (j', Rejected payload)
  else (set_buf j' (<[seq := payload]> (buf j')), Accepted).

Definition pop j : JitterBuffer T * option (Z * T) :=
  match next_seq j with
  | None => (j, None)
  | Some next =>
      match buf j !! next with
      | None => (j, None)
      | Some val =>
          (set_next (set_buf j (delete next (buf j))) (Some (wrap 16 (next + 1))),
           Some (next, val))
      end
  end.

(** The scan of [skip_gap]: the first key of least positive distance. *)
Definition scan_step (base : Z) (best : option (Z * Z)) (seq : Z) : option (Z * Z) :=
  let d := forward_distance base seq in
  if (0 <? d) && match best with None => true | Some (_, bd) => d <? bd end
  then Some (seq, d) else best.

Definition skip_gap_over (keys : list Z) j : JitterBuffer T * Z :=
  match next_seq j with
  | None => (j, 0)
  | Some base =>
      if bool_decide (is_Some (buf j !! base)) then (j, 0)
      else
        match foldl (scan_step base) None keys with
        | Some (seq, d) => (set_next j (Some seq), if 0 <=? d then d else 0)
        | None => (j, 0)
        end
  end.

(** One enumeration of the keys. *)
Definition map_keys (m : gmap Z T) : list Z := (map_to_list m).*1.

Definition skip_gap j : JitterBuffer T * Z := skip_gap_over (map_keys (buf j)) j.

(** ** The invariant

    Every buffered packet lies in the half window that starts at the next
    sequence number to emit, and the buffer respects its capacity. *)
Definition jitter_inv j : Prop :=
  (size (buf j) <= capacity j)%nat /\
  match next_seq j with
  | None => buf j = ∅
  | Some base => u16 base /\
      forall k v, buf j !! k = Some v -> u16 k /\ 0 <= forward_distance base k
  end.

(** ** Sequence arithmetic *)

Lemma fd_range a b : -32768 <= forward_distance a b < 32768.
Proof. apply (to_signed_sint 16). lia. Qed.

Lemma fd_cong a b : (a + forward_distance a b) mod 2 ^ 16 = b mod 2 ^ 16.
Proof.
  unfold forward_distance, to_signed, wrap.
  destruct (Z.ltb_spec (((b - a) mod 2 ^ 16) mod 2 ^ 16) (2 ^ (16 - 1)));
    Z.div_mod_to_equations; lia.
Qed.

Lemma fd_unique a b d :
  -32768 <= d < 32768 -> (a + d) mod 2 ^ 16 = b mod 2 ^ 16 -> forward_distance a b = d.
Proof.
  intros Hd Hm. pose proof (fd_range a b) as Hr. pose proof (fd_cong a b) as Hc.
  rewrite <- Hm in Hc. Z.div_mod_to_equations. lia.
Qed.

Lemma fd_self a : forward_distance a a = 0.
Proof. apply fd_unique; [lia|]. by rewrite Z.add_0_r. Qed.

(** Within the [u16] range the distance determines the sequence number. *)
Lemma fd_inj a b c :
  u16 b -> u16 c -> forward_distance a b = forward_distance a c -> b = c.
Proof.
  unfold uint. intros Hb Hc Heq.
  pose proof (fd_cong a b) as H1. pose proof (fd_cong a c) as H2.
  rewrite Heq in H1. rewrite H1 in H2. by rewrite !Z.mod_small in H2.
Qed.

(** Moving the base forward by [d] shortens every distance at least [d]. *)
Lemma fd_shift a a' b d :
  (a + d) mod 2 ^ 16 = a' mod 2 ^ 16 -> 0 <= d <= forward_distance a b ->
  forward_distance a' b = forward_distance a b - d.
Proof.
  intros Ha Hd. pose proof (fd_range a b). apply fd_unique; [lia|].
  rewrite <- (fd_cong a b). rewrite <- Zplus_mod_idemp_l, <- Ha, Zplus_mod_idemp_l.
  f_equal. lia.
Qed.

(** ** The scan finds the least positive distance *)

Lemma scan_spec base keys :
  match foldl (scan_step base) None keys with
  | None => forall k, k ∈ keys -> forward_distance base k <= 0
  | Some (s, d) => s ∈ keys /\ d = forward_distance base s /\ 0 < d /\
      forall k, k ∈ keys -> 0 < forward_distance base k -> d <= forward_distance base k
  end.
Proof.
  induction keys as [|k keys IH] using rev_ind; [by intros k ?%elem_of_nil|].
  rewrite foldl_snoc. unfold scan_step at 1.
  destruct (foldl (scan_step base) None keys) as [[s d]|].
  - destruct IH as (Hs & Hd & Hpos & Hmin).
    destruct (Z.ltb_spec 0 (forward_distance base k)) as [H0|H0]; cbn [andb];
      [destruct (Z.ltb_spec (forward_distance base k) d) as [H1|H1]|].
    + split; [rewrite elem_of_app, list_elem_of_singleton; auto|]. repeat split; auto.
      intros k' [Hk'| ->%list_elem_of_singleton]%elem_of_app Hp; [|lia]. specialize (Hmin k' Hk' Hp). lia.
    + split; [rewrite elem_of_app; auto|]. repeat split; auto.
      intros k' [Hk'| ->%list_elem_of_singleton]%elem_of_app Hp; [auto|lia].
    + split; [rewrite elem_of_app; auto|]. repeat split; auto.
      intros k' [Hk'| ->%list_elem_of_singleton]%elem_of_app Hp; [auto|lia].
  - destruct (Z.ltb_spec 0 (forward_distance base k)) as [H0|H0]; cbn [andb].
    + split; [rewrite elem_of_app, list_elem_of_singleton; auto|]. repeat split; auto.
      intros k' [Hk'| ->%list_elem_of_singleton]%elem_of_app Hp; [|lia]. specialize (IH k' Hk'). lia.
    + intros k' [Hk'| ->%list_elem_of_singleton]%elem_of_app; auto.
Qed.

Lemma elem_of_map_keys (m : gmap Z T) k : k ∈ map_keys m <-> is_Some (m !! k).
Proof.
  unfold map_keys. rewrite list_elem_of_fmap. split.
  - intros ([k' v] & -> & H%elem_of_map_to_list). by exists v.
  - intros [v H]. exists (k, v). by rewrite elem_of_map_to_list.
Qed.

(** ** Preservation *)

Lemma jitter_new_inv cap : jitter_inv (JitterBuffer_new cap).
Proof. split; [cbn; rewrite map_size_empty; lia|done]. Qed.

Lemma push_inv j seq p : jitter_inv j -> u16 seq -> jitter_inv (push j seq p).1.
Proof.
  intros Hj Hs. pose proof Hj as [Hsz Hn]. unfold push.
  destruct (next_seq j) as [base|] eqn:En.
  - destruct Hn as [Hb Hk].
    destruct (Z.ltb_spec (forward_distance base seq) 0); cbn [fst]; [done|].
    case_bool_decide as Hin; [done|].
    destruct (Nat.leb_spec (capacity j) (size (buf j))); [done|].
    split; cbn.
    + rewrite map_size_insert_None by (by apply eq_None_not_Some). lia.
    + rewrite En. split; [done|]. intros k v Hkv. rewrite lookup_insert in Hkv.
      destruct (decide (seq = k)) as [->|]; [done|eauto].
  - cbn. rewrite Hn, lookup_empty. case_bool_decide as Hin; [by destruct Hin|].
    rewrite map_size_empty.
    destruct (Nat.leb_spec (capacity j) 0); cbn; (split; cbn; [|split; [done|]]).
    + rewrite Hn, map_size_empty. lia.
    + intros k v. by rewrite Hn, lookup_empty.
    + rewrite insert_empty, map_size_singleton. lia.
    + intros k v. rewrite insert_empty, lookup_singleton. intros Hk.
      destruct (decide (seq = k)) as [->|]; [|done]. rewrite fd_self. done.
Qed.

Lemma pop_inv j : jitter_inv j -> jitter_inv (pop j).1.
Proof.
  intros Hj. pose proof Hj as [Hsz Hn]. unfold pop. destruct (next_seq j) as [base|] eqn:En;
    [|done].
  destruct Hn as [Hb Hk].
  destruct (buf j !! base) as [val|] eqn:Hv; [|done].
  split; cbn.
  - rewrite map_size_delete, Hv. lia.
  - split; [apply wrap_uint; lia|]. intros k v Hkv.
    rewrite lookup_delete in Hkv. destruct (decide (base = k)); [done|].
    destruct (Hk k v Hkv) as [Hu Hd]. split; [done|].
    assert (forward_distance base k <> 0).
    { intros H0. rewrite <- (fd_self base) in H0. by apply fd_inj in H0. }
    rewrite (fd_shift base (wrap 16 (base + 1)) k 1); [lia| |lia].
    unfold wrap. by rewrite Zmod_mod.
Qed.

(** What [skip_gap] does, for any enumeration of the keys. *)
Lemma skip_gap_over_spec keys j :
  jitter_inv j -> (forall k, k ∈ keys <-> is_Some (buf j !! k)) ->
  match next_seq j with
  | None => skip_gap_over keys j = (j, 0)
  | Some base =>
      (is_Some (buf j !! base) \/ buf j = ∅) /\ skip_gap_over keys j = (j, 0) \/
      exists s v, buf j !! base = None /\ buf j !! s = Some v /\
        0 < forward_distance base s /\
        (forall k w, buf j !! k = Some w -> forward_distance base s <= forward_distance base k) /\
        skip_gap_over keys j = (set_next j (Some s), forward_distance base s)
  end.
Proof.
  intros [_ Hn] Hkeys. unfold skip_gap_over. destruct (next_seq j) as [base|]; [|done].
  destruct Hn as [Hb Hk].
  case_bool_decide as Hin; [left; auto|].
  pose proof (scan_spec base keys) as Hscan.
  assert (Hpos : forall k w, buf j !! k = Some w -> 0 < forward_distance base k).
  { intros k w Hw. destruct (Hk k w Hw) as [Hu Hd].
    assert (forward_distance base k <> 0); [|lia]. intros H0.
    rewrite <- (fd_self base) in H0. apply fd_inj in H0; [subst|done..]. by destruct Hin. }
  destruct (foldl (scan_step base) None keys) as [[s d]|].
  - right. destruct Hscan as (Hs & -> & Hd & Hmin). apply Hkeys in Hs as [v Hv].
    exists s, v. split; [by apply eq_None_not_Some|]. split; [done|]. split; [done|].
    split.
    + intros k w Hw. apply Hmin; [apply Hkeys; by exists w|by eapply Hpos].
    + destruct (Z.leb_spec 0 (forward_distance base s)); [done|lia].
  - left. split; [|done]. right. apply map_empty. intros k.
    destruct (buf j !! k) as [w|] eqn:Hw; [|done].
    pose proof (Hscan k (proj2 (Hkeys k) (ex_intro _ w Hw))).
    pose proof (Hpos k w Hw). lia.
Qed.

Lemma skip_gap_inv j : jitter_inv j -> jitter_inv (skip_gap j).1.
Proof.
  intros Hj. pose proof (skip_gap_over_spec (map_keys (buf j)) j Hj
    (fun k => elem_of_map_keys _ k)) as Hs.
  unfold skip_gap. pose proof Hj as [Hsz Hn]. destruct (next_seq j) as [base|] eqn:En.
  2: { by rewrite Hs. }
  destruct Hs as [[_ ->]|(s & v & _ & Hv & Hd & Hmin & ->)]; [done|].
  split; [done|]. cbn. destruct Hn as [Hb Hk].
  split; [apply (Hk _ _ Hv)|]. intros k w Hw. split; [apply (Hk _ _ Hw)|].
  rewrite (fd_shift base s k (forward_distance base s)).
  - specialize (Hmin k w Hw). lia.
  - rewrite fd_cong. done.
  - specialize (Hmin k w Hw). lia.
Qed.

(** ** Runs of operations *)

Inductive jitter_op : Type :=
| OpPush (seq : Z) (payload : T)
| OpPop
| OpSkip.

Definition op_ok (o : jitter_op) : Prop :=
  match o with OpPush s _ => u16 s | _ => True end.

(** The buffer after an operation, the packet it emitted and the packet it
    accepted. *)
Definition jitter_step j (o : jitter_op) : JitterBuffer T * list (Z * T) * list (Z * T) :=
  match o with
  | OpPush s p =>
      let '(j', out) := push j s p in
      (j', [], match out with Accepted => [(s, p)] | _ => [] end)
  | OpPop => let '(j', r) := pop j in (j', option_list r, [])
  | OpSkip => ((skip_gap j).1, [], [])
  end.

Fixpoint jitter_run j (ops : list jitter_op) : JitterBuffer T * list (Z * T) * list (Z * T) :=
  match ops with
  | [] => (j, [], [])
  | o :: ops =>
      let '(j', em, ac) := jitter_step j o in
      let '(j'', ems, acs) := jitter_run j' ops in
      (j'', em ++ ems, ac ++ acs)
  end.

Lemma jitter_step_inv j o :
  jitter_inv j -> op_ok o -> jitter_inv (jitter_step j o).1.1.
Proof.
  intros Hj Ho. destruct o as [s p| |]; cbn in *.
  - pose proof (push_inv j s p Hj Ho). by destruct (push j s p).
  - pose proof (pop_inv j Hj). by destruct (pop j).
  - by apply skip_gap_inv.
Qed.

Lemma skip_gap_buf j : buf (skip_gap j).1 = buf j.
Proof.
  unfold skip_gap, skip_gap_over. destruct (next_seq j) as [b|]; [|done].
  case_bool_decide; [done|]. by destruct (foldl _ _ _) as [[??]|].
Qed.

Lemma push_buf j s p :
  buf (push j s p).1 = buf j /\ (push j s p).2 <> Accepted \/
  buf (push j s p).1 = <[s := p]> (buf j) /\ buf j !! s = None /\ (push j s p).2 = Accepted.
Proof.
  unfold push.
  destruct (match next_seq j with Some base => _ | None => false end); [by left|].
  set (j' := match next_seq j with Some _ => j | None => set_next j (Some s) end).
  assert (Hb : buf j' = buf j) by (unfold j'; by destruct (next_seq j)). rewrite Hb.
  case_bool_decide as Hin; [by left|].
  destruct (capacity j' <=? size (buf j))%nat; [by left|]. right. cbn.
  split; [done|]. split; [by apply eq_None_not_Some|done].
Qed.

(** No packet is lost or duplicated by one step. *)
Lemma jitter_step_conserve j o :
  let '(j', em, ac) := jitter_step j o in
  map_to_list (buf j) ++ ac ≡ₚ em ++ map_to_list (buf j').
Proof.
  destruct o as [s p| |]; cbn [jitter_step].
  - pose proof (push_buf j s p) as Hp. destruct (push j s p) as [j' out]. cbn in Hp.
    destruct Hp as [[-> Ho]|(-> & Hn & ->)].
    + destruct out; [done|..]; by rewrite app_nil_r.
    + rewrite map_to_list_insert by done. cbn. by rewrite Permutation_app_comm.
  - unfold pop. destruct (next_seq j) as [b|]; [|cbn; by rewrite app_nil_r].
    destruct (buf j !! b) as [v|] eqn:Hv; [|cbn; by rewrite app_nil_r]. cbn.
    rewrite app_nil_r. symmetry. by apply map_to_list_delete.
  - rewrite skip_gap_buf, app_nil_r. done.
Qed.

Lemma jitter_run_conserve j ops :
  Forall op_ok ops -> jitter_inv j ->
  let '(j', em, ac) := jitter_run j ops in
  jitter_inv j' /\ map_to_list (buf j) ++ ac ≡ₚ em ++ map_to_list (buf j').
Proof.
  intros Hops. revert j. induction Hops as [|o ops Ho Hops IH]; intros j Hj; cbn.
  - by rewrite app_nil_r.
  - pose proof (jitter_step_inv j o Hj Ho) as Hj'.
    pose proof (jitter_step_conserve j o) as Hc.
    destruct (jitter_step j o) as [[j' em] ac]. cbn in Hj'.
    specialize (IH j' Hj'). destruct (jitter_run j' ops) as [[j'' ems] acs].
    destruct IH as [Hinv Hp]. split; [done|].
    rewrite app_assoc, Hc, <- app_assoc, Hp. by rewrite app_assoc.
Qed.

(** ** Emission order

    [ascending lo ns]: the unbounded sequence numbers [ns] start at or after
    [lo], increase strictly, and each lies in the half window after its
    predecessor. *)
Fixpoint ascending (lo : Z) (ns : list Z) : Prop :=
  match ns with
  | [] => True
  | n :: ns => lo <= n <= lo + 32767 /\ ascending (n + 1) ns
  end.

(** The buffer's next number is [N]; a skip since the last emission moved it
    from [lo], in which case the packet at [N] is buffered. *)
Definition tracks j (lo N : Z) : Prop :=
  next_seq j = Some (wrap 16 N) /\ lo <= N <= lo + 32767 /\
  (N = lo \/ is_Some (buf j !! wrap 16 N)).

Lemma push_next j s p base :
  next_seq j = Some base -> next_seq (push j s p).1 = Some base.
Proof.
  intros Hn. unfold push. rewrite Hn.
  destruct (forward_distance base s <? 0); [done|].
  case_bool_decide; [done|]. by destruct (capacity j <=? size (buf j))%nat.
Qed.

Lemma step_tracks j o lo N :
  jitter_inv j -> tracks j lo N ->
  let '(j', em, _) := jitter_step j o in
  (em = [] /\ exists N', tracks j' lo N') \/
  (exists v, em = [(wrap 16 N, v)] /\ tracks j' (N + 1) (N + 1)).
Proof.
  intros Hj Ht. pose proof Ht as (Hn & HN & Hb). destruct o as [s p| |]; cbn [jitter_step].
  - pose proof (push_next j s p _ Hn) as Hn'. pose proof (push_buf j s p) as Hp.
    destruct (push j s p) as [j' out]. cbn in *. left. split; [done|]. exists N.
    split; [done|]. split; [done|]. destruct Hb as [Hb|Hb]; [by left|right].
    destruct Hp as [[-> _]|(-> & _)]; [done|]. rewrite lookup_insert. by case_decide.
  - unfold pop. rewrite Hn. destruct (buf j !! wrap 16 N) as [v|] eqn:Hv.
    + right. exists v. split; [done|]. split; [|split; [lia|by left]]. cbn.
      unfold wrap. by rewrite Zplus_mod_idemp_l.
    + left. split; [done|]. by exists N.
  - pose proof (skip_gap_over_spec (map_keys (buf j)) j Hj
      (fun k => elem_of_map_keys _ k)) as Hs. rewrite Hn in Hs. unfold skip_gap.
    left. split; [done|].
    destruct Hs as [[_ ->]|(s & v & Hnone & Hv & Hd & _ & ->)]; [by exists N|].
    destruct Hb as [->|Hb]; [|rewrite Hnone in Hb; by destruct Hb].
    exists (lo + forward_distance (wrap 16 lo) s).
    assert (Hw : wrap 16 (lo + forward_distance (wrap 16 lo) s) = s).
    { unfold wrap. rewrite <- Zplus_mod_idemp_l. fold (wrap 16 lo). rewrite fd_cong.
      apply Z.mod_small. destruct Hj as [_ Hk]. rewrite Hn in Hk. by eapply Hk. }
    pose proof (fd_range (wrap 16 lo) s).
    split; [cbn; by rewrite Hw|]. split; [lia|]. right. rewrite Hw. by exists v.
Qed.

Lemma run_ascending j ops lo N :
  Forall op_ok ops -> jitter_inv j -> tracks j lo N ->
  exists ns, (jitter_run j ops).1.2.*1 = wrap 16 <$> ns /\ ascending lo ns.
Proof.
  intros Hops. revert j lo N.
  induction Hops as [|o ops Ho Hops IH]; intros j lo N Hj Ht; cbn; [by exists []|].
  pose proof (jitter_step_inv j o Hj Ho) as Hj'.
  pose proof (step_tracks j o lo N Hj Ht) as Hs.
  destruct (jitter_step j o) as [[j' em] ac]. cbn in Hj'.
  destruct Hs as [[-> [N' Ht']]|(v & -> & Ht')];
    destruct (IH j' _ _ Hj' Ht') as (ns & Hns & Has);
    destruct (jitter_run j' ops) as [[j'' ems] acs]; cbn in *.
  - by exists ns.
  - exists (N :: ns). cbn. rewrite Hns. destruct Ht as (_ & HN & _). auto.
Qed.

Lemma run_ascending_new j ops :
  Forall op_ok ops -> jitter_inv j -> next_seq j = None ->
  exists lo ns, (jitter_run j ops).1.2.*1 = wrap 16 <$> ns /\ ascending lo ns.
Proof.
  intros Hops. revert j.
  induction Hops as [|o ops Ho Hops IH]; intros j Hj Hn; cbn; [by exists 0, []|].
  pose proof (jitter_step_inv j o Hj Ho) as Hj'.
  destruct o as [s p| |]; cbn [jitter_step] in *.
  - assert (Hn' : next_seq (push j s p).1 = Some s).
    { unfold push. rewrite Hn. cbn. case_bool_decide; [done|].
      by destruct (capacity j <=? size (buf j))%nat. }
    destruct (push j s p) as [j' out]. cbn in Hj', Hn', Ho.
    destruct (run_ascending j' ops s s Hops Hj') as (ns & Hns & Has).
    { split; [by rewrite wrap_id|]. split; [lia|by left]. }
    destruct (jitter_run j' ops) as [[j'' ems] acs]. by exists s, ns.
  - unfold pop in *. rewrite Hn in *. specialize (IH j Hj Hn).
    by destruct (jitter_run j ops) as [[j'' ems] acs].
  - assert (Hs : (skip_gap j).1 = j) by (unfold skip_gap, skip_gap_over; by rewrite Hn).
    rewrite Hs in *. specialize (IH j Hj Hn).
    by destruct (jitter_run j ops) as [[j'' ems] acs].
Qed.

(** The packet at the least distance, if any: what a pop yields after the gap
    before it has been skipped. *)
Lemma skip_then_pop j base :
  jitter_inv j -> next_seq j = Some base -> buf j <> ∅ ->
  exists s v,
    buf j !! s = Some v /\
    (forall k w, buf j !! k = Some w -> forward_distance base s <= forward_distance base k) /\
    (skip_gap j).2 = forward_distance base s /\
    pop (skip_gap j).1 =
      ({| next_seq := Some (wrap 16 (s + 1)); buf := delete s (buf j); capacity := capacity j |},
       Some (s, v)).
Proof.
  intros Hj Hn Hne.
  pose proof (skip_gap_over_spec (map_keys (buf j)) j Hj
    (fun k => elem_of_map_keys _ k)) as Hs. rewrite Hn in Hs. fold (skip_gap j) in Hs.
  destruct Hs as [[[[v Hv]|?] ->]|(s & v & _ & Hv & Hd & Hmin & ->)]; [|done|].
  - exists base, v. rewrite fd_self. split; [done|]. split.
    + intros k w Hw. destruct Hj as [_ Hk]. rewrite Hn in Hk. by eapply Hk.
    + split; [done|]. unfold pop. cbn. rewrite Hn, Hv. done.
  - exists s, v. split; [done|]. split; [done|]. split; [done|].
    unfold pop. cbn. by rewrite Hv.
Qed.

End jitter.
Arguments jitter_op : clear implicits.

(** ** Theorems *)

(** C3: no packet is lost or duplicated inside the buffer.  Whatever the
    sequence of pushes, pops and gap skips on a fresh buffer, the packets it
    accepted are, as a multiset, the packets it emitted together with the
    packets it still holds; it never holds more than its capacity, and every
    packet it holds lies in the half window ahead of the next number to emit. *)
Theorem jitter_exactly_once {T} (cap : nat) (ops : list (jitter_op T)) j em ac :
  Forall op_ok ops ->
  jitter_run (JitterBuffer_new cap) ops = (j, em, ac) ->
  ac ≡ₚ em ++ map_to_list (buf j) /\ jitter_inv j /\ (jitter_len j <= capacity j)%nat.
Proof.
  intros Hops Hr. pose proof (jitter_run_conserve _ ops Hops (jitter_new_inv cap)) as H.
  rewrite Hr in H. destruct H as [Hinv Hp]. cbn in Hp. rewrite map_to_list_empty in Hp.
  split; [done|]. split; [done|]. apply Hinv.
Qed.

Lemma jitter_exactly_once_witness :
  let ops := [OpPush 65535 10; OpPush 1 12; OpPush 0 11; OpPush 1 99; OpPop; OpPop] in
  exists j, jitter_run (JitterBuffer_new 4) ops = (j, [(65535, 10); (0, 11)], [(65535, 10); (1, 12); (0, 11)])
    /\ [(65535, 10); (1, 12); (0, 11)] ≡ₚ [(65535, 10); (0, 11)] ++ map_to_list (buf j).
Proof.
  intros ops. eexists. split; [vm_compute; reflexivity|].
  refine (proj1 (jitter_exactly_once 4 ops _ _ _ _ _)); [|vm_compute; reflexivity].
  repeat constructor; vm_compute; congruence.
Defined.

(** C10: packets leave the buffer in ascending sequence order, across the
    65535 to 0 boundary: the emitted 16-bit numbers are the residues of a
    strictly increasing sequence of unbounded numbers, each in the half window
    after its predecessor. *)
Theorem jitter_in_order {T} (cap : nat) (ops : list (jitter_op T)) :
  Forall op_ok ops ->
  exists lo ns,
    (jitter_run (JitterBuffer_new cap) ops).1.2.*1 = wrap 16 <$> ns /\ ascending lo ns.
Proof. intros Hops. apply run_ascending_new; [done|apply jitter_new_inv|done]. Qed.

Lemma jitter_in_order_witness :
  let ops := [OpPush 65534 0; OpPush 1 3; OpPush 65535 1; OpPop; OpPop; OpSkip; OpPop] in
  (jitter_run (JitterBuffer_new 4) ops).1.2.*1 = [65534; 65535; 1] /\
  exists lo ns, [65534; 65535; 1] = wrap 16 <$> ns /\ ascending lo ns.
Proof.
  intros ops. split; [vm_compute; reflexivity|].
  refine (jitter_in_order 4 ops _). repeat constructor; vm_compute; congruence.
Defined.

(** A gap is skipped to the right packet, whatever order the hash map
    lists its keys in.  On a non-empty buffer, [skip_gap] moves to the packet
    of least forward distance and reports that distance as the number of lost
    packets (0 when the awaited packet is there), and the next [pop] succeeds
    with that packet. *)
Theorem skip_gap_then_pop {T} (j : JitterBuffer T) (base : Z) (keys : list Z) :
  jitter_inv j -> next_seq j = Some base -> buf j <> ∅ ->
  keys ≡ₚ map_keys (buf j) ->
  skip_gap_over keys j = skip_gap j /\
  exists s v,
    buf j !! s = Some v /\
    (forall k w, buf j !! k = Some w -> forward_distance base s <= forward_distance base k) /\
    (skip_gap j).2 = forward_distance base s /\
    (pop (skip_gap j).1).2 = Some (s, v).
Proof.
  intros Hj Hn Hne Hperm. split.
  - assert (Hk : forall k, k ∈ keys <-> is_Some (buf j !! k))
      by (intros k; rewrite Hperm; apply elem_of_map_keys).
    pose proof (skip_gap_over_spec keys j Hj Hk) as H1.
    pose proof (skip_gap_over_spec (map_keys (buf j)) j Hj (fun k => elem_of_map_keys _ k)) as H2.
    fold (skip_gap j) in H2. rewrite Hn in H1, H2.
    destruct H1 as [[[Hs|?] ->]|(s & v & Hb & Hv & Hd & Hmin & ->)]; [|done|].
    + destruct H2 as [[_ ->]|(? & ? & Hb & _)]; [done|]. rewrite Hb in Hs. by destruct Hs.
    + destruct H2 as [[[Hs|?] _]|(s' & v' & _ & Hv' & _ & Hmin' & ->)];
        [rewrite Hb in Hs; by destruct Hs|done|].
      specialize (Hmin _ _ Hv'). specialize (Hmin' _ _ Hv).
      assert (s = s') as ->; [|done]. destruct Hj as [_ Hu]. rewrite Hn in Hu.
      destruct Hu as [_ Hu]. apply (fd_inj base); [by eapply Hu..|lia].
  - destruct (skip_then_pop j base Hj Hn Hne) as (s & v & ? & ? & ? & Hp).
    exists s, v. by rewrite Hp.
Qed.

Lemma skip_gap_then_pop_witness :
  let j : JitterBuffer Z := {| next_seq := Some 65530; buf := {[3 := 30; 65535 := 50]}; capacity := 4 |} in
  skip_gap_over [65535; 3] j = skip_gap j /\ (skip_gap j).2 = 5 /\
  (pop (skip_gap j).1).2 = Some (65535, 50).
Proof.
  intros j.
  assert (Hj : jitter_inv j).
  { split; [vm_compute; lia|]. split; [vm_compute; split; congruence|].
    intros k v Hk. subst j. cbn in Hk.
    rewrite lookup_insert in Hk. destruct (decide (3 = k)) as [<-|];
      [vm_compute; repeat split; congruence|].
    rewrite lookup_singleton in Hk. destruct (decide (65535 = k)) as [<-|]; [|done].
    vm_compute; repeat split; congruence. }
  refine (conj (proj1 (skip_gap_then_pop j 65530 [65535; 3] Hj eq_refl _ _)) _).
  - vm_compute. discriminate.
  - apply (bool_decide_eq_true_1 _). vm_compute. reflexivity.
  - split; vm_compute; reflexivity.
Defined.
