(* ===== verification/RtpTransport.v ===== *)
(** * UDP transport and the RTP worker loops

    [crates/net-rtp-aes67/src/transport.rs] and [worker.rs].  The socket is
    the environment: what a [recv] delivers and whether a [send] succeeds are
    arguments of a step.  One iteration of a worker loop is one step; sleeping
    and logging are not modelled. *)

From stdpp Require Import gmap fin_maps.
From S2P Require Import Prelude F32 External RtpCodec Jitter.

(** ** [UdpTransport] *)

Record UdpTransport : Type := {
  tx_seq : Z;
  tx_timestamp : Z;
  tx_ssrc : Z;
  tx_channels : Z
}.

(** An [io::Error], mapped by [io_to_network]. *)
Definition io_to_network (code : Z) : TransportError := Network (IoError code).

(** [nanos] is the wall clock since the epoch, [None] when it is before it. *)
Definition system_ssrc (nanos : option Z) : Z :=
  match nanos with
  | Some n => wrap 32 (wrap 64 n)
  | None => 0x0C0FFEEE
  end.

Definition UdpTransport_bind (bound timeout_set : result unit Z) (nanos : option Z)
    : result UdpTransport TransportError :=
  let? _ := map_err io_to_network bound in
  let? _ := map_err io_to_network timeout_set in
  Ok {| tx_seq := 0; tx_timestamp := 0; tx_ssrc := system_ssrc nanos; tx_channels := 2 |}.

Definition with_channels (t : UdpTransport) (channels : Z) : UdpTransport :=
  {| tx_seq := tx_seq t; tx_timestamp := tx_timestamp t; tx_ssrc := tx_ssrc t;
     tx_channels := channels |}.

(** The setters and queries that pass on to the socket; a failure to set the read
    timeout is ignored. *)
Definition with_read_timeout (t : UdpTransport) (timeout_set : result unit Z) : UdpTransport := t.
Definition set_peer (connected : result unit Z) : result unit TransportError := map_err io_to_network connected.
Definition local_addr {A} (addr : result A Z) : option A := match addr with Ok a => Some a | Err _ => None end.
Definition join_multicast (joined : result unit Z) : result unit TransportError := map_err io_to_network joined.

(** The receive buffer holds 65535 bytes; a longer datagram is cut. *)
Definition recv_rtp_with_seq (received : result bytes Z)
    : result (Z * bytes) TransportError :=
  let? datagram := map_err io_to_network received in
  let? packet := RtpPacket_parse (take (Z.to_nat 65535) datagram) in
  Ok (seq (header packet), payload packet).

Definition recv_rtp (received : result bytes Z) : result bytes TransportError :=
  let? datagram := map_err io_to_network received in
  let? packet := RtpPacket_parse (take (Z.to_nat 65535) datagram) in
  Ok (payload packet).

(** The clock moves on before the send is attempted, so a failed send leaves
    a gap in the stream.  Returns the new state, the datagram handed to the
    socket and the call's result. *)
Definition send_rtp (t : UdpTransport) (body : bytes) (codec : Codec) (sent : result unit Z)
    : UdpTransport * bytes * result unit TransportError :=
  let pt := codec_to_payload_type codec (tx_channels t) in
  let h := RtpHeader_new pt (tx_seq t) (tx_timestamp t) (tx_ssrc t) in
  let t' := {|
    tx_seq := wrap 16 (tx_seq t + 1);
    tx_timestamp := wrap 32 (tx_timestamp t
                             + timestamp_advance (length body) codec (tx_channels t));
    tx_ssrc := tx_ssrc t;
    tx_channels := tx_channels t
  |} in
  let datagram := RtpPacket_encode {| header := h; payload := body |} in
  (t', datagram, let? _ := map_err io_to_network sent in Ok tt).

(** ** Worker loops *)

Section worker.
Context {F : Type} `{AudioFrameOps F}.

(** [channels] as the [usize] the codec works with. *)
Definition decode_frame (channels sample_rate : Z) (body : bytes) : F :=
  from_planar channels sample_rate (decode_l16 body (Z.to_nat channels)).

(** [while let Some((_seq, payload)) = jitter.pop()]; the fuel bounds the
    iterations, [None] is running out of it. *)
Fixpoint pop_run (fuel : nat) (j : JitterBuffer bytes) (channels sample_rate : Z)
    (frames : list F) : option (JitterBuffer bytes * list F) :=
  match fuel with
  | O => None
  | S fuel =>
      match pop j with
      | (j', Some (_, body)) =>
          pop_run fuel j' channels sample_rate (frames ++ [decode_frame channels sample_rate body])
      | (j', None) => Some (j', frames)
      end
  end.

Fixpoint drain_loop (fuel : nat) (j : JitterBuffer bytes) (channels sample_rate : Z)
    (frames : list F) : option (JitterBuffer bytes * list F) :=
  match fuel with
  | O => None
  | S fuel =>
      match pop_run (S (jitter_len j)) j channels sample_rate frames with
      | None => None
      | Some (j, frames) =>
          if jitter_is_empty j then Some (j, frames)
          else
            let '(j, skipped) := skip_gap j in
            if skipped =? 0 then Some (j, frames)
            else drain_loop fuel j channels sample_rate frames
      end
  end.

(** Each round of the loop pops at least one packet, so the number of
    buffered packets plus one rounds suffice. *)
Definition drain_jitter (j : JitterBuffer bytes) (channels sample_rate : Z)
    : option (JitterBuffer bytes * list F) :=
  drain_loop (S (jitter_len j)) j channels sample_rate [].

Context {R : Type} `{RingOps R F}.

(** The [for] loop over the drained frames: it stops at the first full push. *)
Fixpoint push_frames (ring : R) (frames : list F) : R :=
  match frames with
  | [] => ring
  | f :: frames =>
      match ring_push ring f with
      | Ok ring' => push_frames ring' frames
      | Err _ => ring
      end
  end.

(** One iteration of the receive thread: [None] is the exit on an abandoned
    ring. *)
Definition rtp_recv_cycle (channels sample_rate : Z) (abandoned : bool)
    (received : result bytes Z) (st : JitterBuffer bytes * R)
    : option (JitterBuffer bytes * R) :=
  let '(jitter, inbound) := st in
  if abandoned then None
  else
    match recv_rtp_with_seq received with
    | Ok (sq, body) =>
        let '(jitter, _) := push jitter sq body in
        match drain_jitter jitter channels sample_rate with
        | Some (jitter, frames) => Some (jitter, push_frames inbound frames)
        | None => None
        end
    | Err _ => Some (jitter, inbound)
    end.

(** The thread on a sequence of socket results, the consumer staying alive. *)
Fixpoint rtp_recv_loop (channels sample_rate : Z) (events : list (result bytes Z))
    (st : JitterBuffer bytes * R) : option (JitterBuffer bytes * R) :=
  match events with
  | [] => Some st
  | ev :: events =>
      match rtp_recv_cycle channels sample_rate false ev st with
      | Some st => rtp_recv_loop channels sample_rate events st
      | None => None
      end
  end.

Definition rtp_recv_init : JitterBuffer bytes := JitterBuffer_new 64.

(** One iteration of the send thread: the datagrams handed to the socket. *)
Definition rtp_send_cycle (channels : Z) (abandoned : bool) (sent : result unit Z)
    (st : UdpTransport * R) : option (UdpTransport * R * list bytes) :=
  let '(transport, outbound) := st in
  if abandoned then None
  else
    match ring_pop outbound with
    | Some (f, outbound) =>
        let body := encode_l16 (frame_samples f) (Z.to_nat channels) in
        let '(transport, datagram, _) := send_rtp transport body PcmL16 sent in
        Some (transport, outbound, [datagram])
    | None => Some (transport, outbound, [])
    end.

(** [n] iterations with a socket that accepts every datagram. *)
Fixpoint rtp_send_loop (channels : Z) (n : nat) (st : UdpTransport * R)
    : option (UdpTransport * R * list bytes) :=
  match n with
  | O => Some (st, [])
  | S n =>
      match rtp_send_cycle channels false (Ok tt) st with
      | None => None
      | Some (transport, outbound, out) =>
          match rtp_send_loop channels n (transport, outbound) with
          | None => None
          | Some (st, outs) => Some (st, out ++ outs)
          end
      end
  end.

End worker.

(** ** Draining *)

(** [j'] is reached from [j] by pops and skips that emit [em]. *)
Definition drains {T} (j j' : JitterBuffer T) (em : list (Z * T)) : Prop :=
  exists ops, Forall op_ok ops /\ jitter_run j ops = (j', em, []).

Lemma drains_refl {T} (j : JitterBuffer T) : drains j j [].
Proof. by exists []. Qed.

Lemma jitter_run_app {T} (j : JitterBuffer T) ops1 ops2 :
  jitter_run j (ops1 ++ ops2) =
  let '(j1, em1, ac1) := jitter_run j ops1 in
  let '(j2, em2, ac2) := jitter_run j1 ops2 in (j2, em1 ++ em2, ac1 ++ ac2).
Proof.
  revert j. induction ops1 as [|o ops1 IH]; intros j; cbn.
  - by destruct (jitter_run j ops2) as [[??]?].
  - destruct (jitter_step j o) as [[j' em] ac]. rewrite IH.
    destruct (jitter_run j' ops1) as [[j1 em1] ac1].
    destruct (jitter_run j1 ops2) as [[j2 em2] ac2]. by rewrite !app_assoc.
Qed.

Lemma drains_trans {T} (j1 j2 j3 : JitterBuffer T) em1 em2 :
  drains j1 j2 em1 -> drains j2 j3 em2 -> drains j1 j3 (em1 ++ em2).
Proof.
  intros (o1 & H1 & E1) (o2 & H2 & E2). exists (o1 ++ o2).
  split; [by apply Forall_app|]. by rewrite jitter_run_app, E1, E2.
Qed.

Lemma drains_inv {T} (j j' : JitterBuffer T) em :
  jitter_inv j -> drains j j' em ->
  jitter_inv j' /\ map_to_list (buf j) ≡ₚ em ++ map_to_list (buf j').
Proof.
  intros Hj (ops & Hops & E). pose proof (jitter_run_conserve j ops Hops Hj) as H.
  rewrite E in H. by rewrite app_nil_r in H.
Qed.

Lemma drains_pop {T} (j j' : JitterBuffer T) s v :
  pop j = (j', Some (s, v)) -> drains j j' [(s, v)].
Proof. intros H. exists [OpPop]. split; [by repeat constructor|]. cbn. by rewrite H. Qed.

Lemma drains_skip {T} (j : JitterBuffer T) : drains j (skip_gap j).1 [].
Proof. exists [OpSkip]. split; [by repeat constructor|done]. Qed.

Lemma pop_size {T} (j j' : JitterBuffer T) s v :
  pop j = (j', Some (s, v)) -> size (buf j) = S (size (buf j')).
Proof.
  unfold pop. destruct (next_seq j) as [b|]; [|done].
  destruct (buf j !! b) as [w|] eqn:Hb; [|done]. intros [= <- <- <-]. cbn.
  rewrite map_size_delete, Hb.
  assert (size (buf j) <> 0%nat) by (rewrite map_size_non_empty_iff; intros He; by rewrite He in Hb).
  lia.
Qed.

Lemma pop_none {T} (j j' : JitterBuffer T) : pop j = (j', None) -> j' = j.
Proof.
  unfold pop. destruct (next_seq j) as [b|]; [|by intros [= ->]].
  by destruct (buf j !! b); intros [= ->].
Qed.

(** The next number after emitting [em] from a buffer that awaited [n]. *)
Definition next_after {T} (n : option Z) (em : list (Z * T)) : option Z :=
  match last em with Some (s, _) => Some (wrap 16 (s + 1)) | None => n end.

Lemma next_after_cons {T} n s (v : T) em :
  next_after n ((s, v) :: em) = next_after (Some (wrap 16 (s + 1))) em.
Proof. unfold next_after. by destruct em as [|e em] using rev_ind; rewrite ?app_comm_cons, ?last_snoc. Qed.

Lemma next_after_app {T} n (em1 em2 : list (Z * T)) :
  em2 <> [] -> next_after n (em1 ++ em2) = next_after n em2.
Proof.
  intros He. unfold next_after. destruct em2 as [|e em2 _] using rev_ind; [done|].
  by rewrite app_assoc, !last_snoc.
Qed.

Lemma pop_next {T} (j j' : JitterBuffer T) s v :
  pop j = (j', Some (s, v)) -> next_seq j' = Some (wrap 16 (s + 1)).
Proof.
  unfold pop. destruct (next_seq j) as [b|]; [|done].
  destruct (buf j !! b) as [w|]; [|done]. by intros [= <- <- <-].
Qed.

Section worker_facts.
Context {F : Type} `{AudioFrameOps F} (channels sample_rate : Z).

Abbreviation frames_of em := ((fun p => decode_frame channels sample_rate (p.2)) <$> em).

Lemma pop_run_spec fuel (j : JitterBuffer bytes) (frames : list F) :
  (jitter_len j < fuel)%nat ->
  exists j' em,
    pop_run fuel j channels sample_rate frames = Some (j', frames ++ frames_of em) /\
    drains j j' em /\ pop j' = (j', None) /\
    (jitter_len j' + length em = jitter_len j)%nat /\ (em = [] -> j' = j) /\
    next_seq j' = next_after (next_seq j) em.
Proof.
  unfold jitter_len. revert j frames. induction fuel as [|fuel IH]; intros j frames Hf; [lia|].
  cbn [pop_run]. destruct (pop j) as [j' [[s v]|]] eqn:Hp.
  - pose proof (pop_size _ _ _ _ Hp) as Hs.
    destruct (IH j' (frames ++ [decode_frame channels sample_rate v])) as (j2 & em & E & Hd & Hn & Hl & _ & Hx);
      [lia|].
    exists j2, ((s, v) :: em). rewrite E. split; [by rewrite <- app_assoc|].
    split; [|split; [done|split; [cbn [length]; lia|split; [done|]]]].
    2: { by rewrite next_after_cons, Hx, (pop_next _ _ _ _ Hp). }
    apply (drains_trans j j' j2 [(s, v)]); [by apply drains_pop|done].
  - pose proof (pop_none _ _ Hp) as ->. exists j, []. rewrite app_nil_r.
    split; [done|]. split; [apply drains_refl|]. split; [done|]. split; [cbn; lia|done].
Qed.

(** A round that starts with the awaited packet present pops at least one;
    only the first round can pop none. *)
Lemma drain_loop_spec fuel (j : JitterBuffer bytes) (frames : list F) :
  jitter_inv j ->
  (jitter_len j < fuel \/ 0 < fuel /\ jitter_len j <= fuel /\ (pop j).2 <> None)%nat ->
  exists j' em,
    drain_loop fuel j channels sample_rate frames = Some (j', frames ++ frames_of em) /\
    drains j j' em /\ buf j' = ∅ /\ next_seq j' = next_after (next_seq j) em.
Proof.
  revert j frames. induction fuel as [|fuel IH]; intros j frames Hj Hf; [lia|].
  cbn [drain_loop].
  destruct (pop_run_spec (S (jitter_len j)) j frames)
    as (j1 & em1 & -> & Hd1 & Hn1 & Hl1 & He1 & Hx1); [lia|].
  destruct (drains_inv _ _ _ Hj Hd1) as [Hj1 _]. unfold jitter_is_empty.
  destruct (Nat.eqb_spec (size (buf j1)) 0) as [He|He].
  { exists j1, em1. split; [done|]. split; [done|]. by rewrite map_size_empty_iff in He. }
  assert (Hsz : (0 < jitter_len j1)%nat) by (unfold jitter_len; lia).
  apply map_size_non_empty_iff in He.
  destruct (next_seq j1) as [base|] eqn:Hb.
  2: { destruct Hj1 as [_ Hk]. rewrite Hb in Hk. by destruct He. }
  destruct (skip_then_pop j1 base Hj1 Hb He) as (s & v & Hv & Hmin & Hsk & Hp2).
  pose proof (drains_skip j1) as Hd2. pose proof (skip_gap_inv j1 Hj1) as Hj2.
  pose proof (skip_gap_buf j1) as Hb2.
  destruct (skip_gap j1) as [j2 k]. cbn in Hsk, Hp2, Hd2, Hj2, Hb2. subst k.
  destruct (Z.eqb_spec (forward_distance base s) 0) as [H0|_].
  { exfalso. assert (s = base) as ->.
    { destruct Hj1 as [_ Hk]. rewrite Hb in Hk. destruct Hk as [Hu Hk].
      apply (fd_inj base); [by eapply Hk|done|]. by rewrite fd_self. }
    unfold pop in Hn1. rewrite Hb, Hv in Hn1. done. }
  destruct (IH j2 (frames ++ frames_of em1)) as (j3 & em3 & -> & Hd3 & He3 & Hx3); [done| |].
  - right. unfold jitter_len in *. rewrite Hb2, Hp2.
    assert (size (buf j1) <= fuel)%nat; [|split; [lia|done]].
    destruct Hf as [?|(_ & ? & Hp)]; [lia|].
    destruct em1 as [|e em1]; [|cbn [length] in Hl1; lia].
    rewrite (He1 eq_refl) in Hn1. by rewrite Hn1 in Hp.
  - exists j3, (em1 ++ em3). rewrite fmap_app, app_assoc. split; [done|].
    assert (Hem3 : em3 <> []).
    { intros ->. destruct (drains_inv _ _ _ Hj2 Hd3) as [_ Hp3].
      rewrite He3, map_to_list_empty in Hp3. apply Permutation_nil_r in Hp3.
      apply map_to_list_empty_iff in Hp3. by rewrite Hb2 in Hp3. }
    split; [|split; [done|]].
    + apply (drains_trans _ j2); [|done].
      rewrite <- (app_nil_r em1). by apply (drains_trans _ j1).
    + rewrite next_after_app by done. rewrite Hx3. unfold next_after.
      by destruct em3 as [|e em3 _] using rev_ind; rewrite ?last_snoc.
Qed.

Lemma drain_jitter_spec (j : JitterBuffer bytes) :
  jitter_inv j ->
  exists j' em,
    drain_jitter j channels sample_rate = Some (j', frames_of em) /\
    drains j j' em /\ buf j' = ∅ /\ next_seq j' = next_after (next_seq j) em.
Proof. intros Hj. apply (drain_loop_spec _ j []); [done|]. left. lia. Qed.

End worker_facts.

(** ** The receive thread *)

Section receive.
Context {F : Type} `{AudioFrameLaws F} {R : Type} `{RingLaws R F}.
Variables (channels sample_rate : Z).
Implicit Types (ring : R) (j : JitterBuffer bytes).

(** What the thread does, without a reorder buffer: keep a packet that is not
    behind the next expected number, forward its decoded block if the ring has
    room, and expect the number after it. *)
Definition recv_spec_step (st : option Z * R) (ev : result bytes Z) : option Z * R :=
  let '(next, ring) := st in
  match recv_rtp_with_seq ev with
  | Err _ => st
  | Ok (sq, body) =>
      if match next with Some base => forward_distance base sq <? 0 | None => false end
      then st
      else (Some (wrap 16 (sq + 1)),
            match ring_push ring (decode_frame channels sample_rate body) with
            | Ok ring' => ring'
            | Err _ => ring
            end)
  end.

Definition ev_ok (ev : result bytes Z) : Prop :=
  match ev with Ok d => byte_list d | Err _ => True end.

#[global] Instance ev_ok_dec ev : Decision (ev_ok ev).
Proof. destruct ev; apply _. Defined.

Lemma recv_seq_u16 ev sq body :
  ev_ok ev -> recv_rtp_with_seq ev = Ok (sq, body) -> u16 sq.
Proof.
  intros Hev. unfold recv_rtp_with_seq. destruct ev as [d|e]; [|done]. cbn [map_err rbind].
  intros Hr. apply rbind_ok in Hr as (p & Hp & [= <- <-]).
  apply rtp_packet_parse_wf in Hp; [by apply Hp|]. by apply Forall_take.
Qed.

(** The thread's states between iterations: nothing is buffered. *)
Definition idle (cap : nat) j : Prop :=
  buf j = ∅ /\ capacity j = cap /\ match next_seq j with Some b => u16 b | None => True end.

Lemma idle_inv cap j : idle cap j -> jitter_inv j.
Proof.
  intros (Hb & Hc & Hn). split; [rewrite Hb, map_size_empty; lia|].
  destruct (next_seq j); [|done]. split; [done|]. intros k v. by rewrite Hb, lookup_empty.
Qed.

Lemma drains_capacity (j j' : JitterBuffer bytes) em : drains j j' em -> capacity j' = capacity j.
Proof.
  intros (ops & _ & E). revert j em j' E.
  enough (forall ops j, capacity (jitter_run j ops).1.1 = capacity j) as Hc
    by (intros j em j' E; specialize (Hc ops j); by rewrite E in Hc).
  clear. induction ops as [|o ops IH]; intros j; [done|]. cbn.
  assert (Hs : capacity (jitter_step j o).1.1 = capacity j).
  { destruct o as [s p| |]; cbn.
    - destruct (push j s p) as [j' out] eqn:Hp. cbn. unfold push in Hp.
      destruct (next_seq j); repeat (case_match; simplify_eq; try done).
    - unfold pop. by repeat (case_match; simplify_eq; try done).
    - unfold skip_gap, skip_gap_over. by repeat (case_match; simplify_eq; try done). }
  destruct (jitter_step j o) as [[j' em] ac]. cbn in Hs. rewrite <- Hs, <- (IH j').
  by destruct (jitter_run j' ops) as [[??]?].
Qed.

Lemma recv_cycle_refines cap j ring ev :
  (0 < cap)%nat -> idle cap j -> ev_ok ev ->
  exists j', rtp_recv_cycle channels sample_rate false ev (j, ring)
      = Some (j', (recv_spec_step (next_seq j, ring) ev).2) /\
    idle cap j' /\ next_seq j' = (recv_spec_step (next_seq j, ring) ev).1.
Proof.
  intros Hcap Hidle Hev. pose proof (idle_inv _ _ Hidle) as Hj.
  destruct Hidle as (Hb & Hc & Hn). unfold rtp_recv_cycle, recv_spec_step.
  destruct (recv_rtp_with_seq ev) as [[sq body]|e] eqn:Hr; [|by exists j].
  pose proof (recv_seq_u16 _ _ _ Hev Hr) as Hu.
  pose proof (push_inv j sq body Hj Hu) as Hj1.
  destruct (match next_seq j with Some _ => _ | None => _ end) eqn:Hlate.
  - assert (Hp : push j sq body = (j, Duplicate)) by (unfold push; by rewrite Hlate).
    rewrite Hp. destruct (drain_jitter_spec channels sample_rate j Hj) as (j' & em & -> & Hd & He & Hx).
    pose proof (drains_capacity _ _ _ Hd) as Hcj.
    destruct (drains_inv _ _ _ Hj Hd) as [_ Hperm].
    rewrite Hb, He, map_to_list_empty, app_nil_r in Hperm. apply Permutation_nil_l in Hperm as <-.
    cbn in Hx |- *. exists j'. split; [done|]. rewrite Hx. split; [|done].
    split; [done|]. rewrite Hcj, Hx. done.
  - set (n1 := match next_seq j with Some b => Some b | None => Some sq end).
    set (j1 := {| next_seq := n1; buf := {[sq := body]}; capacity := cap |}).
    assert (Hp : push j sq body = (j1, Accepted)).
    { unfold push. rewrite Hlate. unfold j1, n1.
      destruct (next_seq j) as [b|] eqn:En; cbn; rewrite ?En, Hb, lookup_empty;
        (case_bool_decide as Hin; [by destruct Hin|]);
        rewrite map_size_empty, Hc; (destruct (Nat.leb_spec cap 0); [lia|]);
        unfold set_buf; cbn; by rewrite ?En, ?Hb, ?Hc. }
    rewrite Hp in Hj1 |- *. cbn in Hj1.
    destruct (drain_jitter_spec channels sample_rate j1 Hj1) as (j' & em & -> & Hd & He & Hx).
    pose proof (drains_capacity _ _ _ Hd) as Hcj.
    destruct (drains_inv _ _ _ Hj1 Hd) as [_ Hperm].
    cbn in Hperm. rewrite map_to_list_singleton, He, map_to_list_empty, app_nil_r in Hperm.
    apply Permutation_singleton_l in Hperm as <-. cbn in Hx |- *.
    exists j'. split; [by destruct (ring_push _ _)|]. split; [|done].
    split; [done|]. rewrite Hx. split; [done|]. apply wrap_uint. lia.
Qed.

Lemma recv_loop_refines cap j ring evs :
  (0 < cap)%nat -> idle cap j -> Forall ev_ok evs ->
  exists j', rtp_recv_loop channels sample_rate evs (j, ring)
      = Some (j', (foldl recv_spec_step (next_seq j, ring) evs).2) /\
    idle cap j' /\ next_seq j' = (foldl recv_spec_step (next_seq j, ring) evs).1.
Proof.
  intros Hcap Hidle Hevs. revert j ring Hidle.
  induction Hevs as [|ev evs Hev Hevs IH]; intros j ring Hidle; [by exists j|].
  cbn [rtp_recv_loop foldl].
  destruct (recv_cycle_refines cap j ring ev Hcap Hidle Hev) as (j' & -> & Hidle' & Hn).
  destruct (IH j' (recv_spec_step (next_seq j, ring) ev).2 Hidle') as (j'' & -> & ? & ?).
  rewrite Hn in *. rewrite <- surjective_pairing in *. by exists j''.
Qed.
End receive.

(** ** Sender and receiver composed *)

Lemma encode_l16_bytes frames ch : byte_list (encode_l16 frames ch).
Proof.
  unfold encode_l16, encode_pcm, byte_list. destruct (Nat.eqb_spec ch 0); [constructor|].
  apply Forall_bind, Forall_true. intros [i c]. apply be_bytes_u8.
Qed.

Definition tx_wf (t : UdpTransport) : Prop :=
  u16 (tx_seq t) /\ u32 (tx_timestamp t) /\ u32 (tx_ssrc t).

Lemma send_rtp_wf t body codec sent : tx_wf t -> tx_wf (send_rtp t body codec sent).1.1.
Proof.
  intros (Hs & Ht & Hr). unfold send_rtp. cbn.
  split; [apply wrap_uint; lia|]. split; [apply wrap_uint; lia|done].
Qed.

(** The datagram of a send is received as its number and its payload. *)
Lemma send_recv_rtp t body sent :
  tx_wf t -> byte_list body -> 12 + Z.of_nat (length body) <= 65535 ->
  let d := (send_rtp t body PcmL16 sent).1.2 in
  byte_list d /\ recv_rtp_with_seq (Ok d) = Ok (tx_seq t, body).
Proof.
  intros (Hs & Ht & Hr) Hb Hl d. unfold d, send_rtp. cbn [fst snd].
  set (h := RtpHeader_new _ _ _ _).
  assert (Hwf : wf_header h).
  { unfold h, RtpHeader_new, wf_header, codec_to_payload_type. cbn [version csrc_count payload_type
      seq timestamp ssrc]. split; [done|]. split; [lia|].
    split; [|done]. by destruct (2 <=? tx_channels t). }
  split.
  - apply Forall_app. split; [apply RtpHeader_encode_bytes|done].
  - unfold recv_rtp_with_seq. cbn [map_err rbind].
    rewrite take_ge by (unfold RtpPacket_encode; rewrite length_app, length_RtpHeader_encode;
      unfold RTP_HEADER_LEN; cbn [payload]; lia).
    rewrite rtp_packet_encode_parse by done. done.
Qed.

Section end_to_end.
Context {F : Type} `{AudioFrameLaws F} {R S : Type} `{RingLaws R F} `{RingLaws S F}.
Variables (channels sample_rate : Z).

(** A block as it arrives: cut to whole frames and quantised to 16 bits. *)
Definition as_received (f : F) : F :=
  let samples := frame_samples f in
  let ch := Z.to_nat channels in
  from_planar channels sample_rate
    ((fun x => dequantise L16_DECODE_DIV (quantise L16_FULL_SCALE x)) <$>
       take (length samples / ch * ch) samples).

Definition fits (f : F) : Prop :=
  12 + Z.of_nat (length (encode_l16 (frame_samples f) (Z.to_nat channels))) <= 65535.

Lemma send_loop_recv_spec (fs : list F) t (out : R) (inb : S) next :
  tx_wf t -> ring_items out = fs -> Forall fits fs ->
  (next = None \/ next = Some (tx_seq t)) ->
  (length (ring_items inb) + length fs <= ring_capacity inb)%nat ->
  exists t' out' ds,
    rtp_send_loop channels (length fs) (t, out) = Some (t', out', ds) /\
    ring_items out' = [] /\ tx_wf t' /\ Forall byte_list ds /\
    ring_items (foldl (recv_spec_step channels sample_rate) (next, inb) (Ok <$> ds)).2
      = ring_items inb ++ (as_received <$> fs).
Proof.
  intros Ht Hout Hfit. revert t out inb next Ht Hout.
  induction Hfit as [|f fs Hf Hfs IH]; intros t out inb next Ht Hout Hn Hcap.
  - exists t, out, []. cbn. rewrite app_nil_r. auto using Forall_nil_2.
  - destruct (ring_pop_cons out f fs Hout) as (out1 & Hpop & Hitems & _).
    set (body := encode_l16 (frame_samples f) (Z.to_nat channels)).
    pose proof (send_rtp_wf t body PcmL16 (Ok tt) Ht) as Ht1.
    destruct (send_recv_rtp t body (Ok tt) Ht (encode_l16_bytes _ _) Hf) as [Hbd Hrecv].
    cbn [length rtp_send_loop]. unfold rtp_send_cycle. rewrite Hpop. fold body.
    destruct (send_rtp t body PcmL16 (Ok tt)) as [[t1 d] res] eqn:Es. cbn [fst snd] in Ht1, Hbd, Hrecv.
    destruct (ring_push_ok inb (decode_frame channels sample_rate body)) as (inb1 & Hpush & Hi1 & Hc1);
      [cbn in Hcap; lia|].
    destruct (IH t1 out1 inb1 (Some (tx_seq t1)) Ht1 Hitems) as (t' & out' & ds & E & ? & ? & ? & Hfold);
      [by right|rewrite Hi1, Hc1, length_app; cbn in *; lia|].
    exists t', out', (d :: ds). rewrite E. split; [done|]. split; [done|]. split; [done|].
    split; [by constructor|]. cbn [fmap list_fmap foldl].
    assert (Hstep : recv_spec_step channels sample_rate (next, inb) (Ok d)
                    = (Some (tx_seq t1), inb1)).
    { unfold recv_spec_step. rewrite Hrecv, Hpush.
      assert (Hlate : match next with Some b => forward_distance b (tx_seq t) <? 0 | None => false end = false)
        by (destruct Hn as [-> | ->]; [done|by rewrite fd_self]).
      rewrite Hlate. unfold send_rtp in Es. by injection Es as <- _ _. }
    assert (Hdec : decode_frame channels sample_rate body = as_received f)
      by (unfold as_received, decode_frame, body; by rewrite decode_l16_encode_l16).
    rewrite Hstep. etrans; [exact Hfold|]. by rewrite Hi1, Hdec, <- app_assoc.
Qed.
End end_to_end.

(** ** Theorems *)

(** C20: [drain_jitter] terminates on every well-formed buffer and leaves it
    empty: it emits each buffered packet exactly once, decoded, in ascending
    sequence order from the next expected number on, skipping every gap. *)
Theorem drain_jitter_complete {F} `{AudioFrameOps F} (channels sample_rate base : Z)
    (j : JitterBuffer bytes) :
  jitter_inv j -> next_seq j = Some base ->
  exists j' packets ns,
    drain_jitter j channels sample_rate =
      Some (j', (fun p => decode_frame channels sample_rate (p.2)) <$> packets) /\
    packets ≡ₚ map_to_list (buf j) /\
    packets.*1 = wrap 16 <$> ns /\ ascending base ns /\
    buf j' = ∅ /\ jitter_inv j'.
Proof.
  intros Hj Hn. destruct (drain_jitter_spec channels sample_rate j Hj) as (j' & em & E & Hd & He & _).
  destruct (drains_inv _ _ _ Hj Hd) as [Hj' Hp]. rewrite He, map_to_list_empty, app_nil_r in Hp.
  destruct Hd as (ops & Hops & Hr).
  destruct (run_ascending j ops base base Hops Hj) as (ns & Hns & Has).
  - split; [|split; [lia|by left]]. destruct Hj as [_ Hu]. rewrite Hn in Hu |- *.
    by rewrite wrap_id by apply Hu.
  - rewrite Hr in Hns. exists j', em, ns. by split_and!.
Qed.

Lemma drain_jitter_complete_witness :
  let j : JitterBuffer bytes :=
    {| next_seq := Some 65535; buf := {[0 := [0; 1]; 65535 := [0; 2]]}; capacity := 4 |} in
  (exists j', drain_jitter (F := plain_frame) j 1 48000 =
     Some (j', [Build_plain_frame 1 48000 [0x38800000]; Build_plain_frame 1 48000 [0x38000000]])) /\
  exists j' packets ns,
    drain_jitter (F := plain_frame) j 1 48000 =
      Some (j', (fun p => decode_frame 1 48000 (p.2)) <$> packets) /\
    packets ≡ₚ map_to_list (buf j) /\
    packets.*1 = wrap 16 <$> ns /\ ascending 65535 ns /\ buf j' = ∅ /\ jitter_inv j'.
Proof.
  intros j. split; [eexists; vm_compute; reflexivity|].
  refine (drain_jitter_complete 1 48000 65535 j _ eq_refl).
  split; [vm_compute; lia|]. split; [vm_compute; split; congruence|].
  intros k v Hk. subst j. cbn in Hk.
  rewrite lookup_insert in Hk. destruct (decide (0 = k)) as [<-|];
    [vm_compute; repeat split; congruence|].
  rewrite lookup_singleton in Hk. destruct (decide (65535 = k)) as [<-|]; [|done].
  vm_compute; repeat split; congruence.
Defined.

(** C9: the receive thread refines a loop without a reorder buffer.  On any
    sequence of socket results, the thread never runs out of iterations and
    does exactly this: a packet behind the next expected number is dropped,
    any other packet is decoded, forwarded at once (or dropped when the ring
    is full) and makes its successor the next expected number.  Since every
    gap is skipped in the cycle that finds it, the buffer is empty between
    iterations, so a packet overtaken in the network is never reordered back. *)
Theorem recv_loop_refines_filter {F R} `{AudioFrameLaws F} `{RingLaws R F}
    (channels sample_rate : Z) (ring : R) (events : list (result bytes Z)) :
  Forall ev_ok events ->
  exists j,
    rtp_recv_loop channels sample_rate events (rtp_recv_init, ring) =
      Some (j, (foldl (recv_spec_step channels sample_rate) (None, ring) events).2) /\
    buf j = ∅ /\
    next_seq j = (foldl (recv_spec_step channels sample_rate) (None, ring) events).1.
Proof.
  intros Hev.
  destruct (recv_loop_refines channels sample_rate 64 rtp_recv_init ring events)
    as (j & E & [Hb _] & Hn); [lia|by repeat split|done|by exists j].
Qed.

Lemma recv_loop_refines_filter_witness :
  let d s b := Ok (RtpPacket_encode {| header := RtpHeader_new 11 s 0 7; payload := [0; b] |}) in
  let evs := [d 5 1; d 7 2; d 6 3; Err 11; d 8 4] in
  let ring := {| vr_items := []; vr_capacity := 8 |} : vec_ring plain_frame in
  ((fun f => pf_samples f) <$> vr_items (foldl (recv_spec_step 1 48000) (None, ring) evs).2)
    = [[0x38000000]; [0x38800000]; [0x39000000]] /\
  exists j, rtp_recv_loop 1 48000 evs (rtp_recv_init, ring) =
      Some (j, (foldl (recv_spec_step 1 48000) (None, ring) evs).2) /\
    buf j = ∅ /\ next_seq j = (foldl (recv_spec_step 1 48000) (None, ring) evs).1.
Proof.
  intros d evs ring. split; [vm_compute; reflexivity|].
  refine (recv_loop_refines_filter 1 48000 ring evs _).
  apply (bool_decide_eq_true_1 _).
  vm_compute. reflexivity.
Defined.

(** C2: sender and receiver composed over an in-order, loss-free link.  The
    send thread drains its ring into one datagram per block, with consecutive
    sequence numbers through any number of wrap-arounds; the receive thread
    turns them into one block each, in order, whose samples are the originals
    at their planar positions, quantised to 16 bits. *)
Theorem rtp_end_to_end {F R S} `{AudioFrameLaws F} `{RingLaws R F} `{RingLaws S F}
    (channels sample_rate : Z) (t : UdpTransport) (outbound : R) (inbound : S) :
  tx_wf t -> Forall (fits channels) (ring_items outbound) ->
  (length (ring_items inbound) + length (ring_items outbound) <= ring_capacity inbound)%nat ->
  exists t' outbound' datagrams j inbound',
    rtp_send_loop channels (length (ring_items outbound)) (t, outbound)
      = Some (t', outbound', datagrams) /\
    ring_items outbound' = [] /\
    rtp_recv_loop channels sample_rate (Ok <$> datagrams) (rtp_recv_init, inbound)
      = Some (j, inbound') /\
    ring_items inbound' =
      ring_items inbound ++ (as_received channels sample_rate <$> ring_items outbound).
Proof.
  intros Ht Hfit Hcap.
  destruct (send_loop_recv_spec channels sample_rate (ring_items outbound) t outbound inbound None)
    as (t' & out' & ds & Hs & Ho & _ & Hb & Hi); [done|done|done|by left|done|].
  destruct (recv_loop_refines channels sample_rate 64 rtp_recv_init inbound (Ok <$> ds))
    as (j & Hr & _); [lia|by repeat split|by apply Forall_fmap|].
  eexists t', out', ds, j, _. split; [done|]. split; [done|]. split; [exact Hr|]. exact Hi.
Qed.

Lemma rtp_end_to_end_witness :
  let t := {| tx_seq := 65535; tx_timestamp := 0; tx_ssrc := 9; tx_channels := 2 |} in
  let out := {| vr_items := [Build_plain_frame 2 48000 [F32.one; F32.zero; F32.neg_one; F32.half];
                             Build_plain_frame 2 48000 [F32.half; F32.half]];
                vr_capacity := 4 |} in
  let inb : vec_ring plain_frame := {| vr_items := []; vr_capacity := 4 |} in
  exists t' out' ds j inb',
    rtp_send_loop 2 2 (t, out) = Some (t', out', ds) /\ ring_items out' = [] /\
    rtp_recv_loop 2 48000 (Ok <$> ds) (rtp_recv_init, inb) = Some (j, inb') /\
    ring_items inb' = as_received 2 48000 <$> ring_items out.
Proof.
  intros t out inb.
  refine (rtp_end_to_end 2 48000 t out inb _ _ _).
  - repeat split; vm_compute; congruence.
  - apply Forall_cons_2; [vm_compute; congruence|].
    apply Forall_cons_2; [vm_compute; congruence|]. apply Forall_nil_2.
  - vm_compute. lia.
Defined.
