(* ===== verification/Topology.v ===== *)
(** * Topology snapshots

    The data of [audio_graph_bsd]'s topology as the sources build and read it
    (record literals, enum constructors and public fields), and the interface
    of [TopologySnapshot::apply]/[node], which are not part of the repository.
    The laws are the behaviour the sources document and rely on: [AddNode]
    inserts or replaces by id, [RemoveNode] cascades the incident edges and is
    a no-op on an absent id, [AddLink] appends, [RemoveLink] is positional and
    a no-op out of range. *)

From S2P Require Import Prelude.

Inductive PortDir : Type := Input | Output.
Inductive SampleFmt : Type := SF_F32 | SF_F64 | SF_I16 | SF_I32.

#[export] Instance PortDir_eq_dec : EqDecision PortDir.
Proof. solve_decision. Defined.
#[export] Instance SampleFmt_eq_dec : EqDecision SampleFmt.
Proof. solve_decision. Defined.

Record PortMeta : Type := {
  direction : PortDir;
  pm_channels : Z;
  sample_format : SampleFmt
}.

(** [NodeId] and [LinkId] are [usize]. *)
Record NodeSnapshot : Type := {
  ns_id : Z;
  ns_inputs : list PortMeta;
  ns_outputs : list PortMeta
}.

Record SnapshotEdge : Type := {
  e_from : Z * Z;
  e_to : Z * Z
}.

Record TopologySnapshot : Type := {
  nodes : list NodeSnapshot;
  edges : list SnapshotEdge
}.

Inductive Mutation : Type :=
| AddNode (n : NodeSnapshot)
| RemoveNode (id : Z)
| AddLink (e : SnapshotEdge)
| RemoveLink (id : nat).

Inductive TopologyEvent : Type :=
| NodeAdded (n : NodeSnapshot)
| NodeRemoved (id : Z)
| LinkAdded (e : SnapshotEdge)
| LinkRemoved (id : nat).

#[export] Instance PortMeta_eq_dec : EqDecision PortMeta.
Proof. solve_decision. Defined.
#[export] Instance NodeSnapshot_eq_dec : EqDecision NodeSnapshot.
Proof. solve_decision. Defined.
#[export] Instance SnapshotEdge_eq_dec : EqDecision SnapshotEdge.
Proof. solve_decision. Defined.
#[export] Instance TopologySnapshot_eq_dec : EqDecision TopologySnapshot.
Proof. solve_decision. Defined.
#[export] Instance Mutation_eq_dec : EqDecision Mutation.
Proof. solve_decision. Defined.
#[export] Instance TopologyEvent_eq_dec : EqDecision TopologyEvent.
Proof. solve_decision. Defined.

Definition ids (s : TopologySnapshot) : list Z := ns_id <$> nodes s.

(** Edge [e] does not touch node [id]. *)
Definition avoids (id : Z) (e : SnapshotEdge) : Prop :=
  (e_from e).1 <> id /\ (e_to e).1 <> id.
#[export] Instance avoids_dec id e : Decision (avoids id e).
Proof. unfold avoids. apply _. Defined.

Class TopoOps : Type := {
  topo_new : TopologySnapshot;
  topo_apply : TopologySnapshot -> Mutation -> TopologySnapshot;
  topo_node : TopologySnapshot -> Z -> option NodeSnapshot
}.

Class TopoLaws `{TopoOps} : Prop := {
  topo_new_nodes : nodes topo_new = [];
  topo_new_edges : edges topo_new = [];
  topo_node_some : forall s id n, NoDup (ids s) ->
    topo_node s id = Some n <-> n ∈ nodes s /\ ns_id n = id;
  topo_add_fresh : forall s n, ns_id n ∉ ids s ->
    topo_apply s (AddNode n) = {| nodes := nodes s ++ [n]; edges := edges s |};
  topo_add_replace : forall s n, ns_id n ∈ ids s ->
    ids (topo_apply s (AddNode n)) = ids s /\
    edges (topo_apply s (AddNode n)) = edges s /\
    forall m, m ∈ nodes (topo_apply s (AddNode n)) <->
      m = n \/ m ∈ nodes s /\ ns_id m <> ns_id n;
  topo_remove_absent : forall s id, id ∉ ids s -> topo_apply s (RemoveNode id) = s;
  topo_remove : forall s id, id ∈ ids s ->
    topo_apply s (RemoveNode id) =
      {| nodes := filter (fun n => ns_id n <> id) (nodes s);
         edges := filter (avoids id) (edges s) |};
  topo_add_link : forall s e,
    topo_apply s (AddLink e) = {| nodes := nodes s; edges := edges s ++ [e] |};
  topo_remove_link : forall s i,
    topo_apply s (RemoveLink i) = {| nodes := nodes s; edges := delete i (edges s) |}
}.

(** A vector of nodes, replaced in place. *)
Definition vec_apply (s : TopologySnapshot) (m : Mutation) : TopologySnapshot :=
  match m with
  | AddNode n =>
      if decide (ns_id n ∈ ids s) then
        {| nodes := (fun m => if decide (ns_id m = ns_id n) then n else m) <$> nodes s;
           edges := edges s |}
      else {| nodes := nodes s ++ [n]; edges := edges s |}
  | RemoveNode id =>
      if decide (id ∈ ids s) then
        {| nodes := filter (fun n => ns_id n <> id) (nodes s);
           edges := filter (avoids id) (edges s) |}
      else s
  | AddLink e => {| nodes := nodes s; edges := edges s ++ [e] |}
  | RemoveLink i => {| nodes := nodes s; edges := delete i (edges s) |}
  end.

Definition vec_node (s : TopologySnapshot) (id : Z) : option NodeSnapshot :=
  snd <$> list_find (fun n => ns_id n = id) (nodes s).

#[export] Instance vec_topo_ops : TopoOps := {
  topo_new := {| nodes := []; edges := [] |};
  topo_apply := vec_apply;
  topo_node := vec_node
}.

Lemma ids_inj s n m :
  NoDup (ids s) -> n ∈ nodes s -> m ∈ nodes s -> ns_id n = ns_id m -> n = m.
Proof.
  unfold ids. intros Hnd [i Hi]%list_elem_of_lookup [j Hj]%list_elem_of_lookup Heq.
  assert (i = j) as ->; [|congruence].
  apply (NoDup_lookup (ns_id <$> nodes s) i j (ns_id n)); [done|..];
    rewrite list_lookup_fmap; rewrite ?Hi, ?Hj; cbn; congruence.
Qed.

#[export] Instance vec_topo_laws : TopoLaws.
Proof.
  split; cbn; try done.
  - intros s id n Hnd. unfold vec_node. rewrite fmap_Some. split.
    + intros ([i m] & (Hm & ? & _)%list_find_Some & ->). cbn. split; [|done].
      by eapply list_elem_of_lookup_2.
    + intros [Hin Hid].
      destruct (list_find_elem_of (fun n => ns_id n = id) (nodes s) n Hin Hid) as [[i m] Hf].
      exists (i, m). split; [done|]. apply list_find_Some in Hf as (Hm & Hmid & _).
      apply (ids_inj s); [done|done|by eapply list_elem_of_lookup_2|]. cbn. congruence.
  - intros s n Hn. by rewrite decide_False.
  - intros s n Hn. rewrite decide_True by done. split_and!.
    + unfold ids. cbn. rewrite <- list_fmap_compose. apply list_fmap_ext.
      intros i m Hm. cbn. by destruct (decide (ns_id m = ns_id n)).
    + done.
    + intros m. cbn. rewrite list_elem_of_fmap. split.
      * intros (m' & -> & Hm'). destruct (decide (ns_id m' = ns_id n)); auto.
      * intros [->|[Hm Hne]].
        -- apply list_elem_of_fmap in Hn as (m' & Hid & Hm'). exists m'. by rewrite decide_True.
        -- exists m. by rewrite decide_False.
  - intros s id Hid. by rewrite decide_False.
  - intros s id Hid. by rewrite decide_True.
Qed.

(** ** Well-formed topologies

    Ids are distinct, and every edge joins an existing output port to an
    existing input port. *)

Definition has_output (s : TopologySnapshot) (p : Z * Z) : Prop :=
  exists n, n ∈ nodes s /\ ns_id n = p.1 /\ 0 <= p.2 < Z.of_nat (length (ns_outputs n)).
Definition has_input (s : TopologySnapshot) (p : Z * Z) : Prop :=
  exists n, n ∈ nodes s /\ ns_id n = p.1 /\ 0 <= p.2 < Z.of_nat (length (ns_inputs n)).

Definition topo_wf (s : TopologySnapshot) : Prop :=
  NoDup (ids s) /\
  forall e, e ∈ edges s -> has_output s (e_from e) /\ has_input s (e_to e).

Section topology.
Context `{TopoLaws}.

Lemma topo_wf_new : topo_wf topo_new.
Proof.
  split; [unfold ids; rewrite topo_new_nodes; constructor|].
  rewrite topo_new_edges. by intros e ?%elem_of_nil.
Qed.

Lemma topo_wf_add s n :
  topo_wf s -> ns_id n ∉ ids s -> topo_wf (topo_apply s (AddNode n)).
Proof.
  intros [Hnd He] Hn. rewrite topo_add_fresh by done. split; cbn.
  - unfold ids. cbn. rewrite fmap_app. apply NoDup_app. split; [done|]. split.
    + intros x Hx ->%list_elem_of_singleton. done.
    + apply NoDup_singleton.
  - intros e [(a & ? & ? & ?) (b & ? & ? & ?)]%He.
    split; [exists a|exists b]; (split; [apply elem_of_app; by left|done]).
Qed.

Lemma topo_wf_remove s id : topo_wf s -> topo_wf (topo_apply s (RemoveNode id)).
Proof.
  intros [Hnd He]. destruct (decide (id ∈ ids s)) as [Hid|]; [|by rewrite topo_remove_absent].
  rewrite topo_remove by done. split; cbn.
  - apply (sublist_NoDup _ (ids s)); [exact Hnd|]. apply fmap_sublist, sublist_filter.
  - intros e [[Ha Hb] Hin]%list_elem_of_filter.
    destruct (He e Hin) as [(a & ? & Hida & ?) (b & ? & Hidb & ?)].
    split; [exists a|exists b]; (split; [apply list_elem_of_filter; split; [congruence|done]|done]).
Qed.

Lemma topo_wf_add_link s e :
  topo_wf s -> has_output s (e_from e) -> has_input s (e_to e) ->
  topo_wf (topo_apply s (AddLink e)).
Proof.
  intros [Hnd He] Ho Hi. rewrite topo_add_link. split; [done|]. cbn.
  intros e' [?| ->%list_elem_of_singleton]%elem_of_app; [by apply He|done].
Qed.

Lemma topo_wf_remove_link s i : topo_wf s -> topo_wf (topo_apply s (RemoveLink i)).
Proof.
  intros [Hnd He]. rewrite topo_remove_link. split; [done|]. cbn.
  intros e Hin. apply He. eapply elem_of_submseteq; [exact Hin|].
  apply sublist_submseteq, sublist_delete.
Qed.
End topology.
