(* ===== verification/SessionStore.v ===== *)
(** * The session store

    [crates/session-store/src/lib.rs]: the write-ahead log engine, and the
    interface ([SessionStore]) its clients use.  The database table and the
    mutation encoding are parameters ({!External}); an I/O failure at any
    stage is an input of the operation. *)

From stdpp Require Import gmap fin_maps sorting.
From S2P Require Import Prelude F32 External Topology.

(** The stages of a store operation that can fail. *)
Inductive stage : Type :=
| OpenDb | BeginWrite | OpenTable | InsertRow | RemoveRow | Commit
| BeginRead | IterTable | ReadEntry (k : nat) | Serialize | Deserialize.

#[export] Instance stage_eq_dec : EqDecision stage.
Proof. solve_decision. Defined.

Inductive StoreError : Type :=
| StoreUnimplemented
| Persistence (at_ : stage)
| InvalidMutation.

#[export] Instance StoreError_eq_dec : EqDecision StoreError.
Proof. solve_decision. Defined.

(** Which stages fail during one call. *)
Definition faults : Type := stage -> bool.
Definition no_faults : faults := fun _ => false.

Definition guard_io (io : faults) (st : stage) : result unit StoreError :=
  if io st then Err (Persistence st) else Ok tt.

(** ** The [SessionStore] trait

    What a client may rely on: a successful mutation is applied to the
    topology, a failed one leaves it as it was. *)

Class StoreOps (S : Type) : Type := {
  get_topology : S -> TopologySnapshot;
  apply_mutation : S -> Mutation -> S * result Z StoreError
}.

Class StoreLaws (S : Type) `{TopoOps} `{StoreOps S} : Prop := {
  apply_mutation_ok : forall s m s' id, apply_mutation s m = (s', Ok id) ->
    get_topology s' = topo_apply (get_topology s) m;
  apply_mutation_err : forall s m s' e, apply_mutation s m = (s', Err e) ->
    get_topology s' = get_topology s
}.

Definition mutation_to_event (m : Mutation) : TopologyEvent :=
  match m with
  | AddNode node => NodeAdded node
  | RemoveNode id => NodeRemoved id
  | AddLink edge => LinkAdded edge
  | RemoveLink id => LinkRemoved id
  end.

(** ** The engine *)

Record EngineState (T : Type) : Type := {
  snapshot : TopologySnapshot;
  next_id : Z;
  db : T;
  (* what was sent on the broadcast channel *)
  events : list TopologyEvent
}.
Arguments snapshot {T}.
Arguments next_id {T}.
Arguments db {T}.
Arguments events {T}.
Arguments Build_EngineState {T}.

Section engine.
Context `{TopoOps} {T B : Type} `{TableOps T B} `{Encoding Mutation B}.
Implicit Types st : EngineState T.

(** The replay loop of [open]: rows in key order, counted. *)
Fixpoint replay (io : faults) (k : nat) (rows : list (Z * B)) (snap : TopologySnapshot)
    (next : Z) : result (TopologySnapshot * Z) StoreError :=
  match rows with
  | [] => Ok (snap, next)
  | (_, value) :: rows =>
      let? _ := guard_io io (ReadEntry k) in
      let? mutation := ok_or (decode_value value) (Persistence Deserialize) in
      replay io (S k) rows (topo_apply snap mutation) (next + 1)
  end.

Definition RaftEngine_open (io : faults) (file : T) : result (EngineState T) StoreError :=
  let? _ := guard_io io OpenDb in
  let? _ := guard_io io BeginWrite in
  let? _ := guard_io io OpenTable in
  let? _ := guard_io io Commit in
  let? _ := guard_io io BeginRead in
  let? _ := guard_io io IterTable in
  let? (snap, next) := replay io 0 (tbl_iter file) topo_new 0 in
  Ok {| snapshot := snap; next_id := next; db := file; events := [] |}.

Definition engine_get_topology st : TopologySnapshot := snapshot st.

Definition engine_apply_mutation (io : faults) st (m : Mutation)
    : EngineState T * result Z StoreError :=
  let id := next_id st in
  match (let? b := ok_or (encode_value m) (Persistence Serialize) in
         let? _ := guard_io io BeginWrite in
         let? _ := guard_io io OpenTable in
         let? _ := guard_io io InsertRow in
         let? _ := guard_io io Commit in
         Ok b) with
  | Err e => (st, Err e)
  | Ok b =>
      ({| snapshot := topo_apply (snapshot st) m;
          next_id := id + 1;
          db := tbl_insert (db st) id b;
          events := events st ++ [mutation_to_event m] |}, Ok id)
  end.

(** Calls in sequence, each with its own faults; the accepted mutations with
    their ids. *)
Fixpoint engine_run st (calls : list (faults * Mutation))
    : EngineState T * list (Z * Mutation) :=
  match calls with
  | [] => (st, [])
  | (io, m) :: calls =>
      let '(st', r) := engine_apply_mutation io st m in
      let '(st'', done) := engine_run st' calls in
      (st'', match r with Ok id => (id, m) :: done | Err _ => done end)
  end.

(** ** The write-ahead log invariant

    The table holds the mutations [ms] at the keys 0, 1, ..., and the
    in-memory snapshot is their replay. *)
Definition wal_holds (file : T) (ms : list Mutation) : Prop :=
  exists bs, Forall2 (fun m b => encode_value m = Some b) ms bs /\
    forall k, tbl_get file k = if 0 <=? k then bs !! Z.to_nat k else None.

Definition wal_inv st (ms : list Mutation) : Prop :=
  wal_holds (db st) ms /\
  next_id st = Z.of_nat (length ms) /\
  snapshot st = foldl topo_apply topo_new ms.

End engine.

Section engine_facts.
Context `{TopoOps} {T B : Type} `{TableLaws T B} `{EncodingLaws Mutation B}.
Implicit Types st : EngineState T.

(** The rows of a log in key order. *)
Definition log_rows (bs : list B) (from : Z) : list (Z * B) :=
  imap (fun i b => (from + Z.of_nat i, b)) bs.

Lemma log_rows_cons b bs from :
  log_rows (b :: bs) from = (from, b) :: log_rows bs (from + 1).
Proof.
  unfold log_rows. rewrite imap_cons. f_equal; [f_equal; lia|].
  apply imap_ext. intros i x _. cbn. f_equal. lia.
Qed.

Lemma elem_of_log_rows bs from k b :
  (k, b) ∈ log_rows bs from <-> from <= k /\ bs !! Z.to_nat (k - from) = Some b.
Proof.
  unfold log_rows. rewrite elem_of_lookup_imap. split.
  - intros (i & x & [= -> ->] & Hx). split; [lia|].
    replace (Z.to_nat (from + Z.of_nat i - from)) with i by lia. done.
  - intros [Hk Hb]. exists (Z.to_nat (k - from)), b. split; [f_equal; lia|done].
Qed.

Lemma log_rows_sorted bs from : StronglySorted key_lt (log_rows bs from).
Proof.
  revert from. induction bs as [|b bs IH]; intros from; [constructor|].
  rewrite log_rows_cons. constructor; [apply IH|]. apply Forall_forall.
  intros [k x] [Hk _]%elem_of_log_rows. unfold key_lt. cbn. lia.
Qed.

Lemma replay_log ms bs k snap next :
  Forall2 (fun m b => encode_value m = Some b) ms bs ->
  forall from, replay no_faults k (log_rows bs from) snap next =
    Ok (foldl topo_apply snap ms, next + Z.of_nat (length ms)).
Proof.
  intros Hf. revert k snap next. induction Hf as [|m b ms bs Hm Hf IH]; intros k snap next from.
  - cbn. by rewrite Z.add_0_r.
  - rewrite log_rows_cons. cbn. rewrite (encoding_roundtrip m b Hm). cbn.
    rewrite IH. do 2 f_equal. lia.
Qed.

Lemma wal_rows file ms bs :
  Forall2 (fun m b => encode_value m = Some b) ms bs ->
  (forall k, tbl_get file k = if 0 <=? k then bs !! Z.to_nat k else None) ->
  tbl_iter file = log_rows bs 0.
Proof.
  intros _ Hget. apply sorted_rows_ext; [apply tbl_iter_sorted|apply log_rows_sorted|].
  intros [k b]. rewrite tbl_iter_elem, elem_of_log_rows, Hget, Z.sub_0_r.
  destruct (Z.leb_spec 0 k); split; [done|by intros [_ ?]|done|by intros [? _]; lia].
Qed.

Lemma open_replays file ms :
  wal_holds file ms ->
  RaftEngine_open no_faults file =
    Ok {| snapshot := foldl topo_apply topo_new ms; next_id := Z.of_nat (length ms);
          db := file; events := [] |}.
Proof.
  intros (bs & Hf & Hget). unfold RaftEngine_open. cbn.
  rewrite (wal_rows file ms bs Hf Hget), (replay_log ms bs) by done. done.
Qed.

Lemma wal_holds_snoc file ms m b :
  wal_holds file ms -> encode_value m = Some b ->
  wal_holds (tbl_insert file (Z.of_nat (length ms)) b) (ms ++ [m]).
Proof.
  intros (bs & Hf & Hget) Hm. exists (bs ++ [b]).
  split; [apply Forall2_app; [done|by constructor]|].
  intros k. rewrite tbl_get_insert, Hget. pose proof (Forall2_length _ _ _ Hf) as Hl.
  destruct (decide (Z.of_nat (length ms) = k)) as [<-|Hne].
  - destruct (Z.leb_spec 0 (Z.of_nat (length ms))); [|lia].
    rewrite Nat2Z.id, Hl. by rewrite list_lookup_middle.
  - destruct (Z.leb_spec 0 k); [|done]. rewrite lookup_app.
    destruct (bs !! Z.to_nat k) eqn:Hb; [done|].
    apply lookup_ge_None_1 in Hb.
    symmetry. rewrite list_lookup_singleton_Some || apply lookup_ge_None_2. cbn. lia.
Qed.

(** One call, on every branch. *)
Lemma engine_apply_cases io st m :
  (exists b, encode_value m = Some b /\
     engine_apply_mutation io st m =
       ({| snapshot := topo_apply (snapshot st) m; next_id := next_id st + 1;
           db := tbl_insert (db st) (next_id st) b;
           events := events st ++ [mutation_to_event m] |}, Ok (next_id st))) \/
  exists s, engine_apply_mutation io st m = (st, Err (Persistence s)) /\
    (io s = true \/ s = Serialize /\ encode_value m = None).
Proof.
  unfold engine_apply_mutation, guard_io.
  destruct (encode_value m) as [b|] eqn:Hm; cbn; [|right; eexists; by eauto].
  destruct (io BeginWrite) eqn:?; cbn; [right; eexists; by eauto|].
  destruct (io OpenTable) eqn:?; cbn; [right; eexists; by eauto|].
  destruct (io InsertRow) eqn:?; cbn; [right; eexists; by eauto|].
  destruct (io Commit) eqn:?; cbn; [right; eexists; by eauto|].
  left. by exists b.
Qed.

Lemma engine_apply_inv io st m ms :
  wal_inv st ms ->
  (exists st', engine_apply_mutation io st m = (st', Ok (Z.of_nat (length ms))) /\
     wal_inv st' (ms ++ [m]) /\ events st' = events st ++ [mutation_to_event m]) \/
  (exists e, engine_apply_mutation io st m = (st, Err e)).
Proof.
  intros (Hw & Hid & Hs).
  destruct (engine_apply_cases io st m) as [(b & Hb & ->)|(s & -> & _)]; [left|right; by eauto].
  rewrite Hid. eexists. split; [done|]. split; [|done]. split; cbn; [|split].
  - by apply wal_holds_snoc.
  - rewrite length_app. cbn. lia.
  - by rewrite foldl_snoc, Hs.
Qed.

Lemma wal_inv_open : wal_inv {| snapshot := topo_new; next_id := 0; db := tbl_empty; events := [] |} [].
Proof.
  split; [|done]. exists []. split; [constructor|]. intros k. cbn. rewrite tbl_get_empty.
  by destruct (0 <=? k).
Qed.

Lemma engine_run_inv st ms calls :
  wal_inv st ms ->
  let '(st', accepted) := engine_run st calls in
  wal_inv st' (ms ++ accepted.*2) /\
  accepted.*1 = Z.of_nat <$> seq (length ms) (length accepted) /\
  events st' = events st ++ (mutation_to_event <$> accepted.*2).
Proof.
  revert st ms. induction calls as [|[io m] calls IH]; intros st ms Hinv.
  - cbn. by rewrite !app_nil_r.
  - cbn. destruct (engine_apply_inv io st m ms Hinv) as [(st' & -> & Hinv' & Hev)|(e & ->)].
    + specialize (IH st' (ms ++ [m]) Hinv'). destruct (engine_run st' calls) as [st'' acc].
      destruct IH as (Hi & Hids & Hevs). rewrite <- app_assoc in Hi. cbn.
      split; [done|]. split; [|by rewrite Hevs, Hev, <- app_assoc].
      rewrite Hids, length_app. cbn. by rewrite Nat.add_1_r.
    + specialize (IH st ms Hinv). by destruct (engine_run st calls) as [st'' acc].
Qed.
End engine_facts.

(** ** The engine implements the trait

    The store a client holds: the engine behind its mutex, together with the
    faults its future calls will meet. *)

Record engine_store (T : Type) : Type := {
  engine : EngineState T;
  schedule : nat -> faults;
  clock : nat
}.
Arguments engine {T}.
Arguments schedule {T}.
Arguments clock {T}.
Arguments Build_engine_store {T}.

Section engine_store.
Context `{TopoOps} {T B : Type} `{TableOps T B} `{Encoding Mutation B}.

#[global] Instance engine_store_ops : StoreOps (engine_store T) := {
  get_topology s := engine_get_topology (engine s);
  apply_mutation s m :=
    let '(st, r) := engine_apply_mutation (schedule s (clock s)) (engine s) m in
    ({| engine := st; schedule := schedule s; clock := S (clock s) |}, r)
}.

#[global] Instance engine_store_laws : StoreLaws (engine_store T).
Proof.
  split; cbn; unfold engine_get_topology.
  - intros s m s' id.
    destruct (engine_apply_cases (schedule s (clock s)) (engine s) m)
      as [(b & _ & ->)|(x & -> & _)]; intros E; by simplify_eq.
  - intros s m s' e.
    destruct (engine_apply_cases (schedule s (clock s)) (engine s) m)
      as [(b & _ & ->)|(x & -> & _)]; intros E; by simplify_eq.
Qed.
End engine_store.

(** ** Theorems *)

(** C5: a restart restores the topology.  Open an engine on any log of
    mutations [ms], run any sequence of calls, failing ones included, and
    reopen its file: the new engine has exactly the snapshot and the id counter
    the old one had, and both are the replay of the log followed by the
    accepted mutations.  Ids are handed out consecutively from the length of
    the log, and one event per accepted mutation is broadcast, in order. *)
Theorem wal_restart_restores `{TopoOps} {T B} `{TableLaws T B} `{EncodingLaws Mutation B}
    (file : T) (ms : list Mutation) (calls : list (faults * Mutation)) st0 st accepted :
  wal_holds file ms ->
  RaftEngine_open no_faults file = Ok st0 ->
  engine_run st0 calls = (st, accepted) ->
  exists st', RaftEngine_open no_faults (db st) = Ok st' /\
    snapshot st' = snapshot st /\ next_id st' = next_id st /\
    snapshot st = foldl topo_apply topo_new (ms ++ accepted.*2) /\
    accepted.*1 = Z.of_nat <$> seq (length ms) (length accepted) /\
    events st = mutation_to_event <$> accepted.*2.
Proof.
  intros Hw Ho Hr. rewrite (open_replays file ms Hw) in Ho. injection Ho as <-.
  match type of Hr with engine_run ?s _ = _ => assert (Hinv : wal_inv s ms) by by split end.
  pose proof (engine_run_inv _ ms calls Hinv) as Hrun. rewrite Hr in Hrun.
  destruct Hrun as ((Hw' & Hid & Hs) & Hids & Hev).
  eexists. split; [by apply open_replays|]. cbn. by rewrite Hid, Hs.
Qed.

Definition wal_example_node (id : Z) : NodeSnapshot :=
  {| ns_id := id; ns_inputs := []; ns_outputs := [] |}.

Lemma wal_restart_restores_witness :
  let calls := [(no_faults, AddNode (wal_example_node 7));
                ((fun s => bool_decide (s = Commit)), AddNode (wal_example_node 8));
                (no_faults, AddLink {| e_from := (7, 0); e_to := (7, 0) |})] in
  exists st0 st accepted,
    RaftEngine_open no_faults (∅ : gmap Z Mutation) = Ok st0 /\
    engine_run st0 calls = (st, accepted) /\ accepted.*1 = [0; 1] /\
    exists st', RaftEngine_open no_faults (db st) = Ok st' /\ snapshot st' = snapshot st.
Proof.
  intros calls. do 3 eexists.
  split; [vm_compute; reflexivity|]. split; [vm_compute; reflexivity|].
  split; [reflexivity|].
  edestruct (wal_restart_restores (∅ : gmap Z Mutation) [] calls) as (st' & Ho & Hs & _).
  - exists []. split; [constructor|]. intros k. cbn. rewrite lookup_empty. by destruct (0 <=? k).
  - vm_compute. reflexivity.
  - vm_compute. reflexivity.
  - exists st'. split; [exact Ho|exact Hs].
Defined.

(** A mutation is durable before it is visible, and a failed one is not
    visible at all.  A call either returns the next id, with the row added to
    the log under that id, the snapshot advanced by exactly this mutation and
    its event broadcast, or reports the stage that failed and leaves the
    snapshot, the counter, the log and the channel untouched. *)
Theorem engine_apply_atomic `{TopoOps} {T B} `{TableLaws T B} `{Encoding Mutation B}
    (io : faults) (st st' : EngineState T) (m : Mutation) (r : result Z StoreError) :
  engine_apply_mutation io st m = (st', r) ->
  match r with
  | Ok id =>
      id = next_id st /\ next_id st' = id + 1 /\
      (exists b, encode_value m = Some b /\ tbl_get (db st') id = Some b) /\
      (forall k, k <> id -> tbl_get (db st') k = tbl_get (db st) k) /\
      snapshot st' = topo_apply (snapshot st) m /\
      events st' = events st ++ [mutation_to_event m]
  | Err e => st' = st /\ exists s, e = Persistence s /\
      (io s = true \/ s = Serialize /\ encode_value m = None)
  end.
Proof.
  intros Hr. destruct (engine_apply_cases io st m) as [(b & Hb & E)|(s & E & Hs)];
    rewrite E in Hr; injection Hr as <- <-.
  - cbn. split_and!; try done.
    + exists b. rewrite tbl_get_insert. by rewrite decide_True.
    + intros k Hk. rewrite tbl_get_insert. by rewrite decide_False.
  - split; [done|]. by exists s.
Qed.

Lemma engine_apply_atomic_witness :
  let st : EngineState (gmap Z Mutation) :=
    {| snapshot := topo_new; next_id := 3; db := ∅; events := [] |} in
  exists st', engine_apply_mutation no_faults st (RemoveNode 9) = (st', Ok 3) /\ next_id st' = 4.
Proof.
  intros st. eexists. split; [reflexivity|].
  exact (proj1 (proj2 (engine_apply_atomic no_faults st _ (RemoveNode 9) (Ok 3) eq_refl))).
Defined.
