(* ===== verification/ControlApi.v ===== *)
(** * The control API

    [crates/control-api/src/lib.rs]: the controller that turns REST calls into
    session-store mutations, its side registries, presets and the HTTP status
    mapping.  The controller is written against the [SessionStore] interface
    ({!SessionStore.StoreOps}); the registries behind [Arc<RwLock<..>>] are
    part of the controller's state.  Error texts are constructors with the
    interpolated values. *)

From Stdlib Require Import String.
From stdpp Require Import gmap fin_maps.
From S2P Require Import Prelude F32 External Topology SessionStore RString.
Local Open Scope Z_scope.

(** ** Node parameters *)

Inductive NodeParams : Type :=
| Gain (gain : F32.f32)
| Mixer (inputs : Z) (gains : list F32.f32)
| Eq (filter_type : rstring) (freq gain_db q : F32.f32)
| Compressor (threshold_db ratio attack_ms release_ms makeup_db : F32.f32)
| Limiter (threshold_db : F32.f32)
| Meter
| ChannelMap (mode : rstring) (pan : option F32.f32)
| Delay (max_delay_ms delay_ms feedback mix : F32.f32)
| NoiseGate (threshold_db attack_ms hold_ms release_ms : F32.f32)
| Noise (color : rstring) (amp : F32.f32) (seed : Z)
| Tone (waveform : rstring) (freq amp : F32.f32)
| Reverb (room_size damping wet dry : F32.f32)
| Chorus (rate_hz depth_ms center_delay_ms mix : F32.f32)
| Distortion (mode : rstring) (drive threshold output_level : F32.f32)
| Flanger (rate_hz depth_ms center_delay_ms feedback mix : F32.f32)
| AuxSend (send_level : F32.f32)
| Phaser (rate_hz base_freq depth feedback mix : F32.f32) (stages : Z)
| Bitcrusher (bits hold_factor : Z)
| Tremolo (rate_hz depth : F32.f32)
| StereoWidener (width : F32.f32).

#[export] Instance NodeParams_eq_dec : EqDecision NodeParams.
Proof. solve_decision. Defined.

Definition kind_name (p : NodeParams) : rstring :=
  lit match p with
      | Gain _ => "gain"
      | Mixer _ _ => "mixer"
      | Eq _ _ _ _ => "eq"
      | Compressor _ _ _ _ _ => "compressor"
      | Limiter _ => "limiter"
      | Meter => "meter"
      | ChannelMap _ _ => "channel_map"
      | Delay _ _ _ _ => "delay"
      | NoiseGate _ _ _ _ => "noise_gate"
      | Noise _ _ _ => "noise"
      | Tone _ _ _ => "tone"
      | Reverb _ _ _ _ => "reverb"
      | Chorus _ _ _ _ => "chorus"
      | Distortion _ _ _ _ => "distortion"
      | Flanger _ _ _ _ _ => "flanger"
      | AuxSend _ => "aux_send"
      | Phaser _ _ _ _ _ _ => "phaser"
      | Bitcrusher _ _ => "bitcrusher"
      | Tremolo _ _ => "tremolo"
      | StereoWidener _ => "stereo_widener"
      end%string.

(** ** Requests, responses and presets *)

Record NodeInfo : Type := {
  ni_id : Z; ni_label : rstring; ni_inputs : Z; ni_outputs : Z;
  ni_kind : option rstring; ni_params : option NodeParams
}.

Record NodeSpec : Type := {
  sp_label : rstring; sp_inputs : Z; sp_outputs : Z;
  sp_kind : option rstring; sp_params : option NodeParams
}.

Record LinkRequest : Type := {
  lr_from : Z; lr_from_port : option Z; lr_to : Z; lr_to_port : option Z
}.

Record LinkInfo : Type := {
  li_id : Z; li_from : Z; li_from_port : Z; li_to : Z; li_to_port : Z
}.

Record TopologyInfo : Type := { ti_nodes : list NodeInfo; ti_links : list LinkInfo }.

Record PresetNode : Type := {
  pn_id : Z; pn_label : rstring; pn_inputs : Z; pn_outputs : Z;
  pn_kind : option rstring; pn_params : option NodeParams
}.

Record PresetLink : Type := {
  pl_from : Z; pl_from_port : Z; pl_to : Z; pl_to_port : Z
}.

Record Preset : Type := {
  pr_version : Z; pr_nodes : list PresetNode; pr_links : list PresetLink
}.

Definition PRESET_VERSION : Z := 1.

(** ** Errors *)

Inductive bad_request : Type :=
| EmptyLabel
| KindMismatch (actual expected : rstring)
| FromPortOutOfRange (node : Z) (ports : nat) (port : Z)
| ToPortOutOfRange (node : Z) (ports : nat) (port : Z).

Inductive missing : Type :=
| NoNode (id : Z) | NoLink (id : Z) | NoSource (id : Z) | NoDestination (id : Z).

Inductive graph_error : Type :=
| StoreFailed (e : StoreError)
| LinkNotPersisted.

Inductive ControlError : Type :=
| CUnimplemented
| BadRequest (b : bad_request)
| Graph (g : graph_error)
| NotFound (m : missing).

Definition store_err_to_control (e : StoreError) : ControlError :=
  match e with
  | InvalidMutation => Graph (StoreFailed e)
  | Persistence _ => Graph (StoreFailed e)
  | StoreUnimplemented => Graph (StoreFailed e)
  end.

(** ** The controller *)

Record GraphController (S : Type) : Type := {
  store : S;
  labels : gmap Z rstring;
  kinds : gmap Z rstring;
  params : gmap Z NodeParams
}.
Arguments store {S}.
Arguments labels {S}.
Arguments kinds {S}.
Arguments params {S}.
Arguments Build_GraphController {S}.

Definition build_ports (count : Z) (dir : PortDir) : list PortMeta :=
  replicate (Z.to_nat count)
    {| direction := dir; pm_channels := 1; sample_format := SF_F32 |}.

Section controller.
Context `{TopoOps} {S : Type} `{StoreOps S}.
Implicit Types c : GraphController S.

Definition GraphController_new (s : S) : GraphController S :=
  {| store := s; labels := ∅; kinds := ∅; params := ∅ |}.

Definition GraphController_new_with_registries (s : S) (k : gmap Z rstring)
    (p : gmap Z NodeParams) : GraphController S :=
  {| store := s; labels := ∅; kinds := k; params := p |}.

Definition list_nodes c : list NodeInfo :=
  (fun ns => {|
     ni_id := ns_id ns;
     ni_label := default (lit "node-" ++ dec (ns_id ns)) (labels c !! ns_id ns);
     ni_inputs := wrap 16 (Z.of_nat (length (ns_inputs ns)));
     ni_outputs := wrap 16 (Z.of_nat (length (ns_outputs ns)));
     ni_kind := kinds c !! ns_id ns;
     ni_params := params c !! ns_id ns
   |}) <$> nodes (get_topology (store c)).

Definition list_links c : list LinkInfo :=
  imap (fun id edge => {|
     li_id := Z.of_nat id;
     li_from := (e_from edge).1;
     li_from_port := wrap 16 (e_from edge).2;
     li_to := (e_to edge).1;
     li_to_port := wrap 16 (e_to edge).2
   |}) (edges (get_topology (store c))).

(** A store call in the controller. *)
Definition ctl_apply c (m : Mutation) : GraphController S * result Z ControlError :=
  let '(s, r) := apply_mutation (store c) m in
  ({| store := s; labels := labels c; kinds := kinds c; params := params c |},
   map_err store_err_to_control r).

Definition record_node c (id : Z) (label : rstring) (kind : option rstring)
    (ps : option NodeParams) : GraphController S :=
  {| store := store c;
     labels := <[id := label]> (labels c);
     kinds := match kind with Some k => <[id := k]> (kinds c) | None => kinds c end;
     params := match ps with Some p => <[id := p]> (params c) | None => params c end |}.

Definition forget_node c (id : Z) : GraphController S :=
  {| store := store c;
     labels := delete id (labels c);
     kinds := delete id (kinds c);
     params := delete id (params c) |}.

(** The checks of [create_node]: the kind to record. *)
Definition check_spec (spec : NodeSpec) : result (option rstring) ControlError :=
  if bool_decide (trim (sp_label spec) = []) then Err (BadRequest EmptyLabel)
  else
    match sp_params spec with
    | None => Ok (sp_kind spec)
    | Some ps =>
        let actual := kind_name ps in
        match sp_kind spec with
        | Some expected =>
            if bool_decide (expected <> actual)
            then Err (BadRequest (KindMismatch actual expected))
            else Ok (sp_kind spec)
        | None => Ok (Some actual)
        end
    end.

Definition max_id (s : TopologySnapshot) : option Z :=
  match ids s with
  | [] => None
  | i :: l => Some (foldl Z.max i l)
  end.

Definition fresh_id (s : TopologySnapshot) : Z := sat_add 64 (default 0 (max_id s)) 1.

(** [create_node] reads the topology in one store call and applies the
    mutation in a second one. *)
Definition create_prepare c (spec : NodeSpec)
    : result (NodeSnapshot * option rstring) ControlError :=
  let? kind := check_spec spec in
  Ok ({| ns_id := fresh_id (get_topology (store c));
         ns_inputs := build_ports (sp_inputs spec) Input;
         ns_outputs := build_ports (sp_outputs spec) Output |}, kind).

Definition create_commit c (spec : NodeSpec) (node : NodeSnapshot) (kind : option rstring)
    : GraphController S * result Z ControlError :=
  match ctl_apply c (AddNode node) with
  | (c, Err e) => (c, Err e)
  | (c, Ok _) =>
      (record_node c (ns_id node) (sp_label spec) kind (sp_params spec), Ok (ns_id node))
  end.

Definition create_node c (spec : NodeSpec) : GraphController S * result Z ControlError :=
  match create_prepare c spec with
  | Err e => (c, Err e)
  | Ok (node, kind) => create_commit c spec node kind
  end.

Definition link_ports c (from from_port to to_port : Z)
    : GraphController S * result Z ControlError :=
  let topo := get_topology (store c) in
  match topo_node topo from with
  | None => (c, Err (NotFound (NoSource from)))
  | Some src =>
      if Z.of_nat (length (ns_outputs src)) <=? from_port then
        (c, Err (BadRequest (FromPortOutOfRange from (length (ns_outputs src)) from_port)))
      else
        match topo_node topo to with
        | None => (c, Err (NotFound (NoDestination to)))
        | Some dst =>
            if Z.of_nat (length (ns_inputs dst)) <=? to_port then
              (c, Err (BadRequest (ToPortOutOfRange to (length (ns_inputs dst)) to_port)))
            else
              let edge := {| e_from := (from, from_port); e_to := (to, to_port) |} in
              match ctl_apply c (AddLink edge) with
              | (c, Err e) => (c, Err e)
              | (c, Ok _) =>
                  match length (edges (get_topology (store c))) with
                  | O => (c, Err (Graph LinkNotPersisted))
                  | Datatypes.S n => (c, Ok (Z.of_nat n))
                  end
              end
        end
  end.

Definition link c (from to : Z) : GraphController S * result Z ControlError :=
  link_ports c from 0 to 0.

Definition delete_node c (id : Z) : GraphController S * result unit ControlError :=
  match topo_node (get_topology (store c)) id with
  | None => (c, Err (NotFound (NoNode id)))
  | Some _ =>
      match ctl_apply c (RemoveNode id) with
      | (c, Err e) => (c, Err e)
      | (c, Ok _) => (forget_node c id, Ok tt)
      end
  end.

Definition delete_link c (id : Z) : GraphController S * result unit ControlError :=
  if Z.of_nat (length (edges (get_topology (store c)))) <=? id
  then (c, Err (NotFound (NoLink id)))
  else
    match ctl_apply c (RemoveLink (Z.to_nat id)) with
    | (c, Err e) => (c, Err e)
    | (c, Ok _) => (c, Ok tt)
    end.

Definition load_module c (path : rstring) : result Z ControlError := Err CUnimplemented.

(** ** Presets *)

Definition export_preset c : Preset := {|
  pr_version := PRESET_VERSION;
  pr_nodes := (fun n => {|
      pn_id := ni_id n; pn_label := ni_label n; pn_inputs := ni_inputs n;
      pn_outputs := ni_outputs n; pn_kind := ni_kind n; pn_params := ni_params n |})
    <$> list_nodes c;
  pr_links := (fun l => {|
      pl_from := li_from l; pl_from_port := li_from_port l;
      pl_to := li_to l; pl_to_port := li_to_port l |})
    <$> list_links c
|}.

(** The three loops of [import_preset]; each stops at the first failure. *)
Fixpoint clear_nodes c (existing : list Z) : GraphController S * result unit ControlError :=
  match existing with
  | [] => (c, Ok tt)
  | id :: existing =>
      match ctl_apply c (RemoveNode id) with
      | (c, Err e) => (c, Err e)
      | (c, Ok _) => clear_nodes (forget_node c id) existing
      end
  end.

Definition preset_snapshot (n : PresetNode) : NodeSnapshot := {|
  ns_id := pn_id n;
  ns_inputs := build_ports (pn_inputs n) Input;
  ns_outputs := build_ports (pn_outputs n) Output
|}.

Fixpoint restore_nodes c (ns : list PresetNode) : GraphController S * result unit ControlError :=
  match ns with
  | [] => (c, Ok tt)
  | n :: ns =>
      match ctl_apply c (AddNode (preset_snapshot n)) with
      | (c, Err e) => (c, Err e)
      | (c, Ok _) =>
          restore_nodes (record_node c (pn_id n) (pn_label n) (pn_kind n) (pn_params n)) ns
      end
  end.

Definition preset_edge (l : PresetLink) : SnapshotEdge :=
  {| e_from := (pl_from l, pl_from_port l); e_to := (pl_to l, pl_to_port l) |}.

Fixpoint restore_links c (ls : list PresetLink) : GraphController S * result unit ControlError :=
  match ls with
  | [] => (c, Ok tt)
  | l :: ls =>
      match ctl_apply c (AddLink (preset_edge l)) with
      | (c, Err e) => (c, Err e)
      | (c, Ok _) => restore_links c ls
      end
  end.

Definition import_preset c (preset : Preset) : GraphController S * result unit ControlError :=
  match clear_nodes c (ids (get_topology (store c))) with
  | (c, Err e) => (c, Err e)
  | (c, Ok _) =>
      match restore_nodes c (pr_nodes preset) with
      | (c, Err e) => (c, Err e)
      | (c, Ok _) => restore_links c (pr_links preset)
      end
  end.

(** ** HTTP handlers *)

Definition status_for (e : ControlError) : Z :=
  match e with
  | BadRequest _ => 400
  | Graph _ => 422
  | NotFound _ => 404
  | CUnimplemented => 501
  end.

Definition get_topology_handler c : TopologyInfo :=
  {| ti_nodes := list_nodes c; ti_links := list_links c |}.

(** A handler returns the new state, the status and the body. *)
Definition create_node_handler c (spec : NodeSpec) : GraphController S * Z * option Z :=
  match create_node c spec with
  | (c, Ok id) => (c, 201, Some id)
  | (c, Err e) => (c, status_for e, None)
  end.

Definition create_link_handler c (req : LinkRequest) : GraphController S * Z * option Z :=
  let from_port := default 0 (lr_from_port req) in
  let to_port := default 0 (lr_to_port req) in
  match link_ports c (lr_from req) from_port (lr_to req) to_port with
  | (c, Ok id) => (c, 201, Some id)
  | (c, Err e) => (c, status_for e, None)
  end.

Definition delete_node_handler c (id : Z) : GraphController S * Z :=
  match delete_node c id with
  | (c, Ok _) => (c, 204)
  | (c, Err e) => (c, status_for e)
  end.

Definition delete_link_handler c (id : Z) : GraphController S * Z :=
  match delete_link c id with
  | (c, Ok _) => (c, 204)
  | (c, Err e) => (c, status_for e)
  end.

Definition import_preset_handler c (preset : Preset) : GraphController S * Z :=
  match import_preset c preset with
  | (c, Ok _) => (c, 204)
  | (c, Err e) => (c, status_for e)
  end.

End controller.

(** ** Controller invariants *)

Section facts.
Context `{TopoLaws} {S : Type} `{StoreOps S} `{!StoreLaws S}.
Implicit Types c : GraphController S.

Abbreviation topo c := (get_topology (store c)).

(** The topology is well formed, the registries speak of installed nodes only,
    and a node's parameters are of its recorded kind. *)
Record ctl_inv c : Prop := {
  ci_topo : topo_wf (topo c);
  ci_labels : forall i l, labels c !! i = Some l -> i ∈ ids (topo c);
  ci_kinds : forall i k, kinds c !! i = Some k -> i ∈ ids (topo c);
  ci_params : forall i p, params c !! i = Some p ->
    i ∈ ids (topo c) /\ kinds c !! i = Some (kind_name p)
}.

(** Room for another node: the id counter has not saturated. *)
Definition room (s : TopologySnapshot) : Prop := Forall (fun i => 0 <= i < usize_max) (ids s).

Lemma ctl_apply_cases c m :
  (exists c' id, ctl_apply c m = (c', Ok id) /\ topo c' = topo_apply (topo c) m /\
     labels c' = labels c /\ kinds c' = kinds c /\ params c' = params c) \/
  (exists c' e, ctl_apply c m = (c', Err (Graph (StoreFailed e))) /\ topo c' = topo c /\
     labels c' = labels c /\ kinds c' = kinds c /\ params c' = params c).
Proof.
  unfold ctl_apply. destruct (apply_mutation (store c) m) as [s [id|e]] eqn:E.
  - left. do 2 eexists. split; [done|]. cbn. split; [|done]. by eapply apply_mutation_ok.
  - right. eexists _, e. split; [by destruct e|]. cbn. split; [|done].
    by eapply apply_mutation_err.
Qed.

Lemma foldl_max_elem (l : list Z) i : foldl Z.max i l = i \/ foldl Z.max i l ∈ l.
Proof.
  revert i. induction l as [|x l IH]; intros i; cbn; [by left|].
  destruct (IH (Z.max i x)) as [->|]; [|right; by right].
  destruct (Z.max_spec i x) as [[_ ->]|[_ ->]]; [right; by left|by left].
Qed.

Lemma fresh_id_spec s :
  room s -> (fresh_id s ∉ ids s) /\ 0 < fresh_id s <= usize_max /\
  forall i, i ∈ ids s -> i < fresh_id s.
Proof.
  unfold room, fresh_id, max_id, sat_add, usize_max. intros Hr. rewrite Forall_forall in Hr.
  destruct (ids s) as [|i l] eqn:El; cbn.
  - split; [apply not_elem_of_nil|]. split; [lia|]. by intros i ?%elem_of_nil.
  - destruct (foldl_max_ge l i) as [Hi Hl].
    assert (Hm : 0 <= foldl Z.max i l < 2 ^ 64 - 1).
    { destruct (foldl_max_elem l i) as [->|]; apply Hr; [by left|by right]. }
    assert (Hlt : forall j, j ∈ i :: l -> j < Z.min (foldl Z.max i l + 1) (2 ^ 64 - 1)).
    { intros j [->|Hj]%elem_of_cons; [lia|]. specialize (Hl j Hj). lia. }
    split; [|split; [lia|done]]. intros Hin. specialize (Hlt _ Hin). lia.
Qed.

Lemma fresh_unregistered c i :
  ctl_inv c -> i ∉ ids (topo c) ->
  labels c !! i = None /\ kinds c !! i = None /\ params c !! i = None.
Proof.
  intros [_ Hl Hk Hp] Hi. split_and!; apply eq_None_not_Some; intros [x Hx]; apply Hi; eauto.
  by apply (Hp _ _ Hx).
Qed.

Lemma check_spec_kind spec k :
  check_spec spec = Ok k ->
  match sp_params spec with
  | Some p => k = Some (kind_name p)
  | None => k = sp_kind spec
  end.
Proof.
  unfold check_spec. case_bool_decide; [done|].
  destruct (sp_params spec) as [p|]; [|congruence].
  destruct (sp_kind spec) as [e|]; [|congruence].
  case_bool_decide as Hd; [done|]. destruct (decide (e = kind_name p)) as [->|]; [congruence|done].
Qed.

Lemma build_ports_length n d : 0 <= n -> Z.of_nat (length (build_ports n d)) = n.
Proof. intros. unfold build_ports. rewrite length_replicate. lia. Qed.

(** The node a spec asks for. *)
Definition spec_node (id : Z) (spec : NodeSpec) : NodeSnapshot := {|
  ns_id := id;
  ns_inputs := build_ports (sp_inputs spec) Input;
  ns_outputs := build_ports (sp_outputs spec) Output |}.

Lemma create_node_cases c spec :
  (exists k c', check_spec spec = Ok k /\
     create_node c spec = (c', Ok (fresh_id (topo c))) /\
     topo c' = topo_apply (topo c) (AddNode (spec_node (fresh_id (topo c)) spec)) /\
     labels c' = <[fresh_id (topo c) := sp_label spec]> (labels c) /\
     kinds c' = match k with Some k => <[fresh_id (topo c) := k]> (kinds c) | None => kinds c end /\
     params c' = match sp_params spec with
                 | Some p => <[fresh_id (topo c) := p]> (params c) | None => params c end) \/
  (exists e c', create_node c spec = (c', Err e) /\ topo c' = topo c /\
     labels c' = labels c /\ kinds c' = kinds c /\ params c' = params c /\
     (check_spec spec = Err e \/ is_ok (check_spec spec) = true /\ exists s, e = Graph (StoreFailed s))).
Proof.
  unfold create_node, create_prepare.
  destruct (check_spec spec) as [k|e] eqn:Ek; cbn [rbind].
  - unfold create_commit. fold (spec_node (fresh_id (topo c)) spec).
    destruct (ctl_apply_cases c (AddNode (spec_node (fresh_id (topo c)) spec)))
      as [(c' & id & -> & Ht & Hl & Hk & Hp)|(c' & e & -> & Ht & Hl & Hk & Hp)].
    + left. exists k. eexists. split; [done|]. split; [done|]. cbn.
      rewrite Hl, Hk, Hp. done.
    + right. do 2 eexists. split_and!; try done. right. eauto.
  - right. do 2 eexists. split_and!; try done. by left.
Qed.

Lemma create_node_inv c spec : ctl_inv c -> room (topo c) -> ctl_inv (create_node c spec).1.
Proof.
  intros Hc Hroom. destruct (fresh_id_spec _ Hroom) as (Hfresh & _ & _).
  destruct (create_node_cases c spec)
    as [(k & c' & Hk & -> & Ht & Hl & Hks & Hp)|(e & c' & -> & Ht & Hl & Hks & Hp & _)]; cbn.
  2: { destruct Hc. split; rewrite ?Ht, ?Hl, ?Hks, ?Hp; done. }
  apply check_spec_kind in Hk. set (id := fresh_id (topo c)) in *.
  pose proof Hc as [Hwf Hcl Hck Hcp].
  assert (Hids : ids (topo c') = ids (topo c) ++ [id])
    by (rewrite Ht, topo_add_fresh by done; unfold ids; cbn; by rewrite fmap_app).
  split.
  - rewrite Ht. by apply topo_wf_add.
  - intros i l. rewrite Hl, Hids, elem_of_app, list_elem_of_singleton, lookup_insert.
    destruct (decide (id = i)); [auto|]. intros ?%Hcl. auto.
  - intros i x. rewrite Hks, Hids, elem_of_app, list_elem_of_singleton.
    destruct k as [k|]; [rewrite lookup_insert; destruct (decide (id = i)); [auto|]|];
      intros ?%Hck; auto.
  - intros i p. rewrite Hp, Hids, elem_of_app, list_elem_of_singleton, Hks.
    destruct (sp_params spec) as [q|].
    + subst k. rewrite !lookup_insert. destruct (decide (id = i)) as [->|]; [|intros [??]%Hcp; auto].
      intros [= ->]. auto.
    + intros Hi. destruct (Hcp _ _ Hi) as [Hin Hkn]. split; [auto|].
      destruct k as [k|]; [|done]. rewrite lookup_insert_ne; [done|]. intros ->. done.
Qed.

Lemma delete_node_cases c id :
  NoDup (ids (topo c)) ->
  (id ∈ ids (topo c) /\ exists c', delete_node c id = (c', Ok tt) /\
     topo c' = topo_apply (topo c) (RemoveNode id) /\ labels c' = delete id (labels c) /\
     kinds c' = delete id (kinds c) /\ params c' = delete id (params c)) \/
  (exists e c', delete_node c id = (c', Err e) /\ topo c' = topo c /\
     labels c' = labels c /\ kinds c' = kinds c /\ params c' = params c /\
     ((id ∉ ids (topo c)) /\ e = NotFound (NoNode id) \/
      id ∈ ids (topo c) /\ exists s, e = Graph (StoreFailed s))).
Proof.
  intros Hnd. unfold delete_node. destruct (topo_node (topo c) id) as [n|] eqn:Hn.
  - assert (Hin : id ∈ ids (topo c)).
    { apply topo_node_some in Hn as [Hn <-]; [|done]. by apply list_elem_of_fmap_2. }
    destruct (ctl_apply_cases c (RemoveNode id))
      as [(c' & k & -> & Ht & Hl & Hk & Hp)|(c' & e & -> & Ht & Hl & Hk & Hp)].
    + left. split; [done|]. eexists. split; [done|]. cbn. by rewrite Hl, Hk, Hp.
    + right. do 2 eexists. split_and!; eauto.
  - right. do 2 eexists. split_and!; try done. left. split; [|done].
    intros (n & -> & Hin)%list_elem_of_fmap.
    pose proof (proj2 (topo_node_some _ _ n Hnd) (conj Hin eq_refl)). congruence.
Qed.

Lemma remove_ids s id :
  id ∈ ids s -> ids (topo_apply s (RemoveNode id)) = filter (fun i => i <> id) (ids s).
Proof.
  intros Hid. rewrite topo_remove by done. unfold ids. cbn. clear Hid.
  induction (nodes s) as [|n l IH]; [done|]. rewrite fmap_cons, !filter_cons.
  destruct (decide (ns_id n <> id)); [by rewrite fmap_cons, IH|done].
Qed.

Lemma delete_node_inv c id : ctl_inv c -> ctl_inv (delete_node c id).1.
Proof.
  intros Hc. pose proof Hc as [Hwf Hcl Hck Hcp].
  destruct (delete_node_cases c id (proj1 Hwf))
    as [(Hin & c' & -> & Ht & Hl & Hk & Hp)|(e & c' & -> & Ht & Hl & Hk & Hp & _)]; cbn.
  2: { split; rewrite ?Ht, ?Hl, ?Hk, ?Hp; done. }
  split; rewrite Ht, ?remove_ids by done.
  - by apply topo_wf_remove.
  - intros i l. rewrite Hl. intros [Hne Hi]%lookup_delete_Some.
    apply list_elem_of_filter; split; [congruence|eauto].
  - intros i l. rewrite Hk. intros [Hne Hi]%lookup_delete_Some.
    apply list_elem_of_filter; split; [congruence|eauto].
  - intros i p. rewrite Hp, Hk. intros [Hne Hi]%lookup_delete_Some.
    destruct (Hcp _ _ Hi) as [Hx Hy]. split; [apply list_elem_of_filter; split; [congruence|done]|].
    by rewrite lookup_delete_ne.
Qed.

Lemma has_output_node s id n p :
  NoDup (ids s) -> topo_node s id = Some n ->
  0 <= p < Z.of_nat (length (ns_outputs n)) -> has_output s (id, p).
Proof. intros Hnd Hn Hp. apply topo_node_some in Hn as [Hin Hid]; [|done]. by exists n. Qed.

Lemma has_input_node s id n p :
  NoDup (ids s) -> topo_node s id = Some n ->
  0 <= p < Z.of_nat (length (ns_inputs n)) -> has_input s (id, p).
Proof. intros Hnd Hn Hp. apply topo_node_some in Hn as [Hin Hid]; [|done]. by exists n. Qed.

Lemma link_ports_cases c from fp to tp :
  NoDup (ids (topo c)) -> 0 <= fp -> 0 <= tp ->
  (has_output (topo c) (from, fp) /\ has_input (topo c) (to, tp) /\
   exists c', link_ports c from fp to tp = (c', Ok (Z.of_nat (length (edges (topo c))))) /\
     topo c' = topo_apply (topo c) (AddLink {| e_from := (from, fp); e_to := (to, tp) |}) /\
     labels c' = labels c /\ kinds c' = kinds c /\ params c' = params c) \/
  (exists e c', link_ports c from fp to tp = (c', Err e) /\ topo c' = topo c /\
     labels c' = labels c /\ kinds c' = kinds c /\ params c' = params c /\
     (status_for e = 422 \/
      status_for e = 404 /\ (topo_node (topo c) from = None \/ topo_node (topo c) to = None) \/
      status_for e = 400 /\
        ((exists n, topo_node (topo c) from = Some n /\ Z.of_nat (length (ns_outputs n)) <= fp) \/
         (exists n, topo_node (topo c) to = Some n /\ Z.of_nat (length (ns_inputs n)) <= tp)))).
Proof.
  intros Hnd Hfp Htp. unfold link_ports.
  destruct (topo_node (topo c) from) as [src|] eqn:Hs;
    [|right; do 2 eexists; split_and!; try done; by right; left; auto].
  destruct (Z.leb_spec (Z.of_nat (length (ns_outputs src))) fp);
    [right; do 2 eexists; split_and!; try done; right; right; split; [done|]; left; eauto|].
  destruct (topo_node (topo c) to) as [dst|] eqn:Hd;
    [|right; do 2 eexists; split_and!; try done; by right; left; auto].
  destruct (Z.leb_spec (Z.of_nat (length (ns_inputs dst))) tp);
    [right; do 2 eexists; split_and!; try done; right; right; split; [done|]; right; eauto|].
  set (edge := {| e_from := (from, fp); e_to := (to, tp) |}).
  destruct (ctl_apply_cases c (AddLink edge))
    as [(c' & k & -> & Ht & Hl & Hk & Hp)|(c' & e & -> & Ht & Hl & Hk & Hp)].
  - left. split; [by eapply has_output_node|]. split; [by eapply has_input_node|].
    exists c'. rewrite Ht, topo_add_link. cbn. rewrite length_app, Nat.add_1_r. done.
  - right. do 2 eexists. split_and!; try done. by left.
Qed.

Lemma ctl_inv_same c c' :
  ctl_inv c -> topo c' = topo c -> labels c' = labels c -> kinds c' = kinds c ->
  params c' = params c -> ctl_inv c'.
Proof. intros [] Ht Hl Hk Hp. split; rewrite ?Ht, ?Hl, ?Hk, ?Hp; done. Qed.

Lemma link_ports_inv c from fp to tp :
  ctl_inv c -> 0 <= fp -> 0 <= tp -> ctl_inv (link_ports c from fp to tp).1.
Proof.
  intros Hc Hfp Htp. pose proof Hc as [Hwf Hcl Hck Hcp].
  destruct (link_ports_cases c from fp to tp (proj1 Hwf) Hfp Htp)
    as [(Ho & Hi & c' & -> & Ht & Hl & Hk & Hp)|(e & c' & -> & Ht & Hl & Hk & Hp & _)]; cbn;
    [|by eapply ctl_inv_same].
  assert (Hids : ids (topo c') = ids (topo c)) by (by rewrite Ht, topo_add_link).
  split; rewrite ?Hids, ?Hl, ?Hk, ?Hp; try done. rewrite Ht. by apply topo_wf_add_link.
Qed.

Lemma delete_link_cases c id :
  (Z.of_nat (length (edges (topo c))) <= id /\ delete_link c id = (c, Err (NotFound (NoLink id)))) \/
  (id < Z.of_nat (length (edges (topo c))) /\ exists c',
     (delete_link c id = (c', Ok tt) /\ topo c' = topo_apply (topo c) (RemoveLink (Z.to_nat id)) \/
      exists s, delete_link c id = (c', Err (Graph (StoreFailed s))) /\ topo c' = topo c) /\
     labels c' = labels c /\ kinds c' = kinds c /\ params c' = params c).
Proof.
  unfold delete_link.
  destruct (Z.leb_spec (Z.of_nat (length (edges (topo c)))) id); [by left|right]. split; [done|].
  destruct (ctl_apply_cases c (RemoveLink (Z.to_nat id)))
    as [(c' & k & -> & Ht & Hl & Hk & Hp)|(c' & e & -> & Ht & Hl & Hk & Hp)]; exists c'; eauto 10.
Qed.

Lemma delete_link_inv c id : ctl_inv c -> ctl_inv (delete_link c id).1.
Proof.
  intros Hc. pose proof Hc as [Hwf Hcl Hck Hcp].
  destruct (delete_link_cases c id) as [[_ ->]|(_ & c' & [[-> Ht]|(s & -> & Ht)] & Hl & Hk & Hp)]; cbn;
    [done| |by eapply ctl_inv_same].
  assert (Hids : ids (topo c') = ids (topo c)) by (by rewrite Ht, topo_remove_link).
  split; rewrite ?Hids, ?Hl, ?Hk, ?Hp; try done. rewrite Ht. by apply topo_wf_remove_link.
Qed.

Lemma ctl_new_inv s : topo_wf (get_topology s) -> ctl_inv (GraphController_new s).
Proof. intros Hwf. split; [done|..]; intros i x Hx; cbn in Hx; by rewrite lookup_empty in Hx. Qed.

(** ** Import keeps the invariant

    Import is not a transaction: each loop stops at the first store failure, so
    every state between the loops' iterations counts. *)

Lemma ids_remove s id i : i ∈ ids (topo_apply s (RemoveNode id)) <-> i ∈ ids s /\ i <> id.
Proof.
  destruct (decide (id ∈ ids s)) as [Hin|Hin].
  - rewrite remove_ids, list_elem_of_filter by done. tauto.
  - rewrite topo_remove_absent by done. split; [|tauto]. intros Hi. split; [done|]. by intros ->.
Qed.

Lemma forget_inv c c1 id : ctl_inv c -> topo c1 = topo_apply (topo c) (RemoveNode id) ->
  labels c1 = labels c -> kinds c1 = kinds c -> params c1 = params c -> ctl_inv (forget_node c1 id).
Proof.
  intros [Hwf Hcl Hck Hcp] Ht Hl Hk Hp. split; cbn.
  - rewrite Ht. by apply topo_wf_remove.
  - intros i x. rewrite Hl. intros [Hne Hi]%lookup_delete_Some. rewrite Ht. apply ids_remove. eauto.
  - intros i x. rewrite Hk. intros [Hne Hi]%lookup_delete_Some. rewrite Ht. apply ids_remove. eauto.
  - intros i x. rewrite Hp, Hk. intros [Hne Hi]%lookup_delete_Some.
    destruct (Hcp _ _ Hi). rewrite lookup_delete_ne by done. split; [|done]. rewrite Ht. apply ids_remove. auto.
Qed.

Lemma clear_nodes_inv l : forall c, ctl_inv c ->
  ctl_inv (clear_nodes c l).1 /\
  ((clear_nodes c l).2 = Ok tt -> forall i, i ∈ ids (topo (clear_nodes c l).1) -> i ∈ ids (topo c) /\ i ∉ l).
Proof.
  induction l as [|id l IH]; intros c Hc; cbn [clear_nodes].
  { split; [done|]. intros _ i Hi. split; [done|]. apply not_elem_of_nil. }
  destruct (ctl_apply_cases c (RemoveNode id)) as [(c1 & k & -> & Ht & Hl & Hk & Hp)|(c1 & e & -> & Ht & Hl & Hk & Hp)].
  - destruct (IH (forget_node c1 id)) as [Hi Hids]; [by apply (forget_inv c)|]. split; [done|].
    intros Hok i Hin. destruct (Hids Hok i Hin) as [H1' H2']. cbn in H1'. rewrite Ht in H1'. apply ids_remove in H1'.
    rewrite not_elem_of_cons. tauto.
  - split; [|done]. by apply (ctl_inv_same c).
Qed.

(** The parameters of a preset node are of its kind. *)
Definition pn_agrees (n : PresetNode) : Prop :=
  match pn_params n with Some ps => pn_kind n = Some (kind_name ps) | None => True end.

Lemma record_inv c c1 n : ctl_inv c -> pn_agrees n -> (pn_id n ∉ ids (topo c)) ->
  topo c1 = topo_apply (topo c) (AddNode (preset_snapshot n)) ->
  labels c1 = labels c -> kinds c1 = kinds c -> params c1 = params c ->
  ctl_inv (record_node c1 (pn_id n) (pn_label n) (pn_kind n) (pn_params n)).
Proof.
  intros Hc Hag Hid Ht Hl Hk Hp. pose proof Hc as [Hwf Hcl Hck Hcp].
  assert (Hids : ids (topo c1) = ids (topo c) ++ [pn_id n])
    by (rewrite Ht, topo_add_fresh by done; unfold ids; cbn; by rewrite fmap_app).
  split; cbn; rewrite ?Hl, ?Hk, ?Hp, ?Hids.
  - rewrite Ht. by apply topo_wf_add.
  - intros i l. rewrite elem_of_app, list_elem_of_singleton, lookup_insert. destruct (decide (pn_id n = i)); [auto|]. intros ?%Hcl. auto.
  - intros i x. rewrite elem_of_app, list_elem_of_singleton.
    destruct (pn_kind n); [rewrite lookup_insert; destruct (decide (pn_id n = i)); [auto|]|]; intros ?%Hck; auto.
  - intros i x. rewrite elem_of_app, list_elem_of_singleton. unfold pn_agrees in Hag. destruct (pn_params n) as [q|].
    + rewrite Hag, !lookup_insert. destruct (decide (pn_id n = i)) as [->|]; [|intros [??]%Hcp; auto]. intros [= ->]. auto.
    + intros Hi. destruct (Hcp _ _ Hi) as [Hin Hkn]. split; [auto|].
      destruct (pn_kind n); [|done]. rewrite lookup_insert_ne; [done|]. by intros <-.
Qed.

Lemma restore_nodes_inv ns : forall c, ctl_inv c -> Forall pn_agrees ns -> NoDup (pn_id <$> ns) ->
  (forall n, n ∈ ns -> pn_id n ∉ ids (topo c)) ->
  ctl_inv (restore_nodes c ns).1 /\
  ((restore_nodes c ns).2 = Ok tt -> nodes (topo (restore_nodes c ns).1) = nodes (topo c) ++ (preset_snapshot <$> ns)).
Proof.
  induction ns as [|n ns IH]; intros c Hc Hag Hnd Hfresh; cbn [restore_nodes].
  { split; [done|]. intros _. by rewrite app_nil_r. }
  apply Forall_cons_1 in Hag as [Ha Has]. rewrite fmap_cons, NoDup_cons in Hnd. destruct Hnd as [Hn Hnd].
  assert (Hid : pn_id n ∉ ids (topo c)) by (apply Hfresh; left).
  destruct (ctl_apply_cases c (AddNode (preset_snapshot n))) as [(c1 & k & -> & Ht & Hl & Hk & Hp)|(c1 & e & -> & Ht & Hl & Hk & Hp)].
  2: { split; [|done]. by apply (ctl_inv_same c). }
  pose proof Ht as Ht'. rewrite topo_add_fresh in Ht' by done.
  destruct (IH (record_node c1 (pn_id n) (pn_label n) (pn_kind n) (pn_params n))) as [Hi Hns]; [by apply (record_inv c)|done|done|..].
  - intros m Hm. cbn. rewrite Ht'. unfold ids. cbn. rewrite fmap_app, elem_of_app. intros [Hx|Hx%list_elem_of_singleton].
    + apply (Hfresh m); [by right|done].
    + apply Hn. cbn in Hx. rewrite <- Hx. by apply list_elem_of_fmap_2.
  - split; [done|]. intros Hok. rewrite (Hns Hok). cbn. rewrite Ht'. cbn. by rewrite <- app_assoc.
Qed.

(** A link that has its two ports among the nodes. *)
Definition link_attached (ns : list NodeSnapshot) (l : PresetLink) : Prop :=
  has_output {| nodes := ns; edges := [] |} (pl_from l, pl_from_port l) /\
  has_input {| nodes := ns; edges := [] |} (pl_to l, pl_to_port l).

Lemma restore_links_inv ls : forall c, ctl_inv c -> Forall (link_attached (nodes (topo c))) ls -> ctl_inv (restore_links c ls).1.
Proof.
  induction ls as [|l ls IH]; intros c Hc Hls; [done|]. apply Forall_cons_1 in Hls as [Hl0 Hls]. cbn [restore_links].
  destruct (ctl_apply_cases c (AddLink (preset_edge l))) as [(c1 & k & -> & Ht & Hl & Hk & Hp)|(c1 & e & -> & Ht & Hl & Hk & Hp)].
  2: { by apply (ctl_inv_same c). }
  apply IH; [|by rewrite Ht, topo_add_link]. destruct Hc as [Hwf Hcl Hck Hcp].
  assert (Hids : ids (topo c1) = ids (topo c)) by (by rewrite Ht, topo_add_link).
  split; rewrite ?Hids, ?Hl, ?Hk, ?Hp; try done. rewrite Ht. apply topo_wf_add_link; [done|apply Hl0..].
Qed.

(** A preset that describes a graph: distinct ids, parameters of their
    kinds, links between ports its nodes have. *)
Definition preset_wf (p : Preset) : Prop :=
  NoDup (pn_id <$> pr_nodes p) /\ Forall pn_agrees (pr_nodes p) /\
  Forall (link_attached (preset_snapshot <$> pr_nodes p)) (pr_links p).

Lemma import_preset_inv c p : ctl_inv c -> preset_wf p -> ctl_inv (import_preset c p).1.
Proof.
  intros Hc (Hnd & Hag & Hls). unfold import_preset.
  destruct (clear_nodes_inv (ids (topo c)) c Hc) as [Hc1 Hempty].
  destruct (clear_nodes c (ids (topo c))) as [c1 [[]|e]]; cbn in Hc1, Hempty; [|done]. specialize (Hempty eq_refl).
  destruct (restore_nodes_inv (pr_nodes p) c1 Hc1 Hag Hnd) as [Hc2 Hns].
  { intros n _ Hin. apply Hempty in Hin as [Ha Hb]. done. }
  destruct (restore_nodes c1 (pr_nodes p)) as [c2 [[]|e]]; cbn in Hc2, Hns; [|done]. specialize (Hns eq_refl).
  assert (Hnil : nodes (topo c1) = []).
  { destruct (nodes (topo c1)) as [|n l] eqn:E; [done|]. destruct (Hempty (ns_id n)) as [Ha Hb]; [|done].
    unfold ids. rewrite E. left. }
  rewrite Hnil in Hns. apply restore_links_inv; [done|]. by rewrite Hns.
Qed.

(** ** The API as a transition system *)

Inductive api_call : Type :=
| CCreate (spec : NodeSpec)
| CLink (from from_port to to_port : Z)
| CDeleteNode (id : Z)
| CDeleteLink (id : Z)
| CImport (preset : Preset).

Definition ctl_call c (a : api_call) : GraphController S :=
  match a with
  | CCreate spec => (create_node c spec).1
  | CLink from fp to tp => (link_ports c from fp to tp).1
  | CDeleteNode id => (delete_node c id).1
  | CDeleteLink id => (delete_link c id).1
  | CImport preset => (import_preset c preset).1
  end.
Definition ctl_run c (l : list api_call) : GraphController S := foldl ctl_call c l.

(** Ports are unsigned; ids have not run out; imported presets describe graphs. *)
Definition call_sound c (a : api_call) : Prop :=
  match a with
  | CCreate _ => room (topo c)
  | CLink _ fp _ tp => 0 <= fp /\ 0 <= tp
  | CImport preset => preset_wf preset
  | CDeleteNode _ | CDeleteLink _ => True
  end.
Fixpoint calls_sound c (l : list api_call) : Prop :=
  match l with [] => True | a :: l => call_sound c a /\ calls_sound (ctl_call c a) l end.

Lemma ctl_call_inv c a : call_sound c a -> ctl_inv c -> ctl_inv (ctl_call c a).
Proof.
  destruct a; cbn; intros Hs Hc; [by apply create_node_inv|by apply link_ports_inv; destruct Hs|by apply delete_node_inv|by apply delete_link_inv|by apply import_preset_inv].
Qed.

(** What holds whatever is called and imported. *)
Record reg_inv c : Prop := {
  ri_nodup : NoDup (ids (topo c));
  ri_labels : forall i l, labels c !! i = Some l -> i ∈ ids (topo c);
  ri_kinds : forall i k, kinds c !! i = Some k -> i ∈ ids (topo c);
  ri_params : forall i p, params c !! i = Some p -> i ∈ ids (topo c)
}.

Lemma ids_add s n i : i ∈ ids (topo_apply s (AddNode n)) <-> i ∈ ids s \/ i = ns_id n.
Proof.
  destruct (decide (ns_id n ∈ ids s)) as [Hin|Hin].
  - destruct (topo_add_replace s n Hin) as (-> & _). split; [by left|]. intros [?| ->]; done.
  - rewrite topo_add_fresh by done. unfold ids. cbn. rewrite fmap_app, elem_of_app. cbn. by rewrite list_elem_of_singleton.
Qed.

Lemma topo_nodup s m : NoDup (ids s) -> NoDup (ids (topo_apply s m)).
Proof.
  intros Hnd. destruct m as [n|id|e|i].
  - destruct (decide (ns_id n ∈ ids s)) as [Hin|Hin]; [by destruct (topo_add_replace s n Hin) as (-> & _)|].
    rewrite topo_add_fresh by done. unfold ids. cbn. rewrite fmap_app. apply NoDup_app. split; [done|].
    split; [by intros x Hx ->%list_elem_of_singleton|apply NoDup_singleton].
  - destruct (decide (id ∈ ids s)); [|by rewrite topo_remove_absent]. rewrite remove_ids by done. by apply NoDup_filter.
  - by rewrite topo_add_link.
  - by rewrite topo_remove_link.
Qed.

Lemma reg_same c c' : reg_inv c -> NoDup (ids (topo c')) -> (forall i, i ∈ ids (topo c) -> i ∈ ids (topo c')) ->
  labels c' = labels c -> kinds c' = kinds c -> params c' = params c -> reg_inv c'.
Proof. intros [Hn Hl Hk Hp] Hn' Hi El Ek Ep. split; rewrite ?El, ?Ek, ?Ep; eauto. Qed.

Lemma reg_unchanged c c' : reg_inv c -> topo c' = topo c ->
  labels c' = labels c -> kinds c' = kinds c -> params c' = params c -> reg_inv c'.
Proof. intros Hc Ht. apply reg_same; rewrite ?Ht; [done|apply Hc|done]. Qed.

Lemma reg_forget c c1 id : reg_inv c -> topo c1 = topo_apply (topo c) (RemoveNode id) ->
  labels c1 = labels c -> kinds c1 = kinds c -> params c1 = params c -> reg_inv (forget_node c1 id).
Proof.
  intros [Hn Hl Hk Hp] Ht El Ek Ep. split; cbn; rewrite Ht; [by apply topo_nodup|..];
    intros i x; rewrite ?El, ?Ek, ?Ep; intros [Hne Hi]%lookup_delete_Some; apply ids_remove; eauto.
Qed.

Lemma reg_record c c1 n label kind ps : reg_inv c -> topo c1 = topo_apply (topo c) (AddNode n) ->
  labels c1 = labels c -> kinds c1 = kinds c -> params c1 = params c -> reg_inv (record_node c1 (ns_id n) label kind ps).
Proof.
  intros [Hn Hl Hk Hp] Ht El Ek Ep. split; cbn; rewrite Ht; [by apply topo_nodup|..]; intros i x; rewrite ?El, ?Ek, ?Ep.
  - rewrite lookup_insert. destruct (decide (ns_id n = i)); rewrite ids_add; eauto.
  - destruct kind; [rewrite lookup_insert; destruct (decide (ns_id n = i))|]; rewrite ids_add; eauto.
  - destruct ps; [rewrite lookup_insert; destruct (decide (ns_id n = i))|]; rewrite ids_add; eauto.
Qed.

(** A store call alone. *)
Lemma reg_apply c m c1 r : reg_inv c -> (forall id, m <> RemoveNode id) -> ctl_apply c m = (c1, r) -> reg_inv c1.
Proof.
  intros Hc Hm E. destruct (ctl_apply_cases c m) as [(c' & k & E' & Ht & Hl & Hk & Hp)|(c' & e & E' & Ht & Hl & Hk & Hp)];
    rewrite E' in E; injection E as <- <-.
  - apply (reg_same c); try done; rewrite Ht; [by apply topo_nodup, Hc|]. intros i Hi.
    destruct m as [n|id|e|j]; [apply ids_add; by left|by destruct (Hm id)|by rewrite topo_add_link|by rewrite topo_remove_link].
  - by apply (reg_unchanged c).
Qed.

Lemma clear_nodes_reg l : forall c, reg_inv c -> reg_inv (clear_nodes c l).1.
Proof.
  induction l as [|id l IH]; intros c Hc; cbn [clear_nodes]; [done|].
  destruct (ctl_apply_cases c (RemoveNode id)) as [(c1 & k & -> & Ht & Hl & Hk & Hp)|(c1 & e & -> & Ht & Hl & Hk & Hp)].
  - apply IH. by apply (reg_forget c).
  - by apply (reg_unchanged c).
Qed.

Lemma restore_nodes_reg ns : forall c, reg_inv c -> reg_inv (restore_nodes c ns).1.
Proof.
  induction ns as [|n ns IH]; intros c Hc; cbn [restore_nodes]; [done|].
  destruct (ctl_apply_cases c (AddNode (preset_snapshot n))) as [(c1 & k & -> & Ht & Hl & Hk & Hp)|(c1 & e & -> & Ht & Hl & Hk & Hp)].
  - apply IH. by apply (reg_record c c1 (preset_snapshot n)).
  - by apply (reg_unchanged c).
Qed.

Lemma restore_links_reg ls : forall c, reg_inv c -> reg_inv (restore_links c ls).1.
Proof.
  induction ls as [|l ls IH]; intros c Hc; cbn [restore_links]; [done|].
  destruct (ctl_apply c (AddLink (preset_edge l))) as [c1 [k|e]] eqn:E; apply (reg_apply c) in E; auto; done.
Qed.

Lemma ctl_call_reg c a : reg_inv c -> reg_inv (ctl_call c a).
Proof.
  intros Hc. destruct a as [spec|from fp to tp|id|id|p]; cbn.
  - unfold create_node. destruct (create_prepare c spec) as [[n k]|e]; [|done]. unfold create_commit.
    destruct (ctl_apply_cases c (AddNode n)) as [(c1 & i & -> & Ht & Hl & Hk & Hp)|(c1 & e & -> & Ht & Hl & Hk & Hp)]; cbn.
    + by apply (reg_record c).
    + by apply (reg_unchanged c).
  - unfold link_ports. destruct (topo_node _ from); [|done]. destruct (_ <=? fp); [done|]. destruct (topo_node _ to); [|done].
    destruct (_ <=? tp); [done|]. destruct (ctl_apply c _) as [c1 [i|e]] eqn:E; apply (reg_apply c) in E; try done.
    by destruct (length _).
  - unfold delete_node. destruct (topo_node _ id); [|done].
    destruct (ctl_apply_cases c (RemoveNode id)) as [(c1 & i & -> & Ht & Hl & Hk & Hp)|(c1 & e & -> & Ht & Hl & Hk & Hp)]; cbn.
    + by apply (reg_forget c).
    + by apply (reg_unchanged c).
  - unfold delete_link. destruct (_ <=? id); [done|].
    destruct (ctl_apply c _) as [c1 [i|e]] eqn:E; apply (reg_apply c) in E; done.
  - unfold import_preset. pose proof (clear_nodes_reg (ids (topo c)) c Hc) as H1'.
    destruct (clear_nodes c _) as [c1 [u|e]]; [|done]. cbn in H1'. pose proof (restore_nodes_reg (pr_nodes p) c1 H1') as H2'.
    destruct (restore_nodes c1 _) as [c2 [u2|e]]; [|done]. by apply restore_links_reg.
Qed.

(** ** Presets *)

(** A store that accepts every mutation. *)
Variable reliable : S -> Prop.
Hypothesis reliable_step : forall s m, reliable s ->
  exists s' id, apply_mutation s m = (s', Ok id) /\ reliable s'.

Lemma ctl_apply_reliable c m :
  reliable (store c) ->
  exists c' id, ctl_apply c m = (c', Ok id) /\ reliable (store c') /\
    topo c' = topo_apply (topo c) m /\
    labels c' = labels c /\ kinds c' = kinds c /\ params c' = params c.
Proof.
  intros Hr. destruct (reliable_step (store c) m Hr) as (s' & id & E & Hr').
  unfold ctl_apply. rewrite E. do 2 eexists. split; [done|]. cbn. split; [done|].
  split; [|done]. by eapply apply_mutation_ok.
Qed.

Lemma clear_nodes_ok c l :
  ctl_inv c -> reliable (store c) -> ids (topo c) ⊆ l ->
  exists c', clear_nodes c l = (c', Ok tt) /\ reliable (store c') /\
    topo c' = {| nodes := []; edges := [] |} /\
    labels c' = ∅ /\ kinds c' = ∅ /\ params c' = ∅.
Proof.
  revert c. induction l as [|id l IH]; intros c Hc Hr Hsub.
  - exists c. split; [done|]. split; [done|]. destruct Hc as [[Hnd He] Hl Hk Hp].
    assert (Hids : ids (topo c) = []) by (by apply list_nil_subseteq).
    assert (Hn : nodes (topo c) = []) by (unfold ids in Hids; by destruct (nodes (topo c))).
    split.
    + destruct (topo c) as [ns es] eqn:Et. cbn in *. subst ns. f_equal.
      destruct es as [|e es]; [done|].
      destruct (He e) as [(n & Hin & _) _]; [by left|]. by apply elem_of_nil in Hin.
    + rewrite Hids in *. split_and!; apply map_empty; intros i;
        apply eq_None_not_Some; intros [x Hx].
      * by apply Hl, elem_of_nil in Hx.
      * by apply Hk, elem_of_nil in Hx.
      * by apply Hp in Hx as [?%elem_of_nil _].
  - cbn. destruct (ctl_apply_reliable c (RemoveNode id) Hr)
      as (c1 & k & -> & Hr1 & Ht & Hl & Hk & Hp).
    apply IH; [by apply (forget_inv c)|done|]. intros i Hi. cbn in Hi. rewrite Ht in Hi.
    apply ids_remove in Hi as [Hi Hne]. apply Hsub in Hi. apply elem_of_cons in Hi as [->|?]; done.
Qed.

(** The registries agree with a preset node. *)
Definition registered c (n : PresetNode) : Prop :=
  labels c !! pn_id n = Some (pn_label n) /\ kinds c !! pn_id n = pn_kind n /\
  params c !! pn_id n = pn_params n.

Definition unregistered c (i : Z) : Prop :=
  labels c !! i = None /\ kinds c !! i = None /\ params c !! i = None.

Lemma record_registered c n :
  unregistered c (pn_id n) ->
  registered (record_node c (pn_id n) (pn_label n) (pn_kind n) (pn_params n)) n.
Proof.
  intros (Hl & Hk & Hp). unfold registered. cbn.
  rewrite lookup_insert_eq. split; [done|].
  split; [destruct (pn_kind n)|destruct (pn_params n)]; by rewrite ?lookup_insert_eq.
Qed.

Lemma record_other c n i :
  i <> pn_id n ->
  let c' := record_node c (pn_id n) (pn_label n) (pn_kind n) (pn_params n) in
  labels c' !! i = labels c !! i /\ kinds c' !! i = kinds c !! i /\ params c' !! i = params c !! i.
Proof.
  intros Hi. cbn. split; [by rewrite lookup_insert_ne|].
  split; [destruct (pn_kind n)|destruct (pn_params n)]; by rewrite ?lookup_insert_ne.
Qed.

Lemma restore_nodes_ok c ns :
  reliable (store c) -> NoDup (pn_id <$> ns) ->
  (forall n, n ∈ ns -> (pn_id n ∉ ids (topo c)) /\ unregistered c (pn_id n)) ->
  exists c', restore_nodes c ns = (c', Ok tt) /\ reliable (store c') /\
    topo c' = {| nodes := nodes (topo c) ++ (preset_snapshot <$> ns); edges := edges (topo c) |} /\
    (forall n, n ∈ ns -> registered c' n) /\
    (forall i, i ∉ (pn_id <$> ns) -> labels c' !! i = labels c !! i /\
       kinds c' !! i = kinds c !! i /\ params c' !! i = params c !! i).
Proof.
  revert c. induction ns as [|n ns IH]; intros c Hr Hnd Hfresh.
  - exists c. cbn. rewrite app_nil_r. split; [done|]. split; [done|].
    split; [by destruct (topo c)|]. split; [by intros n ?%elem_of_nil|done].
  - rewrite fmap_cons, NoDup_cons in Hnd. destruct Hnd as [Hn Hnd].
    destruct (Hfresh n) as [Hid Hun]; [by left|].
    cbn [restore_nodes]. destruct (ctl_apply_reliable c (AddNode (preset_snapshot n)) Hr)
      as (c1 & k & -> & Hr1 & Ht & Hl & Hk & Hp).
    rewrite topo_add_fresh in Ht by done.
    set (c2 := record_node c1 (pn_id n) (pn_label n) (pn_kind n) (pn_params n)).
    assert (Hun1 : unregistered c1 (pn_id n)) by (unfold unregistered; by rewrite Hl, Hk, Hp).
    destruct (IH c2) as (c' & E & Hr' & Ht' & Hreg & Hoth).
    + done.
    + done.
    + intros m Hm. destruct (Hfresh m) as [Hm1 Hm2]; [by right|].
      assert (Hne : pn_id m <> pn_id n)
        by (intros Heq; apply Hn; rewrite <- Heq; by apply list_elem_of_fmap_2).
      split.
      * cbn. rewrite Ht. unfold ids. cbn. rewrite fmap_app, elem_of_app.
        intros [?|?%list_elem_of_singleton]; [by apply Hm1|done].
      * destruct (record_other c1 n (pn_id m) Hne) as (E1 & E2 & E3). fold c2 in E1, E2, E3.
        unfold unregistered. by rewrite E1, E2, E3, Hl, Hk, Hp.
    + exists c'. split; [done|]. split; [done|]. split; [|split].
      * rewrite Ht'. cbn. rewrite Ht. cbn. by rewrite <- app_assoc.
      * intros m [->|Hm]%elem_of_cons; [|by apply Hreg].
        destruct (Hoth (pn_id n) Hn) as (E1 & E2 & E3). unfold registered. rewrite E1, E2, E3.
        by apply record_registered.
      * intros i Hi. rewrite fmap_cons, not_elem_of_cons in Hi. destruct Hi as [Hi1 Hi2].
        destruct (Hoth i Hi2) as (-> & -> & ->).
        destruct (record_other c1 n i Hi1) as (E1 & E2 & E3). fold c2 in E1, E2, E3.
        by rewrite E1, E2, E3, Hl, Hk, Hp.
Qed.

Lemma restore_links_ok c ls :
  reliable (store c) ->
  exists c', restore_links c ls = (c', Ok tt) /\
    topo c' = {| nodes := nodes (topo c); edges := edges (topo c) ++ (preset_edge <$> ls) |} /\
    labels c' = labels c /\ kinds c' = kinds c /\ params c' = params c.
Proof.
  revert c. induction ls as [|l ls IH]; intros c Hr.
  - exists c. cbn. rewrite app_nil_r. split; [done|]. by destruct (topo c).
  - cbn [restore_links]. destruct (ctl_apply_reliable c (AddLink (preset_edge l)) Hr)
      as (c1 & k & -> & Hr1 & Ht & Hl & Hk & Hp).
    destruct (IH c1 Hr1) as (c' & E & Ht' & Hl' & Hk' & Hp'). exists c'. split; [done|].
    rewrite Ht', Hl', Hk', Hp', Ht, topo_add_link. cbn. by rewrite <- app_assoc.
Qed.

(** Presets that describe a graph: distinct ids, fields in their types. *)
Definition preset_ok (p : Preset) : Prop :=
  pr_version p = PRESET_VERSION /\ NoDup (pn_id <$> pr_nodes p) /\
  Forall (fun n => u16 (pn_inputs n) /\ u16 (pn_outputs n)) (pr_nodes p) /\
  Forall (fun l => u16 (pl_from_port l) /\ u16 (pl_to_port l)) (pr_links p).

Lemma export_preset_ok c : NoDup (ids (topo c)) -> preset_ok (export_preset c).
Proof.
  intros Hnd. split; [done|]. split; [|split].
  - cbn. unfold list_nodes. rewrite <- !list_fmap_compose. exact Hnd.
  - apply Forall_fmap, Forall_fmap, Forall_true. intros n. cbn.
    split; apply wrap_uint; lia.
  - apply Forall_fmap. unfold list_links. apply Forall_lookup. intros i l.
    rewrite list_lookup_imap. intros (e & _ & ->)%fmap_Some. cbn. split; apply wrap_uint; lia.
Qed.

(** The exported form of a restored node is the preset node. *)
Lemma export_restored c p :
  preset_ok p ->
  topo c = {| nodes := preset_snapshot <$> pr_nodes p; edges := preset_edge <$> pr_links p |} ->
  (forall n, n ∈ pr_nodes p -> registered c n) ->
  export_preset c = p.
Proof.
  intros (Hv & _ & Hn & Hl) Ht Hreg. destruct p as [v ns ls]. cbn in *. subst v.
  unfold export_preset, list_nodes, list_links. rewrite Ht. cbn. f_equal.
  - rewrite <- !list_fmap_compose. rewrite <- (list_fmap_id ns) at 2. apply list_fmap_ext.
    intros i n Hi. apply list_elem_of_lookup_2 in Hi. rewrite Forall_forall in Hn.
    destruct (Hn n Hi) as [[H1a H1b] [H2a H2b]]. destruct (Hreg n Hi) as (Rl & Rk & Rp). cbn.
    rewrite Rl, Rk, Rp, !build_ports_length by done.
    rewrite !wrap_id by (by unfold uint). by destruct n.
  - apply list_eq. intros i. rewrite list_lookup_fmap, list_lookup_imap, list_lookup_fmap.
    destruct (ls !! i) as [l|] eqn:Hi; [|done]. cbn. rewrite Forall_forall in Hl.
    destruct (Hl l) as [Hfp Htp]; [by eapply list_elem_of_lookup_2|].
    rewrite !wrap_id by done. by destruct l.
Qed.

Lemma import_preset_topo c p :
  ctl_inv c -> reliable (store c) -> preset_ok p ->
  exists c', import_preset c p = (c', Ok tt) /\ export_preset c' = p /\
    topo c' = {| nodes := preset_snapshot <$> pr_nodes p; edges := preset_edge <$> pr_links p |}.
Proof.
  intros Hc Hr Hp. unfold import_preset.
  destruct (clear_nodes_ok c (ids (topo c)) Hc Hr) as (c1 & -> & Hr1 & Ht1 & Hl1 & Hk1 & Hp1);
    [done|].
  destruct (restore_nodes_ok c1 (pr_nodes p)) as (c2 & -> & Hr2 & Ht2 & Hreg & _).
  - done.
  - apply Hp.
  - intros n _. unfold unregistered. rewrite Ht1, Hl1, Hk1, Hp1, !lookup_empty.
    split; [apply not_elem_of_nil|done].
  - destruct (restore_links_ok c2 (pr_links p) Hr2) as (c3 & -> & Ht3 & Hl3 & Hk3 & Hp3).
    assert (Ht : topo c3 = {| nodes := preset_snapshot <$> pr_nodes p; edges := preset_edge <$> pr_links p |})
      by (rewrite Ht3, Ht2, Ht1; done).
    exists c3. split; [done|]. split; [|done]. apply export_restored; [done|done|].
    intros n Hn. unfold registered. rewrite Hl3, Hk3, Hp3. by apply Hreg.
Qed.

Lemma import_preset_ok c p :
  ctl_inv c -> reliable (store c) -> preset_ok p ->
  exists c', import_preset c p = (c', Ok tt) /\ export_preset c' = p.
Proof. intros Hc Hr Hp. destruct (import_preset_topo c p Hc Hr Hp) as (c' & E & He & _). eauto. Qed.

End facts.

(** ** Theorems *)

(** C4: the API never corrupts the graph.  From a controller over any
    well-formed topology, take any sequence of create, link, unlink, delete
    and import calls, made one after the other, each succeeding or failing at any of its store calls.
    Whatever they are, imported presets included, the node ids stay
    distinct and the label, kind and parameter registries describe installed nodes only.  If, besides,
    every imported preset describes a graph (distinct ids, links between ports its nodes have, parameters of
    their kinds) and the largest id has not been reached, every link joins an existing output
    port to an existing input port and each node's parameters are of its recorded kind, also when an
    import failed half-way. *)
Theorem control_api_invariant `{TopoLaws} {S} `{StoreOps S} `{!StoreLaws S}
    (s : S) (calls : list api_call) :
  topo_wf (get_topology s) ->
  let c := ctl_run (GraphController_new s) calls in
  reg_inv c /\ (calls_sound (GraphController_new s) calls -> ctl_inv c).
Proof.
  intros Hwf. apply ctl_new_inv in Hwf as Hc. unfold ctl_run. split.
  - assert (Hr : reg_inv (GraphController_new s)) by (destruct Hc as [[Hn _] Hl Hk Hp]; split; [done..|]; intros i p Hi; by apply (Hp i p)).
    revert Hr. generalize (GraphController_new s). clear Hc Hwf. induction calls as [|a calls IH]; intros c Hr; [done|]. apply IH. by apply ctl_call_reg.
  - revert Hc. generalize (GraphController_new s). clear Hwf. induction calls as [|a calls IH]; intros c Hc Hs; [done|]. destruct Hs as [Ha Hs].
    apply IH; [|done]. by apply ctl_call_inv.
Qed.

(** An engine on an empty in-memory table that never fails. *)
Definition example_store : engine_store (gmap Z Mutation) :=
  {| engine := {| snapshot := topo_new; next_id := 0; db := ∅; events := [] |};
     schedule := fun _ => no_faults; clock := 0 |}.

Definition example_spec (name : String.string) (ins outs : Z) : NodeSpec :=
  {| sp_label := lit name; sp_inputs := ins; sp_outputs := outs; sp_kind := None;
     sp_params := Some (Gain F32.one) |}.

(** Two nodes, a link, and an import that replaces them by one of two linked nodes. *)
Definition example_preset : Preset := {|
  pr_version := PRESET_VERSION;
  pr_nodes := [{| pn_id := 5; pn_label := lit "in"; pn_inputs := 0; pn_outputs := 1; pn_kind := None; pn_params := None |};
               {| pn_id := 9; pn_label := lit "out"; pn_inputs := 1; pn_outputs := 0; pn_kind := Some (lit "gain"); pn_params := Some (Gain F32.one) |}];
  pr_links := [{| pl_from := 5; pl_from_port := 0; pl_to := 9; pl_to_port := 0 |}] |}.

Lemma control_api_invariant_witness :
  let calls := [CCreate (example_spec "a" 1 1); CCreate (example_spec "b" 1 1); CLink 1 0 2 0; CImport example_preset; CDeleteNode 77] in
  let c := ctl_run (GraphController_new example_store) calls in
  ids (get_topology (store c)) = [5; 9] /\ length (edges (get_topology (store c))) = 1%nat /\ ctl_inv c.
Proof.
  intros calls c. split; [vm_compute; reflexivity|]. split; [vm_compute; reflexivity|].
  apply (control_api_invariant example_store calls).
  - split; [vm_compute; constructor|]. intros e He. by apply elem_of_nil in He.
  - split; [constructor|]. split; [repeat constructor; vm_compute; congruence|]. split; [split; lia|].
    split; [|done]. split; [apply (bool_decide_eq_true_1 _); vm_compute; reflexivity|].
    split; [apply Forall_cons_2; [exact I|apply Forall_cons_2; [vm_compute; reflexivity|apply Forall_nil_2]]|].
    apply Forall_singleton. split; [eexists; split; [left|]|eexists; split; [right; left|]]; vm_compute; (split; [reflexivity|]); split; congruence.
Defined.

(** A created node appears, and nothing else changes.  As long as the id
    counter has room, [create_node] on a valid spec takes the id after the
    largest installed one (1 on an empty graph, where the module
    documentation says 0), appends one entry to the node list with the spec's
    label, port counts and parameters, the kind inferred from the parameters
    when it was omitted, and leaves every other entry and every link as they
    were.  When it fails, for a blank label, a kind that contradicts the
    parameters or a store failure, the listed graph is unchanged. *)
Theorem create_node_appends `{TopoLaws} {S} `{StoreOps S} `{!StoreLaws S}
    (c c' : GraphController S) (spec : NodeSpec) (r : result Z ControlError) :
  ctl_inv c -> room (get_topology (store c)) -> u16 (sp_inputs spec) -> u16 (sp_outputs spec) ->
  create_node c spec = (c', r) ->
  match r with
  | Ok id =>
      (forall i, i ∈ ids (get_topology (store c)) -> i < id) /\
      (ids (get_topology (store c)) = [] -> id = 1) /\
      list_nodes c' = list_nodes c ++ [{|
        ni_id := id; ni_label := sp_label spec; ni_inputs := sp_inputs spec;
        ni_outputs := sp_outputs spec; ni_params := sp_params spec;
        ni_kind := match sp_params spec with
                   | Some p => Some (kind_name p) | None => sp_kind spec end |}] /\
      list_links c' = list_links c
  | Err e =>
      list_nodes c' = list_nodes c /\ list_links c' = list_links c /\
      (e = BadRequest EmptyLabel /\ Forall (fun x => is_whitespace x = true) (sp_label spec) \/
       (exists p k, sp_params spec = Some p /\ sp_kind spec = Some k /\ k <> kind_name p /\
          e = BadRequest (KindMismatch (kind_name p) k)) \/
       exists s, e = Graph (StoreFailed s))
  end.
Proof.
  intros Hc Hroom Hin Hout E. destruct (fresh_id_spec _ Hroom) as (Hfresh & _ & Hlt).
  destruct (create_node_cases c spec)
    as [(k & x & Hk & Ex & Ht & Hl & Hks & Hp)|(e & x & Ex & Ht & Hl & Hks & Hp & Hwhy)];
    rewrite Ex in E; injection E as <- <-.
  - apply check_spec_kind in Hk. set (id := fresh_id _) in *.
    destruct (fresh_unregistered c id Hc Hfresh) as (Ul & Uk & Up).
    split; [done|]. split; [intros Hnil; unfold id, fresh_id, max_id; by rewrite Hnil|].
    rewrite topo_add_fresh in Ht by done.
    unfold list_nodes, list_links. rewrite Ht. cbn. split; [|done]. rewrite fmap_app. f_equal.
    + apply list_fmap_ext. intros i n Hi.
      assert (id <> ns_id n).
      { intros Heq. apply Hfresh. rewrite Heq.
        apply list_elem_of_fmap_2. by eapply list_elem_of_lookup_2. }
      rewrite Hl, Hks, Hp, lookup_insert_ne by done.
      f_equal; [destruct k|destruct (sp_params spec)]; by rewrite ?lookup_insert_ne.
    + cbn. rewrite Hl, Hks, Hp, lookup_insert_eq, !build_ports_length by apply Hin || apply Hout.
      rewrite !wrap_id by done. do 2 f_equal.
      * destruct (sp_params spec) as [p|]; subst k; [by rewrite lookup_insert_eq|].
        destruct (sp_kind spec); by rewrite ?lookup_insert_eq.
      * destruct (sp_params spec); by rewrite ?lookup_insert_eq.
  - unfold list_nodes, list_links. rewrite Ht, Hl, Hks, Hp. split; [done|]. split; [done|].
    destruct Hwhy as [Hw|[_ Hs]]; [|by right; right]. unfold check_spec in Hw.
    case_bool_decide as Hb; [left; split; [congruence|by apply trim_nil]|].
    right; left. destruct (sp_params spec) as [p|]; [|done].
    destruct (sp_kind spec) as [k|]; [|done]. case_bool_decide; [|done].
    exists p, k. split_and!; congruence.
Qed.

Lemma create_node_appends_witness :
  exists c', create_node (GraphController_new example_store) (example_spec "g" 1 1) = (c', Ok 1) /\
    list_nodes c' = [{| ni_id := 1; ni_label := lit "g"; ni_inputs := 1; ni_outputs := 1;
                        ni_params := Some (Gain F32.one); ni_kind := Some (lit "gain") |}].
Proof.
  eexists. split; [reflexivity|].
  refine (proj1 (proj2 (proj2 (create_node_appends (GraphController_new example_store) _
    (example_spec "g" 1 1) (Ok 1) _ _ _ _ eq_refl)))).
  - apply ctl_new_inv. split; [vm_compute; constructor|]. intros e He. by apply elem_of_nil in He.
  - constructor.
  - vm_compute. split; congruence.
  - vm_compute. split; congruence.
Defined.

(** Deleting a node removes it, its registry entries and its links, and
    nothing else; it reports [NotFound] (404) exactly when the node is absent,
    and a failed delete changes nothing. *)
Theorem delete_node_exact `{TopoLaws} {S} `{StoreOps S} `{!StoreLaws S}
    (c c' : GraphController S) (id : Z) (r : result unit ControlError) :
  ctl_inv c -> delete_node c id = (c', r) ->
  match r with
  | Ok _ =>
      id ∈ ids (get_topology (store c)) /\
      list_nodes c' = filter (fun n => ni_id n <> id) (list_nodes c) /\
      edges (get_topology (store c')) = filter (avoids id) (edges (get_topology (store c))) /\
      labels c' !! id = None /\ kinds c' !! id = None /\ params c' !! id = None
  | Err e =>
      list_nodes c' = list_nodes c /\ list_links c' = list_links c /\
      ((id ∉ ids (get_topology (store c))) /\ status_for e = 404 \/
       id ∈ ids (get_topology (store c)) /\ status_for e = 422)
  end.
Proof.
  intros Hc E. pose proof Hc as [[Hnd _] _ _ _].
  destruct (delete_node_cases c id Hnd)
    as [(Hid & x & Ex & Ht & Hl & Hk & Hp)|(e & x & Ex & Ht & Hl & Hk & Hp & Hwhy)];
    rewrite Ex in E; injection E as <- <-.
  - rewrite topo_remove in Ht by done. split; [done|].
    rewrite Hl, Hk, Hp, Ht, !lookup_delete_eq. split; [|done].
    unfold list_nodes. rewrite Ht, Hl, Hk, Hp. cbn. clear.
    induction (nodes (get_topology (store c))) as [|n l IH]; [done|].
    rewrite fmap_cons, !filter_cons. cbn.
    destruct (decide (ns_id n <> id)); [|done]. rewrite fmap_cons, <- IH. f_equal.
    by rewrite !lookup_delete_ne.
  - unfold list_nodes, list_links. rewrite Ht, Hl, Hk, Hp. split; [done|]. split; [done|].
    destruct Hwhy as [[? ->]|[? [s ->]]]; auto.
Qed.

Lemma delete_node_exact_witness :
  let c1 := (create_node (GraphController_new example_store) (example_spec "a" 1 1)).1 in
  let c2 := (link_ports c1 1 0 1 0).1 in
  exists c3, delete_node c2 1 = (c3, Ok tt) /\ edges (get_topology (store c3)) = [].
Proof.
  intros c1 c2. eexists. split; [reflexivity|].
  refine (proj1 (proj2 (proj2 (delete_node_exact c2 _ 1 (Ok tt) _ eq_refl)))).
  apply link_ports_inv; [|lia|lia]. apply create_node_inv; [|constructor].
  apply ctl_new_inv. split; [vm_compute; constructor|]. intros e He. by apply elem_of_nil in He.
Defined.

(** A link is added exactly when both ports exist.  On success the link is
    appended at the end of the link list and its position is returned; a
    missing node is reported as 404, a port out of range as 400, a store
    failure as 422, and in each of these cases the graph is unchanged. *)
Theorem link_ports_exact `{TopoLaws} {S} `{StoreOps S} `{!StoreLaws S}
    (c c' : GraphController S) (from fp to tp : Z) (r : result Z ControlError) :
  ctl_inv c -> u16 fp -> u16 tp -> link_ports c from fp to tp = (c', r) ->
  list_nodes c' = list_nodes c /\
  match r with
  | Ok id =>
      has_output (get_topology (store c)) (from, fp) /\
      has_input (get_topology (store c)) (to, tp) /\
      id = Z.of_nat (length (list_links c)) /\
      list_links c' = list_links c ++
        [{| li_id := id; li_from := from; li_from_port := fp; li_to := to; li_to_port := tp |}]
  | Err e =>
      list_links c' = list_links c /\
      (status_for e = 422 \/
       (status_for e = 404 \/ status_for e = 400) /\
       ~ (has_output (get_topology (store c)) (from, fp) /\
          has_input (get_topology (store c)) (to, tp)))
  end.
Proof.
  intros Hc [Hfp Hfp'] [Htp Htp'] E. pose proof Hc as [[Hnd _] _ _ _].
  destruct (link_ports_cases c from fp to tp Hnd Hfp Htp)
    as [(Ho & Hi & x & Ex & Ht & Hl & Hk & Hp)|(e & x & Ex & Ht & Hl & Hk & Hp & Hwhy)];
    rewrite Ex in E; injection E as <- <-; unfold list_nodes, list_links;
    rewrite Ht, Hl, Hk, Hp, ?topo_add_link; (split; [done|]).
  - split; [done|]. split; [done|]. cbn. rewrite length_imap. split; [done|].
    rewrite imap_app. cbn. by rewrite Nat.add_0_r, !wrap_id.
  - split; [done|]. destruct Hwhy as [?|[[? Hn]|[? Hn]]]; [by left|right..]; (split; [by auto|]);
      intros [(a & Ha & Hia & Hpa) (b & Hb & Hib & Hpb)]; cbn in *;
      pose proof (proj2 (topo_node_some _ from a Hnd) (conj Ha Hia));
      pose proof (proj2 (topo_node_some _ to b Hnd) (conj Hb Hib)).
    + destruct Hn; congruence.
    + destruct Hn as [(n & ? & ?)|(n & ? & ?)]; simplify_eq; lia.
Qed.

Lemma link_ports_exact_witness :
  let c1 := (create_node (GraphController_new example_store) (example_spec "a" 2 1)).1 in
  exists c2, link_ports c1 1 0 1 1 = (c2, Ok 0) /\
    list_links c2 = [{| li_id := 0; li_from := 1; li_from_port := 0; li_to := 1; li_to_port := 1 |}].
Proof.
  intros c1. eexists. split; [reflexivity|].
  refine (proj2 (proj2 (proj2 (proj2 (link_ports_exact c1 _ 1 0 1 1 (Ok 0) _ _ _ eq_refl))))).
  - apply create_node_inv; [|constructor].
    apply ctl_new_inv. split; [vm_compute; constructor|]. intros e He. by apply elem_of_nil in He.
  - vm_compute. split; congruence.
  - vm_compute. split; congruence.
Defined.

(** C23: a preset restores the graph it was exported from.  Importing the
    export of any controller [c0] with distinct node ids into any controller
    [c] whose store accepts mutations replaces the graph of [c] completely:
    exporting again gives the same preset, labels, kinds, parameters, port
    counts and links included. *)
Theorem preset_roundtrip `{TopoLaws} {S} `{StoreOps S} `{!StoreLaws S}
    (reliable : S -> Prop) (c0 c : GraphController S) :
  (forall s m, reliable s -> exists s' id, apply_mutation s m = (s', Ok id) /\ reliable s') ->
  reliable (store c) -> ctl_inv c -> NoDup (ids (get_topology (store c0))) ->
  exists c', import_preset c (export_preset c0) = (c', Ok tt) /\
    export_preset c' = export_preset c0.
Proof.
  intros Hrel Hr Hc Hnd. eapply import_preset_ok; eauto using export_preset_ok.
Qed.

Lemma preset_roundtrip_witness :
  let c1 := (create_node (GraphController_new example_store) (example_spec "a" 2 1)).1 in
  let c2 := (link_ports c1 1 0 1 1).1 in
  exists c', import_preset c1 (export_preset c2) = (c', Ok tt) /\
    export_preset c' = export_preset c2.
Proof.
  intros c1 c2.
  refine (preset_roundtrip (fun s => schedule s = fun _ => no_faults) c2 c1 _ _ _ _).
  - intros s m Hs. do 2 eexists. cbn. rewrite Hs. cbn. by split.
  - reflexivity.
  - apply create_node_inv; [|constructor].
    apply ctl_new_inv. split; [vm_compute; constructor|]. intros e He. by apply elem_of_nil in He.
  - apply (bool_decide_eq_true_1 _). vm_compute. reflexivity.
Defined.

(** Two overlapping [create_node] calls can lose a node.  A call reads the
    topology in one store operation and applies its mutation in another; when
    both calls read before either applies, both are told they created the same
    id, the second node replaces the first in the topology, and the first
    label is overwritten. *)
Theorem concurrent_create_collides `{TopoLaws} {S} `{StoreOps S} `{!StoreLaws S}
    (c c1 c2 : GraphController S) (spec1 spec2 : NodeSpec) n1 k1 n2 k2 id1 id2 :
  room (get_topology (store c)) ->
  create_prepare c spec1 = Ok (n1, k1) -> create_prepare c spec2 = Ok (n2, k2) ->
  create_commit c spec1 n1 k1 = (c1, Ok id1) -> create_commit c1 spec2 n2 k2 = (c2, Ok id2) ->
  id1 = id2 /\
  length (nodes (get_topology (store c2))) = Datatypes.S (length (nodes (get_topology (store c)))) /\
  n2 ∈ nodes (get_topology (store c2)) /\
  (n1 <> n2 -> n1 ∉ nodes (get_topology (store c2))) /\
  labels c2 !! id1 = Some (sp_label spec2).
Proof.
  intros Hroom Hp1 Hp2 Hc1 Hc2. destruct (fresh_id_spec _ Hroom) as (Hfresh & _).
  unfold create_prepare in Hp1, Hp2.
  apply rbind_ok in Hp1 as (kk1 & _ & [= E1 _]). apply rbind_ok in Hp2 as (kk2 & _ & [= E2 _]).
  assert (Hi1 : ns_id n1 = fresh_id (get_topology (store c))) by by rewrite <- E1.
  assert (Hi2 : ns_id n2 = fresh_id (get_topology (store c))) by by rewrite <- E2.
  unfold create_commit in Hc1, Hc2.
  destruct (ctl_apply_cases c (AddNode n1))
    as [(x & j & Ex & Ht1 & _)|(x & e & Ex & _)]; rewrite Ex in Hc1; [|done].
  injection Hc1 as <- <-. rewrite topo_add_fresh in Ht1 by (by rewrite Hi1).
  set (x1 := record_node _ _ _ _ _) in Hc2.
  assert (Ht1' : get_topology (store x1) = {| nodes := nodes (get_topology (store c)) ++ [n1];
    edges := edges (get_topology (store c)) |}) by done.
  destruct (ctl_apply_cases x1 (AddNode n2))
    as [(y & j' & Ey & Ht2 & Hl2 & _)|(y & e & Ey & _)]; rewrite Ey in Hc2; [|done].
  injection Hc2 as <- <-. cbn.
  assert (Hin : ns_id n2 ∈ ids (get_topology (store x1))).
  { rewrite Ht1'. unfold ids. cbn. rewrite fmap_app, elem_of_app. right. rewrite Hi2, <- Hi1. by left. }
  destruct (topo_add_replace _ _ Hin) as (Hids & _ & Hmem). rewrite <- Ht2 in Hids, Hmem.
  split; [congruence|]. split; [|split; [|split]].
  - assert (Hlen : length (ids (get_topology (store y))) = length (ids (get_topology (store x1)))) by congruence.
    rewrite Ht1' in Hlen. unfold ids in Hlen. rewrite !length_fmap in Hlen. cbn in Hlen.
    rewrite length_app in Hlen. cbn in Hlen. lia.
  - apply Hmem. by left.
  - intros Hne Hin1. apply Hmem in Hin1 as [?|[_ Hx]]; [done|congruence].
  - rewrite Hi1, Hi2. by rewrite lookup_insert_eq.
Qed.

Lemma concurrent_create_collides_witness :
  let c := GraphController_new example_store in
  let s1 := example_spec "a" 1 1 in
  let s2 := example_spec "b" 0 1 in
  exists c2, labels c2 !! 1 = Some (lit "b") /\
    length (nodes (get_topology (store (S := engine_store (gmap Z Mutation)) c2))) = 1%nat.
Proof.
  intros c s1 s2. eexists.
  edestruct (concurrent_create_collides c) as (_ & Hlen & _ & _ & Hl).
  - apply Forall_nil_2.
  - instantiate (3 := s1). reflexivity.
  - instantiate (3 := s2). reflexivity.
  - reflexivity.
  - reflexivity.
  - split; [exact Hl|exact Hlen].
Defined.

(** [import_preset] does not check the links it restores.  A preset whose
    link names a node the preset does not contain is accepted, and the imported
    topology has a dangling link; the loop's comment states that the nodes the
    links reference exist by then. *)
Theorem import_accepts_dangling_links :
  exists (preset : Preset) (c' : GraphController (engine_store (gmap Z Mutation))),
    import_preset (GraphController_new example_store) preset = (c', Ok tt) /\
    pr_nodes preset = [] /\ ~ topo_wf (get_topology (store c')).
Proof.
  exists {| pr_version := 1; pr_nodes := [];
            pr_links := [{| pl_from := 5; pl_from_port := 0; pl_to := 6; pl_to_port := 0 |}] |}.
  eexists. split; [reflexivity|]. split; [done|]. intros [_ He].
  destruct (He {| e_from := (5, 0); e_to := (6, 0) |}) as [(n & Hn & _) _].
  - vm_compute. left.
  - by apply elem_of_nil in Hn.
Qed.
