(* ===== verification/PulseTags.v ===== *)
(** * PulseAudio wire codec and tagstructs

    [crates/gw-pulse/src/codec.rs] and [tags.rs].  The tag reader is a state
    monad over a buffer and a cursor, as in the source: a failed read may have
    moved the cursor.  Strings are their UTF-8 bytes. *)

From S2P Require Import Prelude.

(** ** [codec.rs] *)

Definition HEADER_LEN : nat := 20.
Definition MAX_LEN : Z := 4 * 1024 * 1024.

Inductive PulseError : Type :=
| Truncated
| InvalidTag (b : Z)
| InvalidSampleFormat (b : Z)
| Oversized
| InvalidUtf8.

#[export] Instance PulseError_eq_dec : EqDecision PulseError.
Proof. solve_decision. Defined.

(** Command opcodes. *)
Definition ERROR : Z := 0.
Definition TIMEOUT : Z := 1.
Definition REPLY : Z := 2.
Definition CREATE_PLAYBACK_STREAM : Z := 3.
Definition DELETE_PLAYBACK_STREAM : Z := 4.
Definition AUTH : Z := 8.
Definition SET_CLIENT_NAME : Z := 9.
Definition SAMPLE_FLOAT32LE : Z := 5.
Definition VOLUME_NORM : Z := 0x10000.
Definition QUERY_INFO : Z := 20.
Definition SERVER_INFO : Z := 2.

Record PacketHeader : Type := {
  ph_length : Z; ph_channel : Z; ph_offset : Z; ph_flags : Z; ph_opcode : Z
}.

(** The bytes [a..a+n] of a buffer. *)
Definition slice (buf : bytes) (a n : nat) : bytes := take n (drop a buf).

Definition PacketHeader_parse (buf : bytes) : result PacketHeader PulseError :=
  if (length buf <? HEADER_LEN)%nat then Err Truncated
  else Ok {|
    ph_length := of_be (slice buf 0 4);
    ph_channel := of_be (slice buf 4 4);
    ph_offset := of_be (slice buf 8 8);
    ph_flags := of_be (slice buf 16 4);
    ph_opcode := if (HEADER_LEN + 4 <=? length buf)%nat then of_be (slice buf 20 4) else 0
  |}.

Definition PacketHeader_is_valid (h : PacketHeader) : bool :=
  (0 <? ph_length h) && (ph_length h <=? MAX_LEN).

Inductive SampleFormat : Type := S16Le | Float32Le.

Definition from_pa_byte (b : Z) : option SampleFormat :=
  if b =? 0 then Some S16Le else if b =? 5 then Some Float32Le else None.

Record SampleSpec : Type := { ss_rate : Z; ss_channels : Z; ss_format : SampleFormat }.

Definition SampleSpec_parse (buf : bytes) : result SampleSpec PulseError :=
  if (length buf <? 6)%nat then Err Truncated
  else
    let rate := of_be (slice buf 0 4) in
    let channels := get buf 4 in
    let? format := ok_or (from_pa_byte (get buf 5)) (InvalidSampleFormat (get buf 5)) in
    Ok {| ss_rate := rate; ss_channels := channels; ss_format := format |}.

Definition to_audio_frame_meta (s : SampleSpec) : Z * Z := (ss_channels s, ss_rate s).

(** [bytes.strip_suffix(b"\0").unwrap_or(bytes)]. *)
Definition strip_nul (bs : bytes) : bytes :=
  match last bs with
  | Some 0 => take (length bs - 1) bs
  | _ => bs
  end.

Definition parse_pa_string (buf : bytes) : result (bytes * bytes) PulseError :=
  if (length buf <? 4)%nat then Err Truncated
  else
    let len := of_be (slice buf 0 4) in
    if MAX_LEN <? len then Err Oversized
    else
      let end_ := (4 + Z.to_nat len)%nat in
      if (length buf <? end_)%nat then Err Oversized
      else Ok (strip_nul (slice buf 4 (Z.to_nat len)), drop end_ buf).

(** ** UTF-8

    [std::str::from_utf8]: well-formed byte sequences (Unicode 3.9, table 3-7). *)

Definition cont (b : Z) : bool := (0x80 <=? b) && (b <=? 0xBF).
Definition between (lo hi b : Z) : bool := (lo <=? b) && (b <=? hi).

Fixpoint valid_utf8 (bs : bytes) : bool :=
  match bs with
  | [] => true
  | b0 :: r =>
      if b0 <=? 0x7F then valid_utf8 r
      else
        match r with
        | [] => false
        | b1 :: r =>
            if between 0xC2 0xDF b0 then cont b1 && valid_utf8 r
            else
              match r with
              | [] => false
              | b2 :: r =>
                  if b0 =? 0xE0 then between 0xA0 0xBF b1 && cont b2 && valid_utf8 r
                  else if between 0xE1 0xEC b0 || between 0xEE 0xEF b0
                  then cont b1 && cont b2 && valid_utf8 r
                  else if b0 =? 0xED then between 0x80 0x9F b1 && cont b2 && valid_utf8 r
                  else
                    match r with
                    | [] => false
                    | b3 :: r =>
                        if b0 =? 0xF0
                        then between 0x90 0xBF b1 && cont b2 && cont b3 && valid_utf8 r
                        else if between 0xF1 0xF3 b0
                        then cont b1 && cont b2 && cont b3 && valid_utf8 r
                        else if b0 =? 0xF4
                        then between 0x80 0x8F b1 && cont b2 && cont b3 && valid_utf8 r
                        else false
                    end
              end
        end
  end.

Definition from_utf8 (bs : bytes) : result bytes PulseError :=
  if valid_utf8 bs then Ok bs else Err InvalidUtf8.

(** ** Tags *)

Definition TAG_U32 : Z := 76.
Definition TAG_U8 : Z := 66.
Definition TAG_BOOLEAN_TRUE : Z := 49.
Definition TAG_BOOLEAN_FALSE : Z := 48.
Definition TAG_STRING : Z := 116.
Definition TAG_STRING_NULL : Z := 78.
Definition TAG_ARBITRARY : Z := 120.
Definition TAG_U64 : Z := 82.
Definition TAG_PROPLIST : Z := 80.
Definition TAG_VOLUME : Z := 118.
Definition TAG_SAMPLE_SPEC : Z := 97.
Definition TAG_CHANNEL_MAP : Z := 109.
Definition TAG_CVOLUME : Z := 118.

(** ** Writer: each method appends to the buffer.  The [expect] calls of the
    source panic on a length that does not fit its prefix. *)

Definition TagWriter : Type := bytes.
Definition TagWriter_new : TagWriter := [].
Definition w_u32 (v : Z) (w : TagWriter) : TagWriter := w ++ TAG_U32 :: be_bytes 4 v.
Definition w_u8 (v : Z) (w : TagWriter) : TagWriter := w ++ [TAG_U8; v].
Definition w_boolean (v : bool) (w : TagWriter) : TagWriter :=
  w ++ [if v then TAG_BOOLEAN_TRUE else TAG_BOOLEAN_FALSE].
Definition w_string (s : bytes) (w : TagWriter) : TagWriter := w ++ TAG_STRING :: s ++ [0].
Definition w_string_null (w : TagWriter) : TagWriter := w ++ [TAG_STRING_NULL].
Definition w_arbitrary (data : bytes) (w : TagWriter) : TagWriter :=
  w ++ TAG_ARBITRARY :: be_bytes 4 (Z.of_nat (length data)) ++ data.
Definition w_u64 (v : Z) (w : TagWriter) : TagWriter := w ++ TAG_U64 :: be_bytes 8 v.
Definition w_proplist (pairs : list (bytes * bytes)) (w : TagWriter) : TagWriter :=
  w_string_null
    (foldl (fun w '(key, value) =>
              w_arbitrary value (w_u32 (Z.of_nat (length value)) (w_string key w)))
       (w ++ [TAG_PROPLIST]) pairs).
Definition w_sample_spec (rate channels format : Z) (w : TagWriter) : TagWriter :=
  w ++ TAG_SAMPLE_SPEC :: format :: channels :: be_bytes 4 rate.
Definition w_channel_map (positions : bytes) (w : TagWriter) : TagWriter :=
  w ++ TAG_CHANNEL_MAP :: Z.of_nat (length positions) :: positions.
Definition w_volume (v : Z) (w : TagWriter) : TagWriter := w ++ TAG_VOLUME :: be_bytes 4 v.
Definition w_cvolume (volumes : list Z) (w : TagWriter) : TagWriter :=
  w ++ TAG_CVOLUME :: Z.of_nat (length volumes) :: (volumes ≫= be_bytes 4).

(** ** Reader *)

Record TagReader : Type := { rbuf : bytes; pos : nat }.

Definition TagReader_new (b : bytes) : TagReader := {| rbuf := b; pos := 0 |}.
Definition remaining (r : TagReader) : nat := length (rbuf r) - pos r.
Definition reader_is_empty (r : TagReader) : bool := (remaining r =? 0)%nat.

Definition rd (A : Type) : Type := TagReader -> TagReader * result A PulseError.
Definition rd_ret {A} (a : A) : rd A := fun r => (r, Ok a).
Definition rd_err {A} (e : PulseError) : rd A := fun r => (r, Err e).
Definition rd_bind {A B} (p : rd A) (k : A -> rd B) : rd B := fun r =>
  match p r with
  | (r', Ok a) => k a r'
  | (r', Err e) => (r', Err e)
  end.
Definition rd_lift {A} (m : result A PulseError) : rd A := fun r => (r, m).

Notation "x <~ p ; k" := (rd_bind p (fun x => k))
  (at level 100, p at next level, right associativity) : sonic_scope.

Definition rd_take (n : nat) : rd bytes := fun r =>
  if usize_max <? Z.of_nat (pos r) + Z.of_nat n then (r, Err Oversized)
  else
    let end_ := (pos r + n)%nat in
    if (length (rbuf r) <? end_)%nat then (r, Err Truncated)
    else ({| rbuf := rbuf r; pos := end_ |}, Ok (slice (rbuf r) (pos r) n)).

Definition peek_byte : rd Z := fun r => (r, ok_or (rbuf r !! pos r) Truncated).

Definition expect_tag (expected : Z) : rd unit :=
  bs <~ rd_take 1;
  if get bs 0 =? expected then rd_ret tt else rd_err (InvalidTag (get bs 0)).

Definition read_u32 : rd Z :=
  _ <~ expect_tag TAG_U32; bs <~ rd_take 4; rd_ret (of_be bs).
Definition read_u8 : rd Z :=
  _ <~ expect_tag TAG_U8; bs <~ rd_take 1; rd_ret (get bs 0).
Definition read_boolean : rd bool :=
  bs <~ rd_take 1;
  let b := get bs 0 in
  if b =? TAG_BOOLEAN_TRUE then rd_ret true
  else if b =? TAG_BOOLEAN_FALSE then rd_ret false
  else rd_err (InvalidTag b).

(** The position of the first NUL. *)
Fixpoint find_nul (bs : bytes) : option nat :=
  match bs with
  | [] => None
  | b :: bs => if b =? 0 then Some 0%nat else S <$> find_nul bs
  end.

(** The body of a [TAG_STRING]: the cursor only moves on success. *)
Definition string_body : rd bytes := fun r =>
  match find_nul (drop (pos r) (rbuf r)) with
  | None => (r, Err Truncated)
  | Some nul =>
      if MAX_LEN <? Z.of_nat nul then (r, Err Oversized)
      else
        match from_utf8 (slice (rbuf r) (pos r) nul) with
        | Err e => (r, Err e)
        | Ok s => ({| rbuf := rbuf r; pos := pos r + nul + 1 |}, Ok s)
        end
  end.

Definition read_string : rd (option bytes) :=
  bs <~ rd_take 1;
  let b := get bs 0 in
  if b =? TAG_STRING_NULL then rd_ret None
  else if b =? TAG_STRING then s <~ string_body; rd_ret (Some s)
  else rd_err (InvalidTag b).

Definition read_arbitrary : rd bytes :=
  _ <~ expect_tag TAG_ARBITRARY;
  len_bytes <~ rd_take 4;
  let len := of_be len_bytes in
  if MAX_LEN <? len then rd_err Oversized else rd_take (Z.to_nat len).

Definition read_u64 : rd Z :=
  _ <~ expect_tag TAG_U64; bs <~ rd_take 8; rd_ret (of_be bs).

(** One entry of a proplist after its tag byte has been seen. *)
Definition read_pair : rd (bytes * bytes) :=
  key <~ read_string;
  len <~ read_u32;
  if MAX_LEN <? len then rd_err Oversized
  else
    blob <~ read_arbitrary;
    if negb (Z.of_nat (length blob) =? len) then rd_err Truncated
    else value <~ rd_lift (from_utf8 blob); rd_ret (default [] key, value).

(** Every entry consumes bytes, so the buffer length bounds the loop. *)
Fixpoint proplist_loop (fuel : nat) (pairs : list (bytes * bytes)) : rd (list (bytes * bytes)) :=
  match fuel with
  | O => rd_err Truncated
  | S fuel =>
      b <~ peek_byte;
      if b =? TAG_STRING then p <~ read_pair; proplist_loop fuel (pairs ++ [p])
      else if b =? TAG_STRING_NULL then _ <~ rd_take 1; rd_ret pairs
      else rd_err (InvalidTag b)
  end.

Definition read_proplist : rd (list (bytes * bytes)) :=
  _ <~ expect_tag TAG_PROPLIST;
  fun r => proplist_loop (S (remaining r)) [] r.

Definition read_sample_spec : rd (Z * Z * Z) :=
  _ <~ expect_tag TAG_SAMPLE_SPEC;
  bs <~ rd_take 6;
  rd_ret (of_be (slice bs 2 4), get bs 1, get bs 0).

Definition read_volume : rd Z :=
  _ <~ expect_tag TAG_VOLUME; bs <~ rd_take 4; rd_ret (of_be bs).

Definition read_cvolume : rd (list Z) :=
  _ <~ expect_tag TAG_CVOLUME;
  c <~ rd_take 1;
  let count := Z.to_nat (get c 0) in
  if MAX_LEN <? Z.of_nat count then rd_err Oversized
  else
    bs <~ rd_take (count * 4);
    rd_ret ((fun i => of_be (slice bs (i * 4) 4)) <$> seq 0 count).

Definition read_u8_raw : rd Z := bs <~ rd_take 1; rd_ret (get bs 0).

Definition read_channel_map : rd bytes :=
  _ <~ expect_tag TAG_CHANNEL_MAP;
  count <~ read_u8_raw;
  rd_take (Z.to_nat count).

Definition skip_channel_map : rd unit := _ <~ read_channel_map; rd_ret tt.

(** ** Reading back what was written *)

Section reads.
Context {A B : Type}.

(** Reading [enc] anywhere in a buffer yields [v] and consumes exactly [enc]. *)
Definition reads (p : rd A) (enc : bytes) (v : A) : Prop :=
  forall pre rest, Z.of_nat (length (pre ++ enc ++ rest)) <= usize_max ->
    p {| rbuf := pre ++ enc ++ rest; pos := length pre |} =
    ({| rbuf := pre ++ enc ++ rest; pos := length pre + length enc |}, Ok v).
End reads.

Lemma reads_ret {A} (a : A) : reads (rd_ret a) [] a.
Proof. intros pre rest _. cbn. by rewrite Nat.add_0_r. Qed.

Lemma reads_bind {A B} (p : rd A) (k : A -> rd B) e1 e2 a b :
  reads p e1 a -> reads (k a) e2 b -> reads (rd_bind p k) (e1 ++ e2) b.
Proof.
  intros Hp Hk pre rest Hl. unfold rd_bind. rewrite <- app_assoc in Hl |- *.
  rewrite (Hp pre (e2 ++ rest)) by done.
  specialize (Hk (pre ++ e1) rest). rewrite (length_app pre e1), <- !app_assoc in Hk.
  rewrite Hk by done. by rewrite length_app, Nat.add_assoc.
Qed.

Lemma reads_bind_ret {A B} (p : rd A) (f : A -> B) e a :
  reads p e a -> reads (x <~ p; rd_ret (f x)) e (f a).
Proof. intros Hp. rewrite <- (app_nil_r e). apply (reads_bind _ _ _ _ a); [done|apply reads_ret]. Qed.

Lemma slice_app (pre enc rest : bytes) : slice (pre ++ enc ++ rest) (length pre) (length enc) = enc.
Proof. unfold slice. rewrite drop_app_length, take_app_length. done. Qed.

Lemma reads_take n enc : length enc = n -> reads (rd_take n) enc enc.
Proof.
  intros <- pre rest Hl. unfold rd_take. cbn [pos rbuf].
  rewrite !length_app in Hl.
  destruct (Z.ltb_spec usize_max (Z.of_nat (length pre) + Z.of_nat (length enc))); [lia|].
  destruct (Nat.ltb_spec (length (pre ++ enc ++ rest)) (length pre + length enc));
    [rewrite !length_app in *; lia|].
  by rewrite slice_app.
Qed.

Lemma reads_tag t : reads (expect_tag t) [t] tt.
Proof.
  unfold expect_tag. rewrite <- (app_nil_r [t]).
  eapply reads_bind; [by apply reads_take|]. cbn. rewrite Z.eqb_refl. apply reads_ret.
Qed.

Lemma reads_peek {A} (k : Z -> rd A) b enc v :
  reads (k b) (b :: enc) v -> reads (b <~ peek_byte; k b) (b :: enc) v.
Proof.
  intros Hk pre rest Hl. unfold rd_bind, peek_byte. cbn [rbuf pos].
  rewrite lookup_app_r, Nat.sub_diag by lia. cbn [app lookup list_lookup ok_or].
  by apply Hk.
Qed.

(** A tagged field: the tag, then the payload. *)
Lemma reads_tagged {A} t (p : rd A) enc v :
  reads p enc v -> reads (_ <~ expect_tag t; p) (t :: enc) v.
Proof. intros Hp. apply (reads_bind _ _ [t] enc tt); [apply reads_tag|done]. Qed.

Lemma reads_be n v :
  0 <= v < 256 ^ Z.of_nat n -> reads (bs <~ rd_take n; rd_ret (of_be bs)) (be_bytes n v) v.
Proof.
  intros Hv. rewrite <- (of_be_be_bytes n v Hv) at 2.
  apply (reads_bind_ret (rd_take n) of_be), reads_take, length_be_bytes.
Qed.

Lemma reads_byte b : reads (bs <~ rd_take 1; rd_ret (get bs 0)) [b] b.
Proof. apply (reads_bind_ret (rd_take 1) (fun bs => get bs 0) [b] [b]). by apply reads_take. Qed.

Lemma reads_u32 v : u32 v -> reads read_u32 (TAG_U32 :: be_bytes 4 v) v.
Proof. intros. by apply reads_tagged, reads_be. Qed.

Lemma reads_u64 v : u64 v -> reads read_u64 (TAG_U64 :: be_bytes 8 v) v.
Proof. intros. by apply reads_tagged, reads_be. Qed.

Lemma reads_volume v : u32 v -> reads read_volume (TAG_VOLUME :: be_bytes 4 v) v.
Proof. intros. by apply reads_tagged, reads_be. Qed.

Lemma reads_u8 v : reads read_u8 [TAG_U8; v] v.
Proof. apply reads_tagged, reads_byte. Qed.

Lemma reads_boolean (b : bool) :
  reads read_boolean [if b then TAG_BOOLEAN_TRUE else TAG_BOOLEAN_FALSE] b.
Proof.
  unfold read_boolean. set (t := if b then TAG_BOOLEAN_TRUE else TAG_BOOLEAN_FALSE).
  apply (reads_bind _ _ [t] [] [t]); [by apply reads_take|]. destruct b; apply reads_ret.
Qed.

Definition no_nul (s : bytes) : Prop := Forall (fun b => b <> 0) s.

Lemma find_nul_app s rest : no_nul s -> find_nul (s ++ 0 :: rest) = Some (length s).
Proof.
  induction 1 as [|b s Hb _ IH]; [done|]. cbn. destruct (Z.eqb_spec b 0); [done|].
  by rewrite IH.
Qed.

Definition str_ok (s : bytes) : Prop :=
  no_nul s /\ valid_utf8 s = true /\ Z.of_nat (length s) <= MAX_LEN.

Lemma reads_string_body s : str_ok s -> reads string_body (s ++ [0]) s.
Proof.
  intros (Hn & Hu & Hl) pre rest _. unfold string_body. cbn [rbuf pos].
  rewrite drop_app_length, <- app_assoc. cbn [app]. rewrite find_nul_app by done.
  destruct (Z.ltb_spec MAX_LEN (Z.of_nat (length s))); [lia|].
  rewrite slice_app. unfold from_utf8. rewrite Hu.
  do 2 f_equal. rewrite length_app. cbn. lia.
Qed.

Lemma reads_string s : str_ok s -> reads read_string (TAG_STRING :: s ++ [0]) (Some s).
Proof.
  intros Hs. unfold read_string. apply (reads_bind _ _ [TAG_STRING] (s ++ [0]) [TAG_STRING]);
    [by apply reads_take|]. apply (reads_bind_ret string_body Some). by apply reads_string_body.
Qed.

Lemma reads_string_null : reads read_string [TAG_STRING_NULL] None.
Proof.
  unfold read_string. apply (reads_bind _ _ [TAG_STRING_NULL] [] [TAG_STRING_NULL]);
    [by apply reads_take|apply reads_ret].
Qed.

Definition blob_ok (d : bytes) : Prop := Z.of_nat (length d) <= MAX_LEN.

Lemma reads_arbitrary d :
  blob_ok d -> reads read_arbitrary (TAG_ARBITRARY :: be_bytes 4 (Z.of_nat (length d)) ++ d) d.
Proof.
  unfold blob_ok, MAX_LEN. intros Hd. unfold read_arbitrary. apply reads_tagged.
  apply (reads_bind _ _ (be_bytes 4 _) d (be_bytes 4 (Z.of_nat (length d)))).
  - apply reads_take, length_be_bytes.
  - cbv zeta. rewrite of_be_be_bytes by (simpl; lia). unfold MAX_LEN.
    destruct (Z.ltb_spec (4 * 1024 * 1024) (Z.of_nat (length d))); [lia|].
    apply reads_take. lia.
Qed.

(** ** Proplists *)

Definition pair_bytes (p : bytes * bytes) : bytes :=
  (TAG_STRING :: p.1 ++ [0]) ++ (TAG_U32 :: be_bytes 4 (Z.of_nat (length p.2)))
  ++ (TAG_ARBITRARY :: be_bytes 4 (Z.of_nat (length p.2)) ++ p.2).

(** A value travels as a blob, so it may hold NULs; a key may not. *)
Definition pair_ok (p : bytes * bytes) : Prop := str_ok p.1 /\ valid_utf8 p.2 = true /\ blob_ok p.2.

Lemma w_proplist_bytes pairs w :
  w_proplist pairs w = w ++ TAG_PROPLIST :: (pairs ≫= pair_bytes) ++ [TAG_STRING_NULL].
Proof.
  unfold w_proplist, w_string_null.
  assert (Hf : forall w, foldl (fun w '(key, value) =>
      w_arbitrary value (w_u32 (Z.of_nat (length value)) (w_string key w))) w pairs
      = w ++ (pairs ≫= pair_bytes)).
  { induction pairs as [|[k v] pairs IH]; intros w0; cbn; [by rewrite app_nil_r|].
    rewrite IH. unfold w_arbitrary, w_u32, w_string, pair_bytes. cbn.
    rewrite <- !app_assoc. cbn. by rewrite <- !app_assoc. }
  rewrite Hf, <- !app_assoc. done.
Qed.

Lemma reads_pair p : pair_ok p -> reads read_pair (pair_bytes p) p.
Proof.
  intros (Hk & Hu & Hl). unfold blob_ok in Hl. unfold read_pair, pair_bytes.
  eapply reads_bind; [by apply reads_string|].
  eapply reads_bind; [apply reads_u32; unfold uint, MAX_LEN in *; lia|]. cbv beta.
  destruct (Z.ltb_spec MAX_LEN (Z.of_nat (length p.2))); [lia|].
  rewrite <- (app_nil_r (TAG_ARBITRARY :: _)).
  eapply reads_bind; [by apply reads_arbitrary|]. cbv beta. rewrite Z.eqb_refl. cbn [negb].
  unfold from_utf8. rewrite Hu. destruct p as [k v]. apply reads_ret.
Qed.

Lemma reads_proplist_loop pairs fuel acc :
  Forall pair_ok pairs -> (length pairs < fuel)%nat ->
  reads (proplist_loop fuel acc) ((pairs ≫= pair_bytes) ++ [TAG_STRING_NULL]) (acc ++ pairs).
Proof.
  intros Hp. revert fuel acc. induction Hp as [|p pairs Hp Hps IH]; intros [|fuel] acc Hf;
    cbn [length] in Hf; [lia| |lia|].
  - cbn [proplist_loop]. rewrite app_nil_r. apply (reads_peek _ TAG_STRING_NULL []).
    apply (reads_bind_ret (rd_take 1) (fun _ => acc) _ [TAG_STRING_NULL]). by apply reads_take.
  - cbn [proplist_loop]. rewrite bind_cons, <- app_assoc.
    change (pair_bytes p) with (TAG_STRING :: tail (pair_bytes p)) at 1. cbn [app].
    apply reads_peek. cbn [Z.eqb].
    change (TAG_STRING :: tail (pair_bytes p) ++ ?x) with (pair_bytes p ++ x).
    apply (reads_bind read_pair _ (pair_bytes p) _ p); [by apply reads_pair|].
    replace (acc ++ p :: pairs) with ((acc ++ [p]) ++ pairs) by (by rewrite <- app_assoc).
    apply IH. lia.
Qed.

Lemma length_pairs_bytes pairs : (length pairs <= length (pairs ≫= pair_bytes))%nat.
Proof.
  induction pairs as [|p pairs IH]; [done|]. rewrite bind_cons, length_app. cbn [length].
  assert (0 < length (pair_bytes p))%nat by (unfold pair_bytes; cbn; lia). lia.
Qed.

Lemma reads_proplist pairs :
  Forall pair_ok pairs ->
  reads read_proplist (TAG_PROPLIST :: (pairs ≫= pair_bytes) ++ [TAG_STRING_NULL]) pairs.
Proof.
  intros Hp. unfold read_proplist. apply reads_tagged. intros pre rest Hl.
  apply (reads_proplist_loop pairs _ []); [done| |done].
  unfold remaining. cbn [rbuf pos]. rewrite !length_app.
  pose proof (length_pairs_bytes pairs). lia.
Qed.

Lemma reads_sample_spec rate ch fmt :
  u32 rate ->
  reads read_sample_spec (TAG_SAMPLE_SPEC :: fmt :: ch :: be_bytes 4 rate) (rate, ch, fmt).
Proof.
  intros Hr. unfold read_sample_spec. apply reads_tagged.
  pose proof (of_be_be_bytes 4 rate Hr) as He.
  destruct (be_bytes 4 rate) as [|b0 [|b1 [|b2 [|b3 [|]]]]] eqn:Eb; try (by apply (f_equal length) in Eb).
  rewrite <- He.
  apply (reads_bind_ret (rd_take 6) (fun bs => (of_be (slice bs 2 4), get bs 1, get bs 0))
    _ (fmt :: ch :: [b0; b1; b2; b3])). by apply reads_take.
Qed.

Definition map_ok (m : list Z) : Prop := (length m < 256)%nat.

Lemma reads_channel_map m :
  map_ok m -> reads read_channel_map (TAG_CHANNEL_MAP :: Z.of_nat (length m) :: m) m.
Proof.
  intros _. unfold read_channel_map. apply reads_tagged.
  apply (reads_bind _ _ [Z.of_nat (length m)] m (Z.of_nat (length m))); [apply reads_byte|].
  apply reads_take. lia.
Qed.

Lemma cvolume_values vs :
  Forall u32 vs ->
  (fun i => of_be (slice (vs ≫= be_bytes 4) (i * 4) 4)) <$> seq 0 (length vs) = vs.
Proof.
  intros Hv. apply list_eq. intros i. rewrite list_lookup_fmap.
  destruct (decide (i < length vs)%nat) as [Hi|Hi].
  - rewrite lookup_seq_lt by done. cbn [fmap option_fmap option_map].
    destruct (lookup_lt_is_Some_2 vs i Hi) as [v Hvi]. rewrite Hvi. f_equal.
    unfold slice. rewrite Nat.add_0_l, (bind_block (be_bytes 4) 4 (length_be_bytes 4) vs i v) by done.
    apply of_be_be_bytes. rewrite Forall_forall in Hv. apply Hv. by eapply list_elem_of_lookup_2.
  - rewrite (lookup_ge_None_2 vs) by lia. rewrite lookup_seq_ge by lia. done.
Qed.

Lemma reads_cvolume vs :
  Forall u32 vs -> map_ok vs ->
  reads read_cvolume (TAG_CVOLUME :: Z.of_nat (length vs) :: (vs ≫= be_bytes 4)) vs.
Proof.
  unfold map_ok. intros Hv Hl. unfold read_cvolume. apply reads_tagged.
  apply (reads_bind _ _ [Z.of_nat (length vs)] (vs ≫= be_bytes 4) [Z.of_nat (length vs)]);
    [by apply reads_take|]. cbv zeta. unfold get. cbn [nth]. rewrite Nat2Z.id.
  destruct (Z.ltb_spec MAX_LEN (Z.of_nat (length vs))); [unfold MAX_LEN in *; lia|].
  pose proof (reads_bind_ret (rd_take (length vs * 4))
    (fun bs => (fun i => of_be (slice bs (i * 4) 4)) <$> seq 0 (length vs))
    (vs ≫= be_bytes 4) (vs ≫= be_bytes 4)) as Hrd. cbv beta in Hrd.
  rewrite cvolume_values in Hrd by done. apply Hrd, reads_take. rewrite (length_bind_const _ 4); [lia|apply length_be_bytes].
Qed.

(** ** Tagstructs as lists of fields *)

Inductive field : Type :=
| FU32 (v : Z) | FU8 (v : Z) | FBool (b : bool) | FStr (s : option bytes)
| FArb (d : bytes) | FU64 (v : Z) | FProps (ps : list (bytes * bytes))
| FSpec (rate channels format : Z) | FMap (m : bytes) | FVol (v : Z) | FCVol (vs : list Z).

Inductive kind : Type :=
| KU32 | KU8 | KBool | KStr | KArb | KU64 | KProps | KSpec | KMap | KVol | KCVol.

Definition kind_of (f : field) : kind :=
  match f with
  | FU32 _ => KU32 | FU8 _ => KU8 | FBool _ => KBool | FStr _ => KStr | FArb _ => KArb
  | FU64 _ => KU64 | FProps _ => KProps | FSpec _ _ _ => KSpec | FMap _ => KMap
  | FVol _ => KVol | FCVol _ => KCVol
  end.

Definition write_field (w : TagWriter) (f : field) : TagWriter :=
  match f with
  | FU32 v => w_u32 v w
  | FU8 v => w_u8 v w
  | FBool b => w_boolean b w
  | FStr (Some s) => w_string s w
  | FStr None => w_string_null w
  | FArb d => w_arbitrary d w
  | FU64 v => w_u64 v w
  | FProps ps => w_proplist ps w
  | FSpec r c f => w_sample_spec r c f w
  | FMap m => w_channel_map m w
  | FVol v => w_volume v w
  | FCVol vs => w_cvolume vs w
  end.

(** The length conversions of [arbitrary], [proplist], [channel_map] and
    [cvolume], whose [expect] panics when the length does not fit its prefix. *)
Definition length_fits (f : field) : bool :=
  match f with
  | FArb d => Z.of_nat (length d) <? 2 ^ 32
  | FProps ps => forallb (fun p => Z.of_nat (length p.2) <? 2 ^ 32) ps
  | FMap m => Z.of_nat (length m) <? 2 ^ 8
  | FCVol vs => Z.of_nat (length vs) <? 2 ^ 8
  | _ => true
  end.

(** Writing a sequence of fields; [None] is a panic. *)
Fixpoint write_fields (w : TagWriter) (fs : list field) : option TagWriter :=
  match fs with
  | [] => Some w
  | f :: fs => if length_fits f then write_fields (write_field w f) fs else None
  end.

Definition read_field (k : kind) : rd field :=
  match k with
  | KU32 => v <~ read_u32; rd_ret (FU32 v)
  | KU8 => v <~ read_u8; rd_ret (FU8 v)
  | KBool => v <~ read_boolean; rd_ret (FBool v)
  | KStr => v <~ read_string; rd_ret (FStr v)
  | KArb => v <~ read_arbitrary; rd_ret (FArb v)
  | KU64 => v <~ read_u64; rd_ret (FU64 v)
  | KProps => v <~ read_proplist; rd_ret (FProps v)
  | KSpec => v <~ read_sample_spec; rd_ret (let '(r, c, f) := v in FSpec r c f)
  | KMap => v <~ read_channel_map; rd_ret (FMap v)
  | KVol => v <~ read_volume; rd_ret (FVol v)
  | KCVol => v <~ read_cvolume; rd_ret (FCVol v)
  end.

Fixpoint read_fields (ks : list kind) : rd (list field) :=
  match ks with
  | [] => rd_ret []
  | k :: ks => f <~ read_field k; fs <~ read_fields ks; rd_ret (f :: fs)
  end.

(** Values of the writer's argument types; a [&str] is UTF-8 and may hold NULs. *)
Definition field_typed (f : field) : Prop :=
  match f with
  | FU32 v | FVol v => u32 v
  | FU8 v => u8 v
  | FU64 v => u64 v
  | FStr (Some s) => valid_utf8 s = true
  | FProps ps => Forall (fun p => valid_utf8 p.1 = true /\ valid_utf8 p.2 = true) ps
  | FSpec r c f => u32 r /\ u8 c /\ u8 f
  | FCVol vs => Forall u32 vs
  | FBool _ | FStr None | FArb _ | FMap _ => True
  end.

(** The reader's limits: strings and keys end at their first NUL, and nothing is
    longer than [MAX_LEN]. *)
Definition str_readable (s : bytes) : Prop := no_nul s /\ Z.of_nat (length s) <= MAX_LEN.
Definition field_readable (f : field) : Prop :=
  match f with
  | FStr (Some s) => str_readable s
  | FArb d => blob_ok d
  | FProps ps => Forall (fun p => str_readable p.1 /\ blob_ok p.2) ps
  | _ => True
  end.

(** All three at once. *)
Definition field_ok (f : field) : Prop :=
  match f with
  | FU32 v | FVol v => u32 v
  | FU8 v => u8 v
  | FBool _ | FStr None => True
  | FStr (Some s) => str_ok s
  | FArb d => blob_ok d
  | FU64 v => u64 v
  | FProps ps => Forall pair_ok ps
  | FSpec r c f => u32 r /\ u8 c /\ u8 f
  | FMap m => map_ok m
  | FCVol vs => Forall u32 vs /\ map_ok vs
  end.

#[export] Instance str_ok_dec s : Decision (str_ok s).
Proof. unfold str_ok, no_nul. apply _. Defined.
#[export] Instance pair_ok_dec p : Decision (pair_ok p).
Proof. unfold pair_ok, blob_ok. apply _. Defined.
#[export] Instance field_ok_dec f : Decision (field_ok f).
Proof.
  destruct f as [| | |[s|]| | | | | | |]; cbn; unfold blob_ok, map_ok; apply _.
Defined.

#[export] Instance str_readable_dec s : Decision (str_readable s).
Proof. unfold str_readable, no_nul. apply _. Defined.
#[export] Instance field_readable_dec f : Decision (field_readable f).
Proof. destruct f as [| | |[s|]| | | | | | |]; cbn; unfold blob_ok; apply _. Defined.
#[export] Instance field_typed_dec f : Decision (field_typed f).
Proof. destruct f as [| | |[s|]| | | | | | |]; cbn; apply _. Defined.

Lemma field_ok_intro f : field_typed f -> length_fits f = true -> field_readable f -> field_ok f.
Proof.
  destruct f as [| | |[s|]| | |ps| |m| |vs]; cbn; try done; unfold str_readable, map_ok.
  - intros Hu _ []. done.
  - intros Ht _ Hr. rewrite Forall_forall in Ht, Hr |- * . intros q Hq. destruct (Ht q Hq), (Hr q Hq) as [[] ?]. done.
  - intros _ Hf _. apply Z.ltb_lt in Hf. lia.
  - intros Ht Hf _. apply Z.ltb_lt in Hf. split; [done|lia].
Qed.

Definition field_bytes (f : field) : bytes := write_field [] f.

Lemma write_field_app w f : write_field w f = w ++ field_bytes f.
Proof.
  unfold field_bytes. destruct f as [| | |[s|]| | | | | | |]; try done.
  cbn. by rewrite !w_proplist_bytes.
Qed.

Lemma write_fields_app w fs : foldl write_field w fs = w ++ (fs ≫= field_bytes).
Proof.
  revert w. induction fs as [|f fs IH]; intros w; cbn; [by rewrite app_nil_r|].
  by rewrite IH, write_field_app, <- app_assoc.
Qed.

Lemma reads_field f : field_ok f -> reads (read_field (kind_of f)) (field_bytes f) f.
Proof.
  unfold field_bytes. destruct f as [v|v|b|[s|]|d|v|ps|r c f|m|v|vs]; cbn [kind_of read_field write_field field_ok];
    intros Hok.
  - by apply (reads_bind_ret _ FU32), reads_u32.
  - apply (reads_bind_ret _ FU8), reads_u8.
  - apply (reads_bind_ret _ FBool), reads_boolean.
  - by apply (reads_bind_ret _ FStr), reads_string.
  - apply (reads_bind_ret _ FStr), reads_string_null.
  - by apply (reads_bind_ret _ FArb), reads_arbitrary.
  - by apply (reads_bind_ret _ FU64), reads_u64.
  - rewrite w_proplist_bytes. by apply (reads_bind_ret _ FProps), reads_proplist.
  - apply (reads_bind_ret _ (fun v => let '(r, c, f) := v in FSpec r c f) _ (r, c, f)),
      reads_sample_spec, Hok.
  - by apply (reads_bind_ret _ FMap), reads_channel_map.
  - by apply (reads_bind_ret _ FVol), reads_volume.
  - by apply (reads_bind_ret _ FCVol), reads_cvolume; destruct Hok.
Qed.

Lemma reads_fields fs :
  Forall field_ok fs -> reads (read_fields (kind_of <$> fs)) (fs ≫= field_bytes) fs.
Proof.
  induction 1 as [|f fs Hf _ IH]; [apply reads_ret|].
  rewrite fmap_cons, bind_cons. cbn [read_fields].
  eapply reads_bind; [by apply reads_field|]. by apply (reads_bind_ret _ (cons f)).
Qed.

(** ** The cursor stays inside the buffer *)

(** Reads leave the buffer alone and move the cursor forward, never past the
    end, whether they succeed or fail. *)
Definition rd_safe {A} (p : rd A) : Prop :=
  forall r, (pos r <= length (rbuf r))%nat ->
    rbuf (p r).1 = rbuf r /\ (pos r <= pos (p r).1 <= length (rbuf r))%nat.

Lemma safe_ret {A} (a : A) : rd_safe (rd_ret a).
Proof. intros r Hr. cbn. split; [done|lia]. Qed.
Lemma safe_err {A} e : rd_safe (rd_err (A := A) e).
Proof. intros r Hr. cbn. split; [done|lia]. Qed.
Lemma safe_lift {A} (m : result A PulseError) : rd_safe (rd_lift m).
Proof. intros r Hr. cbn. split; [done|lia]. Qed.
Lemma safe_bind {A B} (p : rd A) (k : A -> rd B) :
  rd_safe p -> (forall a, rd_safe (k a)) -> rd_safe (rd_bind p k).
Proof.
  intros Hp Hk r Hr. unfold rd_bind. destruct (Hp r Hr) as [Hb Hpos].
  destruct (p r) as [r' [a|e]]; cbn in *; [|done].
  destruct (Hk a r') as [Hb' Hpos']; [rewrite Hb; lia|]. rewrite Hb' , Hb in *. split; [done|lia].
Qed.
Lemma safe_take n : rd_safe (rd_take n).
Proof.
  intros r Hr. unfold rd_take. guards; cbn; split; first [done|lia].
Qed.
Lemma safe_peek : rd_safe peek_byte.
Proof. intros r Hr. cbn. split; [done|lia]. Qed.
Lemma safe_if {A} (b : bool) (p q : rd A) : rd_safe p -> rd_safe q -> rd_safe (if b then p else q).
Proof. by destruct b. Qed.

Lemma find_nul_lt bs n : find_nul bs = Some n -> (n < length bs)%nat.
Proof.
  revert n. induction bs as [|b bs IH]; cbn; intros n; [done|].
  destruct (b =? 0); [intros [= <-]; lia|].
  destruct (find_nul bs); [|done]. intros [= <-]. specialize (IH _ eq_refl). lia.
Qed.

Lemma safe_string_body : rd_safe string_body.
Proof.
  intros r Hr. unfold string_body.
  destruct (find_nul (drop (pos r) (rbuf r))) as [n|] eqn:Hn; [|cbn; split; [done|lia]].
  apply find_nul_lt in Hn. rewrite length_drop in Hn.
  destruct (MAX_LEN <? Z.of_nat n); [cbn; split; [done|lia]|].
  destruct (from_utf8 _); cbn; split; first [done|lia].
Qed.

#[local] Hint Resolve safe_ret safe_err safe_lift safe_bind safe_take safe_peek safe_if
  safe_string_body : sonic.

Lemma safe_expect t : rd_safe (expect_tag t).
Proof. unfold expect_tag. auto 6 with sonic. Qed.
#[local] Hint Resolve safe_expect : sonic.

Lemma safe_read_string : rd_safe read_string.
Proof. unfold read_string. cbv zeta. auto 8 with sonic. Qed.
Lemma safe_read_u32 : rd_safe read_u32.
Proof. unfold read_u32. auto 8 with sonic. Qed.
Lemma safe_read_arbitrary : rd_safe read_arbitrary.
Proof. unfold read_arbitrary. cbv zeta. auto 8 with sonic. Qed.
#[local] Hint Resolve safe_read_string safe_read_u32 safe_read_arbitrary : sonic.

Lemma safe_read_pair : rd_safe read_pair.
Proof. unfold read_pair. auto 12 with sonic. Qed.
#[local] Hint Resolve safe_read_pair : sonic.

Lemma safe_proplist_loop fuel acc : rd_safe (proplist_loop fuel acc).
Proof. revert acc. induction fuel; intros acc; cbn [proplist_loop]; auto 8 with sonic. Qed.

Lemma safe_read_proplist : rd_safe read_proplist.
Proof.
  unfold read_proplist. apply safe_bind; [auto with sonic|]. intros _ r Hr.
  by apply safe_proplist_loop.
Qed.

Lemma safe_read_field k : rd_safe (read_field k).
Proof.
  destruct k; cbn [read_field]; apply safe_bind; auto using safe_read_proplist with sonic;
    [unfold read_u8|unfold read_boolean|unfold read_u64|unfold read_sample_spec
    |unfold read_channel_map, read_u8_raw|unfold read_volume|unfold read_cvolume];
    cbv zeta; auto 10 with sonic.
Qed.

Lemma safe_read_fields ks : rd_safe (read_fields ks).
Proof.
  induction ks as [|k ks IH]; cbn [read_fields]; [apply safe_ret|].
  apply safe_bind; [apply safe_read_field|]. intros f. apply safe_bind; [done|]. intros. apply safe_ret.
Qed.

(** Reads that consume at least a byte when they succeed. *)
Definition rd_progress {A} (p : rd A) : Prop :=
  forall r r' a, (pos r <= length (rbuf r))%nat -> p r = (r', Ok a) -> (pos r < pos r')%nat.

Lemma progress_take n : rd_progress (rd_take (S n)).
Proof.
  intros r r' a Hr. unfold rd_take. guards; intros E; simplify_eq. cbn. lia.
Qed.

Lemma progress_bind {A B} (p : rd A) (k : A -> rd B) :
  rd_progress p -> rd_safe p -> (forall a, rd_safe (k a)) -> rd_progress (rd_bind p k).
Proof.
  intros Hp Hs Hk r r' b Hr E. unfold rd_bind in E. destruct (Hs r Hr) as [Hb Hpos].
  destruct (p r) as [r1 [a|e]] eqn:Ep; [|done]. pose proof (Hp r r1 a Hr Ep).
  cbn in Hb, Hpos. destruct (Hk a r1) as [_ Hk1]; [rewrite Hb; lia|].
  rewrite E in Hk1. cbn in Hk1. lia.
Qed.

Lemma progress_read_pair : rd_progress read_pair.
Proof.
  apply progress_bind; [|auto with sonic|auto 12 with sonic].
  apply progress_bind; [apply progress_take|auto with sonic|cbv zeta; auto 8 with sonic].
Qed.

(** The fuel of the proplist loop does not limit it: any two fuels above the
    number of unread bytes give the same result. *)
Lemma proplist_fuel f1 f2 acc r :
  (pos r <= length (rbuf r))%nat -> (remaining r < f1)%nat -> (remaining r < f2)%nat ->
  proplist_loop f1 acc r = proplist_loop f2 acc r.
Proof.
  revert f2 acc r. induction f1 as [|f1 IH]; intros [|f2] acc r Hr Hf1 Hf2; [lia..|].
  cbn [proplist_loop]. unfold rd_bind, peek_byte.
  destruct (rbuf r !! pos r) as [b|]; cbn [ok_or]; [|done].
  destruct (b =? TAG_STRING); [|done].
  destruct (read_pair r) as [r' [p|e]] eqn:Er; [|done].
  pose proof (progress_read_pair r r' p Hr Er).
  destruct (safe_read_pair r Hr) as [Hbuf Hpos]. rewrite Er in Hbuf, Hpos. cbn in Hbuf, Hpos.
  unfold remaining in *. apply IH; unfold remaining; rewrite ?Hbuf; lia.
Qed.

(** ** What an unreadable field reads as *)

Lemma no_nul_dec_split s : no_nul s \/ exists s1 s2, s = s1 ++ 0 :: s2 /\ no_nul s1.
Proof.
  induction s as [|b s [IH|(s1 & s2 & -> & Hn)]]; [left; constructor|..]; destruct (decide (b = 0)) as [->|Hb].
  - right. exists [], s. by split; [|constructor].
  - left. by constructor.
  - right. exists [], (s1 ++ 0 :: s2). by split; [|constructor].
  - right. exists (b :: s1), s2. by split; [|constructor].
Qed.

(** A string is cut at its first NUL; what follows it stays unread. *)
Lemma cut_string_body s1 s2 pre rest : str_ok s1 ->
  string_body {| rbuf := pre ++ (s1 ++ 0 :: s2) ++ rest; pos := length pre |} =
  ({| rbuf := pre ++ (s1 ++ 0 :: s2) ++ rest; pos := length pre + length s1 + 1 |}, Ok s1).
Proof.
  intros (Hn & Hu & Hl). unfold string_body. cbn [rbuf pos]. rewrite drop_app_length, <- app_assoc. cbn [app].
  rewrite find_nul_app by done. destruct (Z.ltb_spec MAX_LEN (Z.of_nat (length s1))); [lia|].
  by rewrite slice_app; unfold from_utf8; rewrite Hu.
Qed.

(** So an unreadable string never reads back as itself. *)
Lemma string_body_unreadable s pre rest : ~ str_readable s ->
  (string_body {| rbuf := pre ++ (s ++ [0]) ++ rest; pos := length pre |}).2 <> Ok s.
Proof.
  intros Hs. unfold string_body. cbn [rbuf pos]. rewrite drop_app_length, <- app_assoc. cbn [app].
  destruct (no_nul_dec_split s) as [Hn|(s1 & s2 & -> & Hn)].
  - rewrite find_nul_app by done. destruct (Z.ltb_spec MAX_LEN (Z.of_nat (length s))); [done|]. by destruct Hs.
  - rewrite <- app_assoc. cbn [app]. rewrite find_nul_app by done. guards; [done|]. rewrite slice_app.
    unfold from_utf8. destruct (valid_utf8 s1); cbn; [|done]. intros [= E]. apply (f_equal length) in E.
    rewrite length_app in E. cbn in E. lia.
Qed.

Lemma rd_bind_ok {A B} (p : rd A) (k : A -> rd B) r b :
  (rd_bind p k r).2 = Ok b -> exists r' a, p r = (r', Ok a) /\ (k a r').2 = Ok b.
Proof. unfold rd_bind. destruct (p r) as [r' [a|e]]; [|done]. intros Hk. by exists r', a. Qed.

Lemma reads_then {A B} (p : rd A) (k : A -> rd B) enc v pre rest b :
  reads p enc v -> Z.of_nat (length (pre ++ enc ++ rest)) <= usize_max ->
  (rd_bind p k {| rbuf := pre ++ enc ++ rest; pos := length pre |}).2 = Ok b ->
  (k v {| rbuf := (pre ++ enc) ++ rest; pos := length (pre ++ enc) |}).2 = Ok b.
Proof. intros Hp Hl. unfold rd_bind. rewrite (Hp pre rest Hl), length_app, <- app_assoc. done. Qed.

Lemma take1 b pre rest :
  Z.of_nat (length (pre ++ b :: rest)) <= usize_max ->
  rd_take 1 {| rbuf := pre ++ b :: rest; pos := length pre |} = ({| rbuf := pre ++ b :: rest; pos := length (pre ++ [b]) |}, Ok [b]).
Proof.
  intros Hl. pose proof (reads_take 1 [b] eq_refl pre rest Hl) as Ht. by rewrite <- length_app in Ht.
Qed.

Lemma read_string_unreadable s pre rest : ~ str_readable s ->
  Z.of_nat (length (pre ++ (TAG_STRING :: s ++ [0]) ++ rest)) <= usize_max ->
  (read_string {| rbuf := pre ++ (TAG_STRING :: s ++ [0]) ++ rest; pos := length pre |}).2 <> Ok (Some s).
Proof.
  intros Hs Hl. unfold read_string, rd_bind. cbn [app] in Hl |- *. rewrite take1 by done. cbn [get nth].
  change (TAG_STRING =? TAG_STRING_NULL) with false. change (TAG_STRING =? TAG_STRING) with true. cbv match.
  pose proof (string_body_unreadable s (pre ++ [TAG_STRING]) rest Hs) as Hb. rewrite <- app_assoc in Hb. cbn [app] in Hb.
  cbv beta. destruct (string_body _) as [r [a|e]]; cbn in *; congruence.
Qed.

Lemma read_arbitrary_unreadable d pre rest v : ~ blob_ok d -> Z.of_nat (length d) < 2 ^ 32 ->
  Z.of_nat (length (pre ++ (TAG_ARBITRARY :: be_bytes 4 (Z.of_nat (length d)) ++ d) ++ rest)) <= usize_max ->
  (read_arbitrary {| rbuf := pre ++ (TAG_ARBITRARY :: be_bytes 4 (Z.of_nat (length d)) ++ d) ++ rest; pos := length pre |}).2 <> Ok v.
Proof.
  unfold blob_ok. intros Hd Hlt Hl Hr. unfold read_arbitrary in Hr.
  set (len := be_bytes 4 (Z.of_nat (length d))) in *.
  change ((TAG_ARBITRARY :: len ++ d) ++ rest) with ([TAG_ARBITRARY] ++ (len ++ d) ++ rest) in Hl, Hr.
  apply (reads_then _ _ _ tt) in Hr; [|apply reads_tag|done]. rewrite <- !app_assoc in Hr. rewrite app_assoc in Hr.
  apply (reads_then _ _ len len) in Hr; [|apply reads_take, length_be_bytes|].
  2: { rewrite <- Hl at 1. rewrite !length_app. lia. }
  cbv zeta in Hr. unfold len in Hr. rewrite of_be_be_bytes in Hr by (simpl; lia).
  destruct (Z.ltb_spec MAX_LEN (Z.of_nat (length d))); [done|lia].
Qed.

Lemma read_pair_unreadable q pre rest : ~ (str_readable q.1 /\ blob_ok q.2) -> valid_utf8 q.1 = true ->
  Z.of_nat (length q.2) < 2 ^ 32 ->
  Z.of_nat (length (pre ++ pair_bytes q ++ rest)) <= usize_max ->
  (read_pair {| rbuf := pre ++ pair_bytes q ++ rest; pos := length pre |}).2 <> Ok q.
Proof.
  intros Hq Hu Hv Hl Hr. unfold read_pair in Hr. unfold pair_bytes in Hl, Hr.
  set (key := TAG_STRING :: q.1 ++ [0]) in *. set (len := TAG_U32 :: be_bytes 4 (Z.of_nat (length q.2))) in *.
  rewrite <- !app_assoc in Hl, Hr. set (blob := TAG_ARBITRARY :: be_bytes 4 (Z.of_nat (length q.2)) ++ q.2) in *.
  destruct (decide (str_readable q.1)) as [Hk|Hk].
  - apply (reads_then _ _ key (Some q.1)) in Hr; [|apply reads_string; by destruct Hk|done]. rewrite app_assoc in Hl.
    apply (reads_then _ _ len (Z.of_nat (length q.2))) in Hr; [|apply reads_u32; unfold uint; lia|done]. cbv beta in Hr.
    unfold blob_ok in Hq. destruct (Z.ltb_spec MAX_LEN (Z.of_nat (length q.2))); [done|]. tauto.
  - apply rd_bind_ok in Hr as (r1 & k & Hk1 & Hr). pose proof (read_string_unreadable q.1 pre (len ++ blob ++ rest) Hk Hl) as Hne.
    fold key in Hne. rewrite Hk1 in Hne. cbn in Hne.
    apply rd_bind_ok in Hr as (r2 & n & _ & Hr). destruct (MAX_LEN <? n); [done|].
    apply rd_bind_ok in Hr as (r3 & bl & _ & Hr). destruct (negb _); [done|].
    apply rd_bind_ok in Hr as (r4 & v & _ & Hr). cbn in Hr. injection Hr as <-. cbn in *.
    destruct k as [k|]; [done|]. cbn in *. (* an absent key reads as the empty one, which is readable *)
    apply Hk. split; [constructor|]. by vm_compute.
Qed.

Lemma proplist_loop_extends fuel : forall acc r l,
  (proplist_loop fuel acc r).2 = Ok l -> exists l', l = acc ++ l'.
Proof.
  induction fuel as [|fuel IH]; intros acc r l Hl; [done|]. cbn [proplist_loop] in Hl.
  apply rd_bind_ok in Hl as (r1 & b & _ & Hl). destruct (b =? TAG_STRING).
  - apply rd_bind_ok in Hl as (r2 & q & _ & Hl). apply IH in Hl as [l' ->]. exists (q :: l'). by rewrite <- app_assoc.
  - destruct (b =? TAG_STRING_NULL); [|done]. apply rd_bind_ok in Hl as (r2 & u & _ & Hl). cbn in Hl. injection Hl as <-.
    exists []. by rewrite app_nil_r.
Qed.

Lemma proplist_loop_unreadable ps : forall fuel acc pre rest,
  ~ Forall (fun q => str_readable q.1 /\ blob_ok q.2) ps ->
  Forall (fun q => valid_utf8 q.1 = true /\ valid_utf8 q.2 = true) ps ->
  Forall (fun q => Z.of_nat (length q.2) < 2 ^ 32) ps ->
  Z.of_nat (length (pre ++ (ps ≫= pair_bytes) ++ rest)) <= usize_max ->
  (proplist_loop fuel acc {| rbuf := pre ++ (ps ≫= pair_bytes) ++ rest; pos := length pre |}).2 <> Ok (acc ++ ps).
Proof.
  induction ps as [|q ps IH]; intros fuel acc pre rest Hbad Hu Hf Hl Hr; [by apply Hbad|].
  apply Forall_cons_1 in Hu as [Hu Hus]. apply Forall_cons_1 in Hf as [Hf Hfs].
  rewrite bind_cons, <- app_assoc in Hl, Hr. destruct fuel as [|fuel]; [done|]. cbn [proplist_loop] in Hr.
  apply rd_bind_ok in Hr as (r1 & b & Hpk & Hr). unfold peek_byte in Hpk. apply pair_eq in Hpk as [<- Hb].
  assert (b = TAG_STRING) as ->.
  { cbn [rbuf pos] in Hb. rewrite lookup_app_r, Nat.sub_diag in Hb by done. by cbn in Hb; simplify_eq. }
  change (TAG_STRING =? TAG_STRING) with true in Hr. cbv match in Hr.
  destruct (decide (str_readable q.1 /\ blob_ok q.2)) as [Hq|Hq].
  - apply (reads_then _ _ (pair_bytes q) q) in Hr; [|apply reads_pair; destruct Hu, Hq as [[] ?]; done|done].
    rewrite app_assoc in Hl. apply (IH fuel (acc ++ [q]) (pre ++ pair_bytes q) rest); [|done|done|done|rewrite Hr; by rewrite <- app_assoc].
    intros Hall. apply Hbad. by constructor.
  - apply rd_bind_ok in Hr as (r2 & q' & Hq' & Hr).
    pose proof (read_pair_unreadable q pre ((ps ≫= pair_bytes) ++ rest) Hq (proj1 Hu) Hf Hl) as Hne. rewrite Hq' in Hne. cbn in Hne.
    apply proplist_loop_extends in Hr as [l' Hl']. rewrite <- app_assoc in Hl'. apply app_inv_head in Hl'. cbn in Hl'. congruence.
Qed.

(** A field that is not readable does not read back as itself. *)
Lemma read_field_unreadable f pre rest :
  field_typed f -> length_fits f = true -> ~ field_readable f ->
  Z.of_nat (length (pre ++ field_bytes f ++ rest)) <= usize_max ->
  (read_field (kind_of f) {| rbuf := pre ++ field_bytes f ++ rest; pos := length pre |}).2 <> Ok f.
Proof.
  intros Ht Hf Hn Hl. unfold field_bytes in *.
  destruct f as [| | |[s|]|d| |ps| |m| |vs]; cbn [field_readable] in Hn; try tauto;
    cbn [kind_of read_field write_field] in *; intros Hr; apply rd_bind_ok in Hr as (r & v & Hv & [= ->]);
    apply (f_equal snd) in Hv; cbn [snd] in Hv.
  - by apply (read_string_unreadable s pre rest).
  - cbn in Hf. apply Z.ltb_lt in Hf. by apply (read_arbitrary_unreadable d pre rest d).
  - rewrite w_proplist_bytes in *. cbn [length_fits field_typed app] in *. unfold read_proplist in Hv.
    change (TAG_PROPLIST :: ((ps ≫= pair_bytes) ++ [TAG_STRING_NULL]) ++ rest)
      with ([TAG_PROPLIST] ++ ((ps ≫= pair_bytes) ++ [TAG_STRING_NULL]) ++ rest) in *.
    apply (reads_then _ _ [TAG_PROPLIST] tt) in Hv; [|apply reads_tag|done]. rewrite app_assoc in Hl.
    rewrite <- (app_assoc (ps ≫= pair_bytes)) in Hv, Hl.
    apply (proplist_loop_unreadable ps _ [] _ _ Hn Ht) in Hv; [done| |done].
    apply Forall_forall. intros q Hq. apply Z.ltb_lt, (proj1 (forallb_forall _ _) Hf q). by apply list_elem_of_In.
Qed.

Lemma write_fields_spec w fs :
  write_fields w fs = if forallb length_fits fs then Some (w ++ (fs ≫= field_bytes)) else None.
Proof.
  revert w. induction fs as [|f fs IH]; intros w; cbn; [by rewrite app_nil_r|].
  destruct (length_fits f); [|done]. cbn. rewrite IH, write_field_app, <- app_assoc. done.
Qed.

Lemma fits_all fs : forallb length_fits fs = true -> Forall (fun f => length_fits f = true) fs.
Proof. intros Hf. apply Forall_forall. intros f Hin. apply (proj1 (forallb_forall _ _) Hf). by apply list_elem_of_In. Qed.
Lemma unfit_one fs : forallb length_fits fs = false -> exists f, f ∈ fs /\ length_fits f = false.
Proof.
  induction fs as [|f fs IH]; [done|]. cbn. destruct (length_fits f) eqn:E; [|intros _; exists f; by split; [left|]].
  intros Hf. destruct (IH Hf) as (x & Hx & Ex). exists x. by split; [right|].
Qed.

(** Reading back a written sequence returns it exactly when every field is
    readable. *)
Lemma read_fields_iff fs : forall pre rest,
  Forall field_typed fs -> forallb length_fits fs = true ->
  Z.of_nat (length (pre ++ (fs ≫= field_bytes) ++ rest)) <= usize_max ->
  (read_fields (kind_of <$> fs) {| rbuf := pre ++ (fs ≫= field_bytes) ++ rest; pos := length pre |}).2 = Ok fs ->
  Forall field_readable fs.
Proof.
  induction fs as [|f fs IH]; intros pre rest Ht Hf Hl Hr; [constructor|].
  apply Forall_cons_1 in Ht as [Ht Hts]. cbn in Hf. apply andb_prop in Hf as [Hf Hfs].
  rewrite fmap_cons in Hr. rewrite bind_cons, <- app_assoc in Hl, Hr. cbn [read_fields] in Hr.
  destruct (decide (field_readable f)) as [Hrd|Hrd].
  - constructor; [done|]. apply (reads_then _ _ (field_bytes f) f) in Hr; [|by apply reads_field, field_ok_intro|done].
    apply rd_bind_ok in Hr as (r & fs' & Hfs' & [= ->]). rewrite app_assoc in Hl.
    apply (IH (pre ++ field_bytes f) rest); [done..|]. by rewrite Hfs'.
  - apply rd_bind_ok in Hr as (r & f' & Hf' & Hr). apply rd_bind_ok in Hr as (r' & fs' & _ & [= -> ->]).
    destruct (read_field_unreadable f pre ((fs ≫= field_bytes) ++ rest) Ht Hf Hrd Hl). by rewrite Hf'.
Qed.

Lemma fields_roundtrip fs :
  Forall field_ok fs ->
  Z.of_nat (length (foldl write_field TagWriter_new fs)) <= usize_max ->
  exists r,
    read_fields (kind_of <$> fs) (TagReader_new (foldl write_field TagWriter_new fs)) = (r, Ok fs) /\
    reader_is_empty r = true.
Proof.
  intros Hok Hl. rewrite write_fields_app in *. cbn [app TagWriter_new] in *.
  pose proof (reads_fields fs Hok [] []) as H. cbn [app length] in H. rewrite app_nil_r in H.
  eexists. split; [by apply H|]. unfold reader_is_empty, remaining. cbn. by rewrite Nat.sub_diag.
Qed.

(** ** Theorems *)

(** C25: tagstructs, written and read back.  For any sequence of fields of the
    writer's argument types, the writer panics exactly when a blob or a property value
    has 2^32 bytes or more, or a channel map or volume list more than 255 entries.
    Otherwise the matching readers return the same values and consume every byte if and only if no
    string and no property key contains a NUL byte and no string, key, blob or property value is
    longer than [MAX_LEN].  (A buffer is no longer than a [usize] can say.)  A string
    with a NUL inside is cut there: the reader returns the part before it and leaves the part
    behind it, with the terminator, to the next read. *)
Theorem tagstruct_roundtrip (fs : list field) :
  Forall field_typed fs ->
  match write_fields TagWriter_new fs with
  | None => exists f, f ∈ fs /\ length_fits f = false
  | Some bs =>
      Forall (fun f => length_fits f = true) fs /\
      (Z.of_nat (length bs) <= usize_max ->
       (exists r, read_fields (kind_of <$> fs) (TagReader_new bs) = (r, Ok fs) /\ reader_is_empty r = true)
       <-> Forall field_readable fs)
  end /\
  (forall s1 s2, str_ok s1 ->
     write_fields TagWriter_new [FStr (Some (s1 ++ 0 :: s2))] = Some ([TAG_STRING] ++ s1 ++ 0 :: s2 ++ [0]) /\
     (Z.of_nat (length ([TAG_STRING] ++ s1 ++ 0 :: s2 ++ [0])) <= usize_max ->
      read_string (TagReader_new ([TAG_STRING] ++ s1 ++ 0 :: s2 ++ [0])) =
        ({| rbuf := [TAG_STRING] ++ s1 ++ 0 :: s2 ++ [0]; pos := 1 + length s1 + 1 |}, Ok (Some s1)))).
Proof.
  intros Ht. split.
  - rewrite write_fields_spec. destruct (forallb length_fits fs) eqn:Hf.
    + split; [by apply fits_all|]. cbn [TagWriter_new app]. intros Hl. split.
      * intros (r & Hr & _). apply (read_fields_iff fs [] []); [done|done|by rewrite app_nil_r|].
        cbn [app length]. rewrite app_nil_r. unfold TagReader_new in Hr. by rewrite Hr.
      * intros Hrd. pose proof (fields_roundtrip fs) as Hrt. rewrite write_fields_app in Hrt. apply Hrt; [|done].
        apply fits_all in Hf. rewrite Forall_forall in Ht, Hrd, Hf |- * . intros f Hin. by apply field_ok_intro; auto.
    + by apply unfit_one.
  - intros s1 s2 Hs. split; [cbn; by rewrite <- app_assoc|]. intros Hl.
    pose proof (take1 TAG_STRING [] (s1 ++ 0 :: s2 ++ [0]) Hl) as Ht1. cbn [app length] in Ht1 |- *.
    unfold read_string, rd_bind, TagReader_new. rewrite Ht1. cbn [get nth app].
    change (TAG_STRING =? TAG_STRING_NULL) with false. change (TAG_STRING =? TAG_STRING) with true. cbv match beta.
    pose proof (cut_string_body s1 (s2 ++ [0]) [TAG_STRING] [] Hs) as Hc. rewrite app_nil_r in Hc. cbn [app length] in Hc |- *.
    by rewrite Hc.
Qed.

(** Every kind of field, the writer's and the reader's limits met; and a string with a NUL in it
    among other fields, which does not come back. *)
Lemma tagstruct_roundtrip_witness :
  let fs := [FU32 35; FArb [1; 2]; FProps [([110; 97], [104; 0])]; FStr None; FSpec 48000 2 5;
             FMap [1; 2]; FCVol [0x10000; 0x10000]; FBool true; FU64 7] in
  (exists bs r, write_fields TagWriter_new fs = Some bs /\
     read_fields (kind_of <$> fs) (TagReader_new bs) = (r, Ok fs) /\ reader_is_empty r = true) /\
  ~ exists bs r, write_fields TagWriter_new [FStr (Some [104; 0; 105]); FU8 1] = Some bs /\
     read_fields [KStr; KU8] (TagReader_new bs) = (r, Ok [FStr (Some [104; 0; 105]); FU8 1]) /\ reader_is_empty r = true.
Proof.
  intros fs. split.
  - destruct (tagstruct_roundtrip fs) as [H _]; [apply (bool_decide_eq_true_1 _); vm_compute; reflexivity|].
    destruct (write_fields TagWriter_new fs) as [bs|] eqn:E; [|vm_compute in E; discriminate].
    destruct H as [_ H]. destruct (proj2 (H ltac:(vm_compute in E; injection E as <-; vm_compute; congruence))) as (r & Hr & He).
    + apply (bool_decide_eq_true_1 _). vm_compute. reflexivity.
    + exists bs, r. done.
  - intros (bs & r & Hw & Hr & He).
    destruct (tagstruct_roundtrip [FStr (Some [104; 0; 105]); FU8 1]) as [H _]; [apply (bool_decide_eq_true_1 _); vm_compute; reflexivity|].
    rewrite Hw in H. destruct H as [_ H].
    assert (Hbad : Forall field_readable [FStr (Some [104; 0; 105]); FU8 1]).
    { apply H; [vm_compute in Hw; injection Hw as <-; vm_compute; congruence|]. by exists r. }
    apply (bool_decide_eq_true_2 _) in Hbad. vm_compute in Hbad. discriminate.
Defined.

(** The reader never leaves its buffer.  Whatever bytes a peer sends and
    whatever sequence of fields the client asks for, every read leaves the
    buffer unchanged and the cursor between its old position and the end, so no
    slice is out of range; and the property-list loop always terminates, its
    result independent of the iteration bound. *)
Theorem tag_reader_safe (ks : list kind) (r : TagReader) :
  (pos r <= length (rbuf r))%nat ->
  (let r' := (read_fields ks r).1 in
   rbuf r' = rbuf r /\ (pos r <= pos r' <= length (rbuf r))%nat) /\
  (forall fuel acc, (remaining r < fuel)%nat ->
     proplist_loop fuel acc r = proplist_loop (S (remaining r)) acc r).
Proof.
  intros Hr. split; [by apply safe_read_fields|].
  intros fuel acc Hf. apply proplist_fuel; [done|done|lia].
Qed.

Lemma tag_reader_safe_witness :
  let r := TagReader_new [80; 116; 255] in
  (let r' := (read_fields [KProps; KU32] r).1 in
   rbuf r' = rbuf r /\ (pos r <= pos r' <= length (rbuf r))%nat).
Proof. intros r. refine (proj1 (tag_reader_safe [KProps; KU32] r _)). vm_compute. lia. Defined.
