(* ===== verification/PulseDaemon.v ===== *)
(** * The PulseAudio daemon client

    [crates/gw-pulse/src/daemon.rs].  The socket is a pair of byte streams:
    what the server has sent and will be read, and what the client has written.
    A read beyond the end of the first takes what is there and fails, as a
    timeout or a closed socket does; whether writes fail is decided by the
    environment. *)

From Stdlib Require Import String.
From S2P Require Import Prelude F32 RString PulseTags.
Local Open Scope Z_scope.

Definition PROTOCOL_VERSION : Z := 35.
Definition AUTH_COOKIE_LEN : nat := 256.

Inductive protocol_msg : Type :=
| InvalidFrameLength (n : Z)
| ReplyCommandField (e : PulseError)
| ReplyTagField (e : PulseError)
| ReplyOpcodeExceedsU16
| NeedsProtocol13
| UnexpectedReply (request got : Z).

Inductive PulseDaemonError : Type :=
| DIo (timed_out_skipping : bool)
| DProtocol (m : protocol_msg)
| DCodec (e : PulseError)
| NoServerSocket (tried : list rstring)
| DCookie (got : nat)
| DServer (code : Z) (message : bytes)
| DPanic.  (* the [expect] of [write_frame] *)

Record PulseDaemon : Type := {
  inbox : bytes;
  outbox : bytes;
  write_ok : bool;
  next_tag : Z;
  server_version : Z
}.

Definition dm (A : Type) : Type := PulseDaemon -> PulseDaemon * result A PulseDaemonError.
Definition dm_ret {A} (a : A) : dm A := fun d => (d, Ok a).
Definition dm_err {A} (e : PulseDaemonError) : dm A := fun d => (d, Err e).
Definition dm_bind {A B} (p : dm A) (k : A -> dm B) : dm B := fun d =>
  match p d with
  | (d', Ok a) => k a d'
  | (d', Err e) => (d', Err e)
  end.
Definition dm_codec {A} (m : result A PulseError) : dm A := fun d => (d, map_err DCodec m).

Notation "x <== p ; k" := (dm_bind p (fun x => k))
  (at level 100, p at next level, right associativity) : sonic_scope.

(** ** Socket *)

Definition read_exact (n : nat) : dm bytes := fun d =>
  if (length (inbox d) <? n)%nat then
    ({| inbox := []; outbox := outbox d; write_ok := write_ok d;
        next_tag := next_tag d; server_version := server_version d |}, Err (DIo false))
  else ({| inbox := drop n (inbox d); outbox := outbox d; write_ok := write_ok d;
           next_tag := next_tag d; server_version := server_version d |},
        Ok (take n (inbox d))).

Definition write_all (bs : bytes) : dm unit := fun d =>
  if write_ok d then
    ({| inbox := inbox d; outbox := outbox d ++ bs; write_ok := write_ok d;
        next_tag := next_tag d; server_version := server_version d |}, Ok tt)
  else (d, Err (DIo false)).

(** ** Frames *)

Record Frame : Type := { f_command : Z; f_tag : Z; f_payload : bytes }.

Definition frame_payload (command tag : Z) (tagstruct : bytes) : bytes :=
  TAG_U32 :: be_bytes 4 command ++ TAG_U32 :: be_bytes 4 tag ++ tagstruct.

Definition write_frame (command tag : Z) (tagstruct : bytes) : dm unit :=
  let payload := frame_payload command tag tagstruct in
  if u32_max <? Z.of_nat (length payload) then dm_err DPanic else
  _ <== write_all (be_bytes 4 (Z.of_nat (length payload)));
  _ <== write_all (be_bytes 4 u32_max);
  _ <== write_all (be_bytes 8 0);
  _ <== write_all (be_bytes 4 0);
  write_all payload.

Definition read_frame : dm Frame :=
  descriptor <== read_exact HEADER_LEN;
  header <== dm_codec (PacketHeader_parse descriptor);
  if negb (PacketHeader_is_valid header) then dm_err (DProtocol (InvalidFrameLength (ph_length header)))
  else
    body <== read_exact (Z.to_nat (ph_length header));
    fun d =>
      match read_u32 (TagReader_new body) with
      | (_, Err e) => (d, Err (DProtocol (ReplyCommandField e)))
      | (r, Ok command) =>
          match read_u32 r with
          | (_, Err e) => (d, Err (DProtocol (ReplyTagField e)))
          | (r, Ok tag) =>
              (d, Ok {| f_command := command; f_tag := tag;
                        f_payload := drop (Nat.min (pos r) (length body)) body |})
          end
      end.

Definition error_reply (frame : Frame) : PulseDaemonError :=
  let '(r, code) := read_u32 (TagReader_new (f_payload frame)) in
  let '(_, message) := read_string r in
  DServer (match code with Ok c => c | Err _ => 0 end)
          (match message with Ok (Some m) => m | _ => lit "no message" end).

(** The skip loop of [request]; [deadline] is how many iterations start
    before the time limit. *)
Fixpoint await_reply (deadline : nat) (tag : Z) : dm Frame :=
  match deadline with
  | O => dm_err (DIo true)
  | S deadline =>
      frame <== read_frame;
      if negb (f_tag frame =? tag) then await_reply deadline tag
      else if (f_command frame =? ERROR) || (f_command frame =? TIMEOUT)
      then dm_err (error_reply frame)
      else dm_ret frame
  end.

Definition request (deadline : nat) (command : Z) (tagstruct : bytes) : dm Frame := fun d =>
  let tag := next_tag d in
  let d := {| inbox := inbox d; outbox := outbox d; write_ok := write_ok d;
              next_tag := wrap 32 (next_tag d + 1); server_version := server_version d |} in
  (_ <== write_frame command tag tagstruct; await_reply deadline tag) d.

(** A request whose reply must be [REPLY]. *)
Definition expect_reply (deadline : nat) (command : Z) (tagstruct : bytes) : dm bytes :=
  frame <== request deadline command tagstruct;
  if negb (f_command frame =? REPLY) then dm_err (DProtocol (UnexpectedReply command (f_command frame)))
  else dm_ret (f_payload frame).

(** ** Handshake *)

Definition auth_body (cookie : option bytes) : bytes :=
  let w := w_u32 PROTOCOL_VERSION TagWriter_new in
  match cookie with Some c => w_arbitrary c w | None => w end.

Definition set_server_version (v : Z) : dm unit := fun d =>
  ({| inbox := inbox d; outbox := outbox d; write_ok := write_ok d;
      next_tag := next_tag d; server_version := v |}, Ok tt).

Definition auth (deadline : nat) (cookie : option bytes) : dm unit :=
  payload <== expect_reply deadline AUTH (auth_body cookie);
  v <== dm_codec (read_u32 (TagReader_new payload)).2;
  set_server_version v.

Definition client_props (pid : bytes) : list (bytes * bytes) :=
  [(lit "application.name", lit "sonicbrew gw-pulse");
   (lit "application.process.id", pid)].

Definition set_client_name (deadline : nat) (pid : bytes) : dm unit :=
  payload <== expect_reply deadline SET_CLIENT_NAME (w_proplist (client_props pid) TagWriter_new);
  match payload with
  | [] => dm_ret tt
  | _ => _ <== dm_codec (read_u32 (TagReader_new payload)).2; dm_ret tt
  end.

(** [sock] is the state of a connected socket with its timeouts set, [None]
    when connecting failed. *)
Definition connect_with_cookie (deadline : nat) (pid : bytes) (cookie : option bytes)
    (sock : option (bytes * bool)) : result PulseDaemon PulseDaemonError :=
  let? _ :=
    match cookie with
    | Some c =>
        if negb (length c =? AUTH_COOKIE_LEN)%nat then Err (DCookie (length c)) else Ok tt
    | None => Ok tt
    end in
  match sock with
  | None => Err (DIo false)
  | Some (incoming, wok) =>
      let d := {| inbox := incoming; outbox := []; write_ok := wok; next_tag := 1; server_version := 0 |} in
      match (_ <== auth deadline cookie; set_client_name deadline pid) d with
      | (d, Ok _) => Ok d
      | (_, Err e) => Err e
      end
  end.

Definition roundtrip (deadline : nat) (cmd : Z) (body : bytes) : dm (Z * bytes) :=
  frame <== request deadline cmd body;
  if 65535 <? f_command frame then dm_err (DProtocol ReplyOpcodeExceedsU16)
  else dm_ret (f_command frame, f_payload frame).

(** ** Playback *)

(** The fields of a [CREATE_PLAYBACK_STREAM] request, in order. *)
Definition playback_fields (name : bytes) (sink : option bytes) (rate channels : Z) : list field :=
  [FSpec rate channels SAMPLE_FLOAT32LE;
   FMap (Z.of_nat <$> seq 0 (Z.to_nat channels));
   FU32 u32_max;
   FStr sink;
   FU32 u32_max; FBool false; FU32 u32_max; FU32 u32_max; FU32 u32_max; FU32 0;
   FCVol (replicate (Z.to_nat channels) VOLUME_NORM)]
  ++ replicate 7 (FBool false)
  ++ [FBool false; FBool false;
      FProps [(lit "media.name", name); (lit "application.name", lit "sonicbrew gw-pulse")];
      FBool true; FBool false;
      FBool false; FBool false; FBool false;
      FBool false; FBool false;
      FU8 0].

Definition create_playback_stream (deadline : nat) (name : bytes) (sink : option bytes)
    (rate channels : Z) : dm Z := fun d =>
  if server_version d <? 13 then (d, Err (DProtocol NeedsProtocol13))
  else
    (payload <== expect_reply deadline CREATE_PLAYBACK_STREAM
                   (foldl write_field TagWriter_new (playback_fields name sink rate channels));
     dm_codec (read_u32 (TagReader_new payload)).2) d.

Definition write_memblock (channel : Z) (samples : list F32.f32) : dm unit :=
  let payload_len := (length samples * 4)%nat in
  _ <== write_all (be_bytes 4 (wrap 32 (Z.of_nat payload_len)));
  _ <== write_all (be_bytes 4 channel);
  _ <== write_all (be_bytes 8 0);
  _ <== write_all (be_bytes 4 0);
  write_all (samples ≫= le_bytes 4).

Definition write_audio (stream : Z) (samples : list F32.f32) : dm unit :=
  write_memblock stream samples.

Definition delete_playback_stream (deadline : nat) (stream : Z) : dm unit :=
  _ <== expect_reply deadline DELETE_PLAYBACK_STREAM (w_u32 stream TagWriter_new);
  dm_ret tt.

Record ServerInfo : Type := {
  si_user_name : option bytes; si_host_name : option bytes;
  si_server_version : bytes; si_server_name : bytes;
  si_default_sink : option bytes; si_default_source : option bytes;
  si_cookie : Z; si_rate : Z; si_channels : Z; si_format : Z
}.

Definition read_server_info (version : Z) : rd ServerInfo :=
  user <~ read_string;
  host <~ read_string;
  sver <~ read_string;
  sname <~ read_string;
  spec <~ read_sample_spec;
  sink <~ read_string;
  source <~ read_string;
  cookie <~ read_u32;
  _ <~ (fun r => if (15 <=? version) && negb (reader_is_empty r) then skip_channel_map r
                 else rd_ret tt r);
  rd_ret {| si_user_name := user; si_host_name := host;
            si_server_version := default [] sver; si_server_name := default [] sname;
            si_default_sink := sink; si_default_source := source; si_cookie := cookie;
            si_rate := spec.1.1; si_channels := spec.1.2; si_format := spec.2 |}.

Definition server_info (deadline : nat) : dm ServerInfo :=
  frame <== request deadline QUERY_INFO [];
  if negb (f_command frame =? SERVER_INFO)
  then dm_err (DProtocol (UnexpectedReply SERVER_INFO (f_command frame)))
  else fun d => dm_codec (read_server_info (server_version d) (TagReader_new (f_payload frame))).2 d.

(** ** Discovery *)

Fixpoint strip_prefix (p s : rstring) : option rstring :=
  match p, s with
  | [], _ => Some s
  | a :: p, b :: s => if a =? b then strip_prefix p s else None
  | _ :: _, [] => None
  end.

Definition path_join (dir name : rstring) : rstring :=
  match last dir with
  | Some 47 => dir ++ name
  | _ => dir ++ lit "/" ++ name
  end.

Definition non_empty (s : option rstring) : option rstring :=
  match s with Some [] => None | _ => s end.

Definition socket_candidates_from (pulse_server xdg_runtime_dir : option rstring) : list rstring :=
  option_list (non_empty (pulse_server ≫= strip_prefix (lit "unix:")))
  ++ option_list ((fun dir => path_join (path_join dir (lit "pulse")) (lit "native"))
                    <$> non_empty xdg_runtime_dir)
  ++ [lit "/var/run/pulse/native"; lit "/usr/local/var/run/pulse/native"; lit "/tmp/pulse-native"].

Definition cookie_candidates_from (pulse_cookie home : option rstring) : list rstring :=
  option_list (non_empty pulse_cookie)
  ++ option_list ((fun h => path_join (path_join (path_join h (lit ".config")) (lit "pulse")) (lit "cookie"))
                    <$> non_empty home)
  ++ [lit "/usr/local/etc/pulse/cookie"].

(** [fs::read]: [Ok None] is a missing file. *)
Definition load_cookie_file (contents : result (option bytes) unit)
    : result (option bytes) PulseDaemonError :=
  match contents with
  | Ok (Some bs) =>
      if (length bs =? AUTH_COOKIE_LEN)%nat then Ok (Some bs) else Err (DCookie (length bs))
  | Ok None => Ok None
  | Err _ => Err (DIo false)
  end.

Fixpoint load_default_cookie (fs : rstring -> result (option bytes) unit) (candidates : list rstring)
    : result (option bytes) PulseDaemonError :=
  match candidates with
  | [] => Ok None
  | c :: candidates =>
      let? cookie := load_cookie_file (fs c) in
      match cookie with
      | Some ck => Ok (Some ck)
      | None => load_default_cookie fs candidates
      end
  end.

Definition connect (deadline : nat) (pid : bytes) (fs : rstring -> result (option bytes) unit)
    (cookies sockets : list rstring) (exists_ : rstring -> bool)
    (dial : rstring -> option (bytes * bool)) : result PulseDaemon PulseDaemonError :=
  let? cookie := load_default_cookie fs cookies in
  match filter (fun p => exists_ p = true) sockets with
  | [] => Err (NoServerSocket sockets)
  | path :: _ => connect_with_cookie deadline pid cookie (dial path)
  end.

(** ** Frames on the wire *)

Definition with_inbox (d : PulseDaemon) (bs : bytes) : PulseDaemon :=
  {| inbox := bs; outbox := outbox d; write_ok := write_ok d;
     next_tag := next_tag d; server_version := server_version d |}.
Definition with_outbox (d : PulseDaemon) (bs : bytes) : PulseDaemon :=
  {| inbox := inbox d; outbox := bs; write_ok := write_ok d;
     next_tag := next_tag d; server_version := server_version d |}.

Definition frame_bytes (command tag : Z) (tagstruct : bytes) : bytes :=
  be_bytes 4 (Z.of_nat (length (frame_payload command tag tagstruct)))
  ++ be_bytes 4 u32_max ++ be_bytes 8 0 ++ be_bytes 4 0 ++ frame_payload command tag tagstruct.

(** Frames the reader accepts: words in range, body within [MAX_LEN]. *)
Definition frame_ok (f : Frame) : Prop :=
  u32 (f_command f) /\ u32 (f_tag f) /\ Z.of_nat (length (f_payload f)) <= MAX_LEN - 10.

Definition bytes_of_frame (f : Frame) : bytes := frame_bytes (f_command f) (f_tag f) (f_payload f).

Lemma length_frame_payload c t ts : length (frame_payload c t ts) = (10 + length ts)%nat.
Proof.
  unfold frame_payload. destruct (be4_shape c) as (?&?&?&?&->). destruct (be4_shape t) as (?&?&?&?&->).
  cbn. lia.
Qed.

Lemma write_frame_ok d c t ts :
  write_ok d = true -> Z.of_nat (length ts) <= u32_max - 10 ->
  write_frame c t ts d = (with_outbox d (outbox d ++ frame_bytes c t ts), Ok tt).
Proof.
  intros H Hl. unfold write_frame. cbv zeta.
  destruct (Z.ltb_spec u32_max (Z.of_nat (length (frame_payload c t ts)))) as [Hlt|_];
    [rewrite length_frame_payload in Hlt; lia|].
  unfold dm_bind. unfold write_all. rewrite H. cbv beta iota. cbn [outbox inbox write_ok next_tag server_version].
  unfold with_outbox, frame_bytes. by rewrite <- !app_assoc, H.
Qed.

Lemma read_exact_app d n bs rest :
  inbox d = bs ++ rest -> length bs = n -> read_exact n d = (with_inbox d rest, Ok bs).
Proof.
  intros Hi <-. unfold read_exact. rewrite Hi, length_app.
  destruct (Nat.ltb_spec (length bs + length rest) (length bs)); [lia|].
  by rewrite drop_app_length, take_app_length.
Qed.

Lemma memblock_descriptor len ch :
  0 <= len < 2 ^ 32 -> u32 ch ->
  PacketHeader_parse (be_bytes 4 len ++ be_bytes 4 ch ++ be_bytes 8 0 ++ be_bytes 4 0) =
  Ok {| ph_length := len; ph_channel := ch; ph_offset := 0; ph_flags := 0; ph_opcode := 0 |}.
Proof.
  intros Hl Hc. pose proof (of_be_be_bytes 4 len Hl) as He. pose proof (of_be_be_bytes 4 ch Hc) as Hf.
  destruct (be4_shape len) as (a & b & c & d & E). rewrite E in He |- *.
  destruct (be4_shape ch) as (a' & b' & c' & d' & E'). rewrite E' in Hf |- *.
  unfold PacketHeader_parse, slice. cbn -[Z.pow of_be u32_max].
  rewrite He, Hf. do 2 f_equal.
Qed.

Lemma read_two_words c t ts :
  u32 c -> u32 t -> Z.of_nat (length (frame_payload c t ts)) <= usize_max ->
  let body := frame_payload c t ts in
  exists r1 r2, read_u32 (TagReader_new body) = (r1, Ok c) /\ read_u32 r1 = (r2, Ok t) /\
    drop (Nat.min (pos r2) (length body)) body = ts.
Proof.
  intros Hc Ht Hl body.
  pose proof (reads_u32 c Hc [] (TAG_U32 :: be_bytes 4 t ++ ts)) as H1.
  pose proof (reads_u32 t Ht (TAG_U32 :: be_bytes 4 c) ts) as H2.
  cbn [app length] in H1, H2. rewrite !length_be_bytes in H1, H2.
  change (TAG_U32 :: be_bytes 4 c ++ TAG_U32 :: be_bytes 4 t ++ ts) with body in H1, H2.
  do 2 eexists. split; [by apply H1|]. split; [by apply H2|].
  cbn [pos Nat.add]. unfold body. rewrite length_frame_payload.
  replace (Nat.min 10 (10 + length ts)) with 10%nat by lia.
  unfold frame_payload. destruct (be4_shape c) as (?&?&?&?&->). destruct (be4_shape t) as (?&?&?&?&->).
  done.
Qed.

Lemma read_frame_bytes d f rest :
  frame_ok f -> inbox d = bytes_of_frame f ++ rest ->
  read_frame d = (with_inbox d rest, Ok f).
Proof.
  intros (Hc & Ht & Hl) Hi. destruct f as [c t ts]. cbn [f_command f_tag f_payload] in *.
  unfold bytes_of_frame, frame_bytes in Hi. cbn [f_command f_tag f_payload] in Hi.
  set (body := frame_payload c t ts) in *.
  assert (Hlb : length body = (10 + length ts)%nat) by apply length_frame_payload.
  set (desc := be_bytes 4 (Z.of_nat (length body)) ++ be_bytes 4 u32_max ++ be_bytes 8 0 ++ be_bytes 4 0).
  assert (Hi' : inbox d = desc ++ (body ++ rest)) by (unfold desc; rewrite Hi, <- !app_assoc; done).
  unfold read_frame, dm_bind at 1. rewrite (read_exact_app d HEADER_LEN desc (body ++ rest)); [|done|].
  2: { unfold desc. by rewrite !length_app, !length_be_bytes. }
  unfold dm_bind at 1, dm_codec. unfold desc. rewrite memblock_descriptor; [|unfold MAX_LEN in *; lia|by vm_compute].
  cbn [map_err]. unfold PacketHeader_is_valid. cbn [ph_length].
  destruct (Z.ltb_spec 0 (Z.of_nat (length body))); [|lia].
  destruct (Z.leb_spec (Z.of_nat (length body)) MAX_LEN); [|unfold MAX_LEN in *; lia].
  cbn [andb negb]. unfold dm_bind. rewrite Nat2Z.id.
  rewrite (read_exact_app _ (length body) body rest) by done.
  destruct (read_two_words c t ts Hc Ht) as (r1 & r2 & E1 & E2 & E3);
    [fold body; unfold MAX_LEN, usize_max in *; lia|].
  fold body in E1, E2, E3. by rewrite E1, E2, E3.
Qed.

(** ** Waiting for the reply *)

Definition reply_of (f : Frame) : result Frame PulseDaemonError :=
  if (f_command f =? ERROR) || (f_command f =? TIMEOUT) then Err (error_reply f) else Ok f.

Lemma await_reply_skips deadline tag skipped f d rest :
  Forall (fun g => frame_ok g /\ f_tag g <> tag) skipped -> frame_ok f -> f_tag f = tag ->
  (length skipped < deadline)%nat ->
  inbox d = (skipped ≫= bytes_of_frame) ++ bytes_of_frame f ++ rest ->
  await_reply deadline tag d = (with_inbox d rest, reply_of f).
Proof.
  intros Hs Hf Ht. revert deadline d. induction Hs as [|g gs [Hg Hgt] Hs IH];
    intros [|deadline] d Hd Hi; cbn [length] in Hd; [lia| |lia|].
  - cbn [await_reply]. unfold dm_bind. rewrite (read_frame_bytes d f rest) by done.
    rewrite Ht, Z.eqb_refl. cbn [negb]. unfold reply_of. by destruct (_ || _).
  - cbn [await_reply]. unfold dm_bind. rewrite bind_cons, <- app_assoc in Hi.
    rewrite (read_frame_bytes d g _ Hg Hi).
    destruct (Z.eqb_spec (f_tag g) tag); [done|]. cbn [negb].
    rewrite (IH deadline) by (done || lia). done.
Qed.

(** A request on a socket whose incoming bytes are unsolicited frames and then
    the reply. *)
Lemma request_ok deadline c ts d skipped f rest :
  write_ok d = true -> Z.of_nat (length ts) <= u32_max - 10 ->
  Forall (fun g => frame_ok g /\ f_tag g <> next_tag d) skipped -> frame_ok f ->
  f_tag f = next_tag d -> (length skipped < deadline)%nat ->
  inbox d = (skipped ≫= bytes_of_frame) ++ bytes_of_frame f ++ rest ->
  request deadline c ts d =
    ({| inbox := rest; outbox := outbox d ++ frame_bytes c (next_tag d) ts; write_ok := true;
        next_tag := wrap 32 (next_tag d + 1); server_version := server_version d |}, reply_of f).
Proof.
  intros Hw Hts Hs Hf Ht Hd Hi. unfold request, dm_bind. cbv zeta. rewrite write_frame_ok by done.
  rewrite (await_reply_skips deadline (next_tag d) skipped f _ rest) by done.
  unfold with_inbox, with_outbox. cbn. by rewrite Hw.
Qed.

Lemma expect_reply_ok deadline c ts d skipped payload rest :
  write_ok d = true -> Z.of_nat (length ts) <= u32_max - 10 ->
  Forall (fun g => frame_ok g /\ f_tag g <> next_tag d) skipped ->
  u32 (next_tag d) -> Z.of_nat (length payload) <= MAX_LEN - 10 -> (length skipped < deadline)%nat ->
  inbox d = (skipped ≫= bytes_of_frame) ++ frame_bytes REPLY (next_tag d) payload ++ rest ->
  expect_reply deadline c ts d =
    ({| inbox := rest; outbox := outbox d ++ frame_bytes c (next_tag d) ts; write_ok := true;
        next_tag := wrap 32 (next_tag d + 1); server_version := server_version d |}, Ok payload).
Proof.
  intros Hw Hts Hs Ht Hl Hd Hi. unfold expect_reply, dm_bind.
  rewrite (request_ok deadline c ts d skipped
    {| f_command := REPLY; f_tag := next_tag d; f_payload := payload |} rest); done.
Qed.

Lemma read_u32_prefix v rest :
  u32 v -> Z.of_nat (length (TAG_U32 :: be_bytes 4 v ++ rest)) <= usize_max ->
  (read_u32 (TagReader_new (TAG_U32 :: be_bytes 4 v ++ rest))).2 = Ok v.
Proof. intros Hv Hl. pose proof (reads_u32 v Hv [] rest) as H. cbn [app] in H. by setoid_rewrite H. Qed.

(** ** Server scripts *)

Definition unsolicited (tag : Z) (skipped : list Frame) : Prop :=
  Forall (fun g => frame_ok g /\ f_tag g <> tag) skipped.

(** Unsolicited frames, then the reply to [tag]. *)
Definition answer (skipped : list Frame) (command tag : Z) (payload : bytes) : bytes :=
  (skipped ≫= bytes_of_frame) ++ frame_bytes command tag payload.

Definition u32_reply (v : Z) (extra : bytes) : bytes := TAG_U32 :: be_bytes 4 v ++ extra.

Definition cookie_ok (cookie : option bytes) : Prop :=
  match cookie with Some c => length c = AUTH_COOKIE_LEN | None => True end.

#[export] Instance cookie_ok_dec c : Decision (cookie_ok c).
Proof. destruct c; cbn; apply _. Defined.

Lemma u32_reply_read v extra :
  u32 v -> Z.of_nat (length extra) <= MAX_LEN - 15 ->
  (read_u32 (TagReader_new (u32_reply v extra))).2 = Ok v.
Proof.
  intros Hv Hl. apply read_u32_prefix; [done|]. cbn [length]. rewrite length_app, length_be_bytes.
  unfold MAX_LEN, usize_max in *. lia.
Qed.

Lemma length_u32_reply v extra : length (u32_reply v extra) = (5 + length extra)%nat.
Proof. unfold u32_reply. destruct (be4_shape v) as (?&?&?&?&->). done. Qed.

Lemma length_auth_body cookie : cookie_ok cookie -> (length (auth_body cookie) <= 266)%nat.
Proof.
  unfold cookie_ok, AUTH_COOKIE_LEN, auth_body. destruct cookie as [c|]; intros H; [|cbn; lia].
  unfold w_arbitrary, w_u32, TagWriter_new. rewrite !length_app. cbn [length app].
  rewrite ?length_app, ?length_be_bytes, H. cbn. lia.
Qed.

Lemma length_client_body pid :
  (length (w_proplist (client_props pid) TagWriter_new) <= 100 + length pid)%nat.
Proof.
  rewrite w_proplist_bytes. cbn -[be_bytes]. rewrite !length_app. cbn -[be_bytes].
  rewrite !length_app, !length_be_bytes. cbn. lia.
Qed.

Lemma auth_ok deadline cookie d skipped v extra rest :
  write_ok d = true -> cookie_ok cookie -> u32 (next_tag d) -> unsolicited (next_tag d) skipped ->
  (length skipped < deadline)%nat -> u32 v -> Z.of_nat (length extra) <= MAX_LEN - 15 ->
  inbox d = answer skipped REPLY (next_tag d) (u32_reply v extra) ++ rest ->
  auth deadline cookie d =
    ({| inbox := rest; outbox := outbox d ++ frame_bytes AUTH (next_tag d) (auth_body cookie);
        write_ok := true; next_tag := wrap 32 (next_tag d + 1); server_version := v |}, Ok tt).
Proof.
  intros Hw Hc Ht Hs Hd Hv He Hi. unfold auth, dm_bind.
  rewrite (expect_reply_ok deadline AUTH (auth_body cookie) d skipped (u32_reply v extra) rest); try done.
  - unfold dm_codec. by rewrite u32_reply_read.
  - pose proof (length_auth_body cookie Hc). unfold u32_max. lia.
  - rewrite length_u32_reply. lia.
  - unfold answer in Hi. by rewrite Hi, <- app_assoc.
Qed.

Lemma set_client_name_ok deadline pid d skipped idx extra rest :
  write_ok d = true -> (length pid <= 20)%nat -> u32 (next_tag d) -> unsolicited (next_tag d) skipped ->
  (length skipped < deadline)%nat -> u32 idx -> Z.of_nat (length extra) <= MAX_LEN - 15 ->
  inbox d = answer skipped REPLY (next_tag d) (u32_reply idx extra) ++ rest ->
  set_client_name deadline pid d =
    ({| inbox := rest;
        outbox := outbox d ++ frame_bytes SET_CLIENT_NAME (next_tag d)
                                (w_proplist (client_props pid) TagWriter_new);
        write_ok := true; next_tag := wrap 32 (next_tag d + 1); server_version := server_version d |}, Ok tt).
Proof.
  intros Hw Hc Ht Hs Hd Hv He Hi. unfold set_client_name, dm_bind.
  rewrite (expect_reply_ok deadline SET_CLIENT_NAME _ d skipped (u32_reply idx extra) rest); try done.
  - pose proof (length_client_body pid). unfold u32_max. lia.
  - rewrite length_u32_reply. lia.
  - unfold answer in Hi. by rewrite Hi, <- app_assoc.
Qed.

Lemma playback_fields_ok name sink rate channels :
  u32 rate -> u8 channels -> str_ok name ->
  match sink with Some s => str_ok s | None => True end ->
  Forall field_ok (playback_fields name sink rate channels).
Proof.
  intros Hr Hc Hn Hs. unfold playback_fields.
  assert (Hu8 : 0 <= channels < 256) by (unfold u8, uint in Hc; lia).
  rewrite Forall_app. split; [|rewrite Forall_app; split].
  - repeat apply Forall_cons_2; try apply Forall_nil_2; try done.
    + cbn. unfold map_ok. rewrite length_fmap, length_seq. lia.
    + cbn. split; [by apply Forall_replicate; vm_compute|]. unfold map_ok. rewrite length_replicate. lia.
  - by apply Forall_replicate.
  - repeat apply Forall_cons_2; try apply Forall_nil_2; try done.
    + split; [|destruct Hn as (_ & ? & ?); done]. apply (bool_decide_eq_true_1 _). vm_compute. reflexivity.
    + apply (bool_decide_eq_true_1 _). vm_compute. reflexivity.
Qed.

Lemma connect_opened deadline pid cookie incoming :
  cookie_ok cookie ->
  connect_with_cookie deadline pid cookie (Some (incoming, true)) =
  match dm_bind (auth deadline cookie) (fun _ => set_client_name deadline pid)
          {| inbox := incoming; outbox := []; write_ok := true; next_tag := 1; server_version := 0 |} with
  | (d, Ok _) => Ok d
  | (_, Err e) => Err e
  end.
Proof.
  unfold connect_with_cookie, cookie_ok. destruct cookie as [c|]; [|done].
  intros ->. by rewrite Nat.eqb_refl.
Qed.

Lemma auth_body_reads cookie :
  cookie_ok cookie ->
  (read_fields (KU32 :: if cookie is Some _ then [KArb] else []) (TagReader_new (auth_body cookie))).2 =
    Ok (FU32 PROTOCOL_VERSION :: if cookie is Some c then [FArb c] else []).
Proof.
  intros Hc. pose proof (length_auth_body cookie Hc) as Hl.
  set (fs := FU32 PROTOCOL_VERSION :: if cookie is Some c then [FArb c] else []).
  assert (Eb : auth_body cookie = foldl write_field TagWriter_new fs) by (by destruct cookie).
  assert (Ek : (KU32 :: if cookie is Some _ then [KArb] else []) = kind_of <$> fs) by (by destruct cookie).
  rewrite Ek, Eb in *. destruct (fields_roundtrip fs) as (r & E & _).
  - apply Forall_cons_2; [by vm_compute|]. destruct cookie as [c|]; [|apply Forall_nil_2].
    apply Forall_cons_2; [|apply Forall_nil_2]. cbn in Hc |- *. unfold blob_ok. rewrite Hc. by vm_compute.
  - unfold usize_max. lia.
  - by rewrite E.
Qed.

(** ** Theorems *)

(** A control request is answered by its own reply.  On a working socket,
    whatever unsolicited frames the server sends first, [request] writes
    exactly one frame carrying the current tag, consumes the stream exactly up
    to the end of the frame that echoes the tag, and returns that frame, or the
    server's error when it is an [ERROR] or [TIMEOUT]; the tag counter advances
    modulo 2^32. *)
Theorem request_reply deadline command ts d skipped f rest :
  write_ok d = true -> Z.of_nat (length ts) <= u32_max - 10 ->
  unsolicited (next_tag d) skipped -> frame_ok f -> f_tag f = next_tag d ->
  (length skipped < deadline)%nat ->
  inbox d = (skipped ≫= bytes_of_frame) ++ bytes_of_frame f ++ rest ->
  request deadline command ts d =
    ({| inbox := rest; outbox := outbox d ++ frame_bytes command (next_tag d) ts; write_ok := true;
        next_tag := wrap 32 (next_tag d + 1); server_version := server_version d |},
     if (f_command f =? ERROR) || (f_command f =? TIMEOUT) then Err (error_reply f) else Ok f).
Proof. intros. by apply (request_ok _ _ _ _ skipped). Qed.

#[export] Instance frame_ok_dec f : Decision (frame_ok f).
Proof. unfold frame_ok. apply _. Defined.
#[export] Instance unsolicited_dec t l : Decision (unsolicited t l).
Proof. unfold unsolicited. apply _. Defined.

Lemma request_reply_witness :
  let probe := {| f_command := 65; f_tag := u32_max; f_payload := [78] |} in
  let denied := {| f_command := ERROR; f_tag := 4; f_payload := w_u32 1 TagWriter_new |} in
  let d := {| inbox := bytes_of_frame probe ++ bytes_of_frame denied; outbox := []; write_ok := true;
              next_tag := 4; server_version := 35 |} in
  (request 5 AUTH [] d).2 = Err (DServer 1 (lit "no message")).
Proof.
  intros probe denied d.
  rewrite (request_reply 5 AUTH [] d [probe] denied []); [reflexivity|reflexivity|by vm_compute| | | | |].
  1,2: apply (bool_decide_eq_true_1 _); vm_compute; reflexivity.
  1,3: reflexivity.
  cbn. lia.
Defined.

(** C24: the connection handshake.  Against a server that answers [AUTH] with
    its protocol version and [SET_CLIENT_NAME] with a client index, with any
    unsolicited frames in between, connecting succeeds with that version, the
    next tag 3 and everything after the second reply unread, having written
    exactly the two requests; the [AUTH] body reads back as protocol 35 and the
    cookie.  A cookie of the wrong length is refused before the socket is
    opened, and an [ERROR] answer surfaces as the server's code and message. *)
Theorem handshake deadline pid cookie sock s1 s2 v idx extra1 extra2 rest :
  (length pid <= 20)%nat -> unsolicited 1 s1 -> unsolicited 2 s2 ->
  (length s1 < deadline)%nat -> (length s2 < deadline)%nat -> u32 v -> u32 idx ->
  Z.of_nat (length extra1) <= MAX_LEN - 15 -> Z.of_nat (length extra2) <= MAX_LEN - 15 ->
  if bool_decide (cookie_ok cookie) then
    connect_with_cookie deadline pid cookie
      (Some (answer s1 REPLY 1 (u32_reply v extra1) ++ answer s2 REPLY 2 (u32_reply idx extra2) ++ rest, true)) =
    Ok {| inbox := rest;
          outbox := frame_bytes AUTH 1 (auth_body cookie) ++
                    frame_bytes SET_CLIENT_NAME 2 (w_proplist (client_props pid) TagWriter_new);
          write_ok := true; next_tag := 3; server_version := v |} /\
    (read_fields (KU32 :: if cookie is Some _ then [KArb] else []) (TagReader_new (auth_body cookie))).2 =
      Ok (FU32 PROTOCOL_VERSION :: if cookie is Some c then [FArb c] else []) /\
    (forall e, frame_ok e -> f_tag e = 1 -> f_command e = ERROR ->
       connect_with_cookie deadline pid cookie
         (Some ((s1 ≫= bytes_of_frame) ++ bytes_of_frame e ++ rest, true)) = Err (error_reply e))
  else
    connect_with_cookie deadline pid cookie sock = Err (DCookie (default 0%nat (length <$> cookie))).
Proof.
  intros Hp Hs1 Hs2 Hd1 Hd2 Hv Hi He1 He2. case_bool_decide as Hc.
  - split_and!.
    + rewrite connect_opened by done. unfold dm_bind.
      rewrite (auth_ok deadline cookie _ s1 v extra1
        (answer s2 REPLY 2 (u32_reply idx extra2) ++ rest)); try done.
      by rewrite (set_client_name_ok deadline pid _ s2 idx extra2 rest).
    + by apply auth_body_reads.
    + intros e He Ht Hcmd. rewrite connect_opened by done. unfold dm_bind, auth, expect_reply, dm_bind.
      rewrite (request_ok deadline AUTH (auth_body cookie) _ s1 e rest); try done.
      * unfold reply_of. by rewrite Hcmd.
      * pose proof (length_auth_body cookie Hc). unfold u32_max. lia.
  - unfold connect_with_cookie. destruct cookie as [c|]; [|done]. cbn in Hc.
    by destruct (Nat.eqb_spec (length c) AUTH_COOKIE_LEN).
Qed.

Lemma handshake_witness :
  let ck := replicate AUTH_COOKIE_LEN 7 in
  connect_with_cookie 3 (lit "42") (Some ck)
    (Some (answer [] REPLY 1 (u32_reply 35 []) ++ answer [] REPLY 2 (u32_reply 9 []) ++ [1; 2], true)) =
  Ok {| inbox := [1; 2];
        outbox := frame_bytes AUTH 1 (auth_body (Some ck)) ++
                  frame_bytes SET_CLIENT_NAME 2 (w_proplist (client_props (lit "42")) TagWriter_new);
        write_ok := true; next_tag := 3; server_version := 35 |}.
Proof.
  intros ck.
  refine (proj1 (handshake 3 (lit "42") (Some ck) None [] [] 35 9 [] [] [1; 2] _ _ _ _ _ _ _ _ _)).
  all: apply (bool_decide_eq_true_1 _); vm_compute; reflexivity.
Defined.

(** Creating a playback stream.  Against a server of protocol 13 or later
    that replies with a stream index, the call returns that index and has sent
    one request whose body a server reads back field by field as the sample
    spec (FLOAT32LE), the sequential channel map, the sink name, the buffer
    attributes, unit volumes and flags of protocol 35, with nothing left over;
    against an older server it fails without touching the connection. *)
Theorem playback_stream_created deadline name sink rate channels d skipped idx extra rest :
  let fs := playback_fields name sink rate channels in
  let body := foldl write_field TagWriter_new fs in
  write_ok d = true -> u32 (next_tag d) -> unsolicited (next_tag d) skipped ->
  (length skipped < deadline)%nat -> u32 idx -> Z.of_nat (length extra) <= MAX_LEN - 15 ->
  u32 rate -> u8 channels -> str_ok name -> match sink with Some s => str_ok s | None => True end ->
  Z.of_nat (length body) <= u32_max - 10 ->
  inbox d = answer skipped REPLY (next_tag d) (u32_reply idx extra) ++ rest ->
  create_playback_stream deadline name sink rate channels d =
    (if 13 <=? server_version d then
       ({| inbox := rest; outbox := outbox d ++ frame_bytes CREATE_PLAYBACK_STREAM (next_tag d) body;
           write_ok := true; next_tag := wrap 32 (next_tag d + 1); server_version := server_version d |}, Ok idx)
     else (d, Err (DProtocol NeedsProtocol13))) /\
  exists r, read_fields (kind_of <$> fs) (TagReader_new body) = (r, Ok fs) /\ reader_is_empty r = true.
Proof.
  intros fs body Hw Ht Hs Hd Hidx He Hr Hc Hn Hsk Hl Hi. split.
  - unfold create_playback_stream. rewrite Z.ltb_antisym.
    destruct (13 <=? server_version d); [|done]. cbn [negb]. fold fs body. unfold dm_bind.
    rewrite (expect_reply_ok deadline CREATE_PLAYBACK_STREAM body d skipped (u32_reply idx extra) rest); try done.
    + unfold dm_codec. by rewrite u32_reply_read.
    + rewrite length_u32_reply. lia.
    + unfold answer in Hi. by rewrite Hi, <- app_assoc.
  - apply fields_roundtrip; [by apply playback_fields_ok|]. fold body. unfold u32_max, usize_max in *. lia.
Qed.

Lemma playback_stream_created_witness :
  let d := {| inbox := answer [] REPLY 3 (u32_reply 6 []) ++ []; outbox := []; write_ok := true;
              next_tag := 3; server_version := 35 |} in
  (create_playback_stream 2 (lit "mix") (Some (lit "out")) 48000 2 d).2 = Ok 6.
Proof.
  intros d.
  pose proof (playback_stream_created 2 (lit "mix") (Some (lit "out")) 48000 2 d [] 6 [] []) as H.
  cbv zeta in H. destruct H as [H _]; try (apply (bool_decide_eq_true_1 _); vm_compute; reflexivity).
  rewrite H. reflexivity.
Defined.

(** An audio block on the wire.  A write emits one memblock frame: a
    20-byte descriptor whose length field is four bytes per sample and whose
    channel is the stream's, then each sample as its little-endian bits, from
    which the samples read back exactly; no reply is awaited and the tag
    counter does not move. *)
Theorem write_audio_memblock stream samples d :
  write_ok d = true -> u32 stream -> Forall u32 samples -> Z.of_nat (length samples) * 4 < 2 ^ 32 ->
  exists out,
    write_audio stream samples d = (with_outbox d (outbox d ++ out), Ok tt) /\
    PacketHeader_parse (take HEADER_LEN out) =
      Ok {| ph_length := Z.of_nat (length samples) * 4; ph_channel := stream;
            ph_offset := 0; ph_flags := 0; ph_opcode := 0 |} /\
    Z.of_nat (length out) = 20 + Z.of_nat (length samples) * 4 /\
    forall i s, samples !! i = Some s -> of_le (take 4 (drop (20 + i * 4) out)) = s.
Proof.
  intros Hw Hst Hs Hl.
  set (len := wrap 32 (Z.of_nat (length samples * 4))).
  assert (Elen : len = Z.of_nat (length samples) * 4)
    by (unfold len, wrap; rewrite Nat2Z.inj_mul, Z.mod_small; lia).
  set (desc := be_bytes 4 len ++ be_bytes 4 stream ++ be_bytes 8 0 ++ be_bytes 4 0).
  assert (Hdl : length desc = HEADER_LEN) by (unfold desc; by rewrite !length_app, !length_be_bytes).
  exists (desc ++ (samples ≫= le_bytes 4)). split_and!.
  - unfold write_audio, write_memblock, dm_bind, write_all. cbv zeta. rewrite Hw. cbv beta iota.
    cbn [outbox inbox write_ok next_tag server_version]. unfold with_outbox, desc, len.
    by rewrite <- !app_assoc, Hw.
  - rewrite <- Hdl, take_app_length. unfold desc. rewrite memblock_descriptor by (done || lia). by rewrite Elen.
  - rewrite length_app, Hdl, (length_bind_const _ 4) by apply length_le_bytes. unfold HEADER_LEN. lia.
  - intros i s Hi. change 20%nat with HEADER_LEN. rewrite <- Hdl, <- drop_drop, drop_app_length.
    rewrite (bind_block (le_bytes 4) 4 (length_le_bytes 4) samples i s Hi).
    apply of_le_le_bytes_id. rewrite Forall_forall in Hs. apply Hs. by eapply list_elem_of_lookup_2.
Qed.

Lemma write_audio_memblock_witness :
  let d := {| inbox := []; outbox := []; write_ok := true; next_tag := 3; server_version := 35 |} in
  exists out, write_audio 6 [F32.one; F32.half] d = (with_outbox d (outbox d ++ out), Ok tt).
Proof.
  intros d. destruct (write_audio_memblock 6 [F32.one; F32.half] d) as (out & H & _).
  1: reflexivity. 1,2: apply (bool_decide_eq_true_1 _); vm_compute; reflexivity. 1: vm_compute; reflexivity.
  exists out. exact H.
Defined.
