(* ===== verification/PulseDiscovery.v ===== *)
(** * Finding the PulseAudio daemon

    The part of [crates/gw-pulse/src/daemon.rs] that reads the process
    environment and [/tmp]: [socket_candidates], [scan_tmp_pulse_runtimes],
    [cookie_candidates], and [connect] and [connect_to] on top of {!PulseDaemon}.
    The environment, the directory and the file system are arguments. *)

From Stdlib Require Import String.
From stdpp Require Import sorting.
From S2P Require Import Prelude RString PulseTags PulseDaemon.
Local Open Scope Z_scope.

(** Paths in the order of [Path]'s [Ord] for paths that share their parents: by name. *)
Fixpoint name_leb (a b : rstring) : bool :=
  match a, b with
  | [], _ => true
  | _ :: _, [] => false
  | x :: a, y :: b => (x <? y) || (x =? y) && name_leb a b
  end.
Definition name_le (a b : rstring) : Prop := name_leb a b = true.
#[export] Instance name_le_dec a b : Decision (name_le a b).
Proof. unfold name_le. apply _. Defined.

#[export] Instance name_le_total : Total name_le.
Proof.
  intros a. unfold name_le. induction a as [|x a IH]; intros [|y b]; cbn; auto.
  destruct (Z.ltb_spec x y), (Z.ltb_spec y x), (Z.eqb_spec x y), (Z.eqb_spec y x); cbn; auto; lia.
Qed.
#[export] Instance name_le_trans : Transitive name_le.
Proof.
  intros a. unfold name_le. induction a as [|x a IH]; intros [|y b] [|z c]; cbn; try done.
  destruct (Z.ltb_spec x y), (Z.ltb_spec y z), (Z.ltb_spec x z), (Z.eqb_spec x y), (Z.eqb_spec y z), (Z.eqb_spec x z);
    cbn; try done; try lia. apply IH.
Qed.
#[export] Instance name_le_antisymm : AntiSymm eq name_le.
Proof.
  intros a. unfold name_le. induction a as [|x a IH]; intros [|y b]; cbn; try done.
  destruct (Z.ltb_spec x y), (Z.ltb_spec y x), (Z.eqb_spec x y), (Z.eqb_spec y x); cbn; try done; try lia.
  intros H1 H2. subst y. f_equal. by apply IH.
Qed.

(** One entry of [/tmp] as [read_dir] yields it: an error, or a name ([None] when it is not
    Unicode) and whether [<name>/native] is a socket. *)
Inductive TmpEntry : Type := EntryError | Entry (name : option rstring) (native_is_socket : bool).

Definition runtime_socket (name : rstring) : rstring := lit "/tmp/" ++ name ++ lit "/native".

(** The name of an entry that is a PulseAudio runtime directory with a socket. *)
Definition pulse_runtime (e : TmpEntry) : option rstring :=
  match e with
  | Entry (Some name) true => if starts_with (lit "pulse-") name then Some name else None
  | _ => None
  end.

(** [None] is an unreadable directory. *)
Definition scan_tmp_pulse_runtimes (entries : option (list TmpEntry)) : list rstring :=
  match entries with
  | None => []
  | Some entries => runtime_socket <$> merge_sort name_le (omap pulse_runtime entries)
  end.

(** [env_str]: a variable that is set to Unicode text. *)
Definition Env : Type := rstring -> option rstring.

Definition socket_candidates (env : Env) (tmp : option (list TmpEntry)) : list rstring :=
  socket_candidates_from (env (lit "PULSE_SERVER")) (env (lit "XDG_RUNTIME_DIR")) ++ scan_tmp_pulse_runtimes tmp.

Definition cookie_candidates (env : Env) : list rstring := cookie_candidates_from (env (lit "PULSE_COOKIE")) (env (lit "HOME")).

Section connecting.
Context (deadline : nat) (pid : bytes) (env : Env) (tmp : option (list TmpEntry)).
Context (fs : rstring -> result (option bytes) unit) (exists_ : rstring -> bool) (dial : rstring -> option (bytes * bool)).

(** [PulseDaemon::connect] and [connect_to]. *)
Definition connect_default : result PulseDaemon PulseDaemonError :=
  connect deadline pid fs (cookie_candidates env) (socket_candidates env tmp) exists_ dial.

Definition connect_to (path : rstring) : result PulseDaemon PulseDaemonError :=
  let? cookie := load_default_cookie fs (cookie_candidates env) in
  connect_with_cookie deadline pid cookie (dial path).
End connecting.

(** ** Discovery is deterministic *)

Lemma omap_perm {A B} (f : A -> option B) (l k : list A) : l ≡ₚ k -> omap f l ≡ₚ omap f k.
Proof.
  induction 1 as [|x l k _ IH|x y l|l k m _ IH1 _ IH2]; cbn; [done|..].
  - destruct (f x); [by constructor|done].
  - destruct (f x), (f y); try done. constructor.
  - by etransitivity.
Qed.

Lemma sort_perm (l k : list rstring) : l ≡ₚ k -> merge_sort name_le l = merge_sort name_le k.
Proof.
  intros Hp. apply (Sorted_unique name_le); [apply (Sorted_merge_sort name_le)..|]. by rewrite !merge_sort_Permutation.
Qed.

Lemma scan_members entries p : p ∈ scan_tmp_pulse_runtimes (Some entries) <->
  exists name, Entry (Some name) true ∈ entries /\ starts_with (lit "pulse-") name = true /\ p = runtime_socket name.
Proof.
  unfold scan_tmp_pulse_runtimes. rewrite list_elem_of_fmap. split.
  - intros (name & -> & Hn). rewrite merge_sort_Permutation in Hn. apply list_elem_of_omap in Hn as (e & He & Hp).
    destruct e as [|[n|] []]; cbn [pulse_runtime] in Hp; try done. destruct (starts_with _ n) eqn:Hs; [|done]. injection Hp as ->. by exists name.
  - intros (name & He & Hs & ->). exists name. split; [done|]. rewrite merge_sort_Permutation.
    apply list_elem_of_omap. exists (Entry (Some name) true). split; [done|]. cbn [pulse_runtime]. by rewrite Hs.
Qed.

(** The first existing candidate decides. *)
Lemma connect_first deadline pid fs cookies sockets ex dial ck pre path post :
  load_default_cookie fs cookies = Ok ck -> sockets = pre ++ path :: post -> Forall (fun p => ex p = false) pre -> ex path = true ->
  connect deadline pid fs cookies sockets ex dial = connect_with_cookie deadline pid ck (dial path).
Proof.
  intros Hck -> Hpre Hex. unfold connect. rewrite Hck. cbn [rbind]. rewrite filter_app.
  assert (filter (fun p => ex p = true) pre = []) as ->.
  { induction Hpre as [|p l Hp _ IH]; [done|]. rewrite filter_cons_False by congruence. done. }
  by rewrite app_nil_l, filter_cons_True.
Qed.

(** Finding the daemon does not depend on the order in which the directory is
    read: two listings of the same entries give the same candidates, hence the
    same connection; the scanned candidates are exactly the sockets named [native] in [/tmp]
    directories whose name starts with [pulse-], each after every fixed one; and a
    connection goes to the first candidate that exists, as if it had been named. *)
Theorem discovery_deterministic (deadline : nat) (pid : bytes) (env : Env) (entries entries' : list TmpEntry)
    (fs : rstring -> result (option bytes) unit) (ex : rstring -> bool) (dial : rstring -> option (bytes * bool)) (Hperm : entries ≡ₚ entries') :
  socket_candidates env (Some entries) = socket_candidates env (Some entries') /\
  connect_default deadline pid env (Some entries) fs ex dial = connect_default deadline pid env (Some entries') fs ex dial /\
  (forall p, p ∈ socket_candidates env (Some entries) <-> p ∈ socket_candidates env None \/
     exists name, Entry (Some name) true ∈ entries /\ starts_with (lit "pulse-") name = true /\ p = runtime_socket name) /\
  (forall pre path post ck, socket_candidates env (Some entries) = pre ++ path :: post -> Forall (fun p => ex p = false) pre -> ex path = true ->
     load_default_cookie fs (cookie_candidates env) = Ok ck ->
     connect_default deadline pid env (Some entries) fs ex dial = connect_to deadline pid env fs dial path).
Proof.
  assert (Heq : socket_candidates env (Some entries) = socket_candidates env (Some entries')).
  { unfold socket_candidates, scan_tmp_pulse_runtimes. by rewrite (sort_perm _ _ (omap_perm pulse_runtime _ _ Hperm)). }
  split_and!.
  - exact Heq.
  - unfold connect_default. by rewrite Heq.
  - intros p. unfold socket_candidates. rewrite !elem_of_app, scan_members. cbn [scan_tmp_pulse_runtimes]. rewrite elem_of_nil. tauto.
  - intros pre path post ck Hs Hpre Hex Hck. unfold connect_default, connect_to. rewrite Hck. cbn [rbind].
    by apply (connect_first _ _ _ _ _ _ _ ck pre path post).
Qed.

Lemma discovery_deterministic_witness :
  let listing := [Entry (Some (lit "pulse-b")) true; Entry None true; Entry (Some (lit "snap")) true; Entry (Some (lit "pulse-a")) true] in
  let env : Env := fun _ => None in
  socket_candidates env (Some listing) = socket_candidates env (Some (rev listing)) /\
  drop 3 (socket_candidates env (Some listing)) = [lit "/tmp/pulse-a/native"; lit "/tmp/pulse-b/native"].
Proof.
  intros listing env. split; [|vm_compute; reflexivity].
  refine (proj1 (discovery_deterministic 0 [] env listing (rev listing) (fun _ => Ok None) (fun _ => true) (fun _ => None) _)).
  apply Permutation_rev.
Defined.
