(* ===== verification/AlsaGw.v ===== *)
(** * ALSA gateway: sample formats and hardware-parameter negotiation

    [crates/gw-alsa/src/format.rs] and [params.rs].  [negotiate] reduces a set
    of constraints to one configuration; the specification is the set of
    configurations a constraint set admits and the preference order on them. *)

From stdpp Require Import sets.
From S2P Require Import Prelude.
Local Open Scope Z_scope.

(** ** Formats *)

Inductive AlsaFormat : Type := AS16Le | AS24Le | AS24_3Le | AS32Le | AFloat32Le | AFloat64Le.
Inductive CoreSampleFormat : Type := CI16 | CF32 | CF64.

#[export] Instance AlsaFormat_eq_dec : EqDecision AlsaFormat.
Proof. solve_decision. Defined.

Definition to_alsa_value (f : AlsaFormat) : Z :=
  match f with
  | AS16Le => 2 | AS24Le => 6 | AS24_3Le => 32 | AS32Le => 10 | AFloat32Le => 14 | AFloat64Le => 15
  end.

Definition physical_width_bytes (f : AlsaFormat) : Z :=
  match f with
  | AS16Le => 2 | AS24Le | AS24_3Le => 3 | AS32Le | AFloat32Le => 4 | AFloat64Le => 8
  end.

Definition container_width_bytes (f : AlsaFormat) : Z :=
  match f with AS24Le => 4 | _ => physical_width_bytes f end.

Definition to_core_sample_format (f : AlsaFormat) : option CoreSampleFormat :=
  match f with
  | AS16Le => Some CI16
  | AS32Le | AFloat32Le => Some CF32
  | AFloat64Le => Some CF64
  | AS24Le | AS24_3Le => None
  end.

(** ** Negotiation *)

Definition DEFAULT_RATES : list Z := [48000; 44100].
Definition DEFAULT_CHANNELS : list Z := [2; 1].
Definition DEFAULT_PERIOD : Z := 256.

(** A [RangeInclusive] as its two bounds. *)
Record HwConstraints : Type := {
  c_rates : option (list Z);
  c_channels : option (list Z);
  c_formats : option (list AlsaFormat);
  c_period : option (Z * Z);
  c_buffer : option (Z * Z)
}.

Record HwParams : Type := {
  hp_rate : Z; hp_channels : Z; hp_format : AlsaFormat; hp_period : Z; hp_buffer : Z
}.

Inductive NegotiateError : Type := NoRate | NoChannels | NoFormat | NoPeriod | BufferTooSmall.

(** [Iterator::min]. *)
Definition list_min (l : list Z) : option Z :=
  match l with [] => None | x :: l => Some (foldl Z.min x l) end.

Definition contains (x : Z) (l : list Z) : bool := bool_decide (x ∈ l).

Definition pick_rate (rates : option (list Z)) : result Z NegotiateError :=
  let allowed := default DEFAULT_RATES rates in
  match allowed with
  | [] => Err NoRate
  | _ =>
      if contains 48000 allowed then Ok 48000
      else if contains 44100 allowed then Ok 44100
      else ok_or (list_min allowed) NoRate
  end.

Definition pick_channels (channels : option (list Z)) : result Z NegotiateError :=
  let allowed := default DEFAULT_CHANNELS channels in
  match allowed with
  | [] => Err NoChannels
  | _ =>
      if contains 2 allowed then Ok 2
      else if contains 1 allowed then Ok 1
      else ok_or (list_min allowed) NoChannels
  end.

Definition pick_format (formats : option (list AlsaFormat)) : result AlsaFormat NegotiateError :=
  ok_or (head (default [AS16Le] formats)) NoFormat.

Definition pick_period (range : option (Z * Z)) : result Z NegotiateError :=
  match range with
  | None => Ok DEFAULT_PERIOD
  | Some (lo, hi) => if hi <? lo then Err NoPeriod else Ok lo
  end.

Definition pick_buffer (range : option (Z * Z)) (two_period : Z) : result Z NegotiateError :=
  match range with
  | None => Ok two_period
  | Some (lo, hi) => if hi <? two_period then Err BufferTooSmall else Ok (Z.max lo two_period)
  end.

Definition negotiate (c : HwConstraints) : result HwParams NegotiateError :=
  let? sample_rate := pick_rate (c_rates c) in
  let? channels := pick_channels (c_channels c) in
  let? format := pick_format (c_formats c) in
  let? period_size := pick_period (c_period c) in
  let two_period := sat_mul 32 period_size 2 in
  let? buffer_size := pick_buffer (c_buffer c) two_period in
  Ok {| hp_rate := sample_rate; hp_channels := channels; hp_format := format;
        hp_period := period_size; hp_buffer := buffer_size |}.

(** ** Specification *)

Definition in_range (r : option (Z * Z)) (dflt : Z -> Prop) (x : Z) : Prop :=
  match r with Some (lo, hi) => lo <= x <= hi | None => dflt x end.

(** The configurations a constraint set admits; the buffer is a 32-bit count of
    frames. *)
Definition admissible (c : HwConstraints) (p : HwParams) : Prop :=
  hp_rate p ∈ default DEFAULT_RATES (c_rates c) /\
  hp_channels p ∈ default DEFAULT_CHANNELS (c_channels c) /\
  hp_format p ∈ default [AS16Le] (c_formats c) /\
  in_range (c_period c) (eq DEFAULT_PERIOD) (hp_period p) /\
  in_range (c_buffer c) (fun _ => True) (hp_buffer p) /\
  2 * hp_period p <= hp_buffer p <= u32_max.

(** Preference among values: the two favourites, then ascending. *)
Definition rank (first second x : Z) : Z :=
  if x =? first then -2 else if x =? second then -1 else x.

Definition preferred (p q : HwParams) : Prop :=
  rank 48000 44100 (hp_rate p) <= rank 48000 44100 (hp_rate q) /\
  rank 2 1 (hp_channels p) <= rank 2 1 (hp_channels q) /\
  hp_period p <= hp_period q /\ hp_buffer p <= hp_buffer q.

(** Constraints of the source's types, nothing more: 32-bit rates and sizes,
    16-bit channel counts.  Ranges may be inverted. *)
Definition range_typed (r : option (Z * Z)) : Prop :=
  match r with Some (lo, hi) => u32 lo /\ u32 hi | None => True end.
Definition constraints_typed (c : HwConstraints) : Prop :=
  Forall u32 (default [] (c_rates c)) /\ Forall u16 (default [] (c_channels c)) /\
  range_typed (c_period c) /\ range_typed (c_buffer c).

#[export] Instance range_typed_dec r : Decision (range_typed r).
Proof. destruct r as [[]|]; cbn; apply _. Defined.
#[export] Instance constraints_typed_dec c : Decision (constraints_typed c).
Proof. unfold constraints_typed. apply _. Defined.

Definition not_inverted (r : option (Z * Z)) : Prop :=
  match r with Some (lo, hi) => lo <= hi | None => True end.

(** What each error says of the constraints. *)
Definition refusal (c : HwConstraints) (e : NegotiateError) : Prop :=
  match e with
  | NoRate => c_rates c = Some []
  | NoChannels => c_channels c = Some []
  | NoFormat => c_formats c = Some []
  | NoPeriod => ~ not_inverted (c_period c)
  | BufferTooSmall =>
      exists per lo hi, pick_period (c_period c) = Ok per /\ c_buffer c = Some (lo, hi) /\ hi < 2 * per
  end.

(** ** Lemmas *)

Lemma foldl_min l x : foldl Z.min x l ∈ x :: l /\ Forall (Z.le (foldl Z.min x l)) (x :: l).
Proof.
  revert x. induction l as [|y l IH]; intros x; cbn [foldl].
  - split; [left|]. repeat constructor. lia.
  - destruct (IH (Z.min x y)) as [Hin Hle]. apply Forall_cons_1 in Hle as [Hm Hle]. split.
    + apply elem_of_cons in Hin as [E|Hin]; [|set_solver].
      rewrite E. destruct (Z.min_spec x y) as [[_ ->]|[_ ->]]; set_solver.
    + repeat apply Forall_cons_2; [lia|lia|done].
Qed.

(** Both favourite-first selections are this function. *)
Definition pick (first second : Z) (allowed : list Z) (e : NegotiateError) : result Z NegotiateError :=
  match allowed with
  | [] => Err e
  | _ =>
      if contains first allowed then Ok first
      else if contains second allowed then Ok second
      else ok_or (list_min allowed) e
  end.

Lemma pick_spec first second allowed e :
  0 <= first -> 0 <= second -> Forall (Z.le 0) allowed ->
  match pick first second allowed e with
  | Ok x => x ∈ allowed /\ forall y, y ∈ allowed -> rank first second x <= rank first second y
  | Err e' => allowed = [] /\ e' = e
  end.
Proof.
  intros Hf Hs Hall. rewrite Forall_forall in Hall. unfold pick, contains.
  destruct allowed as [|a l]; [done|].
  case_bool_decide as H1; [|case_bool_decide as H2].
  - split; [done|]. intros y Hy. specialize (Hall y Hy). unfold rank. guards; lia.
  - split; [done|]. intros y Hy. specialize (Hall y Hy). unfold rank. guards; subst; try lia; done.
  - destruct (foldl_min l a) as [Hin Hle]. cbn [list_min ok_or]. split; [done|].
    intros y Hy. rewrite Forall_forall in Hle. specialize (Hle y Hy). unfold rank.
    guards; subst; try done; lia.
Qed.

Lemma u_nonneg w l d : Forall (uint w) (default [] l) -> Forall (Z.le 0) d -> Forall (Z.le 0) (default d l).
Proof.
  destruct l as [l|]; [|done]. intros H _. eapply Forall_impl; [exact H|]. unfold uint. cbn. lia.
Qed.

Lemma pick_rate_spec r :
  Forall u32 (default [] r) ->
  match pick_rate r with
  | Ok x => x ∈ default DEFAULT_RATES r /\
            forall y, y ∈ default DEFAULT_RATES r -> rank 48000 44100 x <= rank 48000 44100 y
  | Err e => default DEFAULT_RATES r = [] /\ e = NoRate
  end.
Proof.
  intros Hr. apply (pick_spec 48000 44100 _ NoRate); [lia|lia|].
  apply (u_nonneg 32); [done|]. by apply (bool_decide_eq_true_1 _).
Qed.

Lemma pick_channels_spec r :
  Forall u16 (default [] r) ->
  match pick_channels r with
  | Ok x => x ∈ default DEFAULT_CHANNELS r /\
            forall y, y ∈ default DEFAULT_CHANNELS r -> rank 2 1 x <= rank 2 1 y
  | Err e => default DEFAULT_CHANNELS r = [] /\ e = NoChannels
  end.
Proof.
  intros Hr. apply (pick_spec 2 1 _ NoChannels); [lia|lia|].
  apply (u_nonneg 16); [done|]. by apply (bool_decide_eq_true_1 _).
Qed.

Lemma default_empty {A} (d : list A) r : d <> [] -> default d r = [] -> r = Some [].
Proof. destruct r as [l|]; cbn; congruence. Qed.

Lemma pick_period_spec r :
  range_typed r ->
  match pick_period r with
  | Ok x => u32 x /\ in_range r (eq DEFAULT_PERIOD) x /\ forall y, in_range r (eq DEFAULT_PERIOD) y -> x <= y
  | Err e => e = NoPeriod /\ ~ not_inverted r /\ forall y, ~ in_range r (eq DEFAULT_PERIOD) y
  end.
Proof.
  unfold pick_period, in_range, range_typed, not_inverted. destruct r as [[lo hi]|].
  - intros [Hlo Hhi]. destruct (Z.ltb_spec hi lo); [split_and!; [done|lia|intros; lia]|]. split_and!; [done|lia|lia|intros; lia].
  - intros _. split_and!; [by vm_compute|done|intros; lia].
Qed.

(** The buffer chosen for a period [per]: the range's own start or twice the
    period, saturated, whichever is more. *)
Lemma pick_buffer_spec r per :
  u32 per -> range_typed r ->
  match pick_buffer r (sat_mul 32 per 2) with
  | Ok x =>
      x = Z.max (match r with Some (lo, _) => lo | None => 0 end) (sat_mul 32 per 2) /\
      (in_range r (fun _ => True) x <-> not_inverted r) /\ (2 * per <= x <-> 2 * per <= u32_max) /\ x <= u32_max /\
      forall y, in_range r (fun _ => True) y -> 2 * per <= y -> x <= y
  | Err e => e = BufferTooSmall /\ exists lo hi, r = Some (lo, hi) /\ hi < 2 * per
  end.
Proof.
  unfold pick_buffer, in_range, not_inverted, range_typed, sat_mul, u32_max, u32, uint.
  destruct r as [[lo hi]|]; intros Hper Hr.
  - destruct (Z.ltb_spec hi (Z.min (per * 2) (2 ^ 32 - 1))).
    + split; [done|]. exists lo, hi. split; [done|lia].
    + split_and!; try split; intros; lia.
  - split_and!; try split; intros; try done; lia.
Qed.

(** ** Theorems *)

(** C36: what negotiation returns, for every constraint set the types
    allow, ranges inverted or not.  An error names an axis that leaves nothing: an
    empty list, an inverted period range, or a buffer range whose upper bound is
    below two of the smallest period; no configuration is admitted then.  A
    success carries the first listed format and is at least as good on every axis as every admitted
    configuration (rates prefer 48000 then 44100 then the lowest, channels
    2 then 1 then the lowest, period and buffer the smallest).  It is
    itself admitted exactly when the buffer range is not inverted and two periods fit in 32
    bits; otherwise no configuration is admitted although one is returned:
    its buffer exceeds the inverted range's upper bound, or is the largest 32-bit value and
    holds less than two periods. *)
Theorem negotiate_optimal (c : HwConstraints) :
  constraints_typed c ->
  match negotiate c with
  | Ok p =>
      head (default [AS16Le] (c_formats c)) = Some (hp_format p) /\
      (forall q, admissible c q -> preferred p q) /\
      (admissible c p <-> not_inverted (c_buffer c) /\ 2 * hp_period p <= u32_max) /\
      (~ admissible c p ->
        (forall q, ~ admissible c q) /\
        ((exists lo hi, c_buffer c = Some (lo, hi) /\ hi < lo /\ hi < hp_buffer p) \/
         (hp_buffer p = u32_max /\ u32_max < 2 * hp_period p)))
  | Err e => refusal c e /\ forall q, ~ admissible c q
  end.
Proof.
  intros (Hr & Hch & Hp & Hb). unfold negotiate, admissible.
  pose proof (pick_rate_spec _ Hr) as Sr.
  destruct (pick_rate _) as [rate|]; destruct Sr as [Sr1 Sr2].
  2: { cbn. subst. split; [by apply (default_empty DEFAULT_RATES)|]. rewrite Sr1. intros q (H & _). by apply not_elem_of_nil in H. }
  pose proof (pick_channels_spec _ Hch) as Sc.
  cbn [rbind]. destruct (pick_channels _) as [ch|]; destruct Sc as [Sc1 Sc2].
  2: { cbn. subst. split; [by apply (default_empty DEFAULT_CHANNELS)|]. rewrite Sc1. intros q (_ & H & _). by apply not_elem_of_nil in H. }
  cbn [rbind]. unfold pick_format. destruct (default [AS16Le] (c_formats c)) as [|f fs] eqn:Ef.
  { cbn. split; [by apply (default_empty [AS16Le])|]. intros q (_ & _ & H & _). by apply not_elem_of_nil in H. }
  cbn [head ok_or rbind]. pose proof (pick_period_spec (c_period c) Hp) as Sp.
  destruct (pick_period (c_period c)) as [per|] eqn:Eper; cbn [rbind].
  2: { destruct Sp as (-> & Sp1 & Sp2). split; [done|]. intros q (_ & _ & _ & H & _). by apply (Sp2 _ H). }
  destruct Sp as (Hper & Sp1 & Sp2). pose proof (pick_buffer_spec (c_buffer c) per Hper Hb) as Sb.
  destruct (pick_buffer _ _) as [buf|e]; cbn [rbind].
  2: { destruct Sb as (-> & lo & hi & Eb & Hlt). split; [by exists per, lo, hi|].
       intros q (_ & _ & _ & Q4 & Q5 & Q6). specialize (Sp2 _ Q4). rewrite Eb in Q5. cbn in Q5. lia. }
  destruct Sb as (Ebuf & Sb1 & Sb2 & Sb3 & Sb4). cbn [hp_rate hp_channels hp_format hp_period hp_buffer].
  assert (Hfits : forall q, admissible c q -> not_inverted (c_buffer c) /\ 2 * per <= u32_max).
  { intros q (_ & _ & _ & Q4 & Q5 & Q6). specialize (Sp2 _ Q4). split; [|lia].
    unfold in_range, not_inverted in *. destruct (c_buffer c) as [[]|]; [lia|done]. }
  split; [done|]. split; [|split].
  - intros q (Q1 & Q2 & Q3 & Q4 & Q5 & Q6). rewrite <- Ef in Q3. unfold preferred. cbn.
    specialize (Sp2 _ Q4). split_and!; [by apply Sr2|by apply Sc2|lia|]. apply Sb4; [done|lia].
  - split; [intros (_ & _ & _ & _ & H5 & H6); split; [by apply Sb1|lia]|]. intros [Hni H2].
    split_and!; try done; [left|by apply Sb1|by apply Sb2].
  - intros Hno. assert (Hcase : ~ (not_inverted (c_buffer c) /\ 2 * per <= u32_max)).
    { intros [Hni H2]. apply Hno. split_and!; try done; [left|by apply Sb1|by apply Sb2]. }
    split; [intros q Hq; apply Hcase, (Hfits q); unfold admissible; by rewrite Ef|].
    destruct (decide (2 * per <= u32_max)) as [H2|H2].
    + left. unfold not_inverted, in_range in *. destruct (c_buffer c) as [[lo hi]|]; [|tauto].
      exists lo, hi. split; [done|lia].
    + right. split; [|lia]. unfold sat_mul, u32_max in *. destruct (c_buffer c) as [[lo hi]|]; [destruct Hb as [[] []]|]; lia.
Qed.

Lemma negotiate_optimal_witness :
  let c := {| c_rates := Some [96000; 32000]; c_channels := Some [8; 1]; c_formats := Some [AS32Le; AS16Le];
              c_period := Some (64, 4096); c_buffer := Some (100, 8192) |} in
  exists p, negotiate c = Ok p /\ hp_rate p = 32000 /\ hp_channels p = 1 /\ hp_buffer p = 128 /\
    forall q, admissible c q -> preferred p q.
Proof.
  intros c. pose proof (negotiate_optimal c) as H.
  eexists. split; [reflexivity|]. split_and!; [reflexivity..|].
  apply H. apply (bool_decide_eq_true_1 _). vm_compute. reflexivity.
Defined.

(** An inverted buffer range is accepted.  When the upper bound of the
    buffer range holds two periods but lies below its lower bound, so that the
    range contains no value, [negotiate] still succeeds, with a buffer outside
    the range; the period axis refuses such a range. *)
Theorem negotiate_accepts_inverted_buffer (c : HwConstraints) (lo hi per : Z) :
  c_buffer c = Some (lo, hi) -> hi < lo -> pick_period (c_period c) = Ok per -> 2 * per <= hi ->
  is_ok (pick_rate (c_rates c)) = true -> is_ok (pick_channels (c_channels c)) = true ->
  is_ok (pick_format (c_formats c)) = true ->
  (exists p, negotiate c = Ok p /\ hi < hp_buffer p) /\ (forall q, ~ admissible c q) /\
  pick_period (Some (lo, hi)) = Err NoPeriod.
Proof.
  intros Hb Hinv Hper Hhi Hr Hc Hf. split_and!.
  - unfold negotiate. destruct (pick_rate _) as [r|]; [|done]. destruct (pick_channels _) as [ch|]; [|done].
    destruct (pick_format _) as [f|]; [|done]. cbn [rbind]. rewrite Hper. cbn [rbind]. rewrite Hb.
    unfold pick_buffer, sat_mul. destruct (Z.ltb_spec hi (Z.min (per * 2) (2 ^ 32 - 1))); [lia|].
    cbn [rbind]. eexists. split; [done|]. cbn. lia.
  - intros q (_ & _ & _ & _ & H & _). unfold in_range in H. rewrite Hb in H. lia.
  - unfold pick_period. destruct (Z.ltb_spec hi lo); [done|lia].
Qed.

Lemma negotiate_accepts_inverted_buffer_witness :
  let c := {| c_rates := None; c_channels := None; c_formats := None; c_period := None;
              c_buffer := Some (2048, 1024) |} in
  exists p, negotiate c = Ok p /\ 1024 < hp_buffer p.
Proof.
  intros c. refine (proj1 (negotiate_accepts_inverted_buffer c 2048 1024 256 _ _ _ _ _ _ _)).
  all: first [reflexivity | vm_compute; congruence].
Defined.
