(* ===== verification/RaftStateMachine.v ===== *)
(** * The replicated state machine

    [crates/session-store/src/raft_state_machine.rs]: the openraft state
    machine and snapshot builder over two single-row [redb] tables.  openraft's
    data types are records with the fields the code reads; memberships, the
    [bincode] encodings and the length of an encoded topology are parameters.
    Which I/O stages fail is an input of each call.  The 64-bit mutation counter
    is unbounded here: reaching its end takes 2^64 applied mutations. *)

From Stdlib Require Import String.
From S2P Require Import Prelude F32 RString External Topology SessionStore.
Local Open Scope Z_scope.

(** ** Data *)

Record LogId : Type := { li_term : Z; li_node : Z; li_index : Z }.

#[export] Instance LogId_eq_dec : EqDecision LogId.
Proof. solve_decision. Defined.

Inductive EntryPayload (M : Type) : Type :=
| Blank
| Normal (m : Mutation)
| Membership (m : M).
Arguments Blank {M}.
Arguments Normal {M}.
Arguments Membership {M}.

Record Entry (M : Type) : Type := { e_log_id : LogId; e_payload : EntryPayload M }.
Arguments e_log_id {M}.
Arguments e_payload {M}.
Arguments Build_Entry {M}.

(** [openraft::StoredMembership]. *)
Definition StoredMembership (M : Type) : Type := option LogId * M.

Record ClientWriteResponse : Type := { mutation_id : Z }.
Definition default_response : ClientWriteResponse := {| mutation_id := 0 |}.

Record PersistedState (M : Type) : Type := {
  ps_topology : TopologySnapshot;
  ps_last_applied : option LogId;
  ps_last_membership : StoredMembership M;
  ps_next_mutation_id : Z
}.
Arguments ps_topology {M}.
Arguments ps_last_applied {M}.
Arguments ps_last_membership {M}.
Arguments ps_next_mutation_id {M}.
Arguments Build_PersistedState {M}.

Record SnapshotMeta (M : Type) : Type := {
  sm_last_log_id : option LogId;
  sm_last_membership : StoredMembership M;
  sm_snapshot_id : rstring
}.
Arguments sm_last_log_id {M}.
Arguments sm_last_membership {M}.
Arguments sm_snapshot_id {M}.
Arguments Build_SnapshotMeta {M}.

Record PersistedSnapshot (M P : Type) : Type := { sn_meta : SnapshotMeta M; sn_payload : P }.
Arguments sn_meta {M P}.
Arguments sn_payload {M P}.
Arguments Build_PersistedSnapshot {M P}.

Inductive StorageError : Type :=
| SIo (at_ : stage)
| StateRowMissing.

Definition sguard (io : faults) (st : stage) : result unit StorageError :=
  if io st then Err (SIo st) else Ok tt.

(** The two single-row tables. *)
Record StateMachine (BS BX : Type) : Type := { state_row : option BS; snapshot_row : option BX }.
Arguments state_row {BS BX}.
Arguments snapshot_row {BS BX}.
Arguments Build_StateMachine {BS BX}.

Section state_machine.
Context `{TopoOps} {M : Type} (default_membership : M).
(* encoded state, encoded snapshot row, encoded topology *)
Context {BS BX P : Type} `{Encoding (PersistedState M) BS}
  `{Encoding (PersistedSnapshot M P) BX} `{Encoding TopologySnapshot P} (payload_len : P -> Z).
Implicit Types sm : StateMachine BS BX.
Local Abbreviation SM := (StateMachine BS BX).

Definition PersistedState_default : PersistedState M :=
  {| ps_topology := topo_new; ps_last_applied := None;
     ps_last_membership := (None, default_membership); ps_next_mutation_id := 0 |}.

(** [open]: both tables exist afterwards and the state row is seeded. *)
Definition sm_open (io : faults) (file : SM) : result SM StorageError :=
  let? _ := sguard io OpenDb in
  let? _ := sguard io BeginWrite in
  let? _ := sguard io OpenTable in
  let? _ := sguard io BeginRead in
  let? row :=
    match state_row file with
    | Some b => Ok b
    | None =>
        let? b := ok_or (encode_value PersistedState_default) (SIo Serialize) in
        let? _ := sguard io InsertRow in
        Ok b
    end in
  let? _ := sguard io Commit in
  Ok {| state_row := Some row; snapshot_row := snapshot_row file |}.

Definition read_state (io : faults) sm : result (PersistedState M) StorageError :=
  let? _ := sguard io BeginRead in
  let? _ := sguard io OpenTable in
  let? _ := sguard io IterTable in
  let? b := ok_or (state_row sm) StateRowMissing in
  ok_or (decode_value b) (SIo Deserialize).

Definition write_state (io : faults) (state : PersistedState M) sm : SM * result unit StorageError :=
  match (let? b := ok_or (encode_value state) (SIo Serialize) in
         let? _ := sguard io BeginWrite in
         let? _ := sguard io OpenTable in
         let? _ := sguard io InsertRow in
         let? _ := sguard io Commit in
         Ok b) with
  | Ok b => ({| state_row := Some b; snapshot_row := snapshot_row sm |}, Ok tt)
  | Err e => (sm, Err e)
  end.

Definition read_snapshot (io : faults) sm : result (option (PersistedSnapshot M P)) StorageError :=
  let? _ := sguard io BeginRead in
  let? _ := sguard io OpenTable in
  let? _ := sguard io IterTable in
  match snapshot_row sm with
  | None => Ok None
  | Some b => let? snap := ok_or (decode_value b) (SIo Deserialize) in Ok (Some snap)
  end.

Definition write_snapshot (io : faults) (snap : PersistedSnapshot M P) sm
    : SM * result unit StorageError :=
  match (let? b := ok_or (encode_value snap) (SIo Serialize) in
         let? _ := sguard io BeginWrite in
         let? _ := sguard io OpenTable in
         let? _ := sguard io InsertRow in
         let? _ := sguard io Commit in
         Ok b) with
  | Ok b => ({| state_row := state_row sm; snapshot_row := Some b |}, Ok tt)
  | Err e => (sm, Err e)
  end.

(** [StateMachineReader::topology]. *)
Definition reader_topology (io : faults) sm : result TopologySnapshot StorageError :=
  let? _ := sguard io BeginRead in
  let? _ := sguard io OpenTable in
  let? _ := sguard io IterTable in
  match state_row sm with
  | None => Ok topo_new
  | Some b => let? state := ok_or (decode_value b) (SIo Deserialize) in Ok (ps_topology state)
  end.

Definition applied_state (io : faults) sm : result (option LogId * StoredMembership M) StorageError :=
  let? state := read_state io sm in
  Ok (ps_last_applied state, ps_last_membership state).

(** One iteration of the loop of [apply]. *)
Definition apply_entry (state : PersistedState M) (entry : Entry M)
    : PersistedState M * ClientWriteResponse :=
  match e_payload entry with
  | Blank =>
      ({| ps_topology := ps_topology state; ps_last_applied := Some (e_log_id entry);
          ps_last_membership := ps_last_membership state;
          ps_next_mutation_id := ps_next_mutation_id state |}, default_response)
  | Normal mutation =>
      ({| ps_topology := topo_apply (ps_topology state) mutation;
          ps_last_applied := Some (e_log_id entry);
          ps_last_membership := ps_last_membership state;
          ps_next_mutation_id := ps_next_mutation_id state + 1 |},
       {| mutation_id := ps_next_mutation_id state |})
  | Membership membership =>
      ({| ps_topology := ps_topology state; ps_last_applied := Some (e_log_id entry);
          ps_last_membership := (Some (e_log_id entry), membership);
          ps_next_mutation_id := ps_next_mutation_id state |}, default_response)
  end.

Fixpoint apply_entries (state : PersistedState M) (entries : list (Entry M))
    : PersistedState M * list ClientWriteResponse :=
  match entries with
  | [] => (state, [])
  | entry :: entries =>
      let '(state, response) := apply_entry state entry in
      let '(state, responses) := apply_entries state entries in
      (state, response :: responses)
  end.

Definition apply (io : faults) (entries : list (Entry M)) sm
    : SM * result (list ClientWriteResponse) StorageError :=
  match read_state io sm with
  | Err e => (sm, Err e)
  | Ok state =>
      let '(state, responses) := apply_entries state entries in
      let '(sm, r) := write_state io state sm in
      (sm, let? _ := r in Ok responses)
  end.

(** [io1] is the I/O of the state row, [io2] that of the snapshot row. *)
Definition install_snapshot (io1 io2 : faults) (meta : SnapshotMeta M) (payload : P) sm
    : SM * result unit StorageError :=
  match ok_or (decode_value payload) (SIo Deserialize) with
  | Err e => (sm, Err e)
  | Ok topology =>
      let '(sm, r) := write_state io1
        {| ps_topology := topology; ps_last_applied := sm_last_log_id meta;
           ps_last_membership := sm_last_membership meta; ps_next_mutation_id := 0 |} sm in
      match r with
      | Err e => (sm, Err e)
      | Ok _ => write_snapshot io2 {| sn_meta := meta; sn_payload := payload |} sm
      end
  end.

Definition get_current_snapshot (io : faults) sm
    : result (option (SnapshotMeta M * P)) StorageError :=
  let? snap := read_snapshot io sm in
  Ok ((fun s => (sn_meta s, sn_payload s)) <$> snap).

Definition snapshot_meta (state : PersistedState M) (payload : P) : SnapshotMeta M :=
  {| sm_last_log_id := ps_last_applied state; sm_last_membership := ps_last_membership state;
     sm_snapshot_id := dec (default 0 (li_index <$> ps_last_applied state)) ++ lit "-"
                       ++ dec (payload_len payload) |}.

Definition build_snapshot (io1 io2 : faults) sm : SM * result (SnapshotMeta M * P) StorageError :=
  match read_state io1 sm with
  | Err e => (sm, Err e)
  | Ok state =>
      match ok_or (encode_value (ps_topology state)) (SIo Serialize) with
      | Err e => (sm, Err e)
      | Ok payload =>
          let meta := snapshot_meta state payload in
          let '(sm, r) := write_snapshot io2 {| sn_meta := meta; sn_payload := payload |} sm in
          (sm, let? _ := r in Ok (meta, payload))
      end
  end.

End state_machine.

Section state_machine_facts.
Context `{TopoOps} {M : Type} (default_membership : M).
Context {BS BX P : Type} `{EncodingLaws (PersistedState M) BS}
  `{EncodingLaws (PersistedSnapshot M P) BX} `{EncodingLaws TopologySnapshot P} (payload_len : P -> Z).
Implicit Types sm : StateMachine BS BX.

(** ** Specification *)

Definition mutation_of (e : Entry M) : option Mutation :=
  match e_payload e with Normal m => Some m | _ => None end.
Definition membership_of (e : Entry M) : option (StoredMembership M) :=
  match e_payload e with Membership m => Some (Some (e_log_id e), m) | _ => None end.

(** The state after a log, from the state before it. *)
Definition state_after (s : PersistedState M) (es : list (Entry M)) : PersistedState M :=
  {| ps_topology := foldl topo_apply (ps_topology s) (omap mutation_of es);
     ps_last_applied := match last es with Some e => Some (e_log_id e) | None => ps_last_applied s end;
     ps_last_membership := default (ps_last_membership s) (last (omap membership_of es));
     ps_next_mutation_id := ps_next_mutation_id s + Z.of_nat (length (omap mutation_of es)) |}.

(** The stored state. *)
Definition holds sm (s : PersistedState M) : Prop :=
  exists b, state_row sm = Some b /\ decode_value b = Some s.

(** ** Lemmas *)

Lemma last_cons_default {A} (x : A) l d : default d (last (x :: l)) = default x (last l).
Proof. rewrite last_cons. by destruct (last l). Qed.

Lemma state_after_app s es1 es2 : state_after (state_after s es1) es2 = state_after s (es1 ++ es2).
Proof.
  unfold state_after. cbn. rewrite !omap_app, foldl_app, !last_app, length_app. f_equal.
  - by destruct (last es2), (last es1).
  - by destruct (last (omap membership_of es2)), (last (omap membership_of es1)).
  - lia.
Qed.

Lemma apply_entry_state s e : (apply_entry s e).1 = state_after s [e].
Proof.
  unfold apply_entry, state_after. destruct e as [id [|m|m]]; cbn; destruct s; cbn; by rewrite ?Z.add_0_r.
Qed.

Lemma state_after_nil s : state_after s [] = s.
Proof. destruct s. unfold state_after. cbn. by rewrite Z.add_0_r. Qed.

Lemma apply_entries_state s es : (apply_entries s es).1 = state_after s es.
Proof.
  revert s. induction es as [|e es IH]; intros s; cbn [apply_entries]; [by rewrite state_after_nil|].
  pose proof (apply_entry_state s e) as He. destruct (apply_entry s e) as [s1 r].
  specialize (IH s1). destruct (apply_entries s1 es) as [s2 rs]. cbn in *.
  by rewrite IH, He, state_after_app.
Qed.

(** The response to each entry. *)
Lemma apply_entries_responses s es i e :
  es !! i = Some e ->
  (apply_entries s es).2 !! i = Some {| mutation_id :=
    match mutation_of e with
    | Some _ => ps_next_mutation_id s + Z.of_nat (length (omap mutation_of (take i es)))
    | None => 0
    end |}.
Proof.
  revert s i. induction es as [|e0 es IH]; intros s i; [done|]. cbn [apply_entries].
  pose proof (apply_entry_state s e0) as He.
  destruct (apply_entry s e0) as [s1 r] eqn:Ee. specialize (IH s1).
  destruct (apply_entries s1 es) as [s2 rs]. cbn in *.
  destruct i as [|i].
  - intros [= ->]. cbn. f_equal. unfold apply_entry, mutation_of in *.
    destruct e as [id [|m|m]]; cbn in *; injection Ee as _ <-; cbn; [done| |done].
    by rewrite Z.add_0_r.
  - intros Hi. change (es !! i = Some e) in Hi. change ((r :: rs) !! S i) with (rs !! i).
    rewrite (IH i Hi). do 2 f_equal. destruct (mutation_of e); [|done].
    rewrite He. unfold state_after, mutation_of. destruct e0 as [id [|m'|m']]; cbn; lia.
Qed.

Lemma length_apply_entries (s : PersistedState M) es : length (apply_entries s es).2 = length es.
Proof.
  revert s. induction es as [|e es IH]; intros s; cbn; [done|].
  destruct (apply_entry s e) as [s1 r]. specialize (IH s1).
  destruct (apply_entries s1 es). cbn in *. by rewrite IH.
Qed.

Lemma read_state_holds io sm s s' : holds sm s -> read_state io sm = Ok s' -> s' = s.
Proof.
  intros (b & Hb & Hd). unfold read_state, sguard. destruct (io BeginRead), (io OpenTable), (io IterTable); try done.
  cbn. rewrite Hb. cbn. rewrite Hd. by intros [= ->].
Qed.

Lemma read_state_ok sm s : holds sm s -> read_state no_faults sm = Ok s.
Proof. intros (b & Hb & Hd). unfold read_state. cbn. by rewrite Hb; cbn; rewrite Hd. Qed.

Lemma write_state_cases io s sm :
  (exists sm', write_state io s sm = (sm', Ok tt) /\ holds sm' s /\ snapshot_row sm' = snapshot_row sm) \/
  (exists e, write_state io s sm = (sm, Err e)).
Proof.
  unfold write_state, sguard. destruct (encode_value s) as [b|] eqn:Hb; cbn; [|right; by eauto].
  destruct (io BeginWrite); cbn; [right; by eauto|].
  destruct (io OpenTable); cbn; [right; by eauto|].
  destruct (io InsertRow); cbn; [right; by eauto|].
  destruct (io Commit); cbn; [right; by eauto|].
  left. eexists. split; [done|]. split; [|done]. exists b. split; [done|]. by apply encoding_roundtrip.
Qed.

(** One call of [apply]: all of its entries, or nothing. *)
Lemma apply_cases io es sm s :
  holds sm s ->
  (exists sm', apply io es sm = (sm', Ok (apply_entries s es).2) /\ holds sm' (state_after s es)) \/
  (exists e, apply io es sm = (sm, Err e)).
Proof.
  intros Hh. unfold apply. destruct (read_state io sm) as [s'|e] eqn:Er; [|right; by eauto].
  apply (read_state_holds _ _ _ _ Hh) in Er as ->.
  pose proof (apply_entries_state s es) as Hs. destruct (apply_entries s es) as [s1 rs]. cbn in Hs. subst s1.
  destruct (write_state_cases io (state_after s es) sm) as [(sm' & -> & Hh' & _)|(e & ->)]; cbn.
  - left. by exists sm'.
  - right. by eauto.
Qed.

(** Calls in sequence with the entries of those that succeeded. *)
Fixpoint sm_run sm (calls : list (faults * list (Entry M)))
    : StateMachine BS BX * list (Entry M) * list ClientWriteResponse :=
  match calls with
  | [] => (sm, [], [])
  | (io, es) :: calls =>
      let '(sm1, r) := apply io es sm in
      let '(sm2, applied, rs) := sm_run sm1 calls in
      match r with
      | Ok rs1 => (sm2, es ++ applied, rs1 ++ rs)
      | Err _ => (sm2, applied, rs)
      end
  end.

Lemma apply_entries_app (s : PersistedState M) es1 es2 :
  (apply_entries s (es1 ++ es2)).2 = (apply_entries s es1).2 ++ (apply_entries (state_after s es1) es2).2.
Proof.
  revert s. induction es1 as [|e es1 IH]; intros s; cbn [apply_entries app]; [by rewrite state_after_nil|].
  pose proof (apply_entry_state s e) as He. destruct (apply_entry s e) as [s1 r]. cbn in He. subst s1.
  specialize (IH (state_after s [e])). rewrite state_after_app in IH. cbn [app] in IH.
  destruct (apply_entries (state_after s [e]) (es1 ++ es2)), (apply_entries (state_after s [e]) es1).
  cbn in *. by rewrite IH.
Qed.

Lemma sm_run_holds calls sm s :
  holds sm s ->
  let '(sm', applied, rs) := sm_run sm calls in
  holds sm' (state_after s applied) /\ rs = (apply_entries s applied).2.
Proof.
  revert sm s. induction calls as [|[io es] calls IH]; intros sm s Hh; cbn [sm_run].
  { by rewrite state_after_nil. }
  destruct (apply_cases io es sm s Hh) as [(sm1 & -> & Hh1)|(e & ->)].
  - specialize (IH sm1 _ Hh1). destruct (sm_run sm1 calls) as [[sm2 applied] rs].
    rewrite <- state_after_app, apply_entries_app. by destruct IH as [? ->].
  - specialize (IH sm s Hh). by destruct (sm_run sm calls) as [[sm2 applied] rs].
Qed.

Lemma sm_open_holds io file sm :
  sm_open default_membership io file = Ok sm ->
  (forall s, holds file s -> holds sm s) /\
  (state_row file = None -> holds sm (PersistedState_default default_membership)) /\
  snapshot_row sm = snapshot_row file.
Proof.
  unfold sm_open, sguard, holds. destruct (io OpenDb), (io BeginWrite), (io OpenTable), (io BeginRead); try done.
  cbn. destruct (state_row file) as [b|]; cbn.
  - destruct (io Commit); [done|]. intros [= <-]. cbn. split_and!; [by intros s|done|done].
  - destruct (encode_value _) as [b|] eqn:Eb; [|done]. cbn.
    destruct (io InsertRow); [done|]. cbn. destruct (io Commit); [done|]. intros [= <-]. cbn.
    split_and!; [by intros s (? & ? & _)| |done]. intros _. exists b. split; [done|]. by apply encoding_roundtrip.
Qed.

Lemma reader_holds sm s : holds sm s -> reader_topology (M := M) no_faults sm = Ok (ps_topology s).
Proof. intros (b & Hb & Hd). unfold reader_topology. cbn. by rewrite Hb, Hd. Qed.

Lemma write_snapshot_cases io x sm :
  (exists sm', write_snapshot io x sm = (sm', Ok tt) /\ state_row sm' = state_row sm /\
     read_snapshot no_faults sm' = Ok (Some x)) \/
  (exists e, write_snapshot io x sm = (sm, Err e)).
Proof.
  unfold write_snapshot, sguard. destruct (encode_value x) as [b|] eqn:Hb; cbn; [|right; by eauto].
  destruct (io BeginWrite); cbn; [right; by eauto|].
  destruct (io OpenTable); cbn; [right; by eauto|].
  destruct (io InsertRow); cbn; [right; by eauto|].
  destruct (io Commit); cbn; [right; by eauto|].
  left. eexists. split; [done|]. split; [done|]. unfold read_snapshot. cbn.
  by rewrite (encoding_roundtrip _ _ Hb).
Qed.

Lemma build_snapshot_ok io1 io2 sm s sm' meta payload :
  holds sm s -> build_snapshot payload_len io1 io2 sm = (sm', Ok (meta, payload)) ->
  holds sm' s /\ encode_value (ps_topology s) = Some payload /\ meta = snapshot_meta payload_len s payload /\
     get_current_snapshot no_faults sm' = Ok (Some (meta, payload)).
Proof.
  intros Hh. unfold build_snapshot. destruct (read_state io1 sm) as [s'|] eqn:Er; [|done].
  apply (read_state_holds _ _ _ _ Hh) in Er as ->.
  destruct (encode_value (ps_topology s)) as [p|]; [|done]. cbn [ok_or]. cbv zeta.
  edestruct (write_snapshot_cases io2) as [(sm1 & -> & Hrow & Hs)|(e & ->)]; [|done].
  intros [= <- <- <-]. split_and!; [|done..|].
  - unfold holds in *. by rewrite Hrow.
  - unfold get_current_snapshot. by rewrite Hs.
Qed.

Lemma install_snapshot_ok io1 io2 meta payload sm sm' topo :
  decode_value payload = Some topo ->
  install_snapshot io1 io2 meta payload sm = (sm', Ok tt) ->
  holds sm' {| ps_topology := topo; ps_last_applied := sm_last_log_id meta;
               ps_last_membership := sm_last_membership meta; ps_next_mutation_id := 0 |} /\
     get_current_snapshot no_faults sm' = Ok (Some (meta, payload)).
Proof.
  intros Hd. unfold install_snapshot. rewrite Hd. cbn [ok_or].
  edestruct (write_state_cases io1) as [(sm1 & -> & Hh & _)|(e & ->)]; [|done].
  edestruct (write_snapshot_cases io2) as [(sm2 & -> & Hrow & Hs)|(e & ->)]; [|done].
  intros [= <-]. split.
  - unfold holds in *. by rewrite Hrow.
  - unfold get_current_snapshot. by rewrite Hs.
Qed.

(** ** Theorems *)

(** C6: the state machine is the fold of its log.  Over any sequence of
    [apply] calls on a freshly opened store, with I/O failures anywhere, the
    persisted state is that of the entries of the successful calls, in order:
    the topology folds their mutations, the last-applied pointer and the
    membership are those of the last entry and the last membership entry, and
    each mutation is answered by the number of mutations applied before it;
    every failing call leaves the store as it was, and reopening the file gives
    the same state. *)
Theorem state_machine_folds_log io calls sm :
  sm_open default_membership io {| state_row := None; snapshot_row := None |} = Ok sm ->
  let '(sm', applied, rs) := sm_run sm calls in
  let final := state_after (PersistedState_default default_membership) applied in
  read_state no_faults sm' = Ok final /\
  reader_topology (M := M) no_faults sm' = Ok (foldl topo_apply topo_new (omap mutation_of applied)) /\
  applied_state no_faults sm' = Ok (ps_last_applied final, ps_last_membership final) /\
  length rs = length applied /\
  (forall i e, applied !! i = Some e ->
     rs !! i = Some {| mutation_id :=
       if mutation_of e is Some _ then Z.of_nat (length (omap mutation_of (take i applied))) else 0 |}) /\
  (forall io' es e, (apply io' es sm').2 = Err e -> (apply io' es sm').1 = sm') /\
  (forall io' sm'', sm_open default_membership io' sm' = Ok sm'' -> read_state no_faults sm'' = Ok final).
Proof.
  intros Ho. apply sm_open_holds in Ho as (_ & Hh & _). specialize (Hh eq_refl).
  pose proof (sm_run_holds calls sm _ Hh) as Hr. destruct (sm_run sm calls) as [[sm' applied] rs].
  destruct Hr as [Hh' ->]. cbv zeta. split_and!.
  - by apply read_state_ok.
  - by apply reader_holds in Hh'.
  - unfold applied_state. by rewrite (read_state_ok _ _ Hh').
  - apply length_apply_entries.
  - intros i e Hi. rewrite (apply_entries_responses _ _ _ _ Hi). by destruct (mutation_of e).
  - intros io' es e. destruct (apply_cases io' es sm' _ Hh') as [(? & -> & _)|(? & ->)]; done.
  - intros io' sm'' (Hk & _ & _)%sm_open_holds. by apply read_state_ok, Hk.
Qed.

(** C27: a snapshot brings a replica up to date.  Building a snapshot on one
    node and installing it on another, whatever that one held, gives the second
    the first's topology, last-applied pointer and membership, and the same
    current snapshot; from then on applying the same entries keeps these three
    equal.  The mutation counter is not transferred: the receiver numbers its
    mutations from 0 again. *)
Theorem snapshot_catches_up a b s io1 io2 io3 io4 a' b' meta payload es :
  holds a s ->
  build_snapshot payload_len io1 io2 a = (a', Ok (meta, payload)) ->
  install_snapshot io3 io4 meta payload b = (b', Ok tt) ->
  get_current_snapshot no_faults a' = get_current_snapshot no_faults b' /\
  exists sa sb, holds a' sa /\ holds b' sb /\ sa = s /\ ps_next_mutation_id sb = 0 /\
    ps_topology (state_after sb es) = ps_topology (state_after sa es) /\
    ps_last_applied (state_after sb es) = ps_last_applied (state_after sa es) /\
    ps_last_membership (state_after sb es) = ps_last_membership (state_after sa es) /\
    (forall io b'' rs, apply io es b' = (b'', Ok rs) ->
       read_state no_faults b'' = Ok (state_after sb es) /\
       forall e, es !! 0%nat = Some e -> rs !! 0%nat = Some {| mutation_id := 0 |}).
Proof.
  intros Ha Hb Hi.
  destruct (build_snapshot_ok _ _ _ _ _ _ _ Ha Hb) as (Ha' & Henc & Hmeta & Hca).
  destruct (install_snapshot_ok _ _ _ _ _ _ _ (encoding_roundtrip _ _ Henc) Hi) as (Hb' & Hcb).
  split; [by rewrite Hca, Hcb|].
  exists s, {| ps_topology := ps_topology s; ps_last_applied := sm_last_log_id meta;
    ps_last_membership := sm_last_membership meta; ps_next_mutation_id := 0 |}.
  rewrite Hmeta in Hb' |- *. split_and!; try done.
  intros io b'' rs Happ. destruct (apply_cases io es b' _ Hb') as [(x & Hx & Hh)|(e & Hx)];
    rewrite Hx in Happ; [|done].
  injection Happ as -> <-. split; [by apply read_state_ok|].
  intros e He. rewrite (apply_entries_responses _ _ _ _ He). by destruct (mutation_of e).
Qed.

End state_machine_facts.

(** Concrete encodings that keep the value, for the examples. *)
Definition plain_sm : Type := StateMachine (PersistedState unit) (PersistedSnapshot unit TopologySnapshot).
Definition sample_node : NodeSnapshot := {| ns_id := 7; ns_inputs := []; ns_outputs := [] |}.
Definition sample_entry (i : Z) (m : Mutation) : Entry unit :=
  {| e_log_id := {| li_term := 1; li_node := 0; li_index := i |}; e_payload := Normal m |}.
Definition fail_commit : faults := fun st => bool_decide (st = Commit).

Lemma state_machine_folds_log_witness :
  exists sm : plain_sm,
    sm_open tt no_faults {| state_row := None; snapshot_row := None |} = Ok sm /\
    let '(sm', applied, rs) :=
      sm_run sm [(no_faults, [sample_entry 1 (AddNode sample_node)]);
                 (fail_commit, [sample_entry 2 (RemoveNode 7)])] in
    applied = [sample_entry 1 (AddNode sample_node)] /\
    reader_topology (M := unit) no_faults sm' = Ok (foldl topo_apply topo_new (omap mutation_of applied)).
Proof.
  eexists. split; [reflexivity|].
  pose proof (state_machine_folds_log (BX := PersistedSnapshot unit TopologySnapshot) tt no_faults
    [(no_faults, [sample_entry 1 (AddNode sample_node)]); (fail_commit, [sample_entry 2 (RemoveNode 7)])]
    _ eq_refl) as H.
  split; [reflexivity|]. exact (proj1 (proj2 H)).
Defined.

Lemma snapshot_catches_up_witness :
  let s := {| ps_topology := {| nodes := [sample_node]; edges := [] |};
              ps_last_applied := Some {| li_term := 1; li_node := 0; li_index := 4 |};
              ps_last_membership := (None, tt); ps_next_mutation_id := 3 |} in
  let a : plain_sm := {| state_row := Some s; snapshot_row := None |} in
  let b : plain_sm := {| state_row := None; snapshot_row := None |} in
  exists a' b' meta payload,
    build_snapshot (fun t => Z.of_nat (length (nodes t))) no_faults no_faults a = (a', Ok (meta, payload)) /\
    install_snapshot no_faults no_faults meta payload b = (b', Ok tt) /\
    get_current_snapshot no_faults a' = get_current_snapshot no_faults b'.
Proof.
  intros s a b. do 4 eexists. split; [reflexivity|]. split; [reflexivity|].
  refine (proj1 (snapshot_catches_up _ a b s no_faults no_faults no_faults no_faults _ _ _ _ [] _ eq_refl eq_refl)).
  exists s. split; reflexivity.
Defined.
