(* ===== verification/RaftLogStore.v ===== *)
(** * The Raft log store

    [crates/session-store/src/raft_log_store.rs]: log entries, vote and
    committed pointer in three [redb] tables.  The specification is a list of
    entries in ascending index order.  The encodings of
    entries and votes are parameters; the encoding of log ids is [bincode]'s
    documented one, because two of its types are confused here. *)

From stdpp Require Import gmap relations sorting.
From S2P Require Import Prelude F32 RString External Topology SessionStore RaftStateMachine.
Local Open Scope Z_scope.

(** ** [bincode] of a log id

    Fixed-width little-endian integers, an option as a tag byte and the value;
    decoding a prefix of the input succeeds. *)
Class BincodeLogId `{Encoding LogId bytes, Encoding (option LogId) bytes} : Prop := {
  bincode_log_id : forall l, encode_value (A := LogId) l =
    Some (le_bytes 8 (li_term l) ++ le_bytes 8 (li_node l) ++ le_bytes 8 (li_index l));
  bincode_log_id_read : forall bs, decode_value (A := LogId) bs =
    if (length bs <? 24)%nat then None
    else Some {| li_term := of_le (take 8 bs); li_node := of_le (take 8 (drop 8 bs));
                 li_index := of_le (take 8 (drop 16 bs)) |};
  bincode_none : encode_value (None : option LogId) = Some [0];
  bincode_some : forall l, encode_value (Some l) = (fun bs => 1 :: bs) <$> encode_value l;
  bincode_option_read : forall bs, decode_value (A := option LogId) bs =
    match bs with
    | 0 :: _ => Some None
    | 1 :: bs => Some <$> decode_value (A := LogId) bs
    | _ => None
    end
}.

#[export] Instance log_id_encoding : Encoding LogId bytes := {
  encode_value l := Some (le_bytes 8 (li_term l) ++ le_bytes 8 (li_node l) ++ le_bytes 8 (li_index l));
  decode_value bs :=
    if (length bs <? 24)%nat then None
    else Some {| li_term := of_le (take 8 bs); li_node := of_le (take 8 (drop 8 bs));
                 li_index := of_le (take 8 (drop 16 bs)) |}
}.
#[export] Instance opt_log_id_encoding : Encoding (option LogId) bytes := {
  encode_value o := match o with None => Some [0] | Some l => (fun bs => 1 :: bs) <$> encode_value l end;
  decode_value bs :=
    match bs with
    | 0 :: _ => Some None
    | 1 :: bs => Some <$> decode_value (A := LogId) bs
    | _ => None
    end
}.
#[export] Instance bincode_log_id_inst : BincodeLogId.
Proof. by split. Qed.

(** ** The store *)

Record RaftLogStore (T BV : Type) : Type := {
  logs : T;
  vote_row : option BV;
  committed_row : option bytes
}.
Arguments logs {T BV}.
Arguments vote_row {T BV}.
Arguments committed_row {T BV}.
Arguments Build_RaftLogStore {T BV}.

Inductive Bound : Type := Included (v : Z) | Excluded (v : Z) | Unbounded.

Definition in_bounds (lo hi : Bound) (k : Z) : bool :=
  match lo with Included v => v <=? k | Excluded v => v <? k | Unbounded => true end &&
  match hi with Included v => k <=? v | Excluded v => k <? v | Unbounded => true end.

Section log_store.
Context {M V T BE BV : Type} `{TableOps T BE} `{Encoding (Entry M) BE} `{Encoding V BV}
  `{Encoding LogId bytes} `{Encoding (option LogId) bytes}.
Implicit Types st : RaftLogStore T BV.

Definition log_open (io : faults) (file : RaftLogStore T BV) : result (RaftLogStore T BV) StorageError :=
  let? _ := sguard io OpenDb in
  let? _ := sguard io BeginWrite in
  let? _ := sguard io OpenTable in
  let? _ := sguard io Commit in
  Ok file.

(** The row loop shared by the readers: a failing row or entry ends it. *)
Fixpoint read_rows (io : faults) (k : nat) (rows : list (Z * BE)) : result (list (Entry M)) StorageError :=
  match rows with
  | [] => Ok []
  | (_, value) :: rows =>
      let? _ := sguard io (ReadEntry k) in
      let? entry := ok_or (decode_value value) (SIo Deserialize) in
      let? entries := read_rows io (S k) rows in
      Ok (entry :: entries)
  end.

Definition try_get_log_entries (io : faults) (lo hi : Bound) st : result (list (Entry M)) StorageError :=
  let? _ := sguard io BeginRead in
  let? _ := sguard io OpenTable in
  let? _ := sguard io IterTable in
  read_rows io 0 (filter (fun r => in_bounds lo hi r.1 = true) (tbl_iter (logs st))).

Definition limited_get_log_entries (io : faults) (start stop : Z) st
    : result (list (Entry M)) StorageError :=
  try_get_log_entries io (Included start) (Excluded stop) st.

(** [LogReader] shares the database and reads it with the same code. *)
Definition reader_try_get_log_entries (io : faults) (lo hi : Bound) st
    : result (list (Entry M)) StorageError :=
  let? _ := sguard io BeginRead in
  let? _ := sguard io OpenTable in
  let? _ := sguard io IterTable in
  read_rows io 0 (filter (fun r => in_bounds lo hi r.1 = true) (tbl_iter (logs st))).

Definition reader_limited_get_log_entries (io : faults) (start stop : Z) st
    : result (list (Entry M)) StorageError :=
  reader_try_get_log_entries io (Included start) (Excluded stop) st.

Record LogState : Type := { last_purged_log_id : option LogId; last_log_id : option LogId }.

(** The committed row is decoded as a [LogId], the type the field of the
    result asks for. *)
Definition get_log_state (io : faults) st : result LogState StorageError :=
  let? _ := sguard io BeginRead in
  let? _ := sguard io OpenTable in
  let? _ := sguard io IterTable in
  let? entries := read_rows io 0 (tbl_iter (logs st)) in
  let? purged :=
    match committed_row st with
    | None => Ok None
    | Some bs => let? l := ok_or (decode_value (A := LogId) bs) (SIo Deserialize) in Ok (Some l)
    end in
  Ok {| last_purged_log_id := purged; last_log_id := e_log_id <$> last entries |}.

(** A write transaction: serialisation first, then the stages in order. *)
Definition write_txn {X} (io : faults) (x : option X) : result X StorageError :=
  let? b := ok_or x (SIo Serialize) in
  let? _ := sguard io BeginWrite in
  let? _ := sguard io OpenTable in
  let? _ := sguard io InsertRow in
  let? _ := sguard io Commit in
  Ok b.

Definition save_vote (io : faults) (vote : V) st : RaftLogStore T BV * result unit StorageError :=
  match write_txn io (encode_value vote) with
  | Ok b => ({| logs := logs st; vote_row := Some b; committed_row := committed_row st |}, Ok tt)
  | Err e => (st, Err e)
  end.

Definition read_vote (io : faults) st : result (option V) StorageError :=
  let? _ := sguard io BeginRead in
  let? _ := sguard io OpenTable in
  let? _ := sguard io IterTable in
  match vote_row st with
  | Some b => let? vote := ok_or (decode_value b) (SIo Deserialize) in Ok (Some vote)
  | None => Ok None
  end.

Definition save_committed (io : faults) (committed : option LogId) st
    : RaftLogStore T BV * result unit StorageError :=
  match write_txn io (encode_value committed) with
  | Ok b => ({| logs := logs st; vote_row := vote_row st; committed_row := Some b |}, Ok tt)
  | Err e => (st, Err e)
  end.

Definition read_committed (io : faults) st : result (option LogId) StorageError :=
  let? _ := sguard io BeginRead in
  let? _ := sguard io OpenTable in
  let? _ := sguard io IterTable in
  match committed_row st with
  | Some b => ok_or (decode_value (A := option LogId) b) (SIo Deserialize)
  | None => Ok None
  end.

(** The insert loop of [append], on the table inside the transaction. *)
Fixpoint insert_entries (io : faults) (entries : list (Entry M)) (t : T) : result T StorageError :=
  match entries with
  | [] => Ok t
  | entry :: entries =>
      let? b := ok_or (encode_value entry) (SIo Serialize) in
      let? _ := sguard io InsertRow in
      insert_entries io entries (tbl_insert t (li_index (e_log_id entry)) b)
  end.

(** The second component of the result is whether the flush callback ran. *)
Definition append (io : faults) (entries : list (Entry M)) st
    : RaftLogStore T BV * bool * result unit StorageError :=
  match entries with
  | [] => (st, true, Ok tt)
  | _ =>
      match (let? _ := sguard io BeginWrite in
             let? _ := sguard io OpenTable in
             let? t := insert_entries io entries (logs st) in
             let? _ := sguard io Commit in
             Ok t) with
      | Ok t => ({| logs := t; vote_row := vote_row st; committed_row := committed_row st |}, true, Ok tt)
      | Err e => (st, false, Err e)
      end
  end.

(** Removal of the rows whose key satisfies [p]: the keys are collected first. *)
Definition remove_where (io : faults) (p : Z -> bool) st : RaftLogStore T BV * result unit StorageError :=
  match (let? _ := sguard io BeginWrite in
         let? _ := sguard io OpenTable in
         let? _ := sguard io IterTable in
         let keys := (filter (fun r => p r.1 = true) (tbl_iter (logs st))).*1 in
         let? _ := match keys with [] => Ok tt | _ => sguard io RemoveRow end in
         let? _ := sguard io Commit in
         Ok keys) with
  | Ok keys =>
      ({| logs := foldl tbl_remove (logs st) keys; vote_row := vote_row st;
          committed_row := committed_row st |}, Ok tt)
  | Err e => (st, Err e)
  end.

Definition truncate (io : faults) (log_id : LogId) st : RaftLogStore T BV * result unit StorageError :=
  remove_where io (fun k => li_index log_id <=? k) st.

Definition purge (io : faults) (log_id : LogId) st : RaftLogStore T BV * result unit StorageError :=
  remove_where io (fun k => k <=? li_index log_id) st.

End log_store.

Section log_store_facts.
Context {M V T BE BV : Type} `{TableLaws T BE} `{EncodingLaws (Entry M) BE} `{EncodingLaws V BV}
  `{Encoding LogId bytes} `{Encoding (option LogId) bytes} `{!BincodeLogId}.
Implicit Types st : RaftLogStore T BV.
Implicit Types es : list (Entry M).

Definition idx (e : Entry M) : Z := li_index (e_log_id e).
Definition idx_lt (a b : Entry M) : Prop := idx a < idx b.

(** A row of the table stands for an entry. *)
Definition row_for (e : Entry M) (r : Z * BE) : Prop := r.1 = idx e /\ encode_value e = Some r.2.

Definition log_repr (t : T) es : Prop := StronglySorted idx_lt es /\ Forall2 row_for es (tbl_iter t).

Lemma read_rows_ok k es rows : Forall2 row_for es rows -> read_rows no_faults k rows = Ok es.
Proof.
  intros Hf. revert k. induction Hf as [|e [key b] es rows [_ He] Hf IH]; intros k; [done|].
  cbn in He |- *. rewrite (encoding_roundtrip _ _ He). cbn. by rewrite IH.
Qed.

Lemma filter_rows (p : Z -> bool) es rows :
  Forall2 row_for es rows ->
  Forall2 row_for (filter (fun e => p (idx e) = true) es) (filter (fun r => p r.1 = true) rows).
Proof.
  induction 1 as [|e r es rows Hr Hf IH]; [constructor|]. rewrite !filter_cons.
  destruct Hr as [Hk He]. rewrite Hk. destruct (decide (p (idx e) = true)); [|done].
  constructor; [by split|done].
Qed.

Lemma sorted_snoc {A} (R : A -> A -> Prop) l x :
  StronglySorted R l -> (forall y, y ∈ l -> R y x) -> StronglySorted R (l ++ [x]).
Proof.
  intros Hl Hx. apply StronglySorted_app_2; [|done|by repeat constructor].
  intros y z Hy Hz%list_elem_of_singleton. subst z. by apply Hx.
Qed.

Lemma sorted_filter {A} (R : A -> A -> Prop) (P : A -> Prop) `{!forall x, Decision (P x)} l :
  StronglySorted R l -> StronglySorted R (filter P l).
Proof.
  induction 1 as [|a l Hs IH Ha]; [constructor|]. rewrite filter_cons.
  destruct (decide (P a)); [|done]. constructor; [done|]. rewrite Forall_forall in Ha |- *.
  intros x Hx. apply list_elem_of_filter in Hx as [_ Hx]. by apply Ha.
Qed.

Lemma row_idx es rows r : Forall2 row_for es rows -> r ∈ rows -> exists e, e ∈ es /\ r.1 = idx e.
Proof.
  induction 1 as [|e r0 es rows [Hk _] Hf IH]; intros Hr; [by apply not_elem_of_nil in Hr|].
  apply elem_of_cons in Hr as [-> | Hr]; [exists e; split; [left|done]|].
  destruct (IH Hr) as (e' & ? & ?). exists e'. split; [by right|done].
Qed.

Lemma repr_insert t es e b :
  log_repr t es -> (forall y, y ∈ es -> idx_lt y e) -> encode_value e = Some b ->
  log_repr (tbl_insert t (idx e) b) (es ++ [e]).
Proof.
  intros [Hs Hf] Hlt Hb.
  assert (Hk : forall r, r ∈ tbl_iter t -> r.1 < idx e)
    by (intros r Hr; destruct (row_idx _ _ _ Hf Hr) as (y & Hy & ->); by apply Hlt).
  split; [by apply sorted_snoc|].
  replace (tbl_iter (tbl_insert t (idx e) b)) with (tbl_iter t ++ [(idx e, b)]).
  { apply Forall2_app; [done|]. by repeat constructor. }
  apply sorted_rows_ext.
  - apply sorted_snoc; [apply tbl_iter_sorted|]. intros r Hr. by apply Hk.
  - apply tbl_iter_sorted.
  - intros [k v]. rewrite elem_of_app, list_elem_of_singleton, !tbl_iter_elem, tbl_get_insert.
    destruct (decide (idx e = k)) as [<-|Hne]; split.
    + intros [Hg|[= ->]]; [|done]. apply tbl_iter_elem in Hg. specialize (Hk _ Hg). cbn in Hk. lia.
    + intros [= ->]. by right.
    + intros [Hg|[= -> ->]]; done.
    + by left.
Qed.

Lemma insert_entries_cases io es' t es :
  log_repr t es -> StronglySorted idx_lt (es ++ es') ->
  (exists t', insert_entries io es' t = Ok t' /\ log_repr t' (es ++ es')) \/
  (exists e, insert_entries io es' t = Err e).
Proof.
  revert t es. induction es' as [|e es' IH]; intros t es Hr Hs; cbn.
  { left. rewrite app_nil_r. by eauto. }
  destruct (encode_value e) as [b|] eqn:Hb; cbn; [|right; by eauto].
  unfold sguard. destruct (io InsertRow); cbn; [right; by eauto|].
  assert (Hlt : forall y, y ∈ es -> idx_lt y e).
  { intros y Hy. apply (StronglySorted_app_1_elem_of _ es (e :: es')); [done|done|left]. }
  change (li_index (e_log_id e)) with (idx e).
  destruct (IH (tbl_insert t (idx e) b) (es ++ [e])) as [(t' & -> & Ht)|(err & ->)].
  - by apply repr_insert.
  - by rewrite <- app_assoc.
  - left. exists t'. rewrite <- app_assoc in Ht. done.
  - right. by eauto.
Qed.

Lemma remove_keys_get t keys k :
  tbl_get (foldl tbl_remove t keys) k = if decide (k ∈ keys) then None else tbl_get t k.
Proof.
  revert t. induction keys as [|x keys IH]; intros t; cbn [foldl].
  { by rewrite decide_False by apply not_elem_of_nil. }
  rewrite IH, tbl_get_remove. destruct (decide (k ∈ keys)) as [Hk|Hk].
  - by rewrite decide_True by (by right).
  - destruct (decide (x = k)) as [->|Hx]; [by rewrite decide_True by left|].
    rewrite decide_False; [done|]. rewrite elem_of_cons. by intros [->|?].
Qed.

(** Removing by key condition filters the log. *)
Lemma repr_remove (p : Z -> bool) t es :
  log_repr t es ->
  log_repr (foldl tbl_remove t (filter (fun r => p r.1 = true) (tbl_iter t)).*1)
    (filter (fun e => negb (p (idx e)) = true) es).
Proof.
  intros [Hs Hf]. split; [by apply sorted_filter|].
  set (keys := (filter (fun r => p r.1 = true) (tbl_iter t)).*1).
  replace (tbl_iter (foldl tbl_remove t keys)) with (filter (fun r => negb (p r.1) = true) (tbl_iter t));
    [by apply (filter_rows (fun k => negb (p k)))|].
  apply sorted_rows_ext; [apply sorted_filter, tbl_iter_sorted|apply tbl_iter_sorted|].
  intros [k v]. rewrite list_elem_of_filter, !tbl_iter_elem, remove_keys_get. cbn.
  assert (Hkeys : k ∈ keys <-> p k = true /\ exists w, tbl_get t k = Some w).
  { unfold keys. rewrite list_elem_of_fmap. split.
    - intros ([k' w] & -> & [Hp Hw]%list_elem_of_filter). split; [done|]. exists w. by apply tbl_iter_elem.
    - intros [Hp [w Hw]]. exists (k, w). split; [done|]. apply list_elem_of_filter.
      split; [done|]. by apply tbl_iter_elem. }
  destruct (decide (k ∈ keys)) as [Hk|Hk]; split.
  - intros [Hp _]. apply Hkeys in Hk as [E _]. by rewrite E in Hp.
  - done.
  - by intros [_ ?].
  - intros Hg. split; [|done]. destruct (p k) eqn:Hp; [|done].
    destruct Hk. apply Hkeys. by eauto.
Qed.

Lemma remove_where_cases io p st es :
  log_repr (logs st) es ->
  (exists st', remove_where io p st = (st', Ok tt) /\ vote_row st' = vote_row st /\
     committed_row st' = committed_row st /\
     log_repr (logs st') (filter (fun e => negb (p (idx e)) = true) es)) \/
  (exists e, remove_where io p st = (st, Err e)).
Proof.
  intros Hr. unfold remove_where, sguard.
  destruct (io BeginWrite); [right; by eauto|]. destruct (io OpenTable); [right; by eauto|].
  destruct (io IterTable); [right; by eauto|]. cbn [rbind]. cbv zeta.
  match goal with |- context [match ?ks with [] => Ok tt | _ => _ end] => destruct ks eqn:Ek end;
    [|destruct (io RemoveRow); [right; by eauto|]]; cbn [rbind];
    (destruct (io Commit); [right; by eauto|]); left; eexists; (split; [done|]);
    (split; [done|]); (split; [done|]); cbn [logs]; rewrite <- Ek; by apply repr_remove.
Qed.

(** ** The store as a transition system, beside its specification *)

(** What the successful operations add up to: the log, the last vote and the
    last committed pointer saved. *)
Record log_spec : Type := {
  sp_log : list (Entry M);
  sp_vote : option V;
  sp_committed : option (option LogId)
}.
Definition spec_empty : log_spec := {| sp_log := []; sp_vote := None; sp_committed := None |}.
Definition with_log (sp : log_spec) es : log_spec := {| sp_log := es; sp_vote := sp_vote sp; sp_committed := sp_committed sp |}.

(** The three numbers of a log id are 64-bit. *)
Definition log_id_typed (l : LogId) : Prop := u64 (li_term l) /\ u64 (li_node l) /\ u64 (li_index l).

Inductive log_step : RaftLogStore T BV * log_spec -> RaftLogStore T BV * log_spec -> Prop :=
| step_append io es' st sp st' flushed r :
    StronglySorted idx_lt (sp_log sp ++ es') -> append io es' st = (st', flushed, r) ->
    log_step (st, sp) (st', if is_ok r then with_log sp (sp_log sp ++ es') else sp)
| step_truncate io l st sp st' r :
    truncate io l st = (st', r) ->
    log_step (st, sp) (st', if is_ok r then with_log sp (filter (fun e => negb (li_index l <=? idx e) = true) (sp_log sp)) else sp)
| step_purge io l st sp st' r :
    purge io l st = (st', r) ->
    log_step (st, sp) (st', if is_ok r then with_log sp (filter (fun e => negb (idx e <=? li_index l) = true) (sp_log sp)) else sp)
| step_vote io v st sp st' r :
    save_vote io v st = (st', r) ->
    log_step (st, sp) (st', if is_ok r then {| sp_log := sp_log sp; sp_vote := Some v; sp_committed := sp_committed sp |} else sp)
| step_committed io c st sp st' r :
    from_option log_id_typed True c -> save_committed io c st = (st', r) ->
    log_step (st, sp) (st', if is_ok r then {| sp_log := sp_log sp; sp_vote := sp_vote sp; sp_committed := Some c |} else sp)
| step_reopen io st sp st' :
    log_open io st = Ok st' -> log_step (st, sp) (st', sp).

(** The three tables hold the encodings of the specification's values. *)
Record spec_repr st (sp : log_spec) : Prop := {
  sr_log : log_repr (logs st) (sp_log sp);
  sr_vote : match sp_vote sp with
            | Some v => exists b, vote_row st = Some b /\ encode_value v = Some b
            | None => vote_row st = None
            end;
  sr_committed : match sp_committed sp with
                 | Some c => from_option log_id_typed True c /\ exists b, committed_row st = Some b /\ encode_value c = Some b
                 | None => committed_row st = None
                 end
}.

Lemma append_cases io es' st es :
  log_repr (logs st) es -> StronglySorted idx_lt (es ++ es') ->
  (exists st', append io es' st = (st', true, Ok tt) /\ vote_row st' = vote_row st /\
     committed_row st' = committed_row st /\ log_repr (logs st') (es ++ es')) \/
  (exists e, append io es' st = (st, false, Err e)).
Proof.
  intros Hr Hs. unfold append. destruct es' as [|e es'].
  { left. rewrite app_nil_r. by eauto. }
  unfold sguard. destruct (io BeginWrite); [right; by eauto|].
  destruct (io OpenTable); [right; by eauto|]. cbn [rbind].
  destruct (insert_entries_cases io (e :: es') (logs st) es Hr Hs) as [(t' & -> & Ht)|(err & ->)];
    [|right; by eauto]. cbn [rbind].
  destruct (io Commit); [right; by eauto|]. left. eexists. by split.
Qed.

Lemma write_txn_ok {X} io (x : option X) b : write_txn io x = Ok b -> x = Some b.
Proof.
  unfold write_txn, sguard. destruct x as [y|]; [|done]. cbn.
  destruct (io BeginWrite), (io OpenTable), (io InsertRow), (io Commit); cbn; congruence.
Qed.

Lemma spec_repr_log st sp st' es : spec_repr st sp ->
  vote_row st' = vote_row st -> committed_row st' = committed_row st -> log_repr (logs st') es -> spec_repr st' (with_log sp es).
Proof. intros [_ Hv Hc] Ev Ec Hl. by split; cbn; [|rewrite Ev|rewrite Ec]. Qed.

Lemma log_step_repr p q : log_step p q -> spec_repr p.1 p.2 -> spec_repr q.1 q.2.
Proof.
  intros Hstep Hr. pose proof (sr_log _ _ Hr) as Hl.
  destruct Hstep as [io es' st sp st' fl r Hs Ha|io l st sp st' r Ht|io l st sp st' r Ht|io v st sp st' r Hv|io c st sp st' r Hty Hc|io st sp st' Ho];
    cbn [fst snd] in *.
  - destruct (append_cases io es' st _ Hl Hs) as [(st1 & E & Ev & Ec & Hr1)|(e & E)]; rewrite E in Ha; injection Ha as <- _ <-; [|done].
    by eapply spec_repr_log.
  - unfold truncate in Ht. destruct (remove_where_cases io (fun k => li_index l <=? k) st _ Hl) as [(st1 & E & Ev & Ec & Hr1)|(e & E)];
      rewrite E in Ht; injection Ht as <- <-; [|done]. by eapply spec_repr_log.
  - unfold purge in Ht. destruct (remove_where_cases io (fun k => k <=? li_index l) st _ Hl) as [(st1 & E & Ev & Ec & Hr1)|(e & E)];
      rewrite E in Ht; injection Ht as <- <-; [|done]. by eapply spec_repr_log.
  - unfold save_vote in Hv. destruct (write_txn _ _) as [b|e] eqn:Ew; injection Hv as <- <-; [|done].
    apply write_txn_ok in Ew. destruct Hr as [_ _ Hc]. split; cbn; [done|by exists b|done].
  - unfold save_committed in Hc. destruct (write_txn _ _) as [b|e] eqn:Ew; injection Hc as <- <-; [|done].
    apply write_txn_ok in Ew. destruct Hr as [_ Hv _]. split; cbn; [done|done|]. split; [done|]. by exists b.
  - unfold log_open, sguard in Ho. destruct (io OpenDb), (io BeginWrite), (io OpenTable), (io Commit); try done. by injection Ho as <-.
Qed.

Lemma log_repr_empty : log_repr tbl_empty [].
Proof.
  split; [constructor|]. replace (tbl_iter tbl_empty) with (@nil (Z * BE)); [constructor|].
  destruct (tbl_iter tbl_empty) as [|[k v] l] eqn:E; [done|].
  assert (Hin : (k, v) ∈ tbl_iter tbl_empty) by (rewrite E; left).
  apply tbl_iter_elem in Hin. by rewrite tbl_get_empty in Hin.
Qed.

Lemma log_reachable st sp :
  rtc log_step ({| logs := tbl_empty; vote_row := None; committed_row := None |}, spec_empty) (st, sp) ->
  spec_repr st sp.
Proof.
  intros Hr. change (spec_repr (st, sp).1 (st, sp).2). revert Hr.
  apply (rtc_ind_r (fun q => spec_repr q.1 q.2)); [by split; [apply log_repr_empty|..]|].
  intros p q _ Hstep IH. by eapply log_step_repr.
Qed.

Lemma save_committed_ok c st bs :
  encode_value c = Some bs ->
  save_committed no_faults c st =
    ({| logs := logs st; vote_row := vote_row st; committed_row := Some bs |}, Ok tt).
Proof. intros Hc. unfold save_committed, write_txn. by rewrite Hc. Qed.

Lemma decode_log_id_words (a b c rest : bytes) :
  length a = 8%nat -> length b = 8%nat -> length c = 8%nat ->
  decode_value (A := LogId) (a ++ b ++ c ++ rest) =
    Some {| li_term := of_le a; li_node := of_le b; li_index := of_le c |}.
Proof.
  intros Ha Hb Hc. rewrite bincode_log_id_read, !length_app, Ha, Hb, Hc.
  destruct (Nat.ltb_spec (8 + (8 + (8 + length rest))) 24); [lia|].
  change 16%nat with (8 + 8)%nat. rewrite <- (drop_drop _ 8 8).
  rewrite !(drop_app_length' a), !(take_app_length' a) by done.
  rewrite !(drop_app_length' b), !(take_app_length' b), (take_app_length' c) by done. done.
Qed.

(** Eight little-endian bytes and the byte before them: the highest byte goes to
    the next word. *)
Lemma le_bytes_shift v : u64 v -> le_bytes 8 v = le_bytes 7 (v mod 2 ^ 56) ++ [v / 2 ^ 56].
Proof.
  unfold u64, uint. intros Hv.
  change (le_bytes 8 v) with (le_bytes 7 v ++ [v / 256 / 256 / 256 / 256 / 256 / 256 / 256 mod 256]). f_equal.
  - pose proof (le_bytes_of_le (le_bytes 7 v) (le_bytes_u8 7 v)) as E. by rewrite length_le_bytes, of_le_le_bytes in E.
  - f_equal. rewrite !Z.div_div by lia. apply Z.mod_small. split; [apply Z.div_pos; lia|]. apply Z.div_lt_upper_bound; lia.
Qed.

Lemma of_le_shifted b v : of_le (b :: le_bytes 7 (v mod 2 ^ 56)) = b + 256 * (v mod 2 ^ 56).
Proof. cbn [of_le]. rewrite of_le_le_bytes_id; [done|]. change (256 ^ Z.of_nat 7) with (2 ^ 56). apply Z.mod_pos_bound. lia. Qed.

(** The encoding of [Some l] decoded as a [LogId]: the option's tag byte shifts
    every number up by a byte. *)
Definition misread (l : LogId) : LogId :=
  {| li_term := 1 + 256 * (li_term l mod 2 ^ 56);
     li_node := li_term l / 2 ^ 56 + 256 * (li_node l mod 2 ^ 56);
     li_index := li_node l / 2 ^ 56 + 256 * (li_index l mod 2 ^ 56) |}.

Lemma decode_misread l b : log_id_typed l -> encode_value (Some l) = Some b ->
  decode_value (A := LogId) b = Some (misread l) /\ decode_value (A := option LogId) b = Some (Some l).
Proof.
  intros (Ht & Hn & Hi). rewrite bincode_some, bincode_log_id. cbn [fmap option_fmap option_map]. intros Hb. apply (inj Some) in Hb as <-. split.
  - rewrite !le_bytes_shift, <- !app_assoc by done.
    change (1 :: le_bytes 7 (li_term l mod 2 ^ 56) ++ [li_term l / 2 ^ 56] ++ le_bytes 7 (li_node l mod 2 ^ 56) ++ [li_node l / 2 ^ 56] ++ le_bytes 7 (li_index l mod 2 ^ 56) ++ [li_index l / 2 ^ 56])
      with ((1 :: le_bytes 7 (li_term l mod 2 ^ 56)) ++ (li_term l / 2 ^ 56 :: le_bytes 7 (li_node l mod 2 ^ 56)) ++
            (li_node l / 2 ^ 56 :: le_bytes 7 (li_index l mod 2 ^ 56)) ++ [li_index l / 2 ^ 56]).
    rewrite decode_log_id_words by (cbn [length]; by rewrite length_le_bytes). by rewrite !of_le_shifted.
  - rewrite bincode_option_read, <- (app_nil_r (le_bytes 8 (li_index l))).
    rewrite decode_log_id_words by apply length_le_bytes.
    rewrite !of_le_le_bytes_id by (change (256 ^ Z.of_nat 8) with (2 ^ 64); unfold u64, uint in *; lia). by destruct l.
Qed.

(** ** Theorems *)

(** C7: the log store refines a list of entries, a vote and a committed
    pointer.  In every state reachable by appends of ascending entries,
    truncations, purges, vote and pointer saves and reopenings, with
    I/O failures anywhere, the tables represent what the successful
    operations describe: appends extend the list, truncation keeps the entries below
    an index, purging those above.  There, fault-free range reads of both readers return exactly the entries in
    the range, in order; [read_vote] returns the last vote saved; [read_committed]
    the last pointer saved; and [get_log_state] reports the last entry's id and no purged id
    as long as no pointer has been saved.  Once one has been, it reports the last entry's id with, as
    last purged, the saved id misread by one byte, or, when the saved pointer is empty, it fails. *)
Theorem log_store_refines_list st sp :
  rtc log_step ({| logs := tbl_empty; vote_row := None; committed_row := None |}, spec_empty) (st, sp) ->
  (forall lo hi, try_get_log_entries no_faults lo hi st =
     Ok (filter (fun e => in_bounds lo hi (idx e) = true) (sp_log sp))) /\
  (forall start stop, reader_limited_get_log_entries no_faults start stop st =
     Ok (filter (fun e => (start <=? idx e) && (idx e <? stop) = true) (sp_log sp))) /\
  read_vote no_faults st = Ok (sp_vote sp) /\
  read_committed no_faults st = Ok (mjoin (sp_committed sp)) /\
  get_log_state (M := M) no_faults st =
    match sp_committed sp with
    | None => Ok {| last_purged_log_id := None; last_log_id := e_log_id <$> last (sp_log sp) |}
    | Some (Some l) => Ok {| last_purged_log_id := Some (misread l); last_log_id := e_log_id <$> last (sp_log sp) |}
    | Some None => Err (SIo Deserialize)
    end.
Proof.
  intros [Hl Hv Hc]%log_reachable. split_and!.
  - intros lo hi. unfold try_get_log_entries. cbn [rbind sguard no_faults].
    apply read_rows_ok, filter_rows, Hl.
  - intros start stop. unfold reader_limited_get_log_entries, reader_try_get_log_entries.
    cbn [rbind sguard no_faults].
    apply read_rows_ok, (filter_rows (in_bounds (Included start) (Excluded stop))), Hl.
  - unfold read_vote. cbn. destruct (sp_vote sp) as [v|]; [|by rewrite Hv].
    destruct Hv as (b & -> & Hb). by rewrite (encoding_roundtrip _ _ Hb).
  - unfold read_committed. cbn. destruct (sp_committed sp) as [[l|]|]; [..|by rewrite Hc].
    + destruct Hc as (Hty & b & -> & Hb). by rewrite (proj2 (decode_misread l b Hty Hb)).
    + destruct Hc as (_ & b & -> & Hb). rewrite bincode_none in Hb. injection Hb as <-. by rewrite bincode_option_read.
  - unfold get_log_state. cbn [rbind sguard no_faults]. rewrite (read_rows_ok 0 _ _ (proj2 Hl)). cbn [rbind].
    destruct (sp_committed sp) as [[l|]|]; [..|by rewrite Hc].
    + destruct Hc as (Hty & b & -> & Hb). by rewrite (proj1 (decode_misread l b Hty Hb)).
    + destruct Hc as (_ & b & -> & Hb). rewrite bincode_none in Hb. injection Hb as <-. by rewrite bincode_log_id_read.
Qed.

(** The misread id is never the saved one: it is not even from the same term,
    unless the term is at least 2^56. *)
Lemma misread_wrong l : log_id_typed l -> li_term l < 2 ^ 56 -> li_term l < li_term (misread l).
Proof. intros [Ht _] Hlt. unfold u64, uint in Ht. cbn. rewrite Z.mod_small by lia. lia. Qed.

End log_store_facts.

(** A store with concrete tables whose encodings keep the value. *)
Definition plain_store : Type := RaftLogStore (gmap Z (Entry unit)) Z.

Lemma log_store_refines_list_witness :
  let e i := sample_entry i (RemoveNode i) in
  let l := {| li_term := 1; li_node := 0; li_index := 5 |} in
  let sp := {| sp_log := [e 2]; sp_vote := Some 7; sp_committed := Some (Some l) |} in
  exists st : plain_store,
    rtc (log_step (V := Z)) ({| logs := tbl_empty; vote_row := None; committed_row := None |}, spec_empty) (st, sp) /\
    read_vote no_faults st = Ok (Some 7) /\
    get_log_state (M := unit) no_faults st =
      Ok {| last_purged_log_id := Some {| li_term := 257; li_node := 0; li_index := 1280 |}; last_log_id := Some (e_log_id (e 2)) |}.
Proof.
  intros e l sp.
  set (st0 := {| logs := tbl_empty; vote_row := None; committed_row := None |} : plain_store).
  set (st1 := (append no_faults [e 1; e 2; e 3] st0).1.1).
  set (st2 := (truncate no_faults (e_log_id (e 3)) st1).1).
  set (st3 := (purge no_faults (e_log_id (e 1)) st2).1).
  set (st4 := (save_vote no_faults 7 st3).1).
  set (st5 := (save_committed no_faults (Some l) st4).1).
  assert (Hr : rtc (log_step (V := Z)) (st0, spec_empty) (st5, sp)).
  { eapply rtc_l.
    { apply (step_append (V := Z) no_faults [e 1; e 2; e 3] st0 spec_empty st1 true (Ok tt)); [|reflexivity].
      repeat constructor; reflexivity. }
    eapply rtc_l; [eapply (step_truncate (V := Z) no_faults (e_log_id (e 3)) st1 _ st2 (Ok tt)); reflexivity|].
    eapply rtc_l; [eapply (step_purge (V := Z) no_faults (e_log_id (e 1)) st2 _ st3 (Ok tt)); reflexivity|].
    eapply rtc_l; [eapply (step_vote no_faults 7 st3 _ st4 (Ok tt)); reflexivity|].
    eapply rtc_l; [eapply (step_committed (V := Z) no_faults (Some l) st4 _ st5 (Ok tt)); [|reflexivity]|apply rtc_refl].
    vm_compute. repeat split; congruence. }
  exists st5. split; [exact Hr|].
  destruct (log_store_refines_list st5 sp Hr) as (_ & _ & Hv & _ & Hs). split; [exact Hv|]. exact Hs.
Defined.
