(* ===== verification/Monitor.v ===== *)
(** * Metrics

    [crates/monitor/src/lib.rs]: the latency window, its statistics, the xrun
    counter and the Prometheus text; and [parse_metrics_summary] of
    [crates/sonicbrew/src/main.rs], which reads that text.  The counter's
    compare-and-swap loop runs under an explicit schedule of its threads. *)

From Stdlib Require Import String.
From S2P Require Import Prelude RString.
Local Open Scope Z_scope.

(** ** Latency window *)

Definition LATENCY_WINDOW : nat := Z.to_nat 1024.

(** A [VecDeque], front first. *)
Definition LatencyHistogram : Type := list Z.

Definition LatencyHistogram_new : LatencyHistogram := [].

Definition record (buf : LatencyHistogram) (latency_us : Z) : LatencyHistogram :=
  let buf := if (LATENCY_WINDOW <=? length buf)%nat then tail buf else buf in
  buf ++ [latency_us].

Record LatencyStats : Type := { st_min : Z; st_max : Z; st_avg : Z }.

Definition u64_max : Z := 2 ^ 64 - 1.

(** The loop of [from_samples]: minimum, maximum and sum.  The 128-bit sum
    cannot overflow: it would take 2^64 samples. *)
Fixpoint stats_loop (samples : list Z) (mn mx sum : Z) : Z * Z * Z :=
  match samples with
  | [] => (mn, mx, sum)
  | v :: samples => stats_loop samples (Z.min mn v) (Z.max mx v) (sum + v)
  end.

Definition from_samples (samples : list Z) : LatencyStats :=
  match samples with
  | [] => {| st_min := 0; st_max := 0; st_avg := 0 |}
  | _ =>
      let '(mn, mx, sum) := stats_loop samples u64_max 0 0 in
      let q := sum / Z.of_nat (length samples) in
      {| st_min := mn; st_max := mx; st_avg := if u64_max <? q then u64_max else q |}
  end.

(** ** The recorder *)

Record MetricsRecorder : Type := {
  window : LatencyHistogram;
  last_p50 : Z;
  last_p99 : Z;
  xrun_total : Z;
  prefix : rstring
}.

Definition with_prefix (p : rstring) : MetricsRecorder :=
  {| window := LatencyHistogram_new; last_p50 := 0; last_p99 := 0; xrun_total := 0; prefix := p |}.

Definition MetricsRecorder_new : MetricsRecorder := with_prefix (lit "sonicbrew").

Definition record_cycle (r : MetricsRecorder) (latency_us : Z) : MetricsRecorder :=
  {| window := record (window r) latency_us; last_p50 := last_p50 r; last_p99 := last_p99 r;
     xrun_total := xrun_total r; prefix := prefix r |}.

Definition record_latency (r : MetricsRecorder) (p50_us p99_us : Z) : MetricsRecorder :=
  let r := {| window := window r; last_p50 := p50_us; last_p99 := p99_us;
              xrun_total := xrun_total r; prefix := prefix r |} in
  record_cycle (record_cycle r p50_us) p99_us.

(** ** The xrun counter *)

(** Where a thread is in [record_xrun]: before the first load, in the loop with
    the value it last saw, or returned. *)
Inductive xrun_pc : Type := XStart | XLoop (current : Z) | XDone.

Record xrun_thread : Type := { x_count : Z; x_pc : xrun_pc }.

(** One step of a thread against the shared counter.  [spurious] is a weak
    compare-and-swap failing although the value matches. *)
Definition xrun_step (spurious : bool) (total : Z) (t : xrun_thread) : Z * xrun_pc :=
  match x_pc t with
  | XStart => (total, XLoop total)
  | XLoop current =>
      if x_count t <=? current then (total, XDone)
      else if (total =? current) && negb spurious then (x_count t, XDone)
      else (total, XLoop total)
  | XDone => (total, XDone)
  end.

(** A schedule names the thread that moves. *)
Fixpoint xrun_run (schedule : list (nat * bool)) (total : Z) (ts : list xrun_thread)
    : Z * list xrun_thread :=
  match schedule with
  | [] => (total, ts)
  | (i, spurious) :: schedule =>
      match ts !! i with
      | None => xrun_run schedule total ts
      | Some t =>
          let '(total, pc) := xrun_step spurious total t in
          xrun_run schedule total (<[i := {| x_count := x_count t; x_pc := pc |}]> ts)
      end
  end.

(** [record_xrun] with no other thread in between. *)
Definition record_xrun (r : MetricsRecorder) (count : Z) : MetricsRecorder :=
  let '(total, _) := xrun_run [(0%nat, false); (0%nat, false)] (xrun_total r)
                       [{| x_count := count; x_pc := XStart |}] in
  {| window := window r; last_p50 := last_p50 r; last_p99 := last_p99 r;
     xrun_total := total; prefix := prefix r |}.

(** ** Prometheus text *)

Definition line (l : rstring) : rstring := l ++ [10].
Definition quote : rstring := [34].

Definition export_prometheus (r : MetricsRecorder) : rstring :=
  let stats := from_samples (window r) in
  let p := prefix r in
  line (lit "# HELP " ++ p ++ lit "_process_latency_us Process-cycle latency in microseconds") ++
  line (lit "# TYPE " ++ p ++ lit "_process_latency_us summary") ++
  line (p ++ lit "_process_latency_us{quantile=" ++ quote ++ lit "0.5" ++ quote ++ lit "} " ++ dec (last_p50 r)) ++
  line (p ++ lit "_process_latency_us{quantile=" ++ quote ++ lit "0.99" ++ quote ++ lit "} " ++ dec (last_p99 r)) ++
  line (p ++ lit "_process_latency_us_min " ++ dec (st_min stats)) ++
  line (p ++ lit "_process_latency_us_max " ++ dec (st_max stats)) ++
  line (p ++ lit "_process_latency_us_avg " ++ dec (st_avg stats)) ++
  line (lit "# HELP " ++ p ++ lit "_xrun_total Cumulative xrun count") ++
  line (lit "# TYPE " ++ p ++ lit "_xrun_total counter") ++
  line (p ++ lit "_xrun_total " ++ dec (xrun_total r)).

(** ** Reading it back *)

Definition summary_acc : Type := option Z * option Z * option Z.

Fixpoint summary_loop (ls : list rstring) (acc : summary_acc) : option summary_acc :=
  match ls with
  | [] => Some acc
  | l :: ls =>
      match split_once 32 l with
      | None => None
      | Some (key, val) =>
          match parse_u64 val with
          | None => None
          | Some val =>
              let '(p50, p99, max) := acc in
              summary_loop ls
                (if contains_str (lit "quantile=" ++ quote ++ lit "0.5" ++ quote) key then (Some val, p99, max)
                 else if contains_str (lit "quantile=" ++ quote ++ lit "0.99" ++ quote) key then (p50, Some val, max)
                 else if ends_with (lit "_process_latency_us_max") key then (p50, p99, Some val)
                 else acc)
          end
      end
  end.

(** 181 is the micro sign. *)
Definition parse_metrics_summary (exported : rstring) : option rstring :=
  match summary_loop (lines exported) (None, None, None) with
  | Some (Some p50, Some p99, Some max) =>
      Some (lit "latency p50=" ++ dec p50 ++ [181] ++ lit "s p99=" ++ dec p99 ++ [181] ++ lit "s max="
            ++ dec max ++ [181] ++ lit "s")
  | _ => None
  end.

(** ** Lemmas *)

Lemma tail_last_n (n : nat) (l : list Z) x :
  (length l <= n)%nat -> (1 <= n)%nat ->
  (if (n <=? length l)%nat then tail l else l) ++ [x] = drop (length (l ++ [x]) - n) (l ++ [x]).
Proof.
  intros Hl Hn. rewrite length_app. cbn. destruct (Nat.leb_spec n (length l)).
  - replace (length l + 1 - n)%nat with 1%nat by lia. destruct l; [cbn in *; lia|done].
  - by replace (length l + 1 - n)%nat with 0%nat by lia.
Qed.

(** The window is the last [LATENCY_WINDOW] samples. *)
Definition latest (l : list Z) : list Z := drop (length l - LATENCY_WINDOW) l.

Lemma record_latest all x : record (latest all) x = latest (all ++ [x]).
Proof.
  assert (HW : (1 <= LATENCY_WINDOW)%nat) by (unfold LATENCY_WINDOW; lia).
  unfold record, latest. rewrite (tail_last_n LATENCY_WINDOW) by (rewrite ?length_drop; lia).
  rewrite !length_app, !length_drop. cbn [length].
  rewrite <- (drop_app_le all [x] (length all - LATENCY_WINDOW)) by lia.
  rewrite drop_drop. f_equal. lia.
Qed.

Lemma record_foldl all xs : foldl record (latest all) xs = latest (all ++ xs).
Proof.
  revert all. induction xs as [|x xs IH]; intros all; cbn [foldl]; [by rewrite app_nil_r|].
  by rewrite record_latest, IH, <- app_assoc.
Qed.

Lemma stats_loop_spec l mn mx sum :
  stats_loop l mn mx sum = (foldl Z.min mn l, foldl Z.max mx l, sum + foldr Z.add 0 l).
Proof.
  revert mn mx sum. induction l as [|v l IH]; intros mn mx sum; cbn; [by rewrite Z.add_0_r|].
  rewrite IH. f_equal. lia.
Qed.

Lemma foldl_min_bound l x : foldl Z.min x l <= x /\ forall v, v ∈ l -> foldl Z.min x l <= v.
Proof.
  revert x. induction l as [|y l IH]; intros x; cbn; [split; [lia|by intros v ?%not_elem_of_nil]|].
  destruct (IH (Z.min x y)) as [H1 H2]. split; [lia|].
  intros v [-> | Hv]%elem_of_cons; [lia|by apply H2].
Qed.
Lemma foldl_min_in l x : foldl Z.min x l = x \/ foldl Z.min x l ∈ l.
Proof.
  revert x. induction l as [|y l IH]; intros x; cbn; [by left|].
  destruct (IH (Z.min x y)) as [E|E]; [|right; by right]. rewrite E.
  destruct (Z.min_spec x y) as [[_ ->]|[_ ->]]; [by left|right; left].
Qed.
Lemma foldl_max_in l x : foldl Z.max x l = x \/ foldl Z.max x l ∈ l.
Proof.
  revert x. induction l as [|y l IH]; intros x; cbn; [by left|].
  destruct (IH (Z.max x y)) as [E|E]; [|right; by right]. rewrite E.
  destruct (Z.max_spec x y) as [[_ ->]|[_ ->]]; [right; left|by left].
Qed.

Lemma sum_bounds l lo hi :
  (forall v, v ∈ l -> lo <= v <= hi) ->
  lo * Z.of_nat (length l) <= foldr Z.add 0 l <= hi * Z.of_nat (length l).
Proof.
  induction l as [|x l IH]; intros Hb; [cbn; lia|].
  specialize (IH (fun v Hv => Hb v (list_elem_of_further v x l Hv))).
  specialize (Hb x (list_elem_of_here x l)). cbn [foldr length]. lia.
Qed.

(** ** The counter under interleaving *)

Definition xrun_thread_ok (total : Z) (t : xrun_thread) : Prop :=
  match x_pc t with
  | XStart => True
  | XLoop current => current <= total
  | XDone => x_count t <= total
  end.

(** Relative to the initial value and the counts. *)
Definition xrun_inv (t0 : Z) (counts : list Z) (s : Z * list xrun_thread) : Prop :=
  t0 <= s.1 /\ s.1 ∈ t0 :: counts /\ x_count <$> s.2 = counts /\ Forall (xrun_thread_ok s.1) s.2.

Lemma xrun_step_ok spurious total t :
  xrun_thread_ok total t ->
  let '(total', pc) := xrun_step spurious total t in
  total <= total' /\ (total' = total \/ total' = x_count t) /\
  xrun_thread_ok total' {| x_count := x_count t; x_pc := pc |}.
Proof.
  unfold xrun_step, xrun_thread_ok. destruct t as [c [|cur|]]; cbn; intros H; [lia| |lia].
  destruct (Z.leb_spec c cur); cbn; [lia|].
  destruct (Z.eqb_spec total cur), spurious; cbn; lia.
Qed.

Lemma xrun_thread_ok_mono a b t : a <= b -> xrun_thread_ok a t -> xrun_thread_ok b t.
Proof. unfold xrun_thread_ok. destruct (x_pc t); lia. Qed.

Lemma xrun_run_inv schedule t0 counts s :
  xrun_inv t0 counts s ->
  let s' := xrun_run schedule s.1 s.2 in xrun_inv t0 counts s' /\ s.1 <= s'.1.
Proof.
  revert s. induction schedule as [|[i sp] schedule IH]; intros [total ts] Hinv; cbn [xrun_run fst snd] in *.
  { split; [done|]. cbn. lia. }
  destruct (ts !! i) as [t|] eqn:Ht; [|by apply (IH (total, ts))].
  destruct Hinv as (H0 & Hin & Hc & Hall). cbn [fst snd] in *.
  pose proof (proj1 (Forall_lookup _ _) Hall i t Ht) as Hok.
  pose proof (xrun_step_ok sp total t Hok) as Hstep.
  destruct (xrun_step sp total t) as [total' pc]. destruct Hstep as (Hle & Hval & Hok').
  destruct (IH (total', <[i:={| x_count := x_count t; x_pc := pc |}]> ts)) as [Hinv' Hle'].
  - split_and!; cbn [fst snd].
    + lia.
    + destruct Hval as [-> | ->]; [done|]. right. rewrite <- Hc. apply list_elem_of_fmap.
      exists t. split; [done|]. by eapply list_elem_of_lookup_2.
    + rewrite <- Hc, list_fmap_insert. cbn. apply list_insert_id. by rewrite list_lookup_fmap, Ht.
    + apply Forall_insert; [|done]. eapply Forall_impl; [exact Hall|].
      intros x. by apply xrun_thread_ok_mono.
  - cbn [fst snd] in *. split; [done|lia].
Qed.

Lemma xrun_solo total ts i c cur :
  ts !! i = Some {| x_count := c; x_pc := XLoop cur |} ->
  exists t', (xrun_run [(i, false); (i, false)] total ts).2 !! i = Some t' /\ x_pc t' = XDone.
Proof.
  intros Hi. assert (Hlt : (i < length ts)%nat) by (by eapply lookup_lt_Some).
  cbn [xrun_run]. rewrite Hi. unfold xrun_step at 1. cbn [x_pc x_count].
  destruct (Z.leb_spec c cur); [|destruct (Z.eqb_spec total cur)]; cbn [andb negb].
  - rewrite list_lookup_insert_eq by done. cbn [xrun_step x_pc x_count xrun_run snd].
    eexists. rewrite list_lookup_insert_eq by (by rewrite length_insert). done.
  - rewrite list_lookup_insert_eq by done. cbn [xrun_step x_pc x_count xrun_run snd].
    eexists. rewrite list_lookup_insert_eq by (by rewrite length_insert). done.
  - rewrite list_lookup_insert_eq by done. unfold xrun_step. cbn [x_pc x_count].
    rewrite Z.eqb_refl. cbn [andb negb].
    destruct (c <=? total); cbn [xrun_run snd]; eexists;
      (rewrite list_lookup_insert_eq by (by rewrite length_insert)); done.
Qed.

Lemma xrun_start_inv t0 counts :
  xrun_inv t0 counts (t0, (fun c => {| x_count := c; x_pc := XStart |}) <$> counts).
Proof.
  split_and!; cbn; [lia|left| |].
  - rewrite <- list_fmap_compose. apply list_fmap_id.
  - apply Forall_fmap, Forall_forall. done.
Qed.

Lemma strip_cr_prefix h c x : c <> 13 -> exists y, strip_cr (h ++ c :: x) = h ++ c :: y.
Proof.
  intros Hc. unfold strip_cr. destruct x as [|d x _] using rev_ind.
  - exists []. rewrite last_snoc. by destruct (Z.eqb_spec c 13).
  - rewrite app_comm_cons, app_assoc, last_snoc. destruct (d =? 13).
    + exists x. by rewrite removelast_last.
    + exists (x ++ [d]). by rewrite <- app_assoc.
Qed.

Lemma lines_from_head h c s :
  c <> 13 -> exists y ls, lines_from (c :: rev h) s = (h ++ c :: y) :: ls.
Proof.
  intros Hc. enough (G : forall x, exists y ls, lines_from (rev (h ++ c :: x)) s = (h ++ c :: y) :: ls).
  { specialize (G []). by rewrite rev_unit in G. }
  induction s as [|d s IH]; intros x; cbn [lines_from].
  - exists x, []. rewrite rev_involutive. destruct (rev (h ++ c :: x)) eqn:E; [|done].
    apply (f_equal length) in E. rewrite length_rev, length_app in E. cbn in E. lia.
  - destruct (d =? 10).
    + rewrite rev_involutive. destruct (strip_cr_prefix h c x Hc) as [y ->]. by eauto.
    + rewrite <- rev_unit, <- app_assoc. apply (IH (x ++ [d])).
Qed.

Lemma record_cycle_window samples r :
  window (foldl record_cycle r samples) = foldl record (window r) samples.
Proof. revert r. induction samples as [|x l IH]; intros r; [done|]. cbn [foldl]. by rewrite IH. Qed.

Lemma elem_of_drop_in (n : nat) (l : list Z) v : v ∈ drop n l -> v ∈ l.
Proof. intros Hv. rewrite <- (take_drop n l). apply elem_of_app. by right. Qed.

Lemma stats_correct w :
  w <> [] -> (forall v, v ∈ w -> 0 <= v <= u64_max) ->
  let st := from_samples w in
  st_min st ∈ w /\ st_max st ∈ w /\ (forall v, v ∈ w -> st_min st <= v <= st_max st) /\
  st_avg st = foldr Z.add 0 w / Z.of_nat (length w) /\ st_min st <= st_avg st <= st_max st.
Proof.
  intros Hne Hu. destruct w as [|x l]; [done|]. set (w := x :: l) in *.
  assert (E : from_samples w =
    let q := foldr Z.add 0 w / Z.of_nat (length w) in
    {| st_min := foldl Z.min u64_max w; st_max := foldl Z.max 0 w;
       st_avg := if u64_max <? q then u64_max else q |}).
  { unfold from_samples, w at 1. rewrite stats_loop_spec. by rewrite Z.add_0_l. }
  rewrite E. cbv zeta. cbn [st_min st_max st_avg].
  destruct (foldl_min_bound w u64_max) as [_ Hmin]. destruct (foldl_max_ge w 0) as [_ Hmax].
  assert (Hx : x ∈ w) by left.
  assert (Hmin_in : foldl Z.min u64_max w ∈ w).
  { destruct (foldl_min_in w u64_max) as [Em|?]; [|done].
    specialize (Hmin x Hx). specialize (Hu x Hx). replace (foldl Z.min u64_max w) with x by lia. done. }
  assert (Hmax_in : foldl Z.max 0 w ∈ w).
  { destruct (foldl_max_in w 0) as [Em|?]; [|done].
    specialize (Hmax x Hx). specialize (Hu x Hx). replace (foldl Z.max 0 w) with x by lia. done. }
  assert (Hb : forall v, v ∈ w -> foldl Z.min u64_max w <= v <= foldl Z.max 0 w) by auto.
  pose proof (sum_bounds w _ _ Hb) as Hs.
  assert (Hlen : 0 < Z.of_nat (length w)) by (unfold w; cbn; lia).
  set (q := foldr Z.add 0 w / Z.of_nat (length w)).
  assert (Hq : foldl Z.min u64_max w <= q <= foldl Z.max 0 w).
  { unfold q. split; [apply Z.div_le_lower_bound; lia|].
    apply Z.lt_succ_r, Z.div_lt_upper_bound; lia. }
  assert (Hqm : q <= u64_max) by (specialize (Hu _ Hmax_in); lia).
  destruct (Z.ltb_spec u64_max q); [lia|]. done.
Qed.

(** A text that starts with the word [# HELP] is not a summary. *)
Lemma summary_of_help rest : parse_metrics_summary (lit "# HELP " ++ rest) = None.
Proof.
  unfold parse_metrics_summary, lines.
  destruct (lines_from_head (lit "# HELP") 32 rest) as (y & ls & E); [done|].
  change (lines_from [] (lit "# HELP " ++ rest)) with (lines_from (32 :: rev (lit "# HELP")) rest).
  by rewrite E.
Qed.

(** ** Theorems *)

(** The latency window and its statistics.  After any sequence of samples
    the window holds exactly the last 1024 of them, oldest first, and for
    64-bit samples the reported minimum and maximum are attained and bound
    every sample of the window, and the average is the rounded-down mean, which
    lies between them, so its conversion to 64 bits never saturates. *)
Theorem latency_window_stats (samples : list Z) :
  Forall u64 samples ->
  let w := window (foldl record_cycle MetricsRecorder_new samples) in
  w = latest samples /\ (length w <= LATENCY_WINDOW)%nat /\
  (samples = [] \/
   let st := from_samples w in
   st_min st ∈ w /\ st_max st ∈ w /\ (forall v, v ∈ w -> st_min st <= v <= st_max st) /\
   st_avg st = foldr Z.add 0 w / Z.of_nat (length w) /\ st_min st <= st_avg st <= st_max st).
Proof.
  intros Hu w.
  assert (Hw : w = latest samples).
  { unfold w. rewrite record_cycle_window. apply (record_foldl []). }
  split; [done|]. split; [rewrite Hw; unfold latest; rewrite length_drop; lia|].
  destruct samples as [|s0 samples]; [by left|right].
  assert (Hne : w <> []).
  { rewrite Hw. unfold latest. intros E%(f_equal length). rewrite length_drop in E.
    cbn [length] in E. unfold LATENCY_WINDOW in E. lia. }
  assert (Hwu : forall v, v ∈ w -> 0 <= v <= u64_max).
  { intros v Hv. rewrite Hw in Hv. unfold latest in Hv. apply elem_of_drop_in in Hv.
    rewrite Forall_forall in Hu. specialize (Hu v Hv). unfold u64, uint, u64_max in *. lia. }
  clearbody w. clear Hw Hu. by apply stats_correct.
Qed.

Lemma latency_window_stats_witness :
  let w := window (foldl record_cycle MetricsRecorder_new [30; 10; 21]) in
  st_min (from_samples w) = 10 /\ st_avg (from_samples w) = 20 /\ w = latest [30; 10; 21].
Proof.
  intros w. split; [reflexivity|]. split; [reflexivity|].
  refine (proj1 (latency_window_stats [30; 10; 21] _)).
  apply (bool_decide_eq_true_1 _). vm_compute. reflexivity.
Defined.

(** The xrun counter under concurrency.  Whatever the interleaving of any
    number of [record_xrun] calls, spurious compare-and-swap failures included,
    the counter never decreases, only ever holds a reported value or its initial
    one, and once every call has returned it is the maximum of them; and a call
    that runs alone from any point returns within two of its own steps. *)
Theorem xrun_counter_max (t0 : Z) (counts : list Z) (schedule more : list (nat * bool)) :
  let threads := (fun c => {| x_count := c; x_pc := XStart |}) <$> counts in
  let s := xrun_run schedule t0 threads in
  t0 <= s.1 /\ s.1 ∈ t0 :: counts /\ s.1 <= (xrun_run more s.1 s.2).1 /\
  (Forall (fun t => x_pc t = XDone) s.2 -> s.1 = foldl Z.max t0 counts) /\
  (forall i t current, s.2 !! i = Some t -> x_pc t = XLoop current ->
     exists t', (xrun_run [(i, false); (i, false)] s.1 s.2).2 !! i = Some t' /\ x_pc t' = XDone).
Proof.
  intros threads s. destruct (xrun_run_inv schedule t0 counts _ (xrun_start_inv t0 counts)) as [Hinv _].
  fold threads in Hinv. cbn [fst snd] in Hinv. fold s in Hinv.
  destruct (xrun_run_inv more t0 counts s Hinv) as [_ Hmono].
  destruct Hinv as (H0 & Hin & Hc & Hall). split_and!; try done.
  - intros Hdone. destruct (foldl_max_ge counts t0) as [Hg1 Hg2].
    apply Z.le_antisymm.
    + apply elem_of_cons in Hin as [E|Hin]; [lia|by apply Hg2].
    + destruct (foldl_max_in counts t0) as [-> | Hm]; [lia|].
      rewrite <- Hc in Hm at 2. apply list_elem_of_fmap in Hm as (t & -> & Ht).
      rewrite Forall_forall in Hall, Hdone. specialize (Hall t Ht). unfold xrun_thread_ok in Hall.
      by rewrite (Hdone t Ht) in Hall.
  - intros i t cur Hi Hpc. destruct t as [c pc]. cbn in Hpc. subst pc.
    by apply (xrun_solo _ _ _ c cur).
Qed.

Lemma xrun_counter_max_witness :
  let counts := [5; 9] in
  let s := xrun_run [(0%nat, false); (1%nat, false); (1%nat, false); (0%nat, false); (0%nat, false)] 2
             ((fun c => {| x_count := c; x_pc := XStart |}) <$> counts) in
  s.1 = foldl Z.max 2 counts.
Proof.
  intros counts s.
  refine (proj1 (proj2 (proj2 (proj2
    (xrun_counter_max 2 counts [(0%nat, false); (1%nat, false); (1%nat, false); (0%nat, false); (0%nat, false)] [])))) _).
  vm_compute. repeat constructor.
Defined.

(** The latency summary is never printed.  [parse_metrics_summary] gives
    up at the first line that is not a key and a number, and the exported text
    always starts with a comment line, so for every recorder state it returns
    nothing. *)
Theorem metrics_summary_never_parses (r : MetricsRecorder) :
  parse_metrics_summary (export_prometheus r) = None.
Proof.
  unfold export_prometheus, line. cbv zeta. rewrite <- !app_assoc. apply summary_of_help.
Qed.
