(* ===== verification/AudioEngine.v ===== *)
(** * The audio engine: building graphs and swapping them in

    [crates/audio-engine/src/lib.rs].  [build_graph] turns a topology snapshot
    into a compiled graph; a rebuild thread does so on every topology change
    and leaves the result in a one-place slot, from which the engine takes it
    between two cycles.  The graph library is a parameter with the behaviour
    its documentation gives; the thread, the clients and the engine interleave
    freely. *)

From stdpp Require Import gmap relations.
From S2P Require Import Prelude F32 External Topology.
Local Open Scope Z_scope.

(** ** The graph library *)

Inductive BuiltNode (N : Type) : Type := Plain (n : N) | Sink (n : N).
Arguments Plain {N}.
Arguments Sink {N}.

Class GraphOps (G N E : Type) : Type := {
  g_new : G;
  g_add_node : G -> N -> G * Z;
  g_add_sink : G -> N -> G * Z;
  g_link : G -> Z * Z -> Z * Z -> result G E;
  g_compile : G -> result G E;
  g_process_cycle : G -> G * result unit E;
  g_flush_sinks : G -> G * result Z E;
  (* what a built graph consists of *)
  g_nodes : G -> list (BuiltNode N);
  g_links : G -> list SnapshotEdge
}.

(** Node ids count up from 0; links keep the order they are made in. *)
Class GraphLaws (G N E : Type) `{GraphOps G N E} : Prop := {
  g_new_empty : g_nodes g_new = [] /\ g_links g_new = [];
  g_add_node_spec : forall g n g' id, g_add_node g n = (g', id) ->
    g_nodes g' = g_nodes g ++ [Plain n] /\ g_links g' = g_links g /\ id = Z.of_nat (length (g_nodes g));
  g_add_sink_spec : forall g n g' id, g_add_sink g n = (g', id) ->
    g_nodes g' = g_nodes g ++ [Sink n] /\ g_links g' = g_links g /\ id = Z.of_nat (length (g_nodes g));
  g_link_spec : forall g a b g', g_link g a b = Ok g' ->
    g_nodes g' = g_nodes g /\ g_links g' = g_links g ++ [{| e_from := a; e_to := b |}];
  g_compile_spec : forall g g', g_compile g = Ok g' -> g_nodes g' = g_nodes g /\ g_links g' = g_links g
}.

(** A graph as the lists of its nodes and links, which links anything. *)
Record list_graph (N : Type) : Type := { lg_nodes : list (BuiltNode N); lg_links : list SnapshotEdge }.
Arguments lg_nodes {N}.
Arguments lg_links {N}.
Arguments Build_list_graph {N}.

#[export] Instance list_graph_ops {N} : GraphOps (list_graph N) N unit := {
  g_new := {| lg_nodes := []; lg_links := [] |};
  g_add_node g n := ({| lg_nodes := lg_nodes g ++ [Plain n]; lg_links := lg_links g |},
                     Z.of_nat (length (lg_nodes g)));
  g_add_sink g n := ({| lg_nodes := lg_nodes g ++ [Sink n]; lg_links := lg_links g |},
                     Z.of_nat (length (lg_nodes g)));
  g_link g a b := Ok {| lg_nodes := lg_nodes g; lg_links := lg_links g ++ [{| e_from := a; e_to := b |}] |};
  g_compile g := Ok g;
  g_process_cycle g := (g, Ok tt);
  g_flush_sinks g := (g, Ok 0);
  g_nodes := lg_nodes;
  g_links := lg_links
}.
#[export] Instance list_graph_laws {N} : GraphLaws (list_graph N) N unit.
Proof. split; cbn; intros; simplify_eq; done. Qed.

(** ** Building *)

Inductive EngineError (E : Type) : Type :=
| NoFactory (id : Z)
| EdgeFromUnknown (id : Z)
| EdgeToUnknown (id : Z)
| GraphError (e : E).
Arguments NoFactory {E}.
Arguments EdgeFromUnknown {E}.
Arguments EdgeToUnknown {E}.
Arguments GraphError {E}.

Section engine.
Context {G N E : Type} `{GraphOps G N E}.
Context (factory : Z -> option (BuiltNode N)).

Definition add_built (g : G) (b : BuiltNode N) : G * Z :=
  match b with Plain node => g_add_node g node | Sink sink => g_add_sink g sink end.

Fixpoint build_nodes (ns : list NodeSnapshot) (g : G) (id_map : gmap Z Z)
    : result (G * gmap Z Z) (EngineError E) :=
  match ns with
  | [] => Ok (g, id_map)
  | n :: ns =>
      let? built := ok_or (factory (ns_id n)) (NoFactory (ns_id n)) in
      let '(g, new_id) := add_built g built in
      build_nodes ns g (<[ns_id n := new_id]> id_map)
  end.

Fixpoint link_edges (es : list SnapshotEdge) (g : G) (id_map : gmap Z Z) : result G (EngineError E) :=
  match es with
  | [] => Ok g
  | e :: es =>
      let? from_node := ok_or (id_map !! (e_from e).1) (EdgeFromUnknown (e_from e).1) in
      let? to_node := ok_or (id_map !! (e_to e).1) (EdgeToUnknown (e_to e).1) in
      let? g := map_err GraphError (g_link g (from_node, (e_from e).2) (to_node, (e_to e).2)) in
      link_edges es g id_map
  end.

Definition build_graph (snapshot : TopologySnapshot) : result G (EngineError E) :=
  let? (g, id_map) := build_nodes (nodes snapshot) g_new ∅ in
  let? g := link_edges (edges snapshot) g id_map in
  map_err GraphError (g_compile g).

(** ** Engine and rebuild thread *)

Definition RebuildSlot : Type := option G.

(** [rebuild_once], after the topology has been read. *)
Definition rebuild_once (topo : TopologySnapshot) (slot : RebuildSlot) : RebuildSlot :=
  match build_graph topo with
  | Ok g => Some g
  | Err _ => slot
  end.

Definition engine_cycle (g : G) : G := (g_flush_sinks (g_process_cycle g).1).1.

(** [GraphEngine::step]: process, flush, then take a pending graph. *)
Definition engine_step (graph : G) (slot : RebuildSlot) : G * RebuildSlot :=
  let graph := engine_cycle graph in
  match slot with
  | Some new_graph => (new_graph, None)
  | None => (graph, None)
  end.

(** Where the rebuild thread is: about to read the topology, holding the one it
    read, or polling for events. *)
Inductive rebuild_pc : Type := RWant | RHave (topo : TopologySnapshot) | RIdle.

Record EngineWorld : Type := {
  w_topo : TopologySnapshot;
  w_unread : nat;  (* events in the receiver's view of the broadcast channel *)
  w_pc : rebuild_pc;
  w_slot : RebuildSlot;
  w_graph : G
}.

Inductive engine_event : Type := Mutated (m : Mutation) | ThreadTurn | EngineTurn.

Context `{TopoOps} (channel_capacity : nat).

(** The loop of [spawn_rebuild_task]: an event, or a lag report that skips to
    the oldest event kept, asks for one rebuild. *)
Definition thread_turn (w : EngineWorld) : EngineWorld :=
  match w_pc w with
  | RWant =>
      {| w_topo := w_topo w; w_unread := w_unread w; w_pc := RHave (w_topo w);
         w_slot := w_slot w; w_graph := w_graph w |}
  | RHave topo =>
      {| w_topo := w_topo w; w_unread := w_unread w; w_pc := RIdle;
         w_slot := rebuild_once topo (w_slot w); w_graph := w_graph w |}
  | RIdle =>
      if (w_unread w =? 0)%nat then w
      else
        {| w_topo := w_topo w;
           w_unread := if (channel_capacity <? w_unread w)%nat then channel_capacity else Nat.pred (w_unread w);
           w_pc := RWant; w_slot := w_slot w; w_graph := w_graph w |}
  end.

Definition world_step (w : EngineWorld) (ev : engine_event) : EngineWorld :=
  match ev with
  | Mutated m =>
      {| w_topo := topo_apply (w_topo w) m; w_unread := S (w_unread w); w_pc := w_pc w;
         w_slot := w_slot w; w_graph := w_graph w |}
  | ThreadTurn => thread_turn w
  | EngineTurn =>
      let '(graph, slot) := engine_step (w_graph w) (w_slot w) in
      {| w_topo := w_topo w; w_unread := w_unread w; w_pc := w_pc w; w_slot := slot; w_graph := graph |}
  end.

Definition world_run (w : EngineWorld) (evs : list engine_event) : EngineWorld := foldl world_step w evs.

(** The thread subscribes before it starts, and rebuilds once at the start. *)
Definition world_init (topo : TopologySnapshot) (graph : G) : EngineWorld :=
  {| w_topo := topo; w_unread := 0; w_pc := RWant; w_slot := None; w_graph := graph |}.

End engine.

Section engine_facts.
Context {G N E : Type} `{GraphLaws G N E} (factory : Z -> option (BuiltNode N)).
Implicit Types g : G.

Definition built_for (n : NodeSnapshot) (b : BuiltNode N) : Prop := factory (ns_id n) = Some b.

Lemma add_built_spec g b g' id :
  add_built g b = (g', id) ->
  g_nodes g' = g_nodes g ++ [b] /\ g_links g' = g_links g /\ id = Z.of_nat (length (g_nodes g)).
Proof. destruct b; cbn; [apply g_add_node_spec|apply g_add_sink_spec]. Qed.

(** The node loop: the built nodes in order, the map from ids to positions. *)
Lemma build_nodes_spec ns g m :
  NoDup (ns_id <$> ns) ->
  match build_nodes (E := E) factory ns g m with
  | Ok (g', m') =>
      (exists bs, Forall2 built_for ns bs /\ g_nodes g' = g_nodes g ++ bs) /\ g_links g' = g_links g /\
      (forall i n, ns !! i = Some n -> m' !! ns_id n = Some (Z.of_nat (length (g_nodes g) + i))) /\
      (forall id, id ∉ ns_id <$> ns -> m' !! id = m !! id)
  | Err e => exists n, n ∈ ns /\ factory (ns_id n) = None /\ e = NoFactory (ns_id n)
  end.
Proof.
  revert g m. induction ns as [|n ns IH]; intros g m Hnd; cbn [build_nodes].
  { split; [exists []; split; [constructor|by rewrite app_nil_r]|]. split; [done|]. by split; intros. }
  rewrite fmap_cons, NoDup_cons in Hnd. destruct Hnd as [Hn Hnd].
  destruct (factory (ns_id n)) as [b|] eqn:Hf; cbn [ok_or rbind].
  2: { exists n. split; [left|done]. }
  destruct (add_built g b) as [g1 id] eqn:Ha. apply add_built_spec in Ha as (Hg1 & Hl1 & ->).
  specialize (IH g1 (<[ns_id n := Z.of_nat (length (g_nodes g))]> m) Hnd).
  destruct (build_nodes _ ns g1 _) as [[g' m']|e].
  - destruct IH as ((bs & Hbs & Hg') & Hl' & Hm & Hout). split_and!.
    + exists (b :: bs). split; [by constructor|]. by rewrite Hg', Hg1, <- app_assoc.
    + congruence.
    + intros [|i] x; cbn; [intros [= ->]|].
      * rewrite (Hout _ Hn), lookup_insert_eq. by rewrite Nat.add_0_r.
      * intros Hx. rewrite (Hm i x Hx), Hg1, length_app. cbn. do 2 f_equal. lia.
    + intros id. rewrite fmap_cons, not_elem_of_cons. intros [Hid1 Hid2].
      by rewrite (Hout id Hid2), lookup_insert_ne.
  - destruct IH as (x & Hx & ? & ?). exists x. split; [by right|done].
Qed.

Definition remapped (m : gmap Z Z) (e e' : SnapshotEdge) : Prop :=
  m !! (e_from e).1 = Some (e_from e').1 /\ (e_from e').2 = (e_from e).2 /\
  m !! (e_to e).1 = Some (e_to e').1 /\ (e_to e').2 = (e_to e).2.

Lemma link_edges_spec es g m :
  match link_edges es g m with
  | Ok g' => g_nodes g' = g_nodes g /\ exists ls, g_links g' = g_links g ++ ls /\ Forall2 (remapped m) es ls
  | Err (EdgeFromUnknown id) => m !! id = None /\ exists e, e ∈ es /\ (e_from e).1 = id
  | Err (EdgeToUnknown id) => m !! id = None /\ exists e, e ∈ es /\ (e_to e).1 = id
  | Err (NoFactory _) => False
  | Err (GraphError err) =>
      exists es1 e es2 g1 ls e', es = es1 ++ e :: es2 /\ g_nodes g1 = g_nodes g /\ g_links g1 = g_links g ++ ls /\
        Forall2 (remapped m) es1 ls /\ remapped m e e' /\ g_link g1 (e_from e') (e_to e') = Err err
  end.
Proof.
  revert g. induction es as [|e es IH]; intros g; cbn [link_edges].
  { split; [done|]. exists []. split; [by rewrite app_nil_r|constructor]. }
  destruct (m !! (e_from e).1) as [a|] eqn:Ha; cbn [ok_or rbind].
  2: { split; [done|]. exists e. split; [left|done]. }
  destruct (m !! (e_to e).1) as [b|] eqn:Hb; cbn [ok_or rbind].
  2: { split; [done|]. exists e. split; [left|done]. }
  set (e' := {| e_from := (a, (e_from e).2); e_to := (b, (e_to e).2) |}).
  assert (He' : remapped m e e') by done.
  destruct (g_link g _ _) as [g1|err] eqn:Hl; cbn [map_err rbind].
  2: { exists [], e, es, g, [], e'. rewrite app_nil_r. split_and!; try done; constructor. }
  apply g_link_spec in Hl as [Hn Hlk]. specialize (IH g1).
  destruct (link_edges es g1 m) as [g'|[]].
  - destruct IH as (Hn' & ls & Hl' & Hf). split; [congruence|].
    exists (e' :: ls). split; [by rewrite Hl', Hlk, <- app_assoc|]. by constructor.
  - done.
  - destruct IH as (? & x & ? & ?). split; [done|]. exists x. split; [by right|done].
  - destruct IH as (? & x & ? & ?). split; [done|]. exists x. split; [by right|done].
  - destruct IH as (es1 & x & es2 & g2 & ls & x' & -> & Hn2 & Hl2 & Hf & Hx & Herr).
    exists (e :: es1), x, es2, g2, (e' :: ls), x'. split_and!; [done|congruence| |by constructor|done|done].
    by rewrite Hl2, Hlk, <- app_assoc.
Qed.

(** An endpoint of a built link and the snapshot node it stands for. *)
Definition endpoint_of (s : TopologySnapshot) (p p' : Z * Z) : Prop :=
  exists i n, nodes s !! i = Some n /\ ns_id n = p.1 /\ p' = (Z.of_nat i, p.2).

Lemma mapped_endpoint s (m : gmap Z Z) p p' :
  (forall i n, nodes s !! i = Some n -> m !! ns_id n = Some (Z.of_nat i)) ->
  (forall id, id ∉ ids s -> m !! id = None) ->
  m !! p.1 = Some p'.1 -> p'.2 = p.2 -> endpoint_of s p p'.
Proof.
  intros Hm Hout Hp E2. destruct (decide (p.1 ∈ ids s)) as [Hin|Hn]; [|by rewrite (Hout _ Hn) in Hp].
  unfold ids in Hin. apply list_elem_of_fmap in Hin as (n & En & Hn).
  apply list_elem_of_lookup_1 in Hn as [i Hi]. exists i, n. split_and!; [done|done|].
  rewrite En, (Hm i n Hi) in Hp. destruct p'. cbn in *. congruence.
Qed.

Lemma map_none_absent s (m : gmap Z Z) id :
  (forall i n, nodes s !! i = Some n -> m !! ns_id n = Some (Z.of_nat i)) ->
  m !! id = None -> id ∉ ids s.
Proof.
  intros Hm Hid Hin. unfold ids in Hin. apply list_elem_of_fmap in Hin as (n & -> & Hn).
  apply list_elem_of_lookup_1 in Hn as [i Hi]. by rewrite (Hm i n Hi) in Hid.
Qed.

Lemma Forall2_ids s bs id : Forall2 built_for (nodes s) bs -> id ∈ ids s -> is_Some (factory id).
Proof.
  intros Hf Hid. unfold ids in Hid. apply list_elem_of_fmap in Hid as (n & -> & Hn).
  apply list_elem_of_lookup_1 in Hn as [i Hi].
  destruct (Forall2_lookup_l _ _ _ _ _ Hf Hi) as (b & _ & Hb). by exists b.
Qed.

(** The graph has the snapshot's nodes and the links of [es], in order. *)
Definition graph_of (s : TopologySnapshot) (es : list SnapshotEdge) g : Prop :=
  Forall2 built_for (nodes s) (g_nodes g) /\
  Forall2 (fun e e' => endpoint_of s (e_from e) (e_from e') /\ endpoint_of s (e_to e) (e_to e')) es (g_links g).

(** The graph library refused the snapshot: one of its edges, with every node in
    place and the edges before it linked, or the compilation of the complete graph. *)
Definition library_refused (s : TopologySnapshot) (err : E) : Prop :=
  exists g,
    (exists es1 e es2 a b, edges s = es1 ++ e :: es2 /\ graph_of s es1 g /\
       endpoint_of s (e_from e) a /\ endpoint_of s (e_to e) b /\ g_link g a b = Err err) \/
    (graph_of s (edges s) g /\ g_compile g = Err err).

(** [build_graph] on every branch. *)
Lemma build_graph_cases s :
  NoDup (ids s) ->
  match build_graph (E := E) factory s with
  | Ok g =>
      Forall2 built_for (nodes s) (g_nodes g) /\
      Forall2 (fun e e' => endpoint_of s (e_from e) (e_from e') /\ endpoint_of s (e_to e) (e_to e'))
        (edges s) (g_links g)
  | Err (NoFactory id) => id ∈ ids s /\ factory id = None
  | Err (EdgeFromUnknown id) => (id ∉ ids s) /\ exists e, e ∈ edges s /\ (e_from e).1 = id
  | Err (EdgeToUnknown id) => (id ∉ ids s) /\ exists e, e ∈ edges s /\ (e_to e).1 = id
  | Err (GraphError err) => (forall id, id ∈ ids s -> is_Some (factory id)) /\ library_refused s err
  end.
Proof.
  intros Hnd. unfold build_graph. pose proof (build_nodes_spec (nodes s) g_new ∅ Hnd) as Hb.
  destruct (build_nodes _ _ _ _) as [[g1 m]|e]; cbn [rbind].
  2: { destruct Hb as (n & Hn & Hf & ->). split; [|done]. unfold ids. by apply list_elem_of_fmap_2. }
  destruct g_new_empty as [Hgn Hgl]. rewrite Hgn in Hb. cbn [app length Nat.add] in Hb.
  destruct Hb as ((bs & Hbs & Hg1) & Hl1 & Hm & Hout).
  assert (Hout' : forall id, id ∉ ids s -> m !! id = None)
    by (intros id Hid; by rewrite (Hout id Hid), lookup_empty).
  assert (Hend : forall e e', remapped m e e' -> endpoint_of s (e_from e) (e_from e') /\ endpoint_of s (e_to e) (e_to e'))
    by (intros e e' (F1 & F2 & T1 & T2); split; by apply (mapped_endpoint s m)).
  assert (Hof : forall es ls g, g_nodes g = g_nodes g1 -> g_links g = g_links g1 ++ ls -> Forall2 (remapped m) es ls -> graph_of s es g).
  { intros es ls g Hn Hl Hf. split; [by rewrite Hn, Hg1|]. rewrite Hl, Hl1, Hgl. cbn [app]. eapply Forall2_impl; [exact Hf|done]. }
  pose proof (link_edges_spec (edges s) g1 m) as Hl.
  destruct (link_edges (edges s) g1 m) as [g2|[]]; cbn [rbind].
  - destruct Hl as (Hn2 & ls & Hl2 & Hf). assert (Hg2 : graph_of s (edges s) g2) by by apply (Hof _ ls).
    destruct (g_compile g2) as [g3|e] eqn:Hc; cbn [map_err].
    + apply g_compile_spec in Hc as [Hn3 Hl3]. rewrite Hn3, Hl3. exact Hg2.
    + split; [by intros id; apply (Forall2_ids s bs)|]. exists g2. by right.
  - done.
  - destruct Hl as [Hid He]. split; [by apply (map_none_absent s m)|done].
  - destruct Hl as [Hid He]. split; [by apply (map_none_absent s m)|done].
  - destruct Hl as (es1 & x & es2 & g2 & ls & x' & Hes & Hn2 & Hl2 & Hf & Hx & Herr).
    split; [by intros id; apply (Forall2_ids s bs)|]. exists g2. left. destruct (Hend x x' Hx) as [Ha Hb].
    exists es1, x, es2, (e_from x'), (e_to x'). split_and!; try done. by apply (Hof _ ls).
Qed.

(** ** The rebuild protocol *)

Context `{TopoOps} (channel_capacity : nat).
Implicit Types w : EngineWorld (G := G).

(** Cycles the engine has run on a graph since it was swapped in. *)
Definition evolved : G -> G -> Prop := rtc (fun a b => b = engine_cycle a).

(** The current topology has been built, into the slot or the live graph. *)
Definition settled w : Prop :=
  forall g, build_graph factory (w_topo w) = Ok g ->
    w_slot w = Some g \/ (w_slot w = None /\ evolved g (w_graph w)).

Definition world_inv w : Prop :=
  match w_pc w with
  | RWant => True
  | RHave t => (0 < w_unread w)%nat \/ t = w_topo w
  | RIdle => (0 < w_unread w)%nat \/ settled w
  end.

Lemma settled_engine w : settled w -> settled (world_step factory channel_capacity w EngineTurn).
Proof.
  intros Hs g Hg. cbn in Hg. destruct (Hs g) as [Hslot|[Hslot Hev]].
  - cbn in Hg. destruct (engine_step _ _) in Hg. done.
  - cbn. rewrite Hslot. right. split; [done|]. apply rtc_refl.
  - cbn. rewrite Hslot. right. split; [done|]. by eapply rtc_r.
Qed.

Lemma world_step_inv w ev : world_inv w -> world_inv (world_step factory channel_capacity w ev).
Proof.
  intros Hi. destruct ev as [m| |].
  - unfold world_inv in *. cbn. destruct (w_pc w); [done|left; lia|left; lia].
  - unfold world_inv in *. cbn. unfold thread_turn. destruct (w_pc w) as [|t|] eqn:Hpc; cbn.
    + by right.
    + destruct Hi as [? | ->]; [by left|]. right. intros g. cbn. unfold rebuild_once.
      intros ->. by left.
    + destruct (w_unread w =? 0)%nat; cbn; [by rewrite Hpc|done].
  - pose proof (settled_engine w) as Hse. unfold world_inv in *. cbn in *.
    destruct (engine_step (w_graph w) (w_slot w)) as [gr sl]. cbn in *.
    destruct (w_pc w); [done|done|]. destruct Hi; [by left|right; by apply Hse].
Qed.

Lemma world_run_inv w evs : world_inv w -> world_inv (world_run factory channel_capacity w evs).
Proof. revert w. induction evs as [|ev evs IH]; intros w Hi; [done|]. by apply IH, world_step_inv. Qed.

(** Turns the thread needs to catch up. *)
Definition backlog w : nat :=
  (3 * w_unread w + match w_pc w with RWant => 2 | RHave _ => 1 | RIdle => 0 end)%nat.

Lemma thread_turn_backlog w :
  (0 < backlog w)%nat -> (backlog (thread_turn factory channel_capacity w) < backlog w)%nat.
Proof.
  unfold backlog, thread_turn. destruct (w_pc w) eqn:Hpc; cbn [w_unread w_pc]; [lia|lia|].
  destruct (Nat.eqb_spec (w_unread w) 0); cbn [w_unread w_pc]; [rewrite Hpc; lia|].
  destruct (Nat.ltb_spec channel_capacity (w_unread w)); lia.
Qed.

Lemma thread_idle w : backlog w = 0%nat -> thread_turn factory channel_capacity w = w.
Proof.
  unfold backlog, thread_turn. destruct (w_pc w) eqn:Hpc; cbn; [lia|lia|]. intros Hb.
  by destruct (Nat.eqb_spec (w_unread w) 0); [|lia].
Qed.

Lemma thread_topo w : w_topo (thread_turn factory channel_capacity w) = w_topo w.
Proof. unfold thread_turn. destruct (w_pc w); [done|done|]. by destruct (w_unread w =? 0)%nat. Qed.

Lemma threads_catch_up n w :
  (backlog w <= n)%nat ->
  let w' := world_run factory channel_capacity w (replicate n ThreadTurn) in
  backlog w' = 0%nat /\ w_topo w' = w_topo w.
Proof.
  revert w. induction n as [|n IH]; intros w Hb; cbn [replicate world_run foldl]; [split; [lia|done]|].
  cbn [world_step]. rewrite <- (thread_topo w). apply IH.
  destruct (decide (backlog w = 0%nat)) as [E0|]; [rewrite thread_idle by done; lia|].
  pose proof (thread_turn_backlog w). lia.
Qed.

(** ** Theorems *)

(** C21: graphs are built exactly as the topology says.  For a snapshot with
    distinct ids, a successful build has one node per snapshot node, in order,
    the one the factory makes for its id, and one link per snapshot edge
    between the positions of the nodes the edge names, on the same ports; every
    error has its cause: an id the factory does not know; an edge whose
    node is absent, which no well-formed topology has; or the graph
    library, which refused either the link of one edge between the positions of the nodes it
    names, every node being in place and every earlier edge linked, or the
    compilation of the complete graph. *)
Theorem build_graph_exact (s : TopologySnapshot) :
  NoDup (ids s) ->
  match build_graph (E := E) factory s with
  | Ok g =>
      Forall2 (fun n b => factory (ns_id n) = Some b) (nodes s) (g_nodes g) /\
      Forall2 (fun e e' => endpoint_of s (e_from e) (e_from e') /\ endpoint_of s (e_to e) (e_to e'))
        (edges s) (g_links g)
  | Err (NoFactory id) => id ∈ ids s /\ factory id = None
  | Err (EdgeFromUnknown id) =>
      (id ∉ ids s) /\ (exists e, e ∈ edges s /\ (e_from e).1 = id) /\ ~ topo_wf s
  | Err (EdgeToUnknown id) =>
      (id ∉ ids s) /\ (exists e, e ∈ edges s /\ (e_to e).1 = id) /\ ~ topo_wf s
  | Err (GraphError err) => (forall id, id ∈ ids s -> is_Some (factory id)) /\ library_refused s err
  end.
Proof.
  intros Hnd. pose proof (build_graph_cases s Hnd) as Hc.
  destruct (build_graph factory s) as [g|[]]; try done.
  - destruct Hc as (Hid & e & He & Hf). split_and!; [done|by eauto|]. intros [_ Hwf].
    destruct (Hwf e He) as [(n & Hn & En & _) _]. apply Hid. rewrite <- Hf, <- En.
    unfold ids. by apply list_elem_of_fmap_2.
  - destruct Hc as (Hid & e & He & Hf). split_and!; [done|by eauto|]. intros [_ Hwf].
    destruct (Hwf e He) as [_ (n & Hn & En & _)]. apply Hid. rewrite <- Hf, <- En.
    unfold ids. by apply list_elem_of_fmap_2.
Qed.

(** C11: the live graph catches up with the topology.  However topology
    changes, turns of the rebuild thread and engine cycles interleave, and
    however many events the channel drops, once the changes stop and the thread
    has had enough turns (three per unread event and two more), the next engine
    cycle runs the graph of the current topology, whenever that topology
    builds; the slot is empty and nothing is left to do. *)
Theorem engine_catches_up (topo : TopologySnapshot) (graph g : G) (evs : list engine_event) (n : nat) :
  let w := world_run factory channel_capacity (world_init topo graph) evs in
  (3 * w_unread w + 2 <= n)%nat ->
  build_graph factory (w_topo w) = Ok g ->
  let w' := world_step factory channel_capacity
              (world_run factory channel_capacity w (replicate n ThreadTurn)) EngineTurn in
  w_topo w' = w_topo w /\ w_unread w' = 0%nat /\ w_pc w' = RIdle /\ w_slot w' = None /\
  evolved g (w_graph w').
Proof.
  intros w Hn Hg w'. set (w1 := world_run factory channel_capacity w (replicate n ThreadTurn)) in *.
  destruct (threads_catch_up n w) as [Hb Ht]; [unfold backlog; destruct (w_pc w); lia|]. fold w1 in Hb, Ht.
  assert (Hi : world_inv w1) by (apply world_run_inv, world_run_inv; done).
  unfold backlog, world_inv in *. destruct (w_pc w1) eqn:Hpc; [lia|lia|].
  destruct Hi as [|Hs]; [lia|]. rewrite <- Ht in Hg.
  pose proof (settled_engine w1 Hs g) as Hset. unfold w' in *.
  cbn in Hset |- *. unfold engine_step in *. destruct (w_slot w1) eqn:Hsl; cbn in Hset |- *;
    (split_and!; [done|lia|done|done|]); by destruct (Hset Hg) as [|[]].
Qed.

End engine_facts.

(** A three-node topology and the factory of the examples. *)
Definition demo_port : PortMeta := {| direction := Output; pm_channels := 1; sample_format := SF_F32 |}.
Definition demo_topo : TopologySnapshot :=
  {| nodes := [{| ns_id := 4; ns_inputs := []; ns_outputs := [demo_port] |};
               {| ns_id := 9; ns_inputs := [demo_port]; ns_outputs := [] |}];
     edges := [{| e_from := (4, 0); e_to := (9, 0) |}] |}.
Definition demo_factory (id : Z) : option (BuiltNode Z) := Some (if id =? 9 then Sink id else Plain id).

Lemma build_graph_exact_witness :
  exists g : list_graph Z, build_graph demo_factory demo_topo = Ok g /\
    g_links g = [{| e_from := (0, 0); e_to := (1, 0) |}] /\
    Forall2 (fun n b => demo_factory (ns_id n) = Some b) (nodes demo_topo) (g_nodes g).
Proof.
  eexists. split; [reflexivity|]. split; [reflexivity|].
  refine (proj1 (build_graph_exact (G := list_graph Z) demo_factory demo_topo _)).
  apply (bool_decide_eq_true_1 _). reflexivity.
Defined.

Lemma engine_catches_up_witness :
  let w := world_run demo_factory 2 (world_init topo_new (g_new : list_graph Z))
             [ThreadTurn; Mutated (AddNode {| ns_id := 4; ns_inputs := []; ns_outputs := [] |}); ThreadTurn; EngineTurn] in
  exists g, build_graph demo_factory (w_topo w) = Ok g /\
    evolved g (w_graph (world_step demo_factory 2 (world_run demo_factory 2 w (replicate 5 ThreadTurn)) EngineTurn)).
Proof.
  intros w. eexists. split; [reflexivity|].
  refine (proj2 (proj2 (proj2 (proj2 (engine_catches_up demo_factory 2 topo_new g_new _
    [ThreadTurn; Mutated (AddNode {| ns_id := 4; ns_inputs := []; ns_outputs := [] |}); ThreadTurn; EngineTurn]
    5 _ eq_refl))))).
  vm_compute. lia.
Defined.
