(* ===== verification/AudioNodes.v ===== *)
(** * Audio nodes: the delay line and the file player

    [crates/audio-engine/src/nodes/delay.rs] and [file_source.rs].  Samples are
    32-bit floats by their bits ({!F32}); frames are planar.  An index out of
    range, which panics, is [None].  The specification of the delay is the
    recurrence of a feedback echo, that of the player the periodic or
    zero-extended reading of its buffer. *)

From S2P Require Import Prelude F32.
Local Open Scope Z_scope.
Import F32.

Record AudioFrame : Type := { fr_channels : Z; fr_rate : Z; fr_samples : list f32 }.

(** ** Delay *)

(** 0.99 to the nearest 32-bit float. *)
Definition FEEDBACK_CEIL : f32 := 0x3F7D70A4.

Record DelayNode : Type := {
  buffer : list (list f32);
  write_pos : list nat;
  delay_samples : nat;
  feedback : f32;
  mix : f32
}.

(** The fields of a new node. *)
Definition DelayNode_init (max_delay_samples delay_samples : nat) (feedback mix : f32) (channels : Z)
    : DelayNode :=
  let cap := Nat.max max_delay_samples 1 in
  let delay := Nat.min (Nat.max delay_samples 1) cap in
  let ch := Z.to_nat (Z.max channels 1) in
  {| buffer := replicate ch (replicate cap zero);
     write_pos := replicate ch 0%nat;
     delay_samples := delay;
     feedback := clamp zero FEEDBACK_CEIL feedback;
     mix := clamp zero one mix |}.

(** [None]: the allocation of a channel's buffer panics. *)
Definition DelayNode_new (max_delay_samples delay_samples : nat) (feedback mix : f32) (channels : Z)
    : option DelayNode :=
  if vec_fits (Nat.max max_delay_samples 1)
  then Some (DelayNode_init max_delay_samples delay_samples feedback mix channels) else None.

Definition process_sample (d : DelayNode) (x : f32) (ch : nat) : option (DelayNode * f32) :=
  buf ← buffer d !! ch;
  wp ← write_pos d !! ch;
  let cap := length buf in
  let read_pos := ((wp + cap - delay_samples d) mod cap)%nat in
  delayed ← buf !! read_pos;
  _ ← buf !! wp;
  let wet := add x (mul delayed (feedback d)) in
  let dry := mul x (sub one (mix d)) in
  Some ({| buffer := <[ch := <[wp := wet]> buf]> (buffer d);
           write_pos := <[ch := ((wp + 1) mod cap)%nat]> (write_pos d);
           delay_samples := delay_samples d; feedback := feedback d; mix := mix d |},
        add dry (mul wet (mix d))).

(** The inner loop, over the sample indices of one channel. *)
Fixpoint delay_inner (idxs : list nat) (c : nat) (inp : list f32) (d : DelayNode) (out : list f32)
    : option (DelayNode * list f32) :=
  match idxs with
  | [] => Some (d, out)
  | idx :: idxs =>
      x ← inp !! idx;
      '(d, y) ← process_sample d x c;
      _ ← out !! idx;
      delay_inner idxs c inp d (<[idx := y]> out)
  end.

Fixpoint delay_outer (cs : list nat) (per_ch : nat) (inp : list f32) (d : DelayNode) (out : list f32)
    : option (DelayNode * list f32) :=
  match cs with
  | [] => Some (d, out)
  | c :: cs =>
      '(d, out) ← delay_inner (seq (c * per_ch) per_ch) c inp d out;
      delay_outer cs per_ch inp d out
  end.

(** [process] with its first input and output frame; with either missing it
    returns at once. *)
Definition delay_process (d : DelayNode) (inp : AudioFrame) (out : list f32)
    : option (DelayNode * list f32) :=
  let ch := Z.to_nat (fr_channels inp) in
  let n := Nat.min (length (fr_samples inp)) (length out) in
  if (ch =? 0)%nat || (n =? 0)%nat then Some (d, out)
  else delay_outer (seq 0 ch) (n / ch)%nat (fr_samples inp) d out.

(** Successive cycles, each with a fresh output frame. *)
Fixpoint delay_cycles (d : DelayNode) (blocks : list AudioFrame) : option (DelayNode * list (list f32)) :=
  match blocks with
  | [] => Some (d, [])
  | b :: blocks =>
      '(d, out) ← delay_process d b (replicate (length (fr_samples b)) zero);
      '(d, outs) ← delay_cycles d blocks;
      Some (d, out :: outs)
  end.

(** ** File player *)

Record FileSource : Type := {
  fs_samples : list f32;
  fs_channels : Z;
  fs_rate : Z;
  looping : bool;
  read_pos : nat;
  ended : bool
}.

Definition FileSource_new (samples : list f32) (channels sample_rate : Z) (looping : bool) : FileSource :=
  {| fs_samples := samples; fs_channels := channels; fs_rate := sample_rate; looping := looping;
     read_pos := 0; ended := match samples with [] => true | _ => channels =? 0 end |}.

Definition is_ended (s : FileSource) : bool := ended s.
Definition position (s : FileSource) : nat := read_pos s.
Definition total_frames (s : FileSource) : nat :=
  (length (fs_samples s) / Z.to_nat (Z.max (fs_channels s) 1))%nat.
Definition into_parts (s : FileSource) : list f32 * Z * Z * bool :=
  (fs_samples s, fs_channels s, fs_rate s, looping s).

(** The sample for channel [c] at [local_pos]; the reads are in range. *)
Definition source_sample (s : FileSource) (stride c local_pos : nat) : f32 :=
  if (local_pos <? stride)%nat then nth (c * stride + local_pos) (fs_samples s) zero
  else if looping s then nth (c * stride + local_pos mod stride) (fs_samples s) zero
  else zero.

(** The two loops of [process]: channel [c], sample [i]. *)
Definition source_fill (s : FileSource) (stride per_ch ch : nat) (out : list f32) : list f32 :=
  fill (fun '(c, i) => (c * per_ch + i)%nat) (fun '(c, i) => source_sample s stride c (read_pos s + i))
    (pairs ch per_ch) out.

Definition silence (out : list f32) : list f32 := replicate (length out) zero.

Definition with_pos (s : FileSource) (pos : nat) (e : bool) : FileSource :=
  {| fs_samples := fs_samples s; fs_channels := fs_channels s; fs_rate := fs_rate s;
     looping := looping s; read_pos := pos; ended := e |}.

Definition source_process (s : FileSource) (out : AudioFrame) : FileSource * AudioFrame :=
  let ch := Z.to_nat (fs_channels s) in
  let n := length (fr_samples out) in
  let emit (l : list f32) := {| fr_channels := fs_channels s; fr_rate := fs_rate s; fr_samples := l |} in
  if (ch =? 0)%nat || (n =? 0)%nat || bool_decide (fs_samples s = []) || ended s
  then (s, emit (silence (fr_samples out)))
  else
    let stride := (length (fs_samples s) / ch)%nat in
    if (stride =? 0)%nat then (s, emit (silence (fr_samples out)))
    else
      let per_ch := (n / ch)%nat in
      let filled := source_fill s stride per_ch ch (fr_samples out) in
      if looping s then (with_pos s ((read_pos s + per_ch) mod stride) (ended s), emit filled)
      else
        let pos := (read_pos s + per_ch)%nat in
        (with_pos s pos (if (stride <=? pos)%nat then true else ended s), emit filled).

(** Successive cycles with output frames of the given lengths, silent before. *)
Fixpoint source_cycles (s : FileSource) (lens : list nat) : FileSource * list (list f32) :=
  match lens with
  | [] => (s, [])
  | n :: lens =>
      let '(s, out) := source_process s {| fr_channels := 0; fr_rate := 0; fr_samples := replicate n zero |} in
      let '(s, outs) := source_cycles s lens in
      (s, fr_samples out :: outs)
  end.

(** ** Echo, the specification of the delay *)

Definition echo_tap (D : nat) (wets : list f32) (t : nat) : f32 :=
  if (t <? D)%nat then zero else default zero (wets !! (t - D)%nat).

Fixpoint echo (D : nat) (fb : f32) (hist xs : list f32) : list f32 :=
  match xs with
  | [] => []
  | x :: xs =>
      let w := add x (mul (echo_tap D hist (length hist)) fb) in
      w :: echo D fb (hist ++ [w]) xs
  end.

Definition mix_out (mx : f32) (x w : f32) : f32 := add (mul x (sub one mx)) (mul w mx).

(** The samples of channel [c] over a sequence of planar blocks. *)
Definition channel_of (ch c : nat) (blocks : list (list f32)) : list f32 :=
  blocks ≫= fun b => take (length b / ch) (drop (c * (length b / ch)) b).

Lemma length_echo D fb hist xs : length (echo D fb hist xs) = length xs.
Proof. revert hist. induction xs as [|x xs IH]; intros hist; cbn; [done|]. by rewrite IH. Qed.

Lemma echo_app D fb hist xs ys :
  echo D fb hist (xs ++ ys) = echo D fb hist xs ++ echo D fb (hist ++ echo D fb hist xs) ys.
Proof.
  revert hist. induction xs as [|x xs IH]; intros hist; cbn; [by rewrite app_nil_r|].
  by rewrite IH, <- app_assoc.
Qed.

(** The recurrence. *)
Lemma echo_lookup D fb hist xs t x :
  (0 < D)%nat -> xs !! t = Some x ->
  let all := hist ++ echo D fb hist xs in
  all !! (length hist + t)%nat = Some (add x (mul (echo_tap D all (length hist + t)) fb)).
Proof.
  intros HD. revert hist t. induction xs as [|y xs IH]; intros hist t Ht; [done|].
  cbn [echo]. set (w := add y (mul (echo_tap D hist (length hist)) fb)).
  destruct t as [|t].
  - injection Ht as ->. cbv zeta. rewrite Nat.add_0_r, list_lookup_middle by done. f_equal. unfold w.
    do 2 f_equal. unfold echo_tap. destruct (Nat.ltb_spec (length hist) D); [done|].
    by rewrite lookup_app_l by lia.
  - specialize (IH (hist ++ [w]) t Ht). cbv zeta in IH. rewrite length_app in IH. cbn [length] in IH.
    rewrite <- app_assoc in IH. cbn [app] in IH. cbv zeta.
    replace (length hist + S t)%nat with (length hist + 1 + t)%nat by lia. done.
Qed.

(** ** The ring of one channel *)

(** Position [k] samples behind the cursor. *)
Definition behind (cap wp k : nat) : nat := ((wp + cap - k) mod cap)%nat.

Lemma behind_eq cap wp k :
  (wp < cap)%nat -> (1 <= k <= cap)%nat ->
  behind cap wp k = (if (k <=? wp)%nat then wp - k else wp + cap - k)%nat.
Proof.
  intros Hw Hk. unfold behind. destruct (Nat.leb_spec k wp).
  - replace (wp + cap - k)%nat with (wp - k + 1 * cap)%nat by lia.
    rewrite Nat.Div0.mod_add. apply Nat.mod_small. lia.
  - apply Nat.mod_small. lia.
Qed.

Lemma succ_mod cap wp : (wp < cap)%nat -> ((wp + 1) mod cap = if (wp + 1 =? cap)%nat then 0 else wp + 1)%nat.
Proof.
  intros Hw. destruct (Nat.eqb_spec (wp + 1) cap) as [->|]; [apply Nat.Div0.mod_same|apply Nat.mod_small; lia].
Qed.

(** [buf] with cursor [wp] remembers the last samples of [hist], and zeros
    before its start. *)
Definition ring_holds (buf : list f32) (wp : nat) (hist : list f32) : Prop :=
  (wp < length buf)%nat /\
  forall k, (1 <= k <= length buf)%nat ->
    buf !! behind (length buf) wp k =
      Some (if (k <=? length hist)%nat then default zero (hist !! (length hist - k)%nat) else zero).

Lemma ring_holds_push buf wp hist w :
  ring_holds buf wp hist -> ring_holds (<[wp := w]> buf) ((wp + 1) mod length buf) (hist ++ [w]).
Proof.
  intros [Hw Hb]. unfold ring_holds. rewrite length_insert, (succ_mod _ _ Hw), length_app. cbn [length].
  set (cap := length buf) in *. set (wp' := (if (wp + 1 =? cap)%nat then 0 else wp + 1)%nat).
  assert (Hw' : (wp' < cap)%nat) by (unfold wp'; destruct (Nat.eqb_spec (wp + 1) cap); lia).
  split; [done|]. intros k Hk. destruct (Nat.leb_spec k (length hist + 1)) as [Hkl|Hkl];
    destruct (decide (k = 1%nat)) as [->|Hk1]; try lia.
  - assert (behind cap wp' 1 = wp) as ->.
    { rewrite behind_eq by lia. unfold wp'. destruct (Nat.eqb_spec (wp + 1) cap); guards; lia. }
    rewrite list_lookup_insert_eq by done. rewrite Nat.add_sub, lookup_app_r by lia.
    by rewrite Nat.sub_diag.
  - assert (behind cap wp' k = behind cap wp (k - 1)) as ->.
    { rewrite !behind_eq by lia. unfold wp'. destruct (Nat.eqb_spec (wp + 1) cap); guards; lia. }
    rewrite list_lookup_insert_ne by (rewrite behind_eq by lia; guards; lia).
    rewrite Hb by lia. destruct (Nat.leb_spec (k - 1) (length hist)); [|lia].
    rewrite lookup_app_l by lia. do 3 f_equal. lia.
  - assert (behind cap wp' k = behind cap wp (k - 1)) as ->.
    { rewrite !behind_eq by lia. unfold wp'. destruct (Nat.eqb_spec (wp + 1) cap); guards; lia. }
    rewrite list_lookup_insert_ne by (rewrite behind_eq by lia; guards; lia).
    rewrite Hb by lia. by destruct (Nat.leb_spec (k - 1) (length hist)); [lia|].
Qed.

(** Every channel's ring holds that channel's history. *)
Definition delay_inv (cap D : nat) (fb mx : f32) (ch : nat) (d : DelayNode) (hist : nat -> list f32) : Prop :=
  delay_samples d = D /\ feedback d = fb /\ mix d = mx /\
  forall c, (c < ch)%nat -> exists buf wp,
    buffer d !! c = Some buf /\ write_pos d !! c = Some wp /\ length buf = cap /\ ring_holds buf wp (hist c).

Definition extend (hist : nat -> list f32) (c : nat) (ws : list f32) : nat -> list f32 :=
  fun c' => if decide (c = c') then hist c' ++ ws else hist c'.

Section delay_channel.
Context (cap D : nat) (fb mx : f32) (ch : nat) (HD : (1 <= D <= cap)%nat).
Implicit Types hist : nat -> list f32.

Lemma delay_inv_ext d h1 h2 :
  (forall c, (c < ch)%nat -> h1 c = h2 c) -> delay_inv cap D fb mx ch d h1 -> delay_inv cap D fb mx ch d h2.
Proof.
  intros He (H1 & H2 & H3 & Hc). split_and!; try done. intros c Hlt. rewrite <- (He c Hlt). by apply Hc.
Qed.

Lemma process_sample_inv d hist c x :
  delay_inv cap D fb mx ch d hist -> (c < ch)%nat ->
  let w := add x (mul (echo_tap D (hist c) (length (hist c))) fb) in
  exists d', process_sample d x c = Some (d', mix_out mx x w) /\
    delay_inv cap D fb mx ch d' (extend hist c [w]).
Proof.
  intros (Ed & Ef & Em & Hc) Hlt w. destruct (Hc c Hlt) as (buf & wp & Hb & Hp & Hl & Hr).
  unfold process_sample. rewrite Hb, Hp. cbn [mbind option_bind]. rewrite Ed.
  pose proof Hr as [Hw Hk]. specialize (Hk D). rewrite Hl in Hk. specialize (Hk HD).
  unfold behind in Hk. rewrite Hl, Hk. cbn [mbind option_bind].
  destruct (lookup_lt_is_Some_2 buf wp Hw) as [old ->]. cbn [mbind option_bind].
  assert (Etap : (if (D <=? length (hist c))%nat then default zero (hist c !! (length (hist c) - D)%nat) else zero)
    = echo_tap D (hist c) (length (hist c))).
  { unfold echo_tap. destruct (Nat.leb_spec D (length (hist c))), (Nat.ltb_spec (length (hist c)) D); done || lia. }
  rewrite Etap, Ef, Em. fold w. eexists. split; [done|]. split_and!; try done. cbn.
  intros c' Hlt'. unfold extend. destruct (decide (c = c')) as [<-|Hne].
  - exists (<[wp := w]> buf), ((wp + 1) mod length buf)%nat.
    rewrite !list_lookup_insert_eq by (by eapply lookup_lt_Some). rewrite Hl. split_and!; try done.
    + by rewrite length_insert.
    + rewrite <- Hl. by apply ring_holds_push.
  - destruct (Hc c' Hlt') as (buf' & wp' & ? & ? & ? & ?). exists buf', wp'.
    by rewrite !list_lookup_insert_ne by done.
Qed.

(** The inner loop writes the channel's echo over its part of the output. *)
Lemma delay_inner_ok c inp xs pre ys post d hist :
  delay_inv cap D fb mx ch d hist -> (c < ch)%nat ->
  (forall i x, xs !! i = Some x -> inp !! (length pre + i)%nat = Some x) -> length ys = length xs ->
  exists d', delay_inner (seq (length pre) (length xs)) c inp d (pre ++ ys ++ post) =
      Some (d', pre ++ zip_with (mix_out mx) xs (echo D fb (hist c) xs) ++ post) /\
    delay_inv cap D fb mx ch d' (extend hist c (echo D fb (hist c) xs)).
Proof.
  revert pre ys d hist. induction xs as [|x xs IH]; intros pre ys d hist Hinv Hc Hin Hl.
  { destruct ys; [|done]. exists d. split; [done|]. eapply delay_inv_ext; [|exact Hinv].
    intros c' _. unfold extend. destruct (decide _); [by rewrite app_nil_r|done]. }
  destruct ys as [|y ys]; [done|]. cbn [length seq delay_inner].
  pose proof (Hin 0%nat x eq_refl) as Hx. rewrite Nat.add_0_r in Hx. rewrite Hx. cbn [mbind option_bind].
  destruct (process_sample_inv d hist c x Hinv Hc) as (d1 & -> & Hinv1). cbn [mbind option_bind].
  set (w := add x (mul (echo_tap D (hist c) (length (hist c))) fb)) in *.
  cbn [app]. rewrite list_lookup_middle by done. cbn [mbind option_bind].
  replace (<[length pre := mix_out mx x w]> (pre ++ y :: ys ++ post))
    with ((pre ++ [mix_out mx x w]) ++ ys ++ post)
    by (rewrite insert_app_r_alt, Nat.sub_diag by lia; cbn; by rewrite <- app_assoc).
  replace (S (length pre)) with (length (pre ++ [mix_out mx x w])) by (rewrite length_app; cbn; lia).
  destruct (IH (pre ++ [mix_out mx x w]) ys d1 (extend hist c [w]) Hinv1 Hc) as (d2 & -> & Hinv2).
  - intros i z Hz. rewrite length_app. cbn [length]. rewrite <- Nat.add_assoc. by apply (Hin (S i) z).
  - by injection Hl.
  - exists d2. unfold extend in Hinv2 at 2 3. unfold extend at 1. rewrite decide_True by done. split.
    + cbn [echo zip_with]. fold w. by rewrite <- app_assoc.
    + eapply delay_inv_ext; [|exact Hinv2]. intros c' _. unfold extend. cbn [echo]. fold w.
      destruct (decide (c = c')) as [<-|]; [|done]. rewrite decide_True by done. by rewrite <- app_assoc.
Qed.

End delay_channel.

(** ** Blocks *)

Lemma bind_block_in {A B} (f : A -> list B) (w : nat) l k x :
  (forall y, y ∈ l -> length (f y) = w) -> l !! k = Some x -> take w (drop (k * w) (l ≫= f)) = f x.
Proof.
  revert k. induction l as [|a l IH]; intros [|k] Hw Hk; [done..| |].
  - injection Hk as ->. cbn [Nat.mul]. rewrite drop_0, bind_cons.
    apply take_app_length'. symmetry. apply Hw. left.
  - rewrite bind_cons. cbn [Nat.mul].
    rewrite drop_app_ge by (rewrite Hw by left; lia).
    rewrite (Hw a) by left. rewrite Nat.add_comm, Nat.add_sub. apply IH; [|done].
    intros y Hy. apply Hw. by right.
Qed.

Lemma bind_ext_in {A B} (f g : A -> list B) l : (forall x, x ∈ l -> f x = g x) -> l ≫= f = l ≫= g.
Proof.
  induction l as [|a l IH]; intros Hfg; [done|]. rewrite !bind_cons, Hfg by left. f_equal.
  apply IH. intros x Hx. apply Hfg. by right.
Qed.

(** The part of channel [c] in a planar block. *)
Definition chan (per c : nat) (b : list f32) : list f32 := take per (drop (c * per) b).

Lemma length_chan per ch c b : length b = (ch * per)%nat -> (c < ch)%nat -> length (chan per c b) = per.
Proof. intros Hb Hc. unfold chan. rewrite length_take, length_drop, Hb. nia. Qed.

Lemma channel_of_cons ch c b bs per :
  (0 < ch)%nat -> length b = (ch * per)%nat ->
  channel_of ch c (b :: bs) = chan per c b ++ channel_of ch c bs.
Proof.
  intros Hch Hb. unfold channel_of. rewrite bind_cons. unfold chan.
  by replace (length b / ch)%nat with per by (rewrite Hb, Nat.mul_comm, Nat.div_mul; lia).
Qed.

Section delay_blocks.
Context (cap D : nat) (fb mx : f32) (ch : nat) (HD : (1 <= D <= cap)%nat).
Implicit Types hist : nat -> list f32.

Definition chan_out hist (per : nat) (b : list f32) (c : nat) : list f32 :=
  zip_with (mix_out mx) (chan per c b) (echo D fb (hist c) (chan per c b)).

Lemma length_chan_out hist per b c :
  length b = (ch * per)%nat -> (c < ch)%nat -> length (chan_out hist per b c) = per.
Proof.
  intros Hb Hc. unfold chan_out. rewrite length_zip_with, length_echo, (length_chan _ ch) by done. lia.
Qed.

Lemma delay_outer_ok k c0 per b d hist pre rest :
  delay_inv cap D fb mx ch d hist -> length b = (ch * per)%nat -> (c0 + k = ch)%nat ->
  length pre = (c0 * per)%nat -> length rest = (k * per)%nat ->
  exists d', delay_outer (seq c0 k) per b d (pre ++ rest) =
      Some (d', pre ++ (seq c0 k ≫= chan_out hist per b)) /\
    delay_inv cap D fb mx ch d'
      (fun c => hist c ++ if (c0 <=? c)%nat then echo D fb (hist c) (chan per c b) else []).
Proof.
  revert c0 d hist pre rest. induction k as [|k IH]; intros c0 d hist pre rest Hinv Hb Hk Hpre Hrest.
  { destruct rest; [|done]. exists d. split; [done|]. eapply delay_inv_ext; [|exact Hinv].
    intros c Hc. cbn. destruct (Nat.leb_spec c0 c); [lia|]. by rewrite app_nil_r. }
  cbn [seq delay_outer]. rewrite <- (take_drop per rest).
  assert (Hlc : length (chan per c0 b) = per) by (apply (length_chan per ch); [done|lia]).
  destruct (delay_inner_ok cap D fb mx ch HD c0 b (chan per c0 b) pre (take per rest) (drop per rest) d hist Hinv)
    as (d1 & E & Hinv1).
  - lia.
  - intros i x Hi. unfold chan in Hi. apply lookup_take_Some in Hi as [Hi _].
    rewrite lookup_drop in Hi. by rewrite Hpre.
  - rewrite Hlc, length_take. lia.
  - rewrite Hlc, Hpre in E. rewrite E. cbn [mbind option_bind]. fold (chan_out hist per b c0).
    rewrite app_assoc.
    destruct (IH (S c0) d1 (extend hist c0 (echo D fb (hist c0) (chan per c0 b)))
      (pre ++ chan_out hist per b c0) (drop per rest) Hinv1 Hb) as (d2 & E2 & Hinv2).
    + lia.
    + rewrite length_app, length_chan_out, Hpre by (done || lia). lia.
    + rewrite length_drop, Hrest. lia.
    + exists d2. rewrite E2. split.
      * rewrite bind_cons, <- app_assoc. do 4 f_equal. apply bind_ext_in. intros c Hc.
        apply elem_of_seq in Hc. unfold chan_out, extend. rewrite decide_False by lia. done.
      * eapply delay_inv_ext; [|exact Hinv2]. intros c Hc. cbn beta. unfold extend.
        destruct (decide (c0 = c)) as [<-|Hne].
        -- destruct (Nat.leb_spec (S c0) c0); [lia|]. destruct (Nat.leb_spec c0 c0); [|lia].
           by rewrite app_nil_r.
        -- destruct (Nat.leb_spec (S c0) c), (Nat.leb_spec c0 c); done || lia.
Qed.

Lemma delay_process_ok d hist (f : AudioFrame) per :
  delay_inv cap D fb mx ch d hist -> (0 < ch)%nat -> Z.to_nat (fr_channels f) = ch ->
  length (fr_samples f) = (ch * per)%nat ->
  exists d', delay_process d f (replicate (length (fr_samples f)) zero) =
      Some (d', seq 0 ch ≫= chan_out hist per (fr_samples f)) /\
    delay_inv cap D fb mx ch d' (fun c => hist c ++ echo D fb (hist c) (chan per c (fr_samples f))).
Proof.
  intros Hinv Hch Hf Hl. unfold delay_process. rewrite Hf, length_replicate, Nat.min_id.
  assert (Hdiv : (length (fr_samples f) / ch = per)%nat)
    by (rewrite Hl, Nat.mul_comm; apply Nat.div_mul; lia).
  destruct (delay_outer_ok ch 0 per (fr_samples f) d hist [] (replicate (length (fr_samples f)) zero) Hinv Hl)
    as (d' & E & Hinv'); [lia|done|by rewrite length_replicate|].
  cbn [app] in E. destruct (Nat.eqb_spec ch 0); [lia|]. cbn [orb].
  destruct (Nat.eqb_spec (length (fr_samples f)) 0) as [E0|]; [|by rewrite Hdiv; eauto].
  assert (per = 0%nat) as -> by lia. apply length_zero_iff_nil in E0. rewrite E0 in *.
  exists d. split.
  - f_equal. f_equal. cbn [replicate length]. symmetry. apply nil_length_inv.
    rewrite (length_bind_const _ 0); [lia|]. intros c. by unfold chan_out, chan.
  - eapply delay_inv_ext; [|exact Hinv]. intros c _. unfold chan. cbn. by rewrite app_nil_r.
Qed.

Lemma delay_cycles_ok blocks d hist :
  delay_inv cap D fb mx ch d hist -> (0 < ch)%nat ->
  Forall (fun f => Z.to_nat (fr_channels f) = ch /\ exists per, length (fr_samples f) = (ch * per)%nat) blocks ->
  exists d' outs, delay_cycles d blocks = Some (d', outs) /\
    forall c, (c < ch)%nat ->
      channel_of ch c outs = zip_with (mix_out mx) (channel_of ch c (fr_samples <$> blocks))
        (echo D fb (hist c) (channel_of ch c (fr_samples <$> blocks))).
Proof.
  intros Hinv Hch Hall. revert d hist Hinv. induction Hall as [|f fs (Hf & per & Hl) Hall IH]; intros d hist Hinv.
  { exists d, []. done. }
  destruct (delay_process_ok d hist f per Hinv Hch Hf Hl) as (d1 & E1 & Hinv1).
  destruct (IH d1 _ Hinv1) as (d2 & outs & E2 & Hout).
  cbn [delay_cycles]. rewrite E1. cbn [mbind option_bind]. rewrite E2. cbn [mbind option_bind].
  do 2 eexists. split; [done|]. intros c Hc. set (b := fr_samples f) in *.
  assert (Hlo : length (seq 0 ch ≫= chan_out hist per b) = (ch * per)%nat).
  { clear -Hl HD. assert (G : forall cs, (forall c, c ∈ cs -> (c < ch)%nat) ->
      length (cs ≫= chan_out hist per b) = (length cs * per)%nat).
    { intros cs. induction cs as [|c cs IHc]; intros Hcs; [done|]. rewrite bind_cons, length_app, IHc.
      - rewrite length_chan_out; [cbn; lia|done|apply Hcs; left].
      - intros c' Hc'. apply Hcs. by right. }
    rewrite G, length_seq; [done|]. intros c Hc. apply elem_of_seq in Hc. lia. }
  rewrite fmap_cons, (channel_of_cons ch c b _ per Hch Hl), (channel_of_cons ch c _ _ per Hch Hlo), Hout by done.
  unfold chan at 1. rewrite (bind_block_in _ per _ c c).
  - rewrite echo_app, zip_with_app by (by rewrite length_echo). done.
  - intros c' Hc'. apply elem_of_seq in Hc'. apply length_chan_out; [done|lia].
  - by rewrite lookup_seq_lt.
Qed.

End delay_blocks.

Lemma delay_new_inv m dl fb mx channels :
  let d := DelayNode_init m dl fb mx channels in
  delay_inv (Nat.max m 1) (delay_samples d) (feedback d) (mix d) (Z.to_nat (Z.max channels 1)) d (fun _ => []).
Proof.
  intros d. split_and!; try done. intros c Hc. exists (replicate (Nat.max m 1) zero), 0%nat.
  cbn [d DelayNode_init buffer write_pos]. rewrite !lookup_replicate_2, length_replicate by done.
  split_and!; try done. split; [rewrite length_replicate; lia|]. rewrite length_replicate. intros k Hk. cbn.
  rewrite behind_eq by lia. rewrite lookup_replicate_2 by (guards; lia).
  destruct k; [lia|]. done.
Qed.

(** ** The player *)

(** What the player owes for channel [c] at time [t]. *)
Definition playback (s : FileSource) (stride c t : nat) : f32 :=
  if looping s then nth (c * stride + t mod stride) (fs_samples s) zero
  else if (t <? stride)%nat then nth (c * stride + t) (fs_samples s) zero else zero.

Section player.
Context (samples : list f32) (channels rate : Z) (loop : bool).
Context (ch stride : nat) (Hch : Z.to_nat channels = ch) (Hpos : (0 < ch)%nat)
  (Hstride : (length samples / ch = stride)%nat) (Hs : (0 < stride)%nat).

(** [played] frames after the start. *)
Definition player_at (s : FileSource) (played : nat) : Prop :=
  fs_samples s = samples /\ fs_channels s = channels /\ fs_rate s = rate /\ looping s = loop /\
  if loop then read_pos s = (played mod stride)%nat /\ ended s = false
  else ended s = (stride <=? played)%nat /\ (ended s = false -> read_pos s = played).


Lemma NoDup_rows n m : NoDup ((fun '(c, i) => (c * m + i)%nat) <$> pairs n m).
Proof.
  apply NoDup_fmap_2_strong; [|apply NoDup_pairs].
  intros [c i] [c' i'] H1 H2 Heq. rewrite elem_of_pairs in H1, H2.
  assert (c = c') as -> by nia. f_equal. lia.
Qed.

Lemma chan_fill (g : nat -> nat -> f32) per out c :
  length out = (ch * per)%nat -> (c < ch)%nat ->
  chan per c (fill (fun '(c, i) => (c * per + i)%nat) (fun '(c, i) => g c i) (pairs ch per) out) =
  g c <$> seq 0 per.
Proof.
  intros Hl Hc. apply list_eq. intros i. unfold chan. rewrite list_lookup_fmap.
  destruct (decide (i < per)%nat) as [Hi|Hi].
  - rewrite lookup_take_lt, lookup_drop, lookup_seq_lt by done. cbn [fmap option_fmap option_map Nat.add].
    apply (fill_lookup (fun '(c, i) => (c * per + i)%nat) (fun '(c, i) => g c i) (pairs ch per) out (c, i)).
    + apply NoDup_rows.
    + by apply elem_of_pairs.
    + rewrite Hl. nia.
  - rewrite lookup_take_ge by lia. by rewrite lookup_seq_ge by lia.
Qed.

Lemma chan_silence per out c :
  length out = (ch * per)%nat -> (c < ch)%nat -> chan per c (silence out) = replicate per zero.
Proof.
  intros Hl Hc. unfold chan, silence. rewrite Hl, drop_replicate, take_replicate. f_equal. nia.
Qed.

Lemma player_new : player_at (FileSource_new samples channels rate loop) 0.
Proof.
  assert (He : match samples with [] => true | _ => channels =? 0 end = false).
  { destruct samples as [|x l]; [cbn in Hstride; rewrite Nat.Div0.div_0_l in Hstride; lia|].
    apply Z.eqb_neq. lia. }
  split_and!; try done. cbn. rewrite He.
  destruct loop; [by rewrite Nat.Div0.mod_0_l|]. split; [|done].
  by destruct (Nat.leb_spec stride 0); [lia|].
Qed.

(** One cycle. *)
Lemma source_process_ok s played per frame :
  player_at s played -> length (fr_samples frame) = (ch * per)%nat ->
  let '(s', out) := source_process s frame in
  player_at s' (played + per) /\ length (fr_samples out) = (ch * per)%nat /\
  forall c, (c < ch)%nat ->
    chan per c (fr_samples out) = (fun i => playback s stride c (played + i)) <$> seq 0 per.
Proof.
  unfold player_at. intros (E1 & E2 & E3 & E4 & Hp) Hl. unfold source_process. rewrite E1, E2, Hch, Hstride.
  destruct (Nat.eqb_spec ch 0); [lia|]. cbn [orb].
  assert (Hne : samples <> []) by (intros ->; cbn in Hstride; rewrite Nat.Div0.div_0_l in Hstride; lia).
  rewrite bool_decide_eq_false_2 by done. rewrite orb_false_r.
  destruct (Nat.eqb_spec (length (fr_samples frame)) 0) as [E0|Hn0].
  { assert (per = 0%nat) as -> by nia. cbn [orb]. rewrite Nat.add_0_r. cbn [fr_samples]. split; [done|].
    split; [unfold silence; by rewrite length_replicate|]. intros c Hc. by rewrite chan_silence. }
  cbn [orb]. destruct (Nat.eqb_spec stride 0); [lia|].
  assert (Hdiv : (length (fr_samples frame) / ch = per)%nat)
    by (rewrite Hl, Nat.mul_comm; apply Nat.div_mul; lia).
  rewrite Hdiv, E4. destruct (ended s) eqn:He.
  - destruct loop; [by destruct Hp|]. destruct Hp as [Hp _]. symmetry in Hp. apply Nat.leb_le in Hp.
    cbn [fr_samples]. split; [|split].
    + rewrite He. split_and!; try done. symmetry. apply Nat.leb_le. lia.
    + unfold silence. by rewrite length_replicate.
    + intros c Hc. rewrite chan_silence by done. symmetry. apply list_eq. intros i.
      rewrite list_lookup_fmap. destruct (decide (i < per)%nat).
      * rewrite lookup_seq_lt, lookup_replicate_2 by done. cbn. f_equal. unfold playback. rewrite E4.
        by destruct (Nat.ltb_spec (played + i) stride); [lia|].
      * rewrite lookup_seq_ge by lia. symmetry. apply lookup_ge_None_2. rewrite length_replicate. lia.
  - destruct loop; cbn [fr_samples]; (split; [|split]).
    + destruct Hp as [Hp _]. split_and!; try done. cbn. rewrite Hp.
      by rewrite Nat.Div0.add_mod_idemp_l.
    + unfold source_fill. by rewrite length_fill.
    + intros c Hc. unfold source_fill.
      rewrite (chan_fill (fun c i => source_sample s stride c (read_pos s + i))) by done.
      apply list_fmap_ext. intros _ i _. unfold source_sample, playback. rewrite E4.
      destruct Hp as [-> _]. destruct (Nat.ltb_spec (played mod stride + i) stride).
      * by rewrite <- (Nat.mod_small (played mod stride + i) stride), Nat.Div0.add_mod_idemp_l by done.
      * by rewrite Nat.Div0.add_mod_idemp_l.
    + destruct Hp as [_ Hp]. specialize (Hp eq_refl). split_and!; try done; cbn; rewrite Hp.
      * by destruct (Nat.leb_spec stride (played + per)).
      * done.
    + unfold source_fill. by rewrite length_fill.
    + intros c Hc. unfold source_fill.
      rewrite (chan_fill (fun c i => source_sample s stride c (read_pos s + i))) by done.
      apply list_fmap_ext. intros _ i _. unfold source_sample, playback. rewrite E4.
      destruct Hp as [_ Hp]. by rewrite (Hp eq_refl).
Qed.

Lemma source_cycles_ok pers s played :
  player_at s played ->
  let '(s', outs) := source_cycles s ((fun per => (ch * per)%nat) <$> pers) in
  player_at s' (played + sum_list pers) /\
  forall c, (c < ch)%nat ->
    channel_of ch c outs = (fun i => playback s stride c (played + i)) <$> seq 0 (sum_list pers).
Proof.
  revert s played. induction pers as [|per pers IH]; intros s played Hp; cbn [fmap list_fmap source_cycles sum_list].
  { rewrite Nat.add_0_r. done. }
  set (frame := {| fr_channels := 0; fr_rate := 0; fr_samples := replicate (ch * per) zero |}).
  pose proof (source_process_ok s played per frame Hp) as H1.
  assert (Hpb : forall s1 t c, player_at s1 t -> playback s1 stride c = playback s stride c).
  { intros s1 t c (F1 & _ & _ & F4 & _). destruct Hp as (E1 & _ & _ & E4 & _). unfold playback.
    by rewrite F1, F4, E1, E4. }
  destruct (source_process s frame) as [s1 out].
  destruct H1 as (Hp1 & Hl1 & Hc1); [cbn; by rewrite length_replicate|].
  specialize (IH s1 (played + per)%nat Hp1).
  destruct (source_cycles s1 _) as [s2 outs]. destruct IH as [Hp2 Hc2].
  split; [by rewrite Nat.add_assoc|]. intros c Hc.
  rewrite (channel_of_cons ch c _ _ per Hpos Hl1), Hc1, Hc2 by done.
  rewrite seq_app, fmap_app. f_equal. cbn [Nat.add].
  apply list_eq. intros i. rewrite !list_lookup_fmap. destruct (decide (i < sum_list pers)%nat).
  - rewrite !lookup_seq_lt by done. cbn. rewrite (Hpb s1 _ c Hp1). do 2 f_equal. lia.
  - by rewrite !lookup_seq_ge by lia.
Qed.

End player.

(** ** Theorems *)

(** C17: the delay line is a feedback echo.  Over any sequence of planar blocks
    with the node's channel count, processing never panics, and on every channel
    the output at time [t], counted across blocks, is the dry sample scaled by
    one minus the mix plus the wet one scaled by the mix, where the wet sequence
    obeys wet(t) = x(t) + feedback * wet(t - delay) from silence, with the delay
    kept between one sample and the capacity and feedback and mix clamped; the
    channels do not influence each other.  The constructor returns this node unless
    the bytes of one channel's buffer exceed [isize::MAX], when it panics. *)
Theorem delay_is_echo (m dl : nat) (fb mx : f32) (channels : Z) (blocks : list AudioFrame) :
  let d := DelayNode_init m dl fb mx channels in
  let ch := Z.to_nat channels in
  (0 < ch)%nat ->
  Forall (fun f => fr_channels f = channels /\ exists per, length (fr_samples f) = (ch * per)%nat) blocks ->
  (DelayNode_new m dl fb mx channels = Some d <-> 4 * Z.of_nat (Nat.max m 1) < 2 ^ 63) /\
  exists d' outs, delay_cycles d blocks = Some (d', outs) /\ (1 <= delay_samples d <= Nat.max m 1)%nat /\
  forall c, (c < ch)%nat ->
    let xs := channel_of ch c (fr_samples <$> blocks) in
    exists wets, length wets = length xs /\ length (channel_of ch c outs) = length xs /\
    forall t x, xs !! t = Some x ->
      let prev := if (t <? delay_samples d)%nat then zero else default zero (wets !! (t - delay_samples d)%nat) in
      let wet := add x (mul prev (clamp zero FEEDBACK_CEIL fb)) in
      wets !! t = Some wet /\
      channel_of ch c outs !! t =
        Some (add (mul x (sub one (clamp zero one mx))) (mul wet (clamp zero one mx))).
Proof.
  intros d ch Hch Hall. split.
  { unfold DelayNode_new, vec_fits. fold d. destruct (Z.leb_spec (4 * Z.of_nat (Nat.max m 1)) (2 ^ 63 - 1)); split; intros; try done; lia. }
  assert (HD : (1 <= delay_samples d <= Nat.max m 1)%nat) by (cbn; lia).
  pose proof (delay_new_inv m dl fb mx channels) as Hinv. cbv zeta in Hinv. fold d in Hinv.
  replace (Z.to_nat (Z.max channels 1)) with ch in Hinv by (unfold ch in *; lia).
  destruct (delay_cycles_ok _ _ _ _ _ HD blocks d _ Hinv Hch) as (d' & outs & E & Hout).
  { eapply Forall_impl; [exact Hall|]. intros f [-> Hper]. done. }
  exists d', outs. split; [done|]. split; [done|]. intros c Hc. specialize (Hout c Hc). cbv zeta.
  set (xs := channel_of ch c (fr_samples <$> blocks)) in *.
  exists (echo (delay_samples d) (feedback d) [] xs).
  split; [apply length_echo|]. split; [rewrite Hout, length_zip_with, length_echo; lia|].
  intros t x Hx. pose proof (echo_lookup (delay_samples d) (feedback d) [] xs t x) as He.
  cbn [app length Nat.add] in He. specialize (He ltac:(lia) Hx). split; [exact He|].
  rewrite Hout, lookup_zip_with, Hx. cbn [mbind option_bind]. rewrite He. done.
Qed.

Lemma delay_is_echo_witness :
  let d := DelayNode_init 4 2 half one 1 in
  let blocks := [{| fr_channels := 1; fr_rate := 48000; fr_samples := [one; zero; zero] |};
                 {| fr_channels := 1; fr_rate := 48000; fr_samples := [zero; zero] |}] in
  exists d' outs, delay_cycles d blocks = Some (d', outs) /\ outs = [[one; zero; half]; [zero; 0x3E800000]].
Proof.
  intros d blocks. destruct (delay_is_echo 4 2 half one 1 blocks) as (_ & d' & outs & E & _).
  - vm_compute. lia.
  - apply Forall_cons_2; [split; [reflexivity|exists 3%nat; reflexivity]|].
    apply Forall_cons_2; [split; [reflexivity|exists 2%nat; reflexivity]|apply Forall_nil_2].
  - exists d', outs. split; [exact E|]. vm_compute in E. by injection E.
Defined.

(** The file player plays its buffer.  With at least one frame per channel,
    over any sequence of output blocks, whatever their sizes, channel [c] at time
    [t], counted across blocks, is the buffer's sample at [t] modulo its length
    when looping, and its sample at [t] followed by silence otherwise; the player
    reports its end exactly when a non-looping buffer has been played out. *)
Theorem file_source_playback (samples : list f32) (channels rate : Z) (loop : bool) (pers : list nat) :
  let ch := Z.to_nat channels in
  let s := FileSource_new samples channels rate loop in
  (0 < ch)%nat -> (0 < total_frames s)%nat ->
  let '(s', outs) := source_cycles s ((fun per => (ch * per)%nat) <$> pers) in
  (forall c, (c < ch)%nat ->
     channel_of ch c outs =
       (fun t => if loop then nth (c * total_frames s + t mod total_frames s) samples zero
                 else if (t <? total_frames s)%nat then nth (c * total_frames s + t) samples zero
                 else zero) <$> seq 0 (sum_list pers)) /\
  is_ended s' = negb loop && (total_frames s <=? sum_list pers)%nat /\
  (is_ended s' = false -> position s' = if loop then (sum_list pers mod total_frames s)%nat else sum_list pers).
Proof.
  intros ch s Hch Ht. set (stride := total_frames s) in *.
  assert (Est : (length samples / ch)%nat = stride).
  { unfold stride, total_frames, s. cbn. f_equal. unfold ch in *. lia. }
  pose proof (player_new samples channels rate loop ch stride eq_refl Hch Est Ht) as Hp. fold s in Hp.
  pose proof (source_cycles_ok samples channels rate loop ch stride eq_refl Hch Est Ht pers s 0 Hp) as Hc.
  destruct (source_cycles s _) as [s' outs]. destruct Hc as [(F1 & F2 & F3 & F4 & Hend) Hout].
  split; [intros c Hlt; by rewrite (Hout c Hlt)|].
  unfold is_ended, position. rewrite Nat.add_0_l in Hend. destruct loop; cbn [negb andb].
  - destruct Hend as [-> ->]. done.
  - destruct Hend as [-> Hr]. split; [done|]. intros He. rewrite <- Hr; [done|exact He].
Qed.

Lemma file_source_playback_witness :
  let s := FileSource_new [one; half; zero; two] 2 48000 true in
  let '(s', outs) := source_cycles s [6; 2]%nat in
  channel_of 2 0 outs = [one; half; one; half] /\ is_ended s' = false.
Proof.
  intros s.
  pose proof (file_source_playback [one; half; zero; two] 2 48000 true [3; 1]%nat) as H. cbv zeta in H.
  destruct (source_cycles _ _) as [s' outs] eqn:E in H.
  destruct H as (H1 & H2 & _); [vm_compute; lia|vm_compute; lia|].
  change (source_cycles s [6; 2]%nat) with
    (source_cycles (FileSource_new [one; half; zero; two] 2 48000 true) ((fun per => (Z.to_nat 2 * per)%nat) <$> [3; 1]%nat)).
  rewrite E. split; [|exact H2].
  change (channel_of (Z.to_nat 2) 0 outs = [one; half; one; half]).
  rewrite (H1 0%nat ltac:(vm_compute; lia)). reflexivity.
Defined.
