(* ===== verification/FileLoad.v ===== *)
(** * Loading a file into a player

    [load_file_source] of [crates/audio-engine/src/nodes/file_source.rs]: the
    decoder (of [audio_codec_bsd], a parameter) delivers planar frames until the
    end of the stream, and their samples are appended to one buffer, which the
    player of {!AudioNodes} reads as planar. *)

From Stdlib Require Import String.
From S2P Require Import Prelude F32 AudioNodes.
Local Open Scope Z_scope.
Import F32.

(** The decoder library: choosing a decoder by the file's first bytes, opening the
    stream (channel count and rate), the next frame or the end. *)
Class DecoderOps (P D E : Type) : Type := {
  dc_sniff : P -> result D E;
  dc_open : D -> P -> result (D * (Z * Z)) E;
  dc_next : D -> result (option (AudioFrame * D)) E;
  dc_decode_error : String.string -> E
}.

Section load.
Context {P D E : Type} `{DecoderOps P D E}.

(** [while let Some(frame) = decoder.next_frame()? { .. }]; [None] when the fuel
    runs out before the stream does. *)
Fixpoint decode_loop (fuel : nat) (d : D) (samples : list f32) : option (result (list f32) E) :=
  match fuel with
  | O => None
  | S fuel =>
      match dc_next d with
      | Err e => Some (Err e)
      | Ok None => Some (Ok samples)
      | Ok (Some (frame, d)) => decode_loop fuel d (samples ++ fr_samples frame)
      end
  end.

Definition load_file_source (fuel : nat) (path : P) (looping : bool) : option (result FileSource E) :=
  match dc_sniff path with
  | Err e => Some (Err e)
  | Ok decoder =>
      match dc_open decoder path with
      | Err e => Some (Err e)
      | Ok (decoder, (channels, sample_rate)) =>
          res ← decode_loop fuel decoder [];
          Some (match res with
                | Err e => Err e
                | Ok [] => Err (dc_decode_error "empty stream: zero frames decoded")
                | Ok samples => Ok (FileSource_new samples channels sample_rate looping)
                end)
      end
  end.

(** What a decoder delivers: frames and then the end, or frames and then an error. *)
Inductive delivers : D -> list AudioFrame -> option E -> Prop :=
| delivers_end d : dc_next d = Ok None -> delivers d [] None
| delivers_error d e : dc_next d = Err e -> delivers d [] (Some e)
| delivers_frame d f d' fs o : dc_next d = Ok (Some (f, d')) -> delivers d' fs o -> delivers d (f :: fs) o.

Lemma decode_loop_delivers d fs o fuel samples : delivers d fs o -> (length fs < fuel)%nat ->
  decode_loop fuel d samples = Some (match o with Some e => Err e | None => Ok (samples ++ (fs ≫= fr_samples)) end).
Proof.
  intros Hd. revert fuel samples. induction Hd as [d Hn|d e Hn|d f d' fs o Hn _ IH]; intros fuel samples Hf;
    destruct fuel as [|fuel]; cbn [length] in Hf; try lia; cbn [decode_loop]; rewrite Hn; [by rewrite app_nil_r|done|].
  rewrite IH by lia. destruct o; [done|]. by rewrite bind_cons, app_assoc.
Qed.

Lemma channel_of_mono (blocks : list (list f32)) : channel_of 1 0 blocks = concat blocks.
Proof.
  unfold channel_of. induction blocks as [|b bs IH]; [done|]. rewrite bind_cons, IH. cbn [concat].
  rewrite Nat.div_1_r, Nat.mul_0_l, drop_0, take_ge by lia. done.
Qed.

Lemma bind_concat (fs : list AudioFrame) : fs ≫= fr_samples = concat (fr_samples <$> fs).
Proof. induction fs as [|f fs IH]; [done|]. rewrite bind_cons, IH. done. Qed.

(** C18: What a loaded file plays.  Loading reads the whole stream, whatever the number of
    frames, reports the decoder's error or an empty stream, and otherwise puts the
    frames' samples one after the other.  A player takes its buffer for planar: for a mono file, and for a
    file delivered in a single frame, its channels are the stream's channels; but
    a stereo file delivered in two frames of equal length plays, on the left, the left
    and then the right channel of the first frame, and the second frame on the right. *)
Theorem file_load_layout (path : P) (loop : bool) (d0 d : D) (channels rate : Z) (fs : list AudioFrame) (o : option E) (fuel : nat)
    (ch := Z.to_nat channels) (stream := fr_samples <$> fs) :
  dc_sniff path = Ok d0 -> dc_open d0 path = Ok (d, (channels, rate)) -> delivers d fs o -> (length fs < fuel)%nat -> (0 < ch)%nat ->
  match o with
  | Some e => load_file_source fuel path loop = Some (Err e)
  | None =>
      (concat stream = [] -> load_file_source fuel path loop = Some (Err (dc_decode_error "empty stream: zero frames decoded"))) /\
      (concat stream <> [] -> exists s, load_file_source fuel path loop = Some (Ok s) /\
        (ch = 1%nat \/ length fs = 1%nat -> forall c, (c < ch)%nat -> chan (total_frames s) c (fs_samples s) = channel_of ch c stream) /\
        (forall f g n, fs = [f; g] -> ch = 2%nat -> length (fr_samples f) = (2 * n)%nat -> length (fr_samples g) = (2 * n)%nat ->
           chan (total_frames s) 0 (fs_samples s) = chan n 0 (fr_samples f) ++ chan n 1 (fr_samples f) /\
           chan (total_frames s) 1 (fs_samples s) = chan n 0 (fr_samples g) ++ chan n 1 (fr_samples g)))
  end.
Proof.
  intros Hs Ho Hd Hf Hch. unfold load_file_source. rewrite Hs, Ho, (decode_loop_delivers d fs o fuel [] Hd Hf).
  cbn [mbind option_bind app]. destruct o as [e|]; [done|]. rewrite bind_concat. fold stream.
  split; [by intros ->|]. intros Hne. destruct (concat stream) as [|x l] eqn:Ec; [done|]. rewrite <- Ec. clear Hne.
  eexists. split; [reflexivity|].
  assert (Ht : total_frames (FileSource_new (concat stream) channels rate loop) = (length (concat stream) / ch)%nat).
  { unfold total_frames. cbn [fs_samples fs_channels FileSource_new]. f_equal. unfold ch in *. lia. }
  rewrite Ht. cbn [fs_samples FileSource_new]. clear Ht Ec x l. split.
  - intros [H1|H1] c Hc.
    + rewrite H1 in Hc |- *. replace c with 0%nat by lia. rewrite channel_of_mono. unfold chan.
      rewrite Nat.div_1_r, Nat.mul_0_l, drop_0, take_ge by lia. done.
    + destruct fs as [|f [|]]; try done. unfold stream. cbn. rewrite !app_nil_r. done.
  - intros f g n -> H2 Lf Lg. unfold stream, chan. cbn [fmap list_fmap concat]. rewrite app_nil_r, length_app, Lf, Lg, H2.
    replace ((2 * n + 2 * n) / 2)%nat with (2 * n)%nat by (replace (2 * n + 2 * n)%nat with (2 * n * 2)%nat by lia; symmetry; apply Nat.div_mul; lia).
    rewrite Nat.mul_0_l, !Nat.mul_1_l, !drop_0.
    assert (Hsplit : forall l : list f32, length l = (2 * n)%nat -> take n l ++ take n (drop n l) = l).
    { intros l Hl. rewrite (take_ge (drop n l)) by (rewrite length_drop; lia). apply take_drop. }
    rewrite !Hsplit by done. split; [by rewrite take_app_length' by lia|].
    rewrite drop_app_length' by lia. by rewrite take_ge by lia.
Qed.
End load.

(** A decoder that hands out a list of frames. *)
#[export] Instance list_decoder : DecoderOps (list AudioFrame) (list AudioFrame) String.string := {
  dc_sniff p := Ok p;
  dc_open _ p := Ok (p, (2, 44100));
  dc_next d := Ok (match d with f :: d => Some (f, d) | [] => None end);
  dc_decode_error s := s
}.

(** Two stereo frames of one sample per channel: the second sample on the left
    is the first one of the right channel. *)
Lemma file_load_layout_witness :
  let fs := [{| fr_channels := 2; fr_rate := 44100; fr_samples := [one; neg_one] |};
             {| fr_channels := 2; fr_rate := 44100; fr_samples := [half; two] |}] in
  exists s, load_file_source 3 fs true = Some (Ok s) /\ chan (total_frames s) 0 (fs_samples s) = [one; neg_one] /\
    channel_of 2 0 (fr_samples <$> fs) = [one; half].
Proof.
  intros fs. destruct (file_load_layout fs true fs fs 2 44100 fs None 3) as [_ Hok].
  - reflexivity.
  - reflexivity.
  - unfold fs. repeat (eapply delivers_frame; [reflexivity|]). apply delivers_end. reflexivity.
  - cbn. lia.
  - vm_compute. lia.
  - destruct Hok as (s & E & _ & Hst); [done|]. exists s. split; [exact E|]. split; [|reflexivity].
    destruct (Hst _ _ 1%nat eq_refl eq_refl eq_refl eq_refl) as [-> _]. reflexivity.
Defined.
