(* ===== verification/BrowserGw.v ===== *)
(** * The browser gateway

    [crates/gw-browser/src/codec.rs], [server.rs] and [lib.rs], with the
    rebuild-resilient bridge of [crates/audio-engine/src/bridge.rs] that its
    worker drives.  The codec is a 6-byte header and planar little-endian
    samples.  The server is a state machine over what the socket delivers, the
    pump timer, the outcome of each send, and whatever the audio graph does to
    the rings in between; it is proved against the interface of its push and
    pop callbacks, which a pair of rings and the bridge implement. *)

From S2P Require Import Prelude F32 External AudioEngine.
Local Open Scope Z_scope.

(** ** Errors and configuration *)

(** The messages of [BadFrame], with the values they interpolate. *)
Inductive frame_fault : Type :=
| ChannelOverflow
| ShortHeader
| UnknownTag (tag : Z)
| ZeroChannels
| ChannelMismatch (header expected : Z)
| RateMismatch (header expected : Z)
| EmptyPayload
| RaggedPayload (len stride : Z)
| OpusDisabled
| OpusInit
| OpusDecode.

Inductive GatewayError (X : Type) : Type :=
| Unimplemented
| WebSocket (x : X)
| BadFrame (f : frame_fault).
Arguments Unimplemented {X}.
Arguments WebSocket {X}.
Arguments BadFrame {X}.

Inductive BrowserTransport : Type := TransportWebSocket | WebRtc | Hls.

Definition HEADER_LEN : nat := 6.
Definition TAG_PCM : Z := 0.
Definition TAG_OPUS : Z := 1.
Definition RING_CAPACITY : nat := 128.

Record FrameSpec : Type := { channels : Z; sample_rate : Z }.

Definition FrameSpec_new (channels sample_rate : Z) : FrameSpec :=
  {| channels := channels; sample_rate := sample_rate |}.

(** ** Codec *)

(** [audio_opus_bsd::OpusDecoder], present with the [opus] feature. *)
Record OpusOps (F : Type) : Type := {
  opus_decoder : Type;
  opus_new : Z -> Z -> option opus_decoder;
  opus_decode : opus_decoder -> bytes -> option F
}.
Arguments opus_decoder {F}.
Arguments opus_new {F}.
Arguments opus_decode {F}.

Section codec.
Context {F X : Type} `{AudioFrameOps F}.
(** The build: [None] without the [opus] feature. *)
Context (opus : option (OpusOps F)).

Definition encode_frame (frame : F) : result bytes (GatewayError X) :=
  if frame_channels frame <? 256 then
    Ok ([TAG_PCM; frame_channels frame] ++ le_bytes 4 (frame_rate frame)
        ++ (frame_samples frame ≫= le_bytes 4))
  else Err (BadFrame ChannelOverflow).

Definition decode_pcm_payload (payload : bytes) (chans rate : Z) (spec : FrameSpec)
    : result F (GatewayError X) :=
  if chans =? 0 then Err (BadFrame ZeroChannels)
  else if negb (chans =? channels spec) then Err (BadFrame (ChannelMismatch chans (channels spec)))
  else if negb (rate =? sample_rate spec) then Err (BadFrame (RateMismatch rate (sample_rate spec)))
  else if bool_decide (payload = []) then Err (BadFrame EmptyPayload)
  else
    let stride := chans * 4 in
    let len := Z.of_nat (length payload) in
    if negb (len mod stride =? 0) then Err (BadFrame (RaggedPayload len stride))
    else Ok (from_planar (channels spec) (sample_rate spec) (of_le <$> chunks_exact 4 payload)).

Definition decode_opus (payload : bytes) (chans rate : Z) (spec : FrameSpec)
    : result F (GatewayError X) :=
  match opus with
  | None => Err (BadFrame OpusDisabled)
  | Some o =>
      if negb (chans =? channels spec) then Err (BadFrame (ChannelMismatch chans (channels spec)))
      else if negb (rate =? sample_rate spec) then Err (BadFrame (RateMismatch rate (sample_rate spec)))
      else
        let? decoder := ok_or (opus_new o rate (channels spec)) (BadFrame OpusInit) in
        ok_or (opus_decode o decoder payload) (BadFrame OpusDecode)
  end.

Definition decode_frame (msg : bytes) (spec : FrameSpec) : result F (GatewayError X) :=
  if (length msg <? HEADER_LEN)%nat then Err (BadFrame ShortHeader)
  else
    let tag := get msg 0 in
    let chans := get msg 1 in
    let rate := of_le [get msg 2; get msg 3; get msg 4; get msg 5] in
    let payload := drop HEADER_LEN msg in
    if tag =? TAG_PCM then decode_pcm_payload payload chans rate spec
    else if tag =? TAG_OPUS then decode_opus payload chans rate spec
    else Err (BadFrame (UnknownTag tag)).

End codec.

(** ** Gateway configuration *)

Record BrowserGateway (Addr : Type) : Type := {
  gw_listen_addr : Addr; gw_spec : FrameSpec; gw_num_frames : nat
}.
Arguments gw_listen_addr {Addr}.
Arguments gw_spec {Addr}.
Arguments gw_num_frames {Addr}.
Arguments Build_BrowserGateway {Addr}.

Section gateway.
Context {Addr : Type} (loopback : Addr).
Implicit Types gw : BrowserGateway Addr.

Definition BrowserGateway_new : BrowserGateway Addr :=
  {| gw_listen_addr := loopback; gw_spec := FrameSpec_new 2 48000; gw_num_frames := 256 |}.

Definition with_listen_addr gw (addr : Addr) : BrowserGateway Addr :=
  {| gw_listen_addr := addr; gw_spec := gw_spec gw; gw_num_frames := gw_num_frames gw |}.
Definition with_channels gw (chans : Z) : BrowserGateway Addr :=
  {| gw_listen_addr := gw_listen_addr gw; gw_spec := FrameSpec_new chans (sample_rate (gw_spec gw));
     gw_num_frames := gw_num_frames gw |}.
Definition with_sample_rate gw (rate : Z) : BrowserGateway Addr :=
  {| gw_listen_addr := gw_listen_addr gw; gw_spec := FrameSpec_new (channels (gw_spec gw)) rate;
     gw_num_frames := gw_num_frames gw |}.
Definition with_num_frames gw (n : nat) : BrowserGateway Addr :=
  {| gw_listen_addr := gw_listen_addr gw; gw_spec := gw_spec gw; gw_num_frames := n |}.

(** [RingSource::new] and [RingSink::new] box one end of a ring with the shape
    of the blocks it carries; rings are identified by the order of allocation,
    because their two ends are held by different owners. *)
Record RingNode : Type := { rn_ring : nat; rn_channels : Z; rn_rate : Z; rn_frames : nat }.

(** [register]: two rings are allocated and their graph ends added to the
    graph; the worker keeps the other ends. *)
Definition register {G E : Type} `{GraphOps G RingNode E} (next_ring : nat) gw (graph : G)
    : G * (Z * Z * nat * nat) :=
  let inbound := next_ring in
  let outbound := S next_ring in
  let node (r : nat) := {| rn_ring := r; rn_channels := channels (gw_spec gw);
                           rn_rate := sample_rate (gw_spec gw); rn_frames := gw_num_frames gw |} in
  let '(graph, src) := g_add_node graph (node inbound) in
  let '(graph, sink) := g_add_sink graph (node outbound) in
  (graph, (src, sink, inbound, outbound)).

End gateway.

(** ** The callbacks the server drives *)

(** [push] and [pop] of [run_accept_loop_io], on the state they share with the
    graph.  For the laws, [io_in] and [io_out] are the frames waiting in either
    direction ([None] when there is no ring), [io_room] tells whether a push
    finds room, and [io_wf] is the implementation's invariant. *)
Class GatewayIo (S F : Type) : Type := {
  io_push : S -> F -> S * result unit F;
  io_pop : S -> S * option F;
  io_in : S -> option (list F);
  io_out : S -> option (list F);
  io_room : S -> bool;
  io_wf : S -> Prop
}.

Class GatewayIoLaws (S F : Type) `{GatewayIo S F} : Prop := {
  io_push_room : forall s f, io_wf s -> io_room s = true -> exists s' q,
    io_push s f = (s', Ok tt) /\ io_in s = Some q /\ io_in s' = Some (q ++ [f]) /\
    io_out s' = io_out s /\ io_wf s';
  io_push_noroom : forall s f, io_room s = false -> io_push s f = (s, Err f);
  io_pop_some : forall s f q, io_wf s -> io_out s = Some (f :: q) -> exists s',
    io_pop s = (s', Some f) /\ io_out s' = Some q /\ io_in s' = io_in s /\ io_wf s';
  io_pop_none : forall s, (io_out s = None \/ io_out s = Some []) -> io_pop s = (s, None)
}.

(** ** The server *)

(** [tungstenite::Message]; [Other] is Text, Pong and raw frames. *)
Inductive Message : Type :=
| Binary (b : bytes)
| Close
| Ping
| Other.

Section server.
Context {S F X V : Type} `{AudioFrameOps F, GatewayIo S F}.
Context (opus : option (OpusOps F)) (spec : FrameSpec).
(** What the rest of the process does to the shared state. *)
Context (env : S -> V -> S).

(** Where [handle_connection_io] is: in [select!], or in the pump's loop. *)
Inductive conn_pc : Type := CSelect | CPump | CDone (r : result unit (GatewayError X)).

Inductive srv_pc : Type :=
| SAccept
| SHandshake
| SConn (c : conn_pc)
| SReturned (e : GatewayError X).

Inductive event : Type :=
| EvAccept (r : result unit X)                  (* listener.accept() *)
| EvHandshake (r : result unit X)               (* accept_async(stream) *)
| EvMsg (m : option (result Message X))         (* ws_source.next() *)
| EvTick                                        (* pump.tick() *)
| EvPump (send_ok : bool)                       (* one round of the pump loop *)
| EvEnv (v : V).

(** The shared state, what was written to clients, and the frames handed to
    [push] and taken by [pop]. *)
Record conn_world : Type := {
  cw_io : S;
  cw_sent : list Message;
  cw_pushed : list (F * bool);
  cw_popped : list F
}.

Definition with_io (w : conn_world) (s : S) : conn_world :=
  {| cw_io := s; cw_sent := cw_sent w; cw_pushed := cw_pushed w; cw_popped := cw_popped w |}.
Definition sending (w : conn_world) (m : Message) : conn_world :=
  {| cw_io := cw_io w; cw_sent := cw_sent w ++ [m]; cw_pushed := cw_pushed w; cw_popped := cw_popped w |}.

(** [push(frame)], the outcome only logged. *)
Definition push_frame (w : conn_world) (f : F) : conn_world :=
  let '(s, r) := io_push (cw_io w) f in
  {| cw_io := s; cw_sent := cw_sent w; cw_pushed := cw_pushed w ++ [(f, is_ok r)];
     cw_popped := cw_popped w |}.

(** The inbound arm of [select!]. *)
Definition on_message (w : conn_world) (m : option (result Message X)) : conn_world * conn_pc :=
  match m with
  | Some (Ok (Binary b)) =>
      match decode_frame (X := X) opus b spec with
      | Ok frame => (push_frame w frame, CSelect)
      | Err _ => (w, CSelect)
      end
  | Some (Ok Close) | None => (sending w Close, CDone (Ok tt))
  | Some (Ok Ping) | Some (Ok Other) => (w, CSelect)
  | Some (Err x) => (w, CDone (Err (WebSocket x)))
  end.

(** One round of [while let Ok(frame) = pop()]. *)
Definition pump_round (w : conn_world) (send_ok : bool) : conn_world * conn_pc :=
  match io_pop (cw_io w) with
  | (s, None) => (with_io w s, CSelect)
  | (s, Some frame) =>
      let w := {| cw_io := s; cw_sent := cw_sent w; cw_pushed := cw_pushed w;
                  cw_popped := cw_popped w ++ [frame] |} in
      match encode_frame (X := X) frame with
      | Ok b => if send_ok then (sending w (Binary b), CPump) else (w, CDone (Ok tt))
      | Err _ => (w, CPump)
      end
  end.

(** [handle_connection_io] after the handshake; an event that cannot happen
    where the task is does nothing. *)
Definition handle_connection_io (w : conn_world) (c : conn_pc) (ev : event) : conn_world * conn_pc :=
  match c, ev with
  | CSelect, EvMsg m => on_message w m
  | CSelect, EvTick => (w, CPump)
  | CPump, EvPump send_ok => pump_round w send_ok
  | _, _ => (w, c)
  end.

(** [run_accept_loop_io]: connections one after the other; how one ended is
    only logged, a failing listener ends the loop. *)
Definition run_accept_loop_io (w : conn_world) (p : srv_pc) (ev : event) : conn_world * srv_pc :=
  match ev with
  | EvEnv v => (with_io w (env (cw_io w) v), p)
  | _ =>
      match p, ev with
      | SAccept, EvAccept (Ok _) => (w, SHandshake)
      | SAccept, EvAccept (Err x) => (w, SReturned (WebSocket x))
      | SHandshake, EvHandshake (Ok _) => (w, SConn CSelect)
      | SHandshake, EvHandshake (Err _) => (w, SAccept)
      | SConn c, _ =>
          let '(w, c) := handle_connection_io w c ev in
          (w, match c with CDone _ => SAccept | _ => SConn c end)
      | _, _ => (w, p)
      end
  end.

Definition serve (s : S) (evs : list event) : conn_world * srv_pc :=
  foldl (fun '(w, p) ev => run_accept_loop_io w p ev)
    ({| cw_io := s; cw_sent := []; cw_pushed := []; cw_popped := [] |}, SAccept) evs.

End server.

(** ** The rings behind [serve] *)

(** The two rings of [register], with the frames the graph has taken from the
    one and put into the other. *)
Record ring_pair (R F : Type) : Type := {
  rp_in : R; rp_out : R; rp_taken : list F; rp_made : list F
}.
Arguments rp_in {R F}.
Arguments rp_out {R F}.
Arguments rp_taken {R F}.
Arguments rp_made {R F}.
Arguments Build_ring_pair {R F}.

Section rings.
Context {R F : Type} `{RingOps R F}.

#[export] Instance ring_pair_io : GatewayIo (ring_pair R F) F := {
  io_push s f :=
    match ring_push (rp_in s) f with
    | Ok r => ({| rp_in := r; rp_out := rp_out s; rp_taken := rp_taken s; rp_made := rp_made s |}, Ok tt)
    | Err f => (s, Err f)
    end;
  io_pop s :=
    match ring_pop (rp_out s) with
    | Some (f, r) =>
        ({| rp_in := rp_in s; rp_out := r; rp_taken := rp_taken s; rp_made := rp_made s |}, Some f)
    | None => (s, None)
    end;
  io_in s := Some (ring_items (rp_in s));
  io_out s := Some (ring_items (rp_out s));
  io_room s := (length (ring_items (rp_in s)) <? ring_capacity (rp_in s))%nat;
  io_wf _ := True
}.

(** The graph: its source takes a frame, its sink ships one (a full ring drops it). *)
Inductive graph_turn : Type := Take | Make (f : F).

Definition graph_env (s : ring_pair R F) (t : graph_turn) : ring_pair R F :=
  match t with
  | Take =>
      match ring_pop (rp_in s) with
      | Some (f, r) =>
          {| rp_in := r; rp_out := rp_out s; rp_taken := rp_taken s ++ [f]; rp_made := rp_made s |}
      | None => s
      end
  | Make f =>
      match ring_push (rp_out s) f with
      | Ok r => {| rp_in := rp_in s; rp_out := r; rp_taken := rp_taken s; rp_made := rp_made s ++ [f] |}
      | Err _ => s
      end
  end.
End rings.

(** ** The gateway bridge *)

Record GatewayBridge : Type := {
  gb_channels : Z; gb_sample_rate : Z; gb_num_frames : nat; gb_capacity : nat;
  gb_inbound : option nat; gb_outbound : option nat
}.

Definition DEFAULT_CAPACITY : nat := 128.

Definition GatewayBridge_with_capacity (channels sample_rate : Z) (num_frames capacity : nat) : GatewayBridge :=
  {| gb_channels := channels; gb_sample_rate := sample_rate; gb_num_frames := num_frames;
     gb_capacity := capacity; gb_inbound := None; gb_outbound := None |}.

Definition GatewayBridge_new (channels sample_rate : Z) (num_frames : nat) : GatewayBridge :=
  GatewayBridge_with_capacity channels sample_rate num_frames DEFAULT_CAPACITY.

Section bridge.
Context {R F : Type} `{RingAlloc R F}.
Implicit Types (b : GatewayBridge) (rings : list R).

(** All rings allocated so far; an end of a ring is its position. *)
Definition ring_node b (r : nat) : RingNode :=
  {| rn_ring := r; rn_channels := gb_channels b; rn_rate := gb_sample_rate b; rn_frames := gb_num_frames b |}.

Definition make_source_node b rings : GatewayBridge * list R * BuiltNode RingNode :=
  let r := length rings in
  ({| gb_channels := gb_channels b; gb_sample_rate := gb_sample_rate b; gb_num_frames := gb_num_frames b;
      gb_capacity := gb_capacity b; gb_inbound := Some r; gb_outbound := gb_outbound b |},
   rings ++ [ring_new (gb_capacity b)],
   Plain (ring_node b r)).

Definition make_sink_node b rings : GatewayBridge * list R * BuiltNode RingNode :=
  let r := length rings in
  ({| gb_channels := gb_channels b; gb_sample_rate := gb_sample_rate b; gb_num_frames := gb_num_frames b;
      gb_capacity := gb_capacity b; gb_inbound := gb_inbound b; gb_outbound := Some r |},
   rings ++ [ring_new (gb_capacity b)],
   Sink (ring_node b r)).

(** [push] and [pop] through an end of ring [r]. *)
Definition push_at rings (r : nat) (f : F) : list R * result unit F :=
  match rings !! r with
  | Some ring =>
      match ring_push ring f with
      | Ok ring => (<[r := ring]> rings, Ok tt)
      | Err f => (rings, Err f)
      end
  | None => (rings, Err f)
  end.

Definition pop_at rings (r : nat) : list R * option F :=
  match rings !! r with
  | Some ring =>
      match ring_pop ring with
      | Some (f, ring) => (<[r := ring]> rings, Some f)
      | None => (rings, None)
      end
  | None => (rings, None)
  end.

Definition push_inbound b rings (frame : F) : list R * result unit F :=
  match gb_inbound b with
  | Some p => push_at rings p frame
  | None => (rings, Err frame)
  end.

Definition pop_outbound b rings : list R * option F :=
  match gb_outbound b with
  | Some c => pop_at rings c
  | None => (rings, None)
  end.

(** The bridge, the rings, and the nodes made for graphs so far: a rebuilt
    graph holds the newest, the graph it replaces older ones. *)
Record bridge_world : Type := {
  bw_bridge : GatewayBridge; bw_rings : list R; bw_sources : list RingNode; bw_sinks : list RingNode
}.

Inductive bridge_op : Type :=
| OpMakeSource
| OpMakeSink
| OpPush (f : F)              (* worker *)
| OpPop                       (* worker *)
| OpTake (k : nat)            (* the k-th source node drains its ring *)
| OpPut (k : nat) (f : F).    (* the k-th sink node fills its ring *)

Inductive bridge_out : Type := ODone | OPushed (r : result unit F) | OPopped (r : option F).

Definition built_node (n : BuiltNode RingNode) : RingNode := match n with Plain n | Sink n => n end.

Definition bridge_step (w : bridge_world) (op : bridge_op) : bridge_world * bridge_out :=
  let b := bw_bridge w in
  let rings := bw_rings w in
  let on_rings rs := {| bw_bridge := b; bw_rings := rs; bw_sources := bw_sources w; bw_sinks := bw_sinks w |} in
  match op with
  | OpMakeSource =>
      let '(b, rings, n) := make_source_node b rings in
      ({| bw_bridge := b; bw_rings := rings; bw_sources := bw_sources w ++ [built_node n];
          bw_sinks := bw_sinks w |}, ODone)
  | OpMakeSink =>
      let '(b, rings, n) := make_sink_node b rings in
      ({| bw_bridge := b; bw_rings := rings; bw_sources := bw_sources w;
          bw_sinks := bw_sinks w ++ [built_node n] |}, ODone)
  | OpPush f => let '(rs, r) := push_inbound b rings f in (on_rings rs, OPushed r)
  | OpPop => let '(rs, r) := pop_outbound b rings in (on_rings rs, OPopped r)
  | OpTake k =>
      match bw_sources w !! k with
      | Some n => let '(rs, r) := pop_at rings (rn_ring n) in (on_rings rs, OPopped r)
      | None => (w, OPopped None)
      end
  | OpPut k f =>
      match bw_sinks w !! k with
      | Some n => let '(rs, r) := push_at rings (rn_ring n) f in (on_rings rs, OPushed r)
      | None => (w, OPushed (Err f))
      end
  end.

Fixpoint bridge_run (w : bridge_world) (ops : list bridge_op) : bridge_world * list bridge_out :=
  match ops with
  | [] => (w, [])
  | op :: ops =>
      let '(w, o) := bridge_step w op in
      let '(w, os) := bridge_run w ops in
      (w, o :: os)
  end.

Definition bridge_init (b : GatewayBridge) : bridge_world :=
  {| bw_bridge := b; bw_rings := []; bw_sources := []; bw_sinks := [] |}.
End bridge.

(** ** The codec *)

Section codec_facts.
Context {F X : Type} `{AudioFrameLaws F}.

Lemma samples_of_bytes (l : bytes) :
  byte_list l -> (length l mod 4 = 0)%nat -> (of_le <$> chunks_exact 4 l) ≫= le_bytes 4 = l.
Proof.
  intros Hl H4. rewrite <- (join_chunks_exact 4 l) at 2 by (lia || done).
  assert (Hc : Forall (fun c => length c = 4%nat /\ byte_list c) (chunks_exact 4 l)).
  { apply Forall_forall. intros c Hc. split; [by apply (chunks_exact_length 4 l); [lia|]|].
    apply list_elem_of_fmap in Hc as (k & -> & _). by apply Forall_take, Forall_drop. }
  induction Hc as [|c cs [Hlen Hb] _ IH]; [done|]. cbn [fmap list_fmap mjoin list_join].
  rewrite bind_cons, IH. f_equal. rewrite <- Hlen. by apply le_bytes_of_le.
Qed.

Lemma bytes_of_samples (s : list F32.f32) :
  Forall u32 s -> of_le <$> chunks_exact 4 (s ≫= le_bytes 4) = s.
Proof.
  intros Hs. rewrite chunks_exact_bind by (lia || apply length_le_bytes).
  rewrite <- list_fmap_compose. induction Hs as [|x s Hx _ IH]; [done|].
  rewrite fmap_cons, IH. f_equal. by apply of_le_le_bytes_id.
Qed.

Lemma samples_u32 (l : bytes) : byte_list l -> Forall u32 (of_le <$> chunks_exact 4 l).
Proof.
  intros Hl. apply Forall_fmap, Forall_forall. intros c Hc. cbn.
  assert (length c = 4%nat) as Hlen by (by apply (chunks_exact_length 4 l); [lia|]).
  apply list_elem_of_fmap in Hc as (k & -> & _).
  pose proof (of_le_range (take 4 (drop (k * 4) l))) as Hr. rewrite Hlen in Hr.
  apply Hr. by apply Forall_take, Forall_drop.
Qed.

Lemma header_split (msg : bytes) :
  (HEADER_LEN <= length msg)%nat ->
  msg = [get msg 0; get msg 1] ++ [get msg 2; get msg 3; get msg 4; get msg 5] ++ drop HEADER_LEN msg.
Proof. intros. do 6 (destruct msg as [|? msg]; [cbn in *; unfold HEADER_LEN in *; lia|]). done. Qed.

Lemma pcm_length_mod (s : list F32.f32) c :
  0 < c -> Z.of_nat (length (s ≫= le_bytes 4)) mod (c * 4) = 0 <-> Z.of_nat (length s) mod c = 0.
Proof.
  intros Hc. rewrite (length_bind_const _ 4) by apply length_le_bytes.
  rewrite Nat2Z.inj_mul, Zmult_mod_distr_r.
  pose proof (Z.mod_pos_bound (Z.of_nat (length s)) c). lia.
Qed.

(** What the server accepts from a client. *)
Definition pcm_frame (spec : FrameSpec) (f : F) : Prop := exists s,
  f = from_planar (channels spec) (sample_rate spec) s /\ 0 < channels spec < 256 /\
  s <> [] /\ Forall u32 s /\ Z.of_nat (length s) mod channels spec = 0.

Lemma frame_encode_decode (spec : FrameSpec) (f : F) :
  u32 (sample_rate spec) -> pcm_frame spec f ->
  exists msg, encode_frame (X := X) f = Ok msg /\ decode_frame (X := X) None msg spec = Ok f.
Proof.
  intros Hr (s & -> & Hc & Hne & Hs & Hm). unfold encode_frame.
  rewrite from_planar_channels, from_planar_rate, from_planar_samples.
  destruct (Z.ltb_spec (channels spec) 256); [|lia]. eexists. split; [done|].
  unfold decode_frame. set (msg := _ ++ _ ++ _).
  assert (length msg = HEADER_LEN + length (s ≫= le_bytes 4))%nat as Hlen by done.
  rewrite (proj2 (Nat.ltb_ge _ _)) by lia.
  replace (drop HEADER_LEN msg) with (s ≫= le_bytes 4) by done.
  change (get msg 0) with TAG_PCM. change (get msg 1) with (channels spec).
  replace (of_le _) with (sample_rate spec) by (symmetry; by apply (of_le_le_bytes_id 4)).
  cbn [TAG_PCM Z.eqb]. unfold decode_pcm_payload. rewrite !Z.eqb_refl.
  rewrite (proj2 (Z.eqb_neq _ _)) by lia. cbn [negb].
  rewrite bool_decide_eq_false_2.
  - rewrite (proj2 (pcm_length_mod s (channels spec) ltac:(lia)) Hm), bytes_of_samples; done.
  - intros Hn. apply Hne. apply (f_equal length) in Hn.
    rewrite (length_bind_const _ 4) in Hn by apply length_le_bytes. apply length_zero_iff_nil. cbn in Hn. lia.
Qed.

Lemma frame_decode_encode (spec : FrameSpec) (msg : bytes) (f : F) :
  byte_list msg -> decode_frame (X := X) None msg spec = Ok f ->
  pcm_frame spec f /\ encode_frame (X := X) f = Ok msg.
Proof.
  intros Hb. unfold decode_frame, decode_pcm_payload, decode_opus. intros Hd.
  destruct (Nat.ltb_spec (length msg) HEADER_LEN) as [|Hlen]; [done|].
  set (payload := drop HEADER_LEN msg) in *.
  destruct (Z.eqb_spec (get msg 0) TAG_PCM) as [Htag|]; [|by destruct (_ =? _)].
  destruct (Z.eqb_spec (get msg 1) 0); [done|].
  destruct (Z.eqb_spec (get msg 1) (channels spec)) as [Hch|]; [|done].
  destruct (Z.eqb_spec (of_le [get msg 2; get msg 3; get msg 4; get msg 5]) (sample_rate spec)) as [Hrate|]; [|done].
  cbn [negb] in Hd. destruct (bool_decide_reflect (payload = [])) as [|Hne]; [done|].
  destruct (Z.eqb_spec (Z.of_nat (length payload) mod (get msg 1 * 4)) 0) as [Hmod|]; [|done].
  injection Hd as <-.
  assert (Hp : byte_list payload) by (by apply Forall_drop).
  assert (u8 (get msg 1)) as H8 by (by apply get_u8). unfold uint in H8.
  assert (H4 : (length payload mod 4 = 0)%nat).
  { assert (Z.of_nat (length payload) mod 4 = 0).
    { apply Z.mod_divide; [lia|]. apply Z.mod_divide in Hmod; [|lia].
      destruct Hmod as [k ->]. exists (k * get msg 1). lia. }
    apply Nat2Z.inj. by rewrite Nat2Z.inj_mod. }
  split.
  - eexists. split; [done|]. split; [lia|]. split.
    + intros Hn. apply Hne. rewrite <- (samples_of_bytes payload Hp H4), Hn. done.
    + split; [by apply samples_u32|]. apply pcm_length_mod; [lia|].
      rewrite samples_of_bytes by done. congruence.
  - unfold encode_frame. rewrite from_planar_channels, from_planar_rate, from_planar_samples.
    destruct (Z.ltb_spec (channels spec) 256); [|lia].
    rewrite samples_of_bytes, <- Hch, <- Htag, <- Hrate by done. f_equal.
    rewrite (le_bytes_of_le [_; _; _; _]); [by rewrite <- header_split|].
    repeat apply Forall_cons_2; [by apply get_u8..|apply Forall_nil_2].
Qed.

(** C32: The browser codec is exact.  Without the Opus feature, a binary message
    is accepted exactly when it is the encoding of a PCM frame of the
    configured shape with whole, non-empty channels, and the frame decoded is
    that frame: every such frame comes back from its encoding bit for bit, and
    nothing else gets through. *)
Theorem browser_codec_exact (spec : FrameSpec) (msg : bytes) (f : F) :
  byte_list msg -> u32 (sample_rate spec) ->
  decode_frame (X := X) None msg spec = Ok f <->
  pcm_frame spec f /\ encode_frame (X := X) f = Ok msg.
Proof.
  intros Hb Hr. split; [by apply frame_decode_encode|]. intros [Hf He].
  destruct (frame_encode_decode spec f Hr Hf) as (msg' & He' & Hd). congruence.
Qed.
End codec_facts.

(** A stereo block of two samples per channel, NaN included. *)
Definition demo_frame : plain_frame := from_planar 2 48000 [0x3DCCCCCD; 0xBE4CCCCD; 0x7FC00000; 1].

Lemma browser_codec_exact_witness :
  decode_frame (X := unit) None
    ([0; 2; 128; 187; 0; 0; 205; 204; 204; 61; 205; 204; 76; 190; 0; 0; 192; 127; 1; 0; 0; 0])
    (FrameSpec_new 2 48000) = Ok demo_frame.
Proof.
  apply (browser_codec_exact (X := unit) (FrameSpec_new 2 48000)).
  - apply (bool_decide_eq_true_1 _). vm_compute. reflexivity.
  - apply (bool_decide_eq_true_1 _). vm_compute. reflexivity.
  - split; [|vm_compute; reflexivity]. exists [0x3DCCCCCD; 0xBE4CCCCD; 0x7FC00000; 1].
    split; [reflexivity|]. split; [done|]. split; [done|]. split; [|reflexivity].
    apply (bool_decide_eq_true_1 _). vm_compute. reflexivity.
Defined.

(** ** The server *)

#[export] Instance ring_pair_io_laws {R F} `{RingLaws R F} : GatewayIoLaws (ring_pair R F) F.
Proof.
  split; cbn.
  - intros s f _ Hr%Nat.ltb_lt. destruct (ring_push_ok (rp_in s) f Hr) as (r & -> & Hi & _).
    eexists _, _. split; [done|]. cbn. by rewrite Hi.
  - intros s f Hr%Nat.ltb_ge. by rewrite ring_push_full.
  - intros s f q _ [= Ho]. destruct (ring_pop_cons (rp_out s) f q Ho) as (r & -> & Hi & _).
    eexists. split; [done|]. cbn. by rewrite Hi.
  - intros s [|[= Ho]]; [done|]. by rewrite ring_pop_empty.
Qed.

Section server_facts.
Context {S F X V : Type} `{AudioFrameLaws F, GatewayIoLaws S F} (spec : FrameSpec) (env : S -> V -> S).
Local Abbreviation event := (event (X := X) (V := V)).
Local Abbreviation server := (foldl (fun '(w, p) ev => run_accept_loop_io None spec env w p ev)).

Lemma pump_rounds (w : conn_world (S := S) (F := F)) (q : list F) :
  u32 (sample_rate spec) -> io_wf (cw_io w) -> io_out (cw_io w) = Some q -> Forall (pcm_frame spec) q ->
  exists w' msgs, server (w, SConn CPump) (replicate (1 + length q) (EvPump true) : list event) = (w', SConn CSelect) /\
    cw_sent w' = cw_sent w ++ (Binary <$> msgs) /\
    (fun m => decode_frame (X := X) None m spec) <$> msgs = Ok <$> q /\
    io_out (cw_io w') = Some [] /\ io_in (cw_io w') = io_in (cw_io w).
Proof.
  intros Hr. revert w. induction q as [|f q IH]; intros w Hwf Ho Hq.
  - exists w, []. cbn. unfold pump_round. rewrite io_pop_none by auto. rewrite app_nil_r. by destruct w.
  - apply Forall_cons in Hq as [Hf Hq].
    destruct (io_pop_some (cw_io w) f q Hwf Ho) as (s' & Hpop & Ho' & Hi' & Hwf').
    destruct (frame_encode_decode (X := X) spec f Hr Hf) as (msg & He & Hd).
    edestruct (IH (sending {| cw_io := s'; cw_sent := cw_sent w; cw_pushed := cw_pushed w;
      cw_popped := cw_popped w ++ [f] |} (Binary msg))) as (w' & msgs & Hrun & Hs & Hm & Ho2 & Hi2); [done..|].
    exists w', (msg :: msgs). split; [|split; [|split; [|split]]].
    + cbn [Nat.add length replicate foldl]. cbn [run_accept_loop_io handle_connection_io].
      unfold pump_round. rewrite Hpop, He. exact Hrun.
    + rewrite Hs. cbn. by rewrite <- app_assoc.
    + rewrite !fmap_cons. by rewrite Hd, Hm.
    + done.
    + by rewrite Hi2.
Qed.

(** C31: One timer tick empties the outbound direction.  Whatever implements the
    callbacks, when frames of the configured shape are waiting and every send
    succeeds, the pump loop ends after one round more than there are frames,
    with nothing left waiting and the connection open, and the messages written
    decode to exactly the waiting frames in order. *)
Theorem browser_pump_delivers (w : conn_world (S := S) (F := F)) (q : list F) :
  u32 (sample_rate spec) -> io_wf (cw_io w) -> io_out (cw_io w) = Some q -> Forall (pcm_frame spec) q ->
  exists w' msgs,
    server (w, SConn CSelect) (EvTick :: replicate (1 + length q) (EvPump true) : list event)
      = (w', SConn CSelect) /\
    cw_sent w' = cw_sent w ++ (Binary <$> msgs) /\
    (fun m => decode_frame (X := X) None m spec) <$> msgs = Ok <$> q /\
    io_out (cw_io w') = Some [] /\ io_in (cw_io w') = io_in (cw_io w).
Proof. apply pump_rounds. Qed.
End server_facts.

(** Two frames waiting for the client. *)
Definition demo_conn : conn_world (S := ring_pair (vec_ring plain_frame) plain_frame) (F := plain_frame) :=
  {| cw_io := {| rp_in := ring_new 1; rp_out := {| vr_items := [demo_frame; demo_frame]; vr_capacity := 2 |};
                 rp_taken := []; rp_made := [] |};
     cw_sent := []; cw_pushed := []; cw_popped := [] |}.

Lemma browser_pump_delivers_witness :
  exists w' msgs,
    foldl (fun '(w, p) ev => run_accept_loop_io None (FrameSpec_new 2 48000) graph_env w p ev)
      (demo_conn, SConn CSelect)
      (EvTick :: replicate 3 (EvPump true) : list (event (X := unit))) = (w', SConn CSelect) /\
    cw_sent w' = cw_sent demo_conn ++ (Binary <$> msgs) /\
    (fun m => decode_frame (X := unit) None m (FrameSpec_new 2 48000)) <$> msgs = Ok <$> [demo_frame; demo_frame] /\
    io_out (cw_io w') = Some [] /\ io_in (cw_io w') = io_in (cw_io demo_conn).
Proof.
  apply (browser_pump_delivers (X := unit) (FrameSpec_new 2 48000) graph_env demo_conn [demo_frame; demo_frame]).
  - apply (bool_decide_eq_true_1 _). vm_compute. reflexivity.
  - exact I.
  - reflexivity.
  - assert (pcm_frame (FrameSpec_new 2 48000) demo_frame); [|repeat constructor; assumption].
    exists [0x3DCCCCCD; 0xBE4CCCCD; 0x7FC00000; 1]. split; [reflexivity|]. split; [done|].
    split; [done|]. split; [|reflexivity].
    apply (bool_decide_eq_true_1 _). vm_compute. reflexivity.
Defined.

Section server_rings.
Context {R F X : Type} `{AudioFrameLaws F, RingLaws R F} (opus : option (OpusOps F)) (spec : FrameSpec).
Local Abbreviation event := (event (X := X) (V := graph_turn (F := F))).
Local Abbreviation world := (conn_world (S := ring_pair R F) (F := F)).

(** The frame a client message carries, and the message a frame becomes. *)
Definition client_frame (ev : event) : option F :=
  match ev with
  | EvMsg (Some (Ok (Binary b))) =>
      match decode_frame (X := X) opus b spec with Ok f => Some f | Err _ => None end
  | _ => None
  end.
Definition frame_message (f : F) : option bytes :=
  match encode_frame (X := X) f with Ok b => Some b | Err _ => None end.
Definition binary_of (m : Message) : option bytes := match m with Binary b => Some b | _ => None end.
Definition accepted (l : list (F * bool)) : list F := omap (fun '(f, ok) => if ok : bool then Some f else None) l.

(** Started on empty rings. *)
Record fifo (w : world) (evs : list event) : Prop := {
  fifo_in : rp_taken (cw_io w) ++ ring_items (rp_in (cw_io w)) = accepted (cw_pushed w);
  fifo_out : cw_popped w ++ ring_items (rp_out (cw_io w)) = rp_made (cw_io w);
  fifo_pushed : (cw_pushed w).*1 `sublist_of` omap client_frame evs;
  fifo_sent : omap binary_of (cw_sent w) `sublist_of` omap frame_message (cw_popped w)
}.

Local Ltac fields :=
  cbn [fst with_io sending cw_io cw_sent cw_pushed cw_popped rp_in rp_out rp_taken rp_made].

Lemma fifo_skip w evs ev : fifo w evs -> fifo w (evs ++ [ev]).
Proof. intros []. split; [done..| |done]. rewrite omap_app. by apply sublist_inserts_r. Qed.

Lemma fifo_env w evs t v :
  fifo w evs -> fifo (with_io w (graph_env (cw_io w) t)) (evs ++ [EvEnv v]).
Proof.
  intros Hf%(fun h => fifo_skip w evs (EvEnv v) h). destruct Hf as [Hi Ho Hp Hs].
  destruct t as [|f]; cbn [graph_env].
  - destruct (ring_pop_cases (rp_in (cw_io w))) as [(f & r & -> & Hr & _)|[-> _]]; [|by destruct w].
    split; [|done..]. fields. by rewrite <- Hi, Hr, <- app_assoc.
  - destruct (ring_push_cases (rp_out (cw_io w)) f) as [(r & -> & Hr & _)|[-> _]]; [|by destruct w].
    split; [done| |done..]. fields. by rewrite <- Ho, Hr, app_assoc.
Qed.

Lemma fifo_push w evs ev f :
  client_frame ev = Some f -> fifo w evs -> fifo (push_frame w f) (evs ++ [ev]).
Proof.
  intros He [Hi Ho Hp Hs]. unfold push_frame. cbn [io_push ring_pair_io].
  destruct (ring_push_cases (rp_in (cw_io w)) f) as [(r & -> & Hr & _)|[-> _]];
    (split; fields; [|done| |done]; rewrite ?fmap_app, ?omap_app).
  all: try (unfold accepted; rewrite omap_app; cbn; by rewrite ?Hr, ?app_assoc, ?app_nil_r, ?Hi).
  all: apply sublist_app; [done|]; cbn; by rewrite He.
Qed.

Lemma fifo_send w evs m : fifo w evs -> binary_of m = None -> fifo (sending w m) evs.
Proof. intros [] Hm. split; [done..|]. cbn. rewrite omap_app. cbn. by rewrite Hm, app_nil_r. Qed.

Lemma fifo_pump w evs ok : fifo w evs -> fifo (pump_round (X := X) w ok).1 evs.
Proof.
  intros [Hi Ho Hp Hs]. unfold pump_round. cbn [io_pop ring_pair_io].
  destruct (ring_pop_cases (rp_out (cw_io w))) as [(f & r & -> & Hr & _)|[-> _]]; [|by destruct w].
  assert (Hout : (cw_popped w ++ [f]) ++ ring_items r = rp_made (cw_io w)) by (by rewrite <- Ho, Hr, <- app_assoc).
  destruct (encode_frame f) as [b|e] eqn:He; [destruct ok|]; (split; fields; [done..|]; rewrite !omap_app).
  - cbn. unfold frame_message at 2. rewrite He. by apply sublist_app.
  - by apply sublist_inserts_r.
  - by apply sublist_inserts_r.
Qed.

Lemma fifo_message w evs m : fifo w evs -> fifo (on_message opus spec w m).1 (evs ++ [EvMsg m]).
Proof.
  intros Hf. destruct m as [[[b| | |]|x]|]; cbn [on_message];
    try (by apply fifo_skip); try (by apply fifo_send; [apply fifo_skip|]).
  destruct (decode_frame opus b spec) as [f|e] eqn:Hd; [|by apply fifo_skip].
  apply fifo_push; [|done]. cbn. by rewrite Hd.
Qed.

(** C14: No frame is invented, duplicated or reordered by the browser gateway.
    Over every interleaving of connections, client messages, pump rounds with
    sends that may fail, and graph activity on the two rings: the frames the
    graph has taken and those still waiting are exactly the frames the server
    pushed successfully, in order, and these are client messages in their
    order; what the server popped and what still waits is exactly what the
    graph produced, in order, and the messages written are encodings of popped
    frames in their order. *)
Theorem browser_server_fifo (r_in r_out : R) (evs : list event) :
  ring_items r_in = [] -> ring_items r_out = [] ->
  fifo (serve opus spec graph_env {| rp_in := r_in; rp_out := r_out; rp_taken := []; rp_made := [] |} evs).1 evs.
Proof.
  intros Hin Hout. unfold serve. induction evs as [|ev evs IH] using rev_ind.
  - split; cbn; by rewrite ?Hin, ?Hout.
  - rewrite foldl_snoc. destruct (foldl _ _ evs) as [w p]. cbn [fst] in IH.
    destruct ev as [r|r|m| |ok|t]; cbn [run_accept_loop_io]; [| | | | |by apply fifo_env];
      destruct p as [| |c|e]; try (by apply fifo_skip); try (by destruct r; apply fifo_skip);
      destruct c; cbn [handle_connection_io]; try (by apply fifo_skip).
    + pose proof (fifo_message w evs m IH). by destruct (on_message opus spec w m).
    + pose proof (fifo_pump w _ ok (fifo_skip w evs (EvPump ok) IH)). by destruct (pump_round w ok).
Qed.
End server_rings.

Lemma browser_server_fifo_witness :
  fifo (X := unit) None (FrameSpec_new 2 48000)
    (serve (X := unit) None (FrameSpec_new 2 48000) graph_env
      {| rp_in := ring_new 1 : vec_ring plain_frame; rp_out := ring_new 2; rp_taken := []; rp_made := [] |}
      [EvAccept (Ok tt); EvHandshake (Ok tt); EvMsg (Some (Ok (Binary [7]))); EvEnv (Make demo_frame);
       EvTick; EvPump true; EvPump true; EvMsg None]).1
    [EvAccept (Ok tt); EvHandshake (Ok tt); EvMsg (Some (Ok (Binary [7]))); EvEnv (Make demo_frame);
     EvTick; EvPump true; EvPump true; EvMsg None].
Proof. apply (browser_server_fifo (X := unit) None (FrameSpec_new 2 48000)); reflexivity. Defined.

(** ** The bridge *)

(** What the bridge promises: one queue per node ever made.  A node uses its own
    queue; the worker uses the queue of the newest source and of the newest
    sink, and finds it full or empty when there is none. *)
Section bridge_spec.
Context {F : Type} (cap : nat).

Record bridge_queues : Type := { bq_sources : list (list F); bq_sinks : list (list F) }.

Definition enqueue (qs : list (list F)) (k : nat) (f : F) : list (list F) * result unit F :=
  match qs !! k with
  | Some q => if (length q <? cap)%nat then (<[k := q ++ [f]]> qs, Ok tt) else (qs, Err f)
  | None => (qs, Err f)
  end.
Definition dequeue (qs : list (list F)) (k : nat) : list (list F) * option F :=
  match qs !! k with
  | Some (f :: q) => (<[k := q]> qs, Some f)
  | _ => (qs, None)
  end.
Definition newest (qs : list (list F)) : nat := Nat.pred (length qs).

Definition spec_step (a : bridge_queues) (op : bridge_op (F := F)) : bridge_queues * bridge_out (F := F) :=
  let on_sources qs := {| bq_sources := qs; bq_sinks := bq_sinks a |} in
  let on_sinks qs := {| bq_sources := bq_sources a; bq_sinks := qs |} in
  match op with
  | OpMakeSource => (on_sources (bq_sources a ++ [[]]), ODone)
  | OpMakeSink => (on_sinks (bq_sinks a ++ [[]]), ODone)
  | OpPush f => let '(qs, r) := enqueue (bq_sources a) (newest (bq_sources a)) f in (on_sources qs, OPushed r)
  | OpPop => let '(qs, r) := dequeue (bq_sinks a) (newest (bq_sinks a)) in (on_sinks qs, OPopped r)
  | OpTake k => let '(qs, r) := dequeue (bq_sources a) k in (on_sources qs, OPopped r)
  | OpPut k f => let '(qs, r) := enqueue (bq_sinks a) k f in (on_sinks qs, OPushed r)
  end.

Fixpoint spec_run (a : bridge_queues) (ops : list (bridge_op (F := F))) : bridge_queues * list bridge_out :=
  match ops with
  | [] => (a, [])
  | op :: ops =>
      let '(a, o) := spec_step a op in
      let '(a, os) := spec_run a ops in
      (a, o :: os)
  end.
End bridge_spec.
Arguments bridge_queues : clear implicits.

Section bridge_facts.
Context {R F : Type} `{RingAllocLaws R F} `{!RingLaws R F} (cap : nat).
Implicit Types (rings : list R) (n : RingNode) (qs : list (list F)).

Definition backs rings n (q : list F) : Prop := exists r,
  rings !! rn_ring n = Some r /\ ring_items r = q /\ ring_capacity r = cap.
Definition ids (ns : list RingNode) : list nat := rn_ring <$> ns.

Record bridge_sim (w : bridge_world (R := R)) (a : bridge_queues F) : Prop := {
  sim_cap : gb_capacity (bw_bridge w) = cap;
  sim_in : gb_inbound (bw_bridge w) = last (ids (bw_sources w));
  sim_out : gb_outbound (bw_bridge w) = last (ids (bw_sinks w));
  sim_nodup : NoDup (ids (bw_sources w) ++ ids (bw_sinks w));
  sim_sources : Forall2 (backs (bw_rings w)) (bw_sources w) (bq_sources a);
  sim_sinks : Forall2 (backs (bw_rings w)) (bw_sinks w) (bq_sinks a)
}.

Lemma backs_insert_ne rings id r ns qs :
  id ∉ ids ns -> Forall2 (backs rings) ns qs -> Forall2 (backs (<[id := r]> rings)) ns qs.
Proof.
  intros Hid Hall. induction Hall as [|n q ns qs (r' & ? & ?) _ IH]; constructor.
  - exists r'. rewrite list_lookup_insert_ne; [done|]. intros ->. apply Hid. left.
  - apply IH. intros ?. apply Hid. by right.
Qed.

Lemma backs_insert_eq rings r ns qs k n :
  NoDup (ids ns) -> Forall2 (backs rings) ns qs -> ns !! k = Some n -> ring_capacity r = cap ->
  Forall2 (backs (<[rn_ring n := r]> rings)) ns (<[k := ring_items r]> qs).
Proof.
  intros Hnd Hall Hk Hc. revert k Hk. induction Hall as [|m q ns qs Hm Hall IH]; intros [|k] Hk; [done..| |].
  - injection Hk as ->. apply NoDup_cons in Hnd as [Hn _]. cbn. constructor; [|by apply backs_insert_ne].
    exists r. destruct Hm as (? & ?%lookup_lt_Some & _). by rewrite list_lookup_insert_eq.
  - apply NoDup_cons in Hnd as [Hm' Hnd]. cbn in Hk |- *. constructor; [|by apply IH].
    destruct Hm as (r' & ? & ?). exists r'. rewrite list_lookup_insert_ne; [done|].
    intros He. apply Hm'. rewrite <- He. apply list_elem_of_fmap. exists n. split; [done|].
    by eapply list_elem_of_lookup_2.
Qed.

Lemma backs_grow rings r ns qs : Forall2 (backs rings) ns qs -> Forall2 (backs (rings ++ [r])) ns qs.
Proof.
  intros Hall. apply (Forall2_impl _ _ _ _ Hall). intros n q (r' & ? & ?). exists r'. split; [|done]. by apply lookup_app_l_Some.
Qed.

Lemma backs_new rings ns qs n :
  Forall2 (backs rings) ns qs -> rn_ring n = length rings ->
  Forall2 (backs (rings ++ [ring_new cap])) (ns ++ [n]) (qs ++ [[]]).
Proof.
  intros Hall Hn. apply Forall2_app; [by apply backs_grow|]. constructor; [|done].
  exists (ring_new cap). destruct (ring_new_empty cap). split; [|done].
  by rewrite Hn, list_lookup_middle.
Qed.

Lemma ids_bound rings ns qs : Forall2 (backs rings) ns qs -> length rings ∉ ids ns.
Proof.
  intros Hall (n & Hn & Hel)%list_elem_of_fmap. apply list_elem_of_lookup in Hel as [i Hi].
  destruct (Forall2_lookup_l _ _ _ _ _ Hall Hi) as (q & _ & r & Hr & _).
  apply lookup_lt_Some in Hr. lia.
Qed.

(** A push or pop at the ring of the [k]-th node is one at its queue, and leaves
    the nodes of other rings alone. *)
Lemma push_at_sim rings ns qs k n f rings' res others oqs :
  NoDup (ids ns) -> Forall2 (backs rings) ns qs -> ns !! k = Some n ->
  (rn_ring n ∉ ids others) -> Forall2 (backs rings) others oqs ->
  push_at rings (rn_ring n) f = (rings', res) ->
  exists qs', enqueue cap qs k f = (qs', res) /\
    Forall2 (backs rings') ns qs' /\ Forall2 (backs rings') others oqs.
Proof.
  intros Hnd Hall Hk Hno Hoth. destruct (Forall2_lookup_l _ _ _ _ _ Hall Hk) as (q & Hq & r & Hr & Hi & Hc).
  unfold push_at, enqueue. rewrite Hr, Hq.
  destruct (ring_push_cases r f) as [(r' & -> & Hi' & Hc' & Hlt)|[-> Hge]]; intros [= <- <-]; subst q.
  - rewrite (proj2 (Nat.ltb_lt _ _)) by lia. eexists. split; [done|]. rewrite <- Hi'.
    split; [by apply backs_insert_eq; congruence|by apply backs_insert_ne].
  - rewrite (proj2 (Nat.ltb_ge _ _)) by lia. by eexists.
Qed.

Lemma pop_at_sim rings ns qs k n rings' res others oqs :
  NoDup (ids ns) -> Forall2 (backs rings) ns qs -> ns !! k = Some n ->
  (rn_ring n ∉ ids others) -> Forall2 (backs rings) others oqs ->
  pop_at rings (rn_ring n) = (rings', res) ->
  exists qs', dequeue qs k = (qs', res) /\
    Forall2 (backs rings') ns qs' /\ Forall2 (backs rings') others oqs.
Proof.
  intros Hnd Hall Hk Hno Hoth. destruct (Forall2_lookup_l _ _ _ _ _ Hall Hk) as (q & Hq & r & Hr & Hi & Hc).
  unfold pop_at, dequeue. rewrite Hr, Hq.
  destruct (ring_pop_cases r) as [(f & r' & -> & Hi' & Hc')|[-> He]]; intros [= <- <-]; subst q.
  - rewrite Hi'. eexists. split; [done|].
    split; [by apply backs_insert_eq; congruence|by apply backs_insert_ne].
  - rewrite He. by eexists.
Qed.

Lemma nth_none rings ns qs k : Forall2 (backs rings) ns qs -> ns !! k = None -> qs !! k = None.
Proof. intros Hall%Forall2_length. rewrite !lookup_ge_None. lia. Qed.

Lemma last_ids ns qs rings :
  Forall2 (backs rings) ns qs -> last (ids ns) = rn_ring <$> ns !! newest qs.
Proof.
  intros Hall%Forall2_length. unfold ids, newest. rewrite last_lookup, list_lookup_fmap, length_fmap.
  by rewrite Hall.
Qed.

(** The side conditions every case shares. *)
Lemma sim_split w a :
  bridge_sim w a -> NoDup (ids (bw_sources w)) /\ NoDup (ids (bw_sinks w)) /\
  (forall k n, bw_sources w !! k = Some n -> (rn_ring n ∉ ids (bw_sinks w))) /\
  (forall k n, bw_sinks w !! k = Some n -> (rn_ring n ∉ ids (bw_sources w))).
Proof.
  intros [_ _ _ (Hs & Hd & Hk)%NoDup_app _ _]. split; [done|]. split; [done|]. split; intros k n Hn.
  - apply Hd. apply list_elem_of_fmap_2. by eapply list_elem_of_lookup_2.
  - intros Hin. apply (Hd _ Hin). apply list_elem_of_fmap_2. by eapply list_elem_of_lookup_2.
Qed.

Lemma bridge_make_sim w a op :
  op = OpMakeSource \/ op = OpMakeSink -> bridge_sim w a ->
  bridge_sim (bridge_step w op).1 (spec_step cap a op).1 /\ (bridge_step w op).2 = (spec_step cap a op).2.
Proof.
  intros Hop [Hc Hi Ho Hnd Hs Hk]. destruct Hop as [-> | ->]; (split; [|done]); split; try done;
    cbn [bridge_step spec_step make_source_node make_sink_node fst bw_bridge bw_rings bw_sources bw_sinks
         bq_sources bq_sinks gb_inbound gb_outbound built_node].
  - unfold ids. rewrite fmap_app. by rewrite (last_snoc (length (bw_rings w))).
  - unfold ids in *. rewrite fmap_app. cbn. rewrite <- app_assoc, (Permutation_app_comm [_]), app_assoc.
    apply NoDup_app. split; [done|]. split; [|apply NoDup_singleton].
    intros x Hx ->%list_elem_of_singleton. apply elem_of_app in Hx as [Hx|Hx]; by eapply ids_bound in Hx.
  - rewrite Hc. by apply backs_new.
  - by apply backs_grow.
  - unfold ids. rewrite fmap_app. by rewrite (last_snoc (length (bw_rings w))).
  - unfold ids in *. rewrite fmap_app, app_assoc.
    apply NoDup_app. split; [done|]. split; [|apply NoDup_singleton].
    intros x Hx ->%list_elem_of_singleton. apply elem_of_app in Hx as [Hx|Hx]; by eapply ids_bound in Hx.
  - by apply backs_grow.
  - rewrite Hc. by apply backs_new.
Qed.

Lemma bridge_step_sim w a op :
  bridge_sim w a ->
  bridge_sim (bridge_step w op).1 (spec_step cap a op).1 /\ (bridge_step w op).2 = (spec_step cap a op).2.
Proof.
  intros Hsim. destruct (sim_split w a Hsim) as (Hns & Hnk & Hsk & Hks).
  pose proof Hsim as [Hc Hi Ho Hnd Hs Hk].
  destruct op as [| |f| |k|k f]; [by apply bridge_make_sim; auto..| | | |];
    cbn [bridge_step spec_step]; unfold push_inbound, pop_outbound;
    rewrite ?Hi, ?Ho, ?(last_ids _ _ _ Hs), ?(last_ids _ _ _ Hk).
  - destruct (bw_sources w !! newest (bq_sources a)) as [n|] eqn:Hn; cbn [fmap option_fmap option_map].
    + destruct (push_at (bw_rings w) (rn_ring n) f) as [rs r] eqn:Hp.
      destruct (push_at_sim _ _ _ _ _ _ _ _ _ _ Hns Hs Hn (Hsk _ _ Hn) Hk Hp) as (qs & -> & ? & ?).
      by repeat split.
    + unfold enqueue. rewrite (nth_none _ _ _ _ Hs Hn). by destruct w, a.
  - destruct (bw_sinks w !! newest (bq_sinks a)) as [n|] eqn:Hn; cbn [fmap option_fmap option_map].
    + destruct (pop_at (bw_rings w) (rn_ring n)) as [rs r] eqn:Hp.
      destruct (pop_at_sim _ _ _ _ _ _ _ _ _ Hnk Hk Hn (Hks _ _ Hn) Hs Hp) as (qs & -> & ? & ?).
      by repeat split.
    + unfold dequeue. rewrite (nth_none _ _ _ _ Hk Hn). by destruct w, a.
  - destruct (bw_sources w !! k) as [n|] eqn:Hn.
    + destruct (pop_at (bw_rings w) (rn_ring n)) as [rs r] eqn:Hp.
      destruct (pop_at_sim _ _ _ _ _ _ _ _ _ Hns Hs Hn (Hsk _ _ Hn) Hk Hp) as (qs & -> & ? & ?).
      by repeat split.
    + unfold dequeue. rewrite (nth_none _ _ _ _ Hs Hn). by destruct w, a.
  - destruct (bw_sinks w !! k) as [n|] eqn:Hn.
    + destruct (push_at (bw_rings w) (rn_ring n) f) as [rs r] eqn:Hp.
      destruct (push_at_sim _ _ _ _ _ _ _ _ _ _ Hnk Hk Hn (Hks _ _ Hn) Hs Hp) as (qs & -> & ? & ?).
      by repeat split.
    + unfold enqueue. rewrite (nth_none _ _ _ _ Hk Hn). by destruct w, a.
Qed.

Lemma bridge_run_sim ops w a :
  bridge_sim w a ->
  bridge_sim (bridge_run w ops).1 (spec_run cap a ops).1 /\ (bridge_run w ops).2 = (spec_run cap a ops).2.
Proof.
  revert w a. induction ops as [|op ops IH]; intros w a Hsim; [done|].
  destruct (bridge_step_sim w a op Hsim) as [Hsim' Ho]. cbn [bridge_run spec_run].
  destruct (bridge_step w op) as [w' o], (spec_step cap a op) as [a' o']. cbn in *. subst o'.
  destruct (IH w' a' Hsim') as [? Hos].
  destruct (bridge_run w' ops), (spec_run cap a' ops). cbn in *. by subst.
Qed.
End bridge_facts.

(** C13: The gateway bridge follows graph rebuilds.  Over every interleaving of
    rebuilds (new source and sink nodes), worker pushes and pops, and activity
    of any node made so far, the bridge answers exactly as the specification:
    every node has a queue of its own that no other node or later worker call
    touches, the worker always uses the newest source and the newest sink, a
    push is refused exactly when there is no source yet or its queue is full,
    and a pop fails exactly when there is no sink yet or its queue is empty. *)
Theorem bridge_follows_rebuilds {R F} `{RingAllocLaws R F} `{!RingLaws R F}
    (channels sample_rate : Z) (num_frames cap : nat) (ops : list (bridge_op (F := F))) :
  (bridge_run (R := R) (bridge_init (GatewayBridge_with_capacity channels sample_rate num_frames cap)) ops).2 =
  (spec_run cap {| bq_sources := []; bq_sinks := [] |} ops).2.
Proof. apply bridge_run_sim. split; [done..| | |]; constructor. Qed.

(** A push before any source is refused; after a rebuild the worker's frame
    reaches the new source, the old one stays as it was. *)
Lemma bridge_follows_rebuilds_witness :
  let ops := [OpPush 1; OpMakeSource; OpPush 2; OpMakeSource; OpPush 3; OpTake 0; OpTake 1; OpTake 1] in
  (bridge_run (R := vec_ring Z) (bridge_init (GatewayBridge_with_capacity 2 48000 256 4)) ops).2 =
  [OPushed (Err 1); ODone; OPushed (Ok tt); ODone; OPushed (Ok tt); OPopped (Some 2); OPopped (Some 3); OPopped None].
Proof.
  intros ops. etransitivity; [exact (bridge_follows_rebuilds (R := vec_ring Z) 2 48000 256 4 ops)|]. reflexivity.
Defined.

(** The bridge as the server's callbacks: [serve_with_io] with
    [push_inbound] and [pop_outbound]. *)
Section bridge_io.
Context {R F : Type} `{RingAlloc R F}.

Definition with_rings (w : bridge_world (R := R)) (rs : list R) : bridge_world (R := R) :=
  {| bw_bridge := bw_bridge w; bw_rings := rs; bw_sources := bw_sources w; bw_sinks := bw_sinks w |}.
Definition items_at (w : bridge_world (R := R)) (id : option nat) : option (list F) :=
  i ← id; ring_items <$> bw_rings w !! i.

#[export] Instance bridge_io : GatewayIo (bridge_world (R := R)) F := {
  io_push w f := let '(rs, r) := push_inbound (bw_bridge w) (bw_rings w) f in (with_rings w rs, r);
  io_pop w := let '(rs, r) := pop_outbound (bw_bridge w) (bw_rings w) in (with_rings w rs, r);
  io_in w := items_at w (gb_inbound (bw_bridge w));
  io_out w := items_at w (gb_outbound (bw_bridge w));
  io_room w :=
    match gb_inbound (bw_bridge w) ≫= (fun i => bw_rings w !! i) with
    | Some r => (length (ring_items r) <? ring_capacity r)%nat
    | None => false
    end;
  io_wf w := gb_inbound (bw_bridge w) = gb_outbound (bw_bridge w) -> gb_inbound (bw_bridge w) = None
}.

#[export] Instance bridge_io_laws `{!RingLaws R F} : GatewayIoLaws (bridge_world (R := R)) F.
Proof.
  split; cbn.
  - intros w f Hwf Hroom. unfold push_inbound, push_at, items_at.
    destruct (gb_inbound (bw_bridge w)) as [i|] eqn:Hi; cbn in *; [|done].
    destruct (bw_rings w !! i) as [r|] eqn:Hr; [|done]. apply Nat.ltb_lt in Hroom.
    destruct (ring_push_ok r f Hroom) as (r' & -> & Hit & _). eexists _, _. split; [done|].
    split; [done|]. cbn. rewrite Hi. cbn. rewrite list_lookup_insert_eq by (by eapply lookup_lt_Some).
    split; [cbn; by rewrite Hit|]. split; [|done].
    destruct (gb_outbound (bw_bridge w)) as [o|]; [|done]. cbn.
    rewrite list_lookup_insert_ne; [done|]. intros ->. by specialize (Hwf eq_refl).
  - intros w f Hroom. unfold push_inbound, push_at.
    destruct (gb_inbound (bw_bridge w)) as [i|]; cbn in *; [|by destruct w].
    destruct (bw_rings w !! i) as [r|]; [|by destruct w]. apply Nat.ltb_ge in Hroom.
    rewrite ring_push_full by done. by destruct w.
  - intros w f q Hwf. unfold pop_outbound, pop_at, items_at.
    destruct (gb_outbound (bw_bridge w)) as [o|] eqn:Ho; cbn in *; [|done].
    destruct (bw_rings w !! o) as [r|] eqn:Hr; [|done]. intros [= Hq].
    destruct (ring_pop_cons r f q Hq) as (r' & -> & Hit & _). eexists. split; [done|].
    cbn. rewrite Ho. cbn. rewrite list_lookup_insert_eq by (by eapply lookup_lt_Some).
    split; [cbn; by rewrite Hit|]. split; [|done].
    destruct (gb_inbound (bw_bridge w)) as [i|]; [|done]. cbn.
    rewrite list_lookup_insert_ne; [done|]. intros ->. by specialize (Hwf eq_refl).
  - intros w Hq. unfold pop_outbound, pop_at, items_at in *.
    destruct (gb_outbound (bw_bridge w)) as [o|]; cbn in *; [|by destruct w].
    destruct (bw_rings w !! o) as [r|]; [|by destruct w]. cbn in Hq.
    rewrite ring_pop_empty; [by destruct w|]. by destruct Hq as [|[= ]].
Qed.
End bridge_io.
