(* ===== verification/AlsaPlugin.v ===== *)
(** * The ALSA plugin

    [crates/gw-alsa-plugin/src/bridge.rs], the socket protocol and the
    configuration of the plugin, and [lib.rs], the callbacks libasound calls and
    the entry point that opens a PCM.  A socket is the bytes it will deliver and
    those written to it; user memory is a map from addresses to bytes; libasound
    is an interface. *)

From Stdlib Require Import String.
From S2P Require Import Prelude F32 RString.
Local Open Scope Z_scope.

(** ** Protocol *)

Definition BRIDGE_MAGIC : Z := 0x53424E52.
Definition BRIDGE_PROTO_VERSION : Z := 1.
Definition DEFAULT_SERVER : rstring := lit "127.0.0.1".
Definition DEFAULT_TCP_PORT : Z := 9001.
Definition DEFAULT_CHANNELS : Z := 2.
Definition DEFAULT_RATE : Z := 48000.
Definition MAX_CHANNELS : Z := 1024.
Definition MAX_RATE : Z := 768000.

Inductive StreamDir : Type := Playback | Capture.

#[export] Instance StreamDir_eq_dec : EqDecision StreamDir.
Proof. solve_decision. Defined.

Definition dir_to_u32 (d : StreamDir) : Z := match d with Playback => 0 | Capture => 1 end.
Definition StreamDir_from_u32 (v : Z) : option StreamDir :=
  if v =? 0 then Some Playback else if v =? 1 then Some Capture else None.

Record Handshake : Type := {
  magic : Z; version : Z; stream_dir : StreamDir; hs_channels : Z; hs_rate : Z
}.

Definition Handshake_new (dir : StreamDir) (channels rate : Z) : Handshake :=
  {| magic := BRIDGE_MAGIC; version := BRIDGE_PROTO_VERSION; stream_dir := dir;
     hs_channels := channels; hs_rate := rate |}.

Inductive HandshakeError (X : Type) : Type :=
| HsIo (e : X)
| BadMagic (m : Z)
| UnsupportedVersion (v : Z)
| HsInvalid (field : rstring).
Arguments HsIo {X}.
Arguments BadMagic {X}.
Arguments UnsupportedVersion {X}.
Arguments HsInvalid {X}.

(** A connected socket: what the peer will send before it closes, the error a
    read past that gives, what was written, and the error writing gives, if it
    does. *)
Record sock (X : Type) : Type := {
  sk_rx : bytes; sk_eof : X; sk_tx : bytes; sk_wfail : option X
}.
Arguments sk_rx {X}.
Arguments sk_eof {X}.
Arguments sk_tx {X}.
Arguments sk_wfail {X}.
Arguments Build_sock {X}.

Section wire.
Context {X : Type}.
Implicit Types s : sock X.

Definition write_all s (buf : bytes) : result (sock X) X :=
  match sk_wfail s with
  | Some e => Err e
  | None => Ok {| sk_rx := sk_rx s; sk_eof := sk_eof s; sk_tx := sk_tx s ++ buf; sk_wfail := None |}
  end.

Definition read_exact s (n : nat) : result (bytes * sock X) X :=
  if (length (sk_rx s) <? n)%nat then Err (sk_eof s)
  else Ok (take n (sk_rx s),
           {| sk_rx := drop n (sk_rx s); sk_eof := sk_eof s; sk_tx := sk_tx s; sk_wfail := sk_wfail s |}).

(** The five words, in wire order. *)
Definition handshake_words (hs : Handshake) : list Z :=
  [magic hs; version hs; dir_to_u32 (stream_dir hs); hs_channels hs; hs_rate hs].

Definition write_handshake s (hs : Handshake) : result (sock X) X :=
  write_all s (handshake_words hs ≫= le_bytes 4).

Definition read_handshake s : result (Handshake * sock X) (HandshakeError X) :=
  let? (buf, s) := map_err HsIo (read_exact s 20) in
  let word (i : nat) := of_le [get buf (i * 4); get buf (i * 4 + 1); get buf (i * 4 + 2); get buf (i * 4 + 3)] in
  let magic := word 0%nat in
  if negb (magic =? BRIDGE_MAGIC) then Err (BadMagic magic)
  else
    let version := word 1%nat in
    if negb (version =? BRIDGE_PROTO_VERSION) then Err (UnsupportedVersion version)
    else
      let? stream_dir := ok_or (StreamDir_from_u32 (word 2%nat)) (HsInvalid (lit "stream_dir")) in
      let channels := word 3%nat in
      if (channels =? 0) || (MAX_CHANNELS <? channels) then Err (HsInvalid (lit "channels"))
      else
        let rate := word 4%nat in
        if (rate =? 0) || (MAX_RATE <? rate) then Err (HsInvalid (lit "rate"))
        else
          Ok ({| magic := magic; version := version; stream_dir := stream_dir;
                 hs_channels := channels; hs_rate := rate |}, s).

Definition send_frames s (samples : list F32.f32) : result (sock X) X :=
  write_all s (samples ≫= le_bytes 4).

Definition recv_frames_into s (out : list F32.f32) : result (list F32.f32 * sock X) X :=
  let? (buf, s) := read_exact s (length out * 4) in
  Ok (zip_with (fun _ src => of_le [get src 0; get src 1; get src 2; get src 3]) out (chunks_exact 4 buf), s).

(** ** Endpoints and opening *)

Inductive Endpoint : Type :=
| Unix (path : rstring)
| Tcp (host : rstring) (port : Z).

Definition describe (e : Endpoint) : rstring :=
  match e with
  | Unix p => lit "unix:" ++ p
  | Tcp host port => lit "tcp:" ++ host ++ lit ":" ++ dec port
  end.

Inductive OpenError : Type :=
| OpenIo (e : X)
| OpenHandshake (e : HandshakeError X)
| Mismatch (offered echoed : Handshake).

(** [BridgeStream::connect]; [dial] is the operating system's connect. *)
Definition bridge_connect (dial : Endpoint -> result (sock X) X) (endpoint : Endpoint)
    (dir : StreamDir) (channels rate : Z) : result (sock X * Handshake) OpenError :=
  let? stream := map_err OpenIo (dial endpoint) in
  let offered := Handshake_new dir channels rate in
  let? stream := map_err OpenIo (write_handshake stream offered) in
  let? (echoed, stream) := map_err OpenHandshake (read_handshake stream) in
  if negb (bool_decide (stream_dir echoed = stream_dir offered))
     || negb (hs_channels echoed =? hs_channels offered)
     || negb (hs_rate echoed =? hs_rate offered)
  then Err (Mismatch offered echoed)
  else Ok (stream, echoed).
End wire.
Arguments OpenError : clear implicits.

(** ** Configuration *)

Inductive ConfValue : Type := Str (s : rstring) | Int (v : Z).

Definition as_str (v : ConfValue) : option rstring := match v with Str s => Some s | Int _ => None end.
Definition as_int (v : ConfValue) : option Z := match v with Int v => Some v | Str _ => None end.

Record BridgeConfig : Type := { endpoint : Endpoint; cfg_channels : Z; cfg_rate : Z }.

(** The texts of [Conflict] and [Invalid]. *)
Inductive conflict : Type := SocketAndServer | PortWithoutServer | PortTwice.
Inductive invalid : Type :=
| PortOutOfRange | BracketIpv6 | BadPort (s : rstring) | PortZero | ChannelsRange | RateRange.

Inductive ConfigError : Type :=
| UnknownKey (k : rstring)
| TypeMismatch (k : rstring)
| Conflict (c : conflict)
| Invalid (i : invalid).

Definition IGNORED_KEYS : list rstring := [lit "type"; lit "comment"; lit "hint"].

Record conf_acc : Type := {
  ca_socket : option rstring; ca_server : option rstring; ca_port : option Z;
  ca_channels : option Z; ca_rate : option Z
}.

Definition u16_try_from (v : Z) : option Z := if (0 <=? v) && (v <? 2 ^ 16) then Some v else None.
Definition u32_try_from (v : Z) : option Z := if (0 <=? v) && (v <? 2 ^ 32) then Some v else None.

(** One key of the loop. *)
Definition conf_key (a : conf_acc) (key : rstring) (value : ConfValue) : result conf_acc ConfigError :=
  if bool_decide (key = lit "socket") then
    let? s := ok_or (as_str value) (TypeMismatch key) in
    Ok {| ca_socket := Some s; ca_server := ca_server a; ca_port := ca_port a;
          ca_channels := ca_channels a; ca_rate := ca_rate a |}
  else if bool_decide (key = lit "server") then
    let? s := ok_or (as_str value) (TypeMismatch key) in
    Ok {| ca_socket := ca_socket a; ca_server := Some s; ca_port := ca_port a;
          ca_channels := ca_channels a; ca_rate := ca_rate a |}
  else if bool_decide (key = lit "port") then
    let? v := ok_or (as_int value) (TypeMismatch key) in
    let? p := ok_or (u16_try_from v) (Invalid PortOutOfRange) in
    Ok {| ca_socket := ca_socket a; ca_server := ca_server a; ca_port := Some p;
          ca_channels := ca_channels a; ca_rate := ca_rate a |}
  else if bool_decide (key = lit "channels") then
    let? v := ok_or (as_int value) (TypeMismatch key) in
    Ok {| ca_socket := ca_socket a; ca_server := ca_server a; ca_port := ca_port a;
          ca_channels := Some v; ca_rate := ca_rate a |}
  else if bool_decide (key = lit "rate") then
    let? v := ok_or (as_int value) (TypeMismatch key) in
    Ok {| ca_socket := ca_socket a; ca_server := ca_server a; ca_port := ca_port a;
          ca_channels := ca_channels a; ca_rate := Some v |}
  else if bool_decide (key ∈ IGNORED_KEYS) then Ok a
  else Err (UnknownKey key).

Fixpoint conf_loop (a : conf_acc) (pairs : list (rstring * ConfValue)) : result conf_acc ConfigError :=
  match pairs with
  | [] => Ok a
  | (key, value) :: pairs => let? a := conf_key a key value in conf_loop a pairs
  end.

Definition parse_server (server : rstring) (port_key : option Z) : result (rstring * Z) ConfigError :=
  match rsplit_once 58 server with
  | Some (host, port_str) =>
      if bool_decide (is_Some port_key) then Err (Conflict PortTwice)
      else if negb (starts_with [91] host) && bool_decide (58 ∈ host) then Err (Invalid BracketIpv6)
      else
        let? port := ok_or (parse_uint (2 ^ 16 - 1) port_str) (Invalid (BadPort port_str)) in
        if port =? 0 then Err (Invalid PortZero) else Ok (host, port)
  | None =>
      let? port := ok_or (p ← port_key; if p =? 0 then None else Some p) (Invalid PortZero) in
      Ok (server, port)
  end.

(** [u32::try_from(v).ok().filter(|c| (1..=max).contains(c))]. *)
Definition in_range (max v : Z) : option Z :=
  c ← u32_try_from v; if (1 <=? c) && (c <=? max) then Some c else None.

Definition conf_endpoint (a : conf_acc) : result Endpoint ConfigError :=
  match ca_socket a with
  | Some path => Ok (Unix path)
  | None =>
      let '(server, defaulted) :=
        match ca_server a with Some s => (s, false) | None => (DEFAULT_SERVER, true) end in
      let port := match ca_port a with
                  | Some p => Some p
                  | None => if defaulted : bool then Some DEFAULT_TCP_PORT else None
                  end in
      let? (host, port) := parse_server server port in
      Ok (Tcp host port)
  end.

Definition config_from_pairs (pairs : list (rstring * ConfValue)) : result BridgeConfig ConfigError :=
  let? a := conf_loop {| ca_socket := None; ca_server := None; ca_port := None;
                         ca_channels := None; ca_rate := None |} pairs in
  if bool_decide (is_Some (ca_socket a)) && bool_decide (is_Some (ca_server a))
  then Err (Conflict SocketAndServer)
  else if bool_decide (is_Some (ca_port a)) && negb (bool_decide (is_Some (ca_server a)))
  then Err (Conflict PortWithoutServer)
  else
    let? endpoint := conf_endpoint a in
    let? channels := ok_or (in_range MAX_CHANNELS (default DEFAULT_CHANNELS (ca_channels a))) (Invalid ChannelsRange) in
    let? rate := ok_or (in_range MAX_RATE (default DEFAULT_RATE (ca_rate a))) (Invalid RateRange) in
    Ok {| endpoint := endpoint; cfg_channels := channels; cfg_rate := rate |}.

(** ** The libasound side *)

Definition SND_PCM_IOPLUG_VERSION : Z := 0x010002.
Definition HW_ACCESS : Z := 0.
Definition HW_FORMAT : Z := 1.
Definition HW_CHANNELS : Z := 2.
Definition HW_RATE : Z := 3.
Definition SND_PCM_ACCESS_RW_INTERLEAVED : Z := 3.
Definition SND_PCM_FORMAT_FLOAT_LE : Z := 14.
Definition SND_PCM_STREAM_PLAYBACK : Z := 0.
Definition SND_PCM_STREAM_CAPTURE : Z := 1.
Definition POLLIN : Z := 0x001.
Definition POLLOUT : Z := 0x004.
Definition EIO : Z := 5.
Definition EINVAL : Z := 22.
Definition ENODEV : Z := 19.
Definition ENOENT : Z := 2.
Definition PLUGIN_NAME : rstring := lit "sonicbrew local-socket bridge PCM".

Record SndPcmChannelArea : Type := { area_addr : Z; area_first : Z; area_step : Z }.

(** The integer fields; [callback] and [private_data] always point to the
    callback table and to the record that holds this one. *)
Record SndPcmIoplug : Type := {
  io_version : Z; io_name : rstring; io_flags : Z; io_poll_fd : Z; io_poll_events : Z; io_mmap_rw : Z;
  io_stream : Z; io_state : Z; io_appl_ptr : Z; io_hw_ptr : Z; io_nonblock : Z; io_access : Z;
  io_format : Z; io_channels : Z; io_rate : Z; io_period_size : Z; io_buffer_size : Z
}.

Record SonicbrewPcm (X : Type) : Type := {
  sb_io : SndPcmIoplug; sb_bridge : sock X; sb_channels : nat; sb_hw_frames : Z; sb_samples : list F32.f32
}.
Arguments sb_io {X}.
Arguments sb_bridge {X}.
Arguments sb_channels {X}.
Arguments sb_hw_frames {X}.
Arguments sb_samples {X}.
Arguments Build_SonicbrewPcm {X}.

(** ** Transfers *)

(** Memory of a little-endian host, and unaligned float access. *)
Abbreviation memory := (Z -> Z).
Definition read_unaligned (m : memory) (a : Z) : F32.f32 := of_le [m a; m (a + 1); m (a + 2); m (a + 3)].
Definition write_unaligned (m : memory) (a : Z) (v : F32.f32) : memory :=
  fun x => if (a <=? x) && (x <? a + 4) then get (le_bytes 4 v) (Z.to_nat (x - a)) else m x.

(** [addr + (first + (offset + frame) * step) / 8], in 64-bit arithmetic. *)
Definition sample_addr (area : SndPcmChannelArea) (offset frame : Z) : Z :=
  let bits := wrap 64 (area_first area + wrap 64 (wrap 64 (offset + frame) * area_step area)) in
  wrap 64 (area_addr area + bits / 8).

Definition area_at (areas : list SndPcmChannelArea) (ch : nat) : SndPcmChannelArea :=
  nth ch areas {| area_addr := 0; area_first := 0; area_step := 0 |}.

Definition gather_interleaved (samples : list F32.f32) (areas : list SndPcmChannelArea) (offset : Z)
    (size channels : nat) (m : memory) : list F32.f32 :=
  fill (fun '(frame, ch) => (frame * channels + ch)%nat)
       (fun '(frame, ch) => read_unaligned m (sample_addr (area_at areas ch) offset (Z.of_nat frame)))
       (pairs size channels) samples.

Definition scatter_interleaved (samples : list F32.f32) (areas : list SndPcmChannelArea) (offset : Z)
    (size channels : nat) (m : memory) : memory :=
  foldl (fun m '(frame, ch) =>
           write_unaligned m (sample_addr (area_at areas ch) offset (Z.of_nat frame))
             (nth (frame * channels + ch) samples F32.zero))
        m (pairs size channels).

Inductive transfer_error (X : Type) : Type := FrameCountOverflow | TransferIo (e : X).
Arguments FrameCountOverflow {X}.
Arguments TransferIo {X}.

Section callbacks.
Context {X : Type}.
Implicit Types sb : SonicbrewPcm X.

Definition with_samples sb (l : list F32.f32) : SonicbrewPcm X :=
  {| sb_io := sb_io sb; sb_bridge := sb_bridge sb; sb_channels := sb_channels sb;
     sb_hw_frames := sb_hw_frames sb; sb_samples := l |}.
Definition transferred sb (s : sock X) (l : list F32.f32) (size : Z) : SonicbrewPcm X :=
  {| sb_io := sb_io sb; sb_bridge := s; sb_channels := sb_channels sb;
     sb_hw_frames := wrap 64 (sb_hw_frames sb + size); sb_samples := l |}.

Definition transfer_frames sb (stream : Z) (areas : list SndPcmChannelArea) (offset size : Z) (m : memory)
    : SonicbrewPcm X * memory * result Z (transfer_error X) :=
  let count := size * Z.of_nat (sb_channels sb) in
  if 2 ^ 64 <=? count then (sb, m, Err FrameCountOverflow)
  else
    let samples := resize (Z.to_nat count) F32.zero (sb_samples sb) in
    if stream =? SND_PCM_STREAM_PLAYBACK then
      let samples := gather_interleaved samples areas offset (Z.to_nat size) (sb_channels sb) m in
      match send_frames (sb_bridge sb) samples with
      | Ok s => (transferred sb s samples size, m, Ok size)
      | Err e => (with_samples sb samples, m, Err (TransferIo e))
      end
    else
      match recv_frames_into (sb_bridge sb) samples with
      | Ok (samples, s) =>
          (transferred sb s samples size,
           scatter_interleaved samples areas offset (Z.to_nat size) (sb_channels sb) m, Ok size)
      | Err e => (with_samples sb samples, m, Err (TransferIo e))
      end.

Definition cb_start sb : Z := 0.
Definition cb_stop sb : Z := 0.

Definition cb_pointer sb : Z :=
  let buffer := io_buffer_size (sb_io sb) in
  if buffer =? 0 then 0 else to_signed 64 (sb_hw_frames sb mod buffer).

Definition cb_transfer sb (areas : list SndPcmChannelArea) (offset size : Z) (m : memory)
    : SonicbrewPcm X * memory * Z :=
  match transfer_frames sb (io_stream (sb_io sb)) areas offset size m with
  | (sb, m, Ok n) => (sb, m, to_signed 64 n)
  | (sb, m, Err _) => (sb, m, - EIO)
  end.
End callbacks.

(** ** Opening a PCM *)

(** The calls of libasound, with the codes they return: [C] is a configuration,
    [N] one of its nodes, [P] a PCM handle. *)
Record AlsaLib (C N P : Type) : Type := {
  snd_config_search : C -> rstring -> Z * N;
  snd_config_get_string : N -> Z * rstring;
  snd_config_get_integer : N -> Z * Z;
  snd_pcm_ioplug_create : SndPcmIoplug -> rstring -> Z -> Z -> Z * P;
  snd_pcm_ioplug_set_param_list : P -> Z -> list Z -> Z
}.
Arguments snd_config_search {C N P}.
Arguments snd_config_get_string {C N P}.
Arguments snd_config_get_integer {C N P}.
Arguments snd_pcm_ioplug_create {C N P}.
Arguments snd_pcm_ioplug_set_param_list {C N P}.

(** The stand-ins of a build without libasound. *)
Definition stub_alsa {C} : AlsaLib C unit unit := {|
  snd_config_search _ _ := (- ENOENT, tt);
  snd_config_get_string _ := (- EINVAL, []);
  snd_config_get_integer _ := (- EINVAL, 0);
  snd_pcm_ioplug_create _ _ _ _ := (- ENODEV, tt);
  snd_pcm_ioplug_set_param_list _ _ _ := - ENODEV
|}.

Inductive OpenFail (X : Type) : Type :=
| FailConfig (e : ConfigError)
| FailBridge (e : OpenError X)
| FailAlsa (code : Z)
| BadStream.
Arguments FailConfig {X}.
Arguments FailBridge {X}.
Arguments FailAlsa {X}.
Arguments BadStream {X}.

Section open.
Context {X C N P : Type} (lib : AlsaLib C N P) (dial : Endpoint -> result (sock X) X).

Definition conf_keys : list (rstring * bool) :=
  [(lit "socket", true); (lit "server", true); (lit "port", false); (lit "channels", false); (lit "rate", false)].

Fixpoint extract_keys (keys : list (rstring * bool)) (conf : C) : result (list (rstring * ConfValue)) Z :=
  match keys with
  | [] => Ok []
  | (key, is_str) :: keys =>
      let '(r, node) := snd_config_search lib conf key in
      if r =? - ENOENT then extract_keys keys conf
      else if r <? 0 then Err r
      else
        let? value :=
          (if is_str : bool then
             let '(r, s) := snd_config_get_string lib node in
             if r <? 0 then Err r else Ok (Str s)
           else
             let '(r, v) := snd_config_get_integer lib node in
             if r <? 0 then Err r else Ok (Int v)) in
        let? pairs := extract_keys keys conf in
        Ok ((key, value) :: pairs)
  end.
Definition extract_conf_pairs : C -> result (list (rstring * ConfValue)) Z := extract_keys conf_keys.

Fixpoint pin_lists (pcm : P) (lists : list (Z * list Z)) : result unit Z :=
  match lists with
  | [] => Ok tt
  | (hw, l) :: lists =>
      let r := snd_pcm_ioplug_set_param_list lib pcm hw l in
      if r <? 0 then Err r else pin_lists pcm lists
  end.
Definition pin_hw (pcm : P) (channels rate : Z) : result unit Z :=
  pin_lists pcm [(HW_ACCESS, [SND_PCM_ACCESS_RW_INTERLEAVED]); (HW_FORMAT, [SND_PCM_FORMAT_FLOAT_LE]);
                 (HW_CHANNELS, [channels]); (HW_RATE, [rate])].

(** What is left behind: the handle written through [pcmp], the handle libasound
    holds, and the plugin's record while it is allocated. *)
Record open_result : Type := {
  or_published : option P; or_created : option P; or_record : option (SonicbrewPcm X)
}.
Definition nothing_left : open_result := {| or_published := None; or_created := None; or_record := None |}.

Definition new_pcm (fd : Z) (dir : StreamDir) (stream : Z) (cfg : BridgeConfig) (s : sock X) : SonicbrewPcm X :=
  {| sb_io := {| io_version := SND_PCM_IOPLUG_VERSION; io_name := PLUGIN_NAME; io_flags := 0; io_poll_fd := fd;
                 io_poll_events := (if bool_decide (dir = Playback) then POLLOUT else POLLIN);
                 io_mmap_rw := 0; io_stream := stream; io_state := 0; io_appl_ptr := 0; io_hw_ptr := 0;
                 io_nonblock := 0; io_access := 0; io_format := 0; io_channels := cfg_channels cfg;
                 io_rate := cfg_rate cfg; io_period_size := 0; io_buffer_size := 0 |};
     sb_bridge := s; sb_channels := Z.to_nat (cfg_channels cfg); sb_hw_frames := 0; sb_samples := [] |}.

(** The part after the socket is connected. *)
Definition create_pcm (sb : SonicbrewPcm X) (cfg : BridgeConfig) (name : option rstring) (stream mode : Z)
    : open_result * result unit (OpenFail X) :=
  let '(r, pcm) := snd_pcm_ioplug_create lib (sb_io sb) (default PLUGIN_NAME name) stream mode in
  if r <? 0 then (nothing_left, Err (FailAlsa r))
  else
    match pin_hw pcm (cfg_channels cfg) (cfg_rate cfg) with
    | Err code => ({| or_published := None; or_created := Some pcm; or_record := None |}, Err (FailAlsa code))
    | Ok _ => ({| or_published := Some pcm; or_created := Some pcm; or_record := Some sb |}, Ok tt)
    end.

(** [fd] is the descriptor of the connected socket. *)
Definition open_pcm (fd : Z) (name : option rstring) (conf : C) (stream mode : Z)
    : open_result * result unit (OpenFail X) :=
  let prepared :=
    let? dir := (if stream =? SND_PCM_STREAM_PLAYBACK then Ok Playback
                 else if stream =? SND_PCM_STREAM_CAPTURE then Ok Capture
                 else Err BadStream) in
    let? pairs := map_err FailAlsa (extract_conf_pairs conf) in
    let? cfg := map_err FailConfig (config_from_pairs pairs) in
    let? (s, _) := map_err FailBridge (bridge_connect dial (endpoint cfg) dir (cfg_channels cfg) (cfg_rate cfg)) in
    Ok (new_pcm fd dir stream cfg s, cfg) in
  match prepared with
  | Err e => (nothing_left, Err e)
  | Ok (sb, cfg) => create_pcm sb cfg name stream mode
  end.

Definition snd_pcm_sonicbrew_open (fd : Z) (name : option rstring) (conf : C) (stream mode : Z)
    : open_result * Z :=
  match open_pcm fd name conf stream mode with
  | (w, Ok _) => (w, 0)
  | (w, Err e) =>
      (w, match e with
          | FailConfig _ | FailBridge (OpenHandshake _) | FailBridge (Mismatch _ _) | BadStream => - EINVAL
          | FailBridge (OpenIo _) => - EIO
          | FailAlsa code => code
          end)
  end.
End open.
Arguments open_result : clear implicits.
Arguments nothing_left {X P}.

(** [cb_close]: the record is reclaimed from libasound and dropped. *)
Definition cb_close {X P} (w : open_result X P) : open_result X P * Z :=
  ({| or_published := or_published w; or_created := or_created w; or_record := None |}, 0).

(** ** The handshake *)

Definition valid_handshake (hs : Handshake) : Prop :=
  magic hs = BRIDGE_MAGIC /\ version hs = BRIDGE_PROTO_VERSION /\
  1 <= hs_channels hs <= MAX_CHANNELS /\ 1 <= hs_rate hs <= MAX_RATE.

Definition handshake_bytes (hs : Handshake) : bytes := handshake_words hs ≫= le_bytes 4.

Section handshake_facts.
Context {X : Type}.
Implicit Types s : sock X.

Definition with_rx s (rx : bytes) : sock X :=
  {| sk_rx := rx; sk_eof := sk_eof s; sk_tx := sk_tx s; sk_wfail := sk_wfail s |}.

Lemma length_handshake_bytes hs : length (handshake_bytes hs) = 20%nat.
Proof. done. Qed.

(** Twenty bytes are five words. *)
Lemma five_words (l : bytes) :
  byte_list l -> length l = 20%nat ->
  exists a b c d e, l = [a; b; c; d; e] ≫= le_bytes 4 /\ Forall u32 [a; b; c; d; e].
Proof.
  intros Hl Hlen.
  do 20 (destruct l as [|? l]; [discriminate Hlen|]).
  destruct l; [|discriminate Hlen]. clear Hlen.
  unfold byte_list in Hl. rewrite !Forall_cons in Hl. destruct_and!.
  exists (of_le [z; z0; z1; z2]), (of_le [z3; z4; z5; z6]), (of_le [z7; z8; z9; z10]),
    (of_le [z11; z12; z13; z14]), (of_le [z15; z16; z17; z18]).
  rewrite !bind_cons, !(le_bytes_of_le [_; _; _; _]) by bytes_ok. split; [done|].
  repeat apply Forall_cons_2; try apply Forall_nil_2;
    (apply (of_le_range [_; _; _; _]); bytes_ok).
Qed.

(** Reading five words. *)
Definition check_words (a b c d e : Z) : result Handshake (HandshakeError X) :=
  if negb (a =? BRIDGE_MAGIC) then Err (BadMagic a)
  else if negb (b =? BRIDGE_PROTO_VERSION) then Err (UnsupportedVersion b)
  else
    let? dir := ok_or (StreamDir_from_u32 c) (HsInvalid (lit "stream_dir")) in
    if (d =? 0) || (MAX_CHANNELS <? d) then Err (HsInvalid (lit "channels"))
    else if (e =? 0) || (MAX_RATE <? e) then Err (HsInvalid (lit "rate"))
    else Ok {| magic := a; version := b; stream_dir := dir; hs_channels := d; hs_rate := e |}.

Lemma read_words s a b c d e rest :
  Forall u32 [a; b; c; d; e] -> sk_rx s = ([a; b; c; d; e] ≫= le_bytes 4) ++ rest ->
  read_handshake s = (let? hs := check_words a b c d e in Ok (hs, with_rx s rest)).
Proof.
  intros Hu Hrx. rewrite !Forall_cons in Hu. destruct Hu as (Ha & Hb & Hc & Hd & He & _).
  unfold read_handshake, read_exact. rewrite Hrx.
  set (buf := [a; b; c; d; e] ≫= le_bytes 4). assert (length buf = 20%nat) as Hlen by done.
  rewrite (proj2 (Nat.ltb_ge _ _)) by (rewrite length_app; lia).
  rewrite take_app_length', drop_app_length' by done. cbn [map_err rbind].
  assert (Hw : forall i v, [a; b; c; d; e] !! i = Some v -> u32 v ->
    of_le [get buf (i * 4); get buf (i * 4 + 1); get buf (i * 4 + 2); get buf (i * 4 + 3)] = v).
  { intros i v Hi Hv. rewrite <- (of_le_le_bytes_id 4 v Hv) at 1.
    do 5 (destruct i as [|i]; [injection Hi as <-; done|]). done. }
  unfold check_words.
  rewrite (Hw 0%nat a), (Hw 1%nat b), (Hw 2%nat c), (Hw 3%nat d), (Hw 4%nat e) by done.
  destruct (negb (a =? BRIDGE_MAGIC)); [done|]. destruct (negb (b =? BRIDGE_PROTO_VERSION)); [done|].
  destruct (StreamDir_from_u32 c); cbn [ok_or rbind]; [|done].
  destruct ((d =? 0) || _); [done|]. by destruct ((e =? 0) || _).
Qed.

Lemma check_words_ok a b c d e hs :
  Forall u32 [a; b; c; d; e] ->
  check_words a b c d e = Ok hs <-> valid_handshake hs /\ handshake_words hs = [a; b; c; d; e].
Proof.
  intros Hu. rewrite !Forall_cons in Hu. destruct Hu as (_ & _ & _ & Hd & He & _). unfold uint in Hd, He.
  unfold check_words, valid_handshake, handshake_words, StreamDir_from_u32. split.
  - guards; cbn [negb ok_or rbind orb]; intros Hok; try done; injection Hok as <-; cbn; repeat split; lia || congruence.
  - destruct hs as [m v dir ch rt]. cbn. intros [(-> & -> & Hch & Hrt) [= <- <- <- <- <-]].
    rewrite !Z.eqb_refl. cbn [negb].
    destruct dir; cbn [dir_to_u32 Z.eqb ok_or rbind]; guards; cbn [orb]; done || lia.
Qed.

Lemma valid_words_u32 hs : valid_handshake hs -> Forall u32 (handshake_words hs).
Proof.
  intros (Hm & Hv & Hch & Hrt). unfold handshake_words, MAX_CHANNELS, MAX_RATE in *. rewrite Hm, Hv.
  repeat apply Forall_cons_2; try apply Forall_nil_2; unfold uint; try lia; try done.
  by destruct (stream_dir hs).
Qed.

Lemma read_handshake_ok s hs s' :
  byte_list (sk_rx s) ->
  read_handshake s = Ok (hs, s') <->
  valid_handshake hs /\ exists rest, sk_rx s = handshake_bytes hs ++ rest /\ s' = with_rx s rest.
Proof.
  intros Hb. split.
  - intros Hr. destruct (Nat.lt_ge_cases (length (sk_rx s)) 20) as [Hlt|Hge].
    { unfold read_handshake, read_exact in Hr. by rewrite (proj2 (Nat.ltb_lt _ _)) in Hr. }
    destruct (five_words (take 20 (sk_rx s))) as (a & b & c & d & e & Ht & Hu).
    { by apply Forall_take. } { rewrite length_take. lia. }
    rewrite (read_words s a b c d e (drop 20 (sk_rx s)) Hu) in Hr by (by rewrite <- Ht, take_drop).
    apply rbind_ok in Hr as (hs' & Hc & [= <- <-]). apply check_words_ok in Hc as [Hv Hw]; [|done].
    split; [done|]. exists (drop 20 (sk_rx s)). split; [|done].
    unfold handshake_bytes. by rewrite Hw, <- Ht, take_drop.
  - intros (Hv & rest & Hrx & ->). pose proof (valid_words_u32 hs Hv) as Hu.
    rewrite (read_words s _ _ _ _ _ rest Hu Hrx). by rewrite (proj2 (check_words_ok _ _ _ _ _ hs Hu)).
Qed.

(** C33: Opening the bridge succeeds exactly against an echo.  Whatever the
    server sends, the plugin connects exactly when the offered channel count and
    rate are within the protocol's limits, the socket connects and takes the
    handshake, and the server's first twenty bytes are the ones offered; it then
    has written exactly these bytes and the rest of the server's bytes is
    audio. *)
Theorem bridge_connect_iff (dial : Endpoint -> result (sock X) X) e dir channels rate s hs :
  (forall s0, dial e = Ok s0 -> byte_list (sk_rx s0)) ->
  bridge_connect dial e dir channels rate = Ok (s, hs) <->
  hs = Handshake_new dir channels rate /\ valid_handshake hs /\
  exists s0 audio, dial e = Ok s0 /\ sk_wfail s0 = None /\ sk_rx s0 = handshake_bytes hs ++ audio /\
    s = {| sk_rx := audio; sk_eof := sk_eof s0; sk_tx := sk_tx s0 ++ handshake_bytes hs; sk_wfail := None |}.
Proof.
  intros Hbytes. unfold bridge_connect, write_handshake, write_all.
  destruct (dial e) as [s0|x] eqn:Hd; cbn [map_err rbind].
  2: { split; [done|]. by intros (_ & _ & ? & ? & ? & _). }
  destruct (sk_wfail s0) as [x|] eqn:Hwf; cbn [map_err rbind].
  { split; [done|]. intros (_ & _ & ? & ? & [= <-] & ? & _). congruence. }
  set (s1 := Build_sock (sk_rx s0) (sk_eof s0) _ None). split.
  - intros Hok. apply rbind_ok in Hok as ([hs' s'] & Hr & Hchk).
    destruct (read_handshake s1) as [[hs2 s2]|] eqn:Hr1; [|done]. injection Hr as -> ->.
    apply read_handshake_ok in Hr1 as (Hv & rest & Hrx & ->); [|exact (Hbytes s0 eq_refl)].
    destruct (bool_decide_reflect (stream_dir hs' = stream_dir (Handshake_new dir channels rate))) as [Hdir|];
      cbn [negb orb] in Hchk; [|done].
    guards_in Hchk; cbn [negb orb] in Hchk; try done. injection Hchk as <- <-.
    assert (hs' = Handshake_new dir channels rate) as ->.
    { destruct hs', Hv as (? & ? & _). unfold Handshake_new in *. cbn in *. congruence. }
    split; [done|]. split; [done|]. by exists s0, rest.
  - intros (-> & Hv & s0' & audio & [= <-] & _ & Hrx & ->).
    assert (Hr1 : read_handshake s1 = Ok (Handshake_new dir channels rate, with_rx s1 audio)).
    { apply read_handshake_ok; [exact (Hbytes s0 eq_refl)|]. split; [done|]. by exists audio. }
    rewrite Hr1. cbn [map_err rbind]. by rewrite bool_decide_eq_true_2, !Z.eqb_refl.
Qed.
End handshake_facts.

Lemma bridge_connect_iff_witness :
  bridge_connect (X := unit)
    (fun _ => Ok {| sk_rx := handshake_bytes (Handshake_new Capture 2 48000) ++ [1; 2; 3; 4]; sk_eof := tt;
                    sk_tx := []; sk_wfail := None |})
    (Tcp DEFAULT_SERVER DEFAULT_TCP_PORT) Capture 2 48000 =
  Ok ({| sk_rx := [1; 2; 3; 4]; sk_eof := tt; sk_tx := [] ++ handshake_bytes (Handshake_new Capture 2 48000);
         sk_wfail := None |}, Handshake_new Capture 2 48000).
Proof.
  apply (bridge_connect_iff (X := unit)).
  - intros s0 [= <-]. apply (bool_decide_eq_true_1 _). vm_compute. reflexivity.
  - split; [reflexivity|]. split; [unfold valid_handshake; cbn; unfold MAX_CHANNELS, MAX_RATE; lia|].
    eexists _, _. split; [reflexivity|]. split; [reflexivity|]. split; reflexivity.
Defined.

(** ** Configuration *)

Lemma in_range_bounds max v c : in_range max v = Some c -> 1 <= c <= max.
Proof.
  unfold in_range, u32_try_from. destruct ((0 <=? v) && (v <? 2 ^ 32)); cbn; [|done].
  destruct (Z.leb_spec 1 v), (Z.leb_spec v max); cbn; try done. by intros [= <-].
Qed.

Definition port_ok (p : option Z) : Prop := forall v, p = Some v -> 0 <= v <= 65535.

Lemma conf_key_port a key value a' : conf_key a key value = Ok a' -> port_ok (ca_port a) -> port_ok (ca_port a').
Proof.
  unfold conf_key, port_ok. intros Hk Hp.
  repeat (case_bool_decide; [repeat (apply rbind_ok in Hk as (? & ? & Hk)); injection Hk as <-; cbn; try done|]).
  - unfold u16_try_from in *. intros v [= <-]. case_match eqn:Hr; [|done]. cbn in *. simplify_eq.
    apply andb_true_iff in Hr as [?%Z.leb_le ?%Z.ltb_lt]. lia.
  - done.
Qed.

Lemma conf_loop_port a pairs a' : conf_loop a pairs = Ok a' -> port_ok (ca_port a) -> port_ok (ca_port a').
Proof.
  revert a. induction pairs as [|[k v] pairs IH]; intros a; cbn [conf_loop]; [by intros [= <-]|].
  intros (a1 & Hk & Hl)%rbind_ok Hp. eapply IH; [done|]. by eapply conf_key_port.
Qed.

Lemma parse_server_port server port_key host port :
  port_ok port_key -> parse_server server port_key = Ok (host, port) -> 1 <= port <= 65535.
Proof.
  intros Hp. unfold parse_server. destruct (rsplit_once 58 server) as [[h p]|].
  - case_bool_decide; [done|]. destruct (negb _ && _); [done|].
    intros (v & Hv & Hz)%rbind_ok. destruct (parse_uint (2 ^ 16 - 1) p) eqn:Hparse; [|done].
    injection Hv as ->. apply parse_uint_range in Hparse; [|lia].
    destruct (Z.eqb_spec v 0); [done|]. injection Hz as _ <-. lia.
  - intros (v & Hv & [= _ <-])%rbind_ok. destruct port_key as [q|]; [|done]. cbn in Hv.
    specialize (Hp q eq_refl). destruct (Z.eqb_spec q 0); [done|]. injection Hv as <-. lia.
Qed.

Lemma config_bounds pairs cfg :
  config_from_pairs pairs = Ok cfg ->
  1 <= cfg_channels cfg <= MAX_CHANNELS /\ 1 <= cfg_rate cfg <= MAX_RATE /\
  match endpoint cfg with Tcp _ port => 1 <= port <= 65535 | Unix _ => True end.
Proof.
  unfold config_from_pairs. intros (a & Hl & Hc)%rbind_ok.
  apply conf_loop_port in Hl; [|by intros ? [=]].
  destruct (bool_decide (is_Some (ca_socket a)) && _); [done|].
  destruct (bool_decide (is_Some (ca_port a)) && _); [done|].
  apply rbind_ok in Hc as (e & He & (c & Hch & (r & Hr & [= <-])%rbind_ok)%rbind_ok). cbn.
  split; [|split].
  - destruct (in_range MAX_CHANNELS _) eqn:H; [|done]. injection Hch as <-. by eapply in_range_bounds.
  - destruct (in_range MAX_RATE _) eqn:H; [|done]. injection Hr as <-. by eapply in_range_bounds.
  - unfold conf_endpoint in He. destruct (ca_socket a); [by injection He as <-|].
    destruct (ca_server a) as [s|]; apply rbind_ok in He as ([host port] & Hs & [= <-]);
      eapply parse_server_port in Hs; try done; destruct (ca_port a); try done.
    intros v [= <-]. unfold DEFAULT_TCP_PORT. lia.
Qed.

(** An accepted ALSA configuration is within bounds and can be opened: it
    has 1 to 1024 channels, a rate of 1 to 768000 Hz and, for TCP, a port of 1
    to 65535, whatever integers the file gives; and a server at the endpoint
    that echoes the handshake is never turned down. *)
Theorem alsa_config_bounds (pairs : list (rstring * ConfValue)) (cfg : BridgeConfig) :
  config_from_pairs pairs = Ok cfg ->
  1 <= cfg_channels cfg <= 1024 /\ 1 <= cfg_rate cfg <= 768000 /\
  match endpoint cfg with Tcp _ port => 1 <= port <= 65535 | Unix _ => True end /\
  forall dir (audio : bytes), byte_list audio ->
    let hs := Handshake_new dir (cfg_channels cfg) (cfg_rate cfg) in
    bridge_connect (X := unit)
      (fun _ => Ok {| sk_rx := handshake_bytes hs ++ audio; sk_eof := tt; sk_tx := []; sk_wfail := None |})
      (endpoint cfg) dir (cfg_channels cfg) (cfg_rate cfg) =
    Ok ({| sk_rx := audio; sk_eof := tt; sk_tx := handshake_bytes hs; sk_wfail := None |}, hs).
Proof.
  intros Hc. destruct (config_bounds _ _ Hc) as (Hch & Hrt & He). split; [done|]. split; [done|].
  split; [done|]. intros dir audio Ha hs. unfold bridge_connect.
  set (s1 := Build_sock (X := unit) (handshake_bytes hs ++ audio) tt (handshake_bytes hs) None).
  assert (Hr : read_handshake s1 = Ok (hs, with_rx s1 audio)).
  { apply read_handshake_ok.
    - apply Forall_app_2; [|done]. unfold handshake_bytes.
      apply Forall_bind, Forall_forall. intros w _. apply le_bytes_u8.
    - split; [done|]. by exists audio. }
  cbn [map_err rbind write_handshake write_all sk_wfail sk_rx sk_eof sk_tx app].
  change (handshake_words (Handshake_new dir (cfg_channels cfg) (cfg_rate cfg)) ≫= le_bytes 4) with (handshake_bytes hs).
  fold s1. rewrite Hr. cbn [map_err rbind].
  by rewrite bool_decide_eq_true_2, !Z.eqb_refl.
Qed.

Lemma alsa_config_bounds_witness :
  config_from_pairs [(lit "server", Str (lit "10.0.0.4:7000")); (lit "rate", Int 96000)] =
    Ok {| endpoint := Tcp (lit "10.0.0.4") 7000; cfg_channels := 2; cfg_rate := 96000 |} /\
  1 <= 2 <= 1024 /\ 1 <= 96000 <= 768000 /\ 1 <= 7000 <= 65535.
Proof.
  split; [vm_compute; reflexivity|].
  edestruct (alsa_config_bounds [(lit "server", Str (lit "10.0.0.4:7000")); (lit "rate", Int 96000)]
    {| endpoint := Tcp (lit "10.0.0.4") 7000; cfg_channels := 2; cfg_rate := 96000 |}) as (Hc & Hr & He & _).
  - vm_compute. reflexivity.
  - split; [exact Hc|]. split; [exact Hr|exact He].
Defined.

(** A server given by name alone is refused: the documented default port only
    applies when no server is given at all. *)
Lemma bare_host_refused (host : rstring) :
  (58 ∉ host) -> config_from_pairs [(lit "server", Str host)] = Err (Invalid PortZero).
Proof.
  intros Hh. unfold config_from_pairs. cbn [conf_loop].
  assert (conf_key {| ca_socket := None; ca_server := None; ca_port := None; ca_channels := None; ca_rate := None |}
    (lit "server") (Str host) = Ok {| ca_socket := None; ca_server := Some host; ca_port := None;
    ca_channels := None; ca_rate := None |}) as -> by done.
  cbn [rbind]. do 2 (rewrite bool_decide_eq_false_2 by (by intros [? [=]]); cbn [andb]).
  unfold conf_endpoint, parse_server. cbn [ca_socket ca_server ca_port].
  by rewrite (proj2 (rsplit_once_none 58 host) Hh).
Qed.

(** The host of a bracketed IPv6 address keeps its brackets. *)
Lemma ipv6_keeps_brackets :
  config_from_pairs [(lit "server", Str (lit "[::1]:9001"))] =
  Ok {| endpoint := Tcp (lit "[::1]") 9001; cfg_channels := 2; cfg_rate := 48000 |}.
Proof. vm_compute. reflexivity. Qed.

(** ** Transfers *)

(** The areas of an interleaved buffer at [base]. *)
Definition interleaved_areas (base : Z) (channels : nat) : list SndPcmChannelArea :=
  (fun ch => {| area_addr := base; area_first := 32 * Z.of_nat ch; area_step := 32 * Z.of_nat channels |})
  <$> seq 0 channels.

(** [count] samples from sample number [start] of a buffer at [base]. *)
Definition read_block (m : memory) (base start : Z) (count : nat) : list F32.f32 :=
  (fun j => read_unaligned m (base + 4 * (start + Z.of_nat j))) <$> seq 0 count.
Definition write_block (m : memory) (base start : Z) (l : list F32.f32) : memory :=
  fun x =>
    if (base + 4 * start <=? x) && (x <? base + 4 * (start + Z.of_nat (length l)))
    then get (l ≫= le_bytes 4) (Z.to_nat (x - (base + 4 * start))) else m x.

Section layout.
Context (base offset : Z) (size channels : nat).
(** The buffer and its bit offsets fit the address space. *)
Hypothesis (Hbase : 0 <= base) (Hoff : 0 <= offset).
Hypothesis Hfit : base + 32 * ((offset + Z.of_nat size) * Z.of_nat channels) <= 2 ^ 64.
Hypothesis Hch : Z.of_nat channels < 2 ^ 32.

Lemma interleaved_addr frame ch :
  (frame < size)%nat -> (ch < channels)%nat ->
  sample_addr (area_at (interleaved_areas base channels) ch) offset (Z.of_nat frame) =
  base + 4 * (offset * Z.of_nat channels + Z.of_nat (frame * channels + ch)).
Proof.
  intros Hf Hc. unfold area_at, interleaved_areas, sample_addr.
  erewrite nth_lookup_Some by (rewrite list_lookup_fmap, lookup_seq_lt by done; done).
  cbn [area_addr area_first area_step Nat.add].
  assert (Hlt : (offset + Z.of_nat frame) * Z.of_nat channels + Z.of_nat ch <
                (offset + Z.of_nat size) * Z.of_nat channels) by nia.
  assert (0 <= (offset + Z.of_nat frame) * Z.of_nat channels) by nia.
  rewrite (wrap_id 64 (offset + Z.of_nat frame)) by (unfold uint; nia).
  rewrite (wrap_id 64 ((offset + Z.of_nat frame) * _)) by (unfold uint; nia).
  rewrite (wrap_id 64 (32 * Z.of_nat ch + _)) by (unfold uint; nia).
  replace (32 * Z.of_nat ch + (offset + Z.of_nat frame) * (32 * Z.of_nat channels))
    with (8 * (4 * ((offset + Z.of_nat frame) * Z.of_nat channels + Z.of_nat ch))) by ring.
  rewrite (Z.mul_comm 8), Z.div_mul by lia.
  rewrite wrap_id by (unfold uint; nia). nia.
Qed.

Lemma NoDup_interleaved : NoDup ((fun '(frame, ch) => (frame * channels + ch)%nat) <$> pairs size channels).
Proof.
  apply NoDup_fmap_2_strong; [|apply NoDup_pairs].
  intros [i c] [i' c'] H1 H2 Heq. rewrite elem_of_pairs in H1, H2.
  assert (i = i') as -> by nia. f_equal. lia.
Qed.

(** Frame by frame is sample by sample. *)
Lemma flat_pairs {B} (g : nat -> B) :
  (fun '(frame, ch) => g (frame * channels + ch)%nat) <$> pairs size channels = g <$> seq 0 (size * channels).
Proof.
  destruct (Nat.eq_dec channels 0%nat) as [Hz|Hnz].
  { assert (length (pairs size channels) = 0%nat) as ->%nil_length_inv by (rewrite length_pairs; lia).
    by replace (size * channels)%nat with 0%nat by lia. }
  apply list_eq. intros j. rewrite !list_lookup_fmap.
  destruct (Nat.lt_ge_cases j (size * channels)) as [Hj|Hj].
  - rewrite lookup_seq_lt by done. cbn.
    pose proof (Nat.div_mod j channels Hnz) as Hdm. pose proof (Nat.mod_upper_bound j channels Hnz).
    assert (j / channels < size)%nat by (apply Nat.Div0.div_lt_upper_bound; lia).
    rewrite Hdm at 1. rewrite (Nat.mul_comm channels), pairs_lookup by done. cbn. do 2 f_equal. lia.
  - rewrite lookup_seq_ge by done. by rewrite lookup_ge_None_2 by (by rewrite length_pairs).
Qed.

Lemma gather_block (samples : list F32.f32) m :
  length samples = (size * channels)%nat ->
  gather_interleaved samples (interleaved_areas base channels) offset size channels m =
  read_block m base (offset * Z.of_nat channels) (size * channels).
Proof.
  intros Hlen. unfold gather_interleaved, read_block. apply list_eq_same_length with (n := (size * channels)%nat).
  { by rewrite length_fmap, length_seq. } { by rewrite length_fill. }
  intros j x y Hj Hx Hy.
  assert (Hnz : channels <> 0%nat) by nia.
  pose proof (Nat.div_mod j channels Hnz) as Hdm. pose proof (Nat.mod_upper_bound j channels Hnz) as Hm.
  assert (Hd : (j / channels < size)%nat) by (apply Nat.Div0.div_lt_upper_bound; lia).
  assert (Hidx : (j / channels * channels + j mod channels)%nat = j) by lia.
  pose proof (fill_lookup (fun '(frame, ch) => (frame * channels + ch)%nat)
    (fun '(frame, ch) => read_unaligned m (sample_addr (area_at (interleaved_areas base channels) ch) offset
      (Z.of_nat frame))) (pairs size channels) samples (j / channels, j mod channels)%nat
    NoDup_interleaved (proj2 (elem_of_pairs _ _ _ _) (conj Hd Hm))) as Hfl.
  cbn beta iota in Hfl. rewrite Hidx, interleaved_addr, Hidx in Hfl by done.
  rewrite Hfl in Hx by lia. rewrite list_lookup_fmap, lookup_seq_lt in Hy by done.
  cbn [fmap option_fmap option_map Nat.add] in Hy. congruence.
Qed.

Lemma write_block_snoc m b start l v x :
  write_unaligned (write_block m b start l) (b + 4 * (start + Z.of_nat (length l))) v x =
  write_block m b start (l ++ [v]) x.
Proof.
  unfold write_unaligned, write_block. rewrite length_app, bind_app, Nat2Z.inj_add. cbn [length].
  set (a := b + 4 * (start + Z.of_nat (length l))).
  assert (length (l ≫= le_bytes 4) = length l * 4)%nat as Hlen by apply length_bind_const, length_le_bytes.
  destruct (Z.leb_spec a x), (Z.ltb_spec x (a + 4)); cbn [andb].
  - rewrite (proj2 (Z.leb_le _ _)), (proj2 (Z.ltb_lt _ _)) by lia. cbn [andb].
    unfold get. rewrite app_nth2 by lia. rewrite bind_singleton. f_equal. lia.
  - rewrite (proj2 (Z.ltb_ge x (b + 4 * (start + (Z.of_nat (length l) + Z.of_nat 1))))) by lia.
    rewrite (proj2 (Z.ltb_ge x a)) by lia. by rewrite !andb_false_r.
  - rewrite (proj2 (Z.ltb_lt x a)) by lia.
    rewrite (proj2 (Z.ltb_lt x (b + 4 * (start + (Z.of_nat (length l) + Z.of_nat 1))))) by lia.
    destruct (Z.leb_spec (b + 4 * start) x); cbn [andb]; [|done].
    unfold get. rewrite app_nth1 by lia. done.
  - lia.
Qed.

Lemma write_unaligned_ext m m' a v x : (forall y, m y = m' y) -> write_unaligned m a v x = write_unaligned m' a v x.
Proof. intros Hm. unfold write_unaligned. by rewrite Hm. Qed.

Lemma write_block_nil m b start x : write_block m b start [] x = m x.
Proof. unfold write_block. cbn [length]. destruct (Z.leb_spec (b + 4 * start) x), (Z.ltb_spec x (b + 4 * (start + Z.of_nat 0))); cbn; done || lia. Qed.

Lemma write_loop m b start (l : list F32.f32) k x :
  (k <= length l)%nat ->
  foldl (fun m j => write_unaligned m (b + 4 * (start + Z.of_nat j)) (nth j l F32.zero)) m (seq 0 k) x =
  write_block m b start (take k l) x.
Proof.
  revert x. induction k as [|k IH]; intros x Hk; [by cbn; rewrite write_block_nil|].
  rewrite seq_S, foldl_snoc. cbn [Nat.add].
  destruct (lookup_lt_is_Some_2 l k ltac:(lia)) as [v Hv].
  rewrite (take_S_r l k v Hv), (nth_lookup_Some _ _ _ _ Hv), <- write_block_snoc, length_take_le by lia.
  apply write_unaligned_ext. intros y. apply IH. lia.
Qed.

Lemma scatter_block (samples : list F32.f32) m x :
  length samples = (size * channels)%nat ->
  scatter_interleaved samples (interleaved_areas base channels) offset size channels m x =
  write_block m base (offset * Z.of_nat channels) samples x.
Proof.
  intros Hlen. unfold scatter_interleaved.
  transitivity (foldl (fun m j => write_unaligned m (base + 4 * (offset * Z.of_nat channels + Z.of_nat j))
    (nth j samples F32.zero)) m (seq 0 (size * channels)) x).
  - rewrite <- (list_fmap_id (seq 0 (size * channels))), <- (flat_pairs id), foldl_fmap.
    apply (f_equal (fun mm : memory => mm x)). apply foldl_ext_in. intros m' [frame ch] [Hf Hc]%elem_of_pairs. cbn. by rewrite interleaved_addr.
  - rewrite <- Hlen, write_loop by done. by rewrite take_ge.
Qed.
End layout.

Lemma read_write_block m b start (l : list F32.f32) :
  Forall u32 l -> read_block (write_block m b start l) b start (length l) = l.
Proof.
  intros Hl. unfold read_block. apply list_eq_same_length with (n := length l); [done|by rewrite length_fmap, length_seq|].
  intros j x y Hj Hx Hy. rewrite list_lookup_fmap, lookup_seq_lt in Hx by done.
  cbn [fmap option_fmap option_map Nat.add] in Hx. injection Hx as <-.
  rewrite Forall_lookup in Hl. specialize (Hl j y Hy).
  assert (Hb : forall i, (i < 4)%nat ->
    write_block m b start l (b + 4 * (start + Z.of_nat j) + Z.of_nat i) = get (le_bytes 4 y) i).
  { intros i Hi. unfold write_block. rewrite (proj2 (Z.leb_le _ _)), (proj2 (Z.ltb_lt _ _)) by lia. cbn [andb].
    unfold get. rewrite !nth_lookup. replace (Z.to_nat _) with (j * 4 + i)%nat by lia.
    by rewrite (bind_lookup (le_bytes 4) 4 (length_le_bytes 4) l j y i Hy Hi). }
  transitivity (of_le [get (le_bytes 4 y) 0; get (le_bytes 4 y) 1; get (le_bytes 4 y) 2; get (le_bytes 4 y) 3]);
    [|by apply (of_le_le_bytes_id 4)]. unfold read_unaligned.
  rewrite <- !Hb by lia. by rewrite Z.add_0_r.
Qed.

Lemma recv_sent {X} (s : sock X) (l out : list F32.f32) rest :
  Forall u32 l -> length out = length l -> sk_rx s = (l ≫= le_bytes 4) ++ rest ->
  recv_frames_into s out = Ok (l, with_rx s rest).
Proof.
  intros Hl Hlen Hrx. unfold recv_frames_into, read_exact. rewrite Hrx, Hlen.
  assert (length (l ≫= le_bytes 4) = length l * 4)%nat as Hb by apply length_bind_const, length_le_bytes.
  rewrite (proj2 (Nat.ltb_ge _ _)) by (rewrite length_app; lia).
  rewrite take_app_length', drop_app_length' by done. cbn [rbind].
  rewrite chunks_exact_bind by (lia || apply length_le_bytes). do 2 f_equal.
  clear Hrx Hb. revert out Hlen. induction Hl as [|x l Hx _ IH]; intros [|o out] Hlen; try done.
  cbn [fmap list_fmap zip_with]. f_equal.
  - transitivity (of_le (le_bytes 4 x)); [done|]. by apply of_le_le_bytes_id.
  - apply IH. by injection Hlen.
Qed.

(** C34: Audio survives the plugin.  When a capture transfer receives a block of
    samples into an interleaved buffer, exactly the bytes of these frames of the
    buffer change, and a playback transfer of the same frames sends exactly the
    bytes that were received; both move the stream position by the number of
    frames. *)
Theorem alsa_audio_roundtrip {X} (base offset : Z) (size channels : nat) (sb_c sb_p : SonicbrewPcm X)
    (m : memory) (l : list F32.f32) (rest : bytes) :
  0 <= base -> 0 <= offset -> Z.of_nat channels < 2 ^ 32 ->
  base + 32 * ((offset + Z.of_nat size) * Z.of_nat channels) <= 2 ^ 64 ->
  length l = (size * channels)%nat -> Forall u32 l ->
  sb_channels sb_c = channels -> sk_rx (sb_bridge sb_c) = (l ≫= le_bytes 4) ++ rest ->
  sb_channels sb_p = channels -> sk_wfail (sb_bridge sb_p) = None ->
  let areas := interleaved_areas base channels in
  exists sb_c' m' sb_p',
    transfer_frames sb_c SND_PCM_STREAM_CAPTURE areas offset (Z.of_nat size) m = (sb_c', m', Ok (Z.of_nat size)) /\
    transfer_frames sb_p SND_PCM_STREAM_PLAYBACK areas offset (Z.of_nat size) m' = (sb_p', m', Ok (Z.of_nat size)) /\
    sk_rx (sb_bridge sb_c') = rest /\
    sk_tx (sb_bridge sb_p') = sk_tx (sb_bridge sb_p) ++ (l ≫= le_bytes 4) /\
    sb_hw_frames sb_c' = wrap 64 (sb_hw_frames sb_c + Z.of_nat size) /\
    sb_hw_frames sb_p' = wrap 64 (sb_hw_frames sb_p + Z.of_nat size) /\
    forall x, x < base + 4 * (offset * Z.of_nat channels) \/
              base + 4 * ((offset + Z.of_nat size) * Z.of_nat channels) <= x -> m' x = m x.
Proof.
  intros Hbase Hoff Hch Hfit Hlen Hl Hc Hrx Hp Hw areas.
  set (m' := scatter_interleaved l areas offset size channels m).
  assert (Hm' : forall x, m' x = write_block m base (offset * Z.of_nat channels) l x)
    by (intros; by apply scatter_block).
  assert (Hcount : Z.to_nat (Z.of_nat size * Z.of_nat channels) = (size * channels)%nat) by nia.
  exists (transferred sb_c (with_rx (sb_bridge sb_c) rest) l (Z.of_nat size)), m'.
  eexists. unfold transfer_frames. rewrite Hc, Hp.
  rewrite (proj2 (Z.leb_gt _ _)) by nia. rewrite Hcount, Nat2Z.id.
  change (SND_PCM_STREAM_CAPTURE =? SND_PCM_STREAM_PLAYBACK) with false.
  change (SND_PCM_STREAM_PLAYBACK =? SND_PCM_STREAM_PLAYBACK) with true. cbn iota.
  rewrite (recv_sent _ l _ rest Hl) by (done || by rewrite length_resize).
  split; [done|].
  assert (gather_interleaved (resize (size * channels) F32.zero (sb_samples sb_p)) areas offset size channels m' = l) as ->.
  { unfold areas. rewrite gather_block by (done || by rewrite length_resize).
    rewrite <- Hlen. rewrite <- (read_write_block m base (offset * Z.of_nat channels) l Hl) at 2.
    unfold read_block. apply list_fmap_ext. intros i j _. unfold read_unaligned. by rewrite !Hm'. }
  unfold send_frames, write_all. rewrite Hw. split; [done|]. cbn. do 4 (split; [done|]).
  intros x Hx. rewrite Hm'. unfold write_block. rewrite Hlen.
  destruct (Z.leb_spec (base + 4 * (offset * Z.of_nat channels)) x),
    (Z.ltb_spec x (base + 4 * (offset * Z.of_nat channels + Z.of_nat (size * channels)))); cbn; done || nia.
Qed.

(** A stereo block of one frame after frame 3 of a buffer at address 4096. *)
Definition demo_pcm (dir : StreamDir) (rx : bytes) : SonicbrewPcm unit :=
  new_pcm 5 dir (dir_to_u32 dir) {| endpoint := Unix []; cfg_channels := 2; cfg_rate := 48000 |}
    {| sk_rx := rx; sk_eof := tt; sk_tx := []; sk_wfail := None |}.

Lemma alsa_audio_roundtrip_witness : exists sb_c' m' sb_p',
  transfer_frames (demo_pcm Capture [1; 2; 3; 4; 5; 6; 7; 8; 9]) 1 (interleaved_areas 4096 2) 3 1 (fun _ => 0)
    = (sb_c', m', Ok 1) /\
  transfer_frames (demo_pcm Playback []) 0 (interleaved_areas 4096 2) 3 1 m' = (sb_p', m', Ok 1) /\
  sk_tx (sb_bridge sb_p') = [1; 2; 3; 4; 5; 6; 7; 8] /\ m' 4119 = 0 /\ m' 4128 = 0.
Proof.
  destruct (alsa_audio_roundtrip 4096 3 1 2 (demo_pcm Capture [1; 2; 3; 4; 5; 6; 7; 8; 9]) (demo_pcm Playback [])
    (fun _ => 0) [of_le [1; 2; 3; 4]; of_le [5; 6; 7; 8]] [9]) as (sb_c' & m' & sb_p' & H1 & H2 & _ & H3 & _ & _ & H4).
  1-4: lia.
  1: reflexivity.
  1: apply (bool_decide_eq_true_1 _); vm_compute; reflexivity.
  1-4: reflexivity.
  exists sb_c', m', sb_p'. split; [exact H1|]. split; [exact H2|]. split; [rewrite H3; reflexivity|].
  split; apply H4; lia.
Defined.

(** ** Opening *)

Section open_facts.
Context {X C N P : Type} (lib : AlsaLib C N P) (dial : Endpoint -> result (sock X) X).

Lemma extract_keys_err keys conf code : extract_keys lib keys conf = Err code -> code < 0.
Proof.
  induction keys as [|[key is_str] keys IH]; cbn [extract_keys]; [done|].
  destruct (snd_config_search lib conf key) as [r node].
  destruct (Z.eqb_spec r (- ENOENT)); [done|]. destruct (Z.ltb_spec r 0); [by intros [= <-]|].
  intros [Hv|(v & _ & [Hp|(? & _ & [=])]%rbind_err)]%rbind_err; [|by apply IH].
  destruct is_str.
  - destruct (snd_config_get_string lib node) as [r' ?]. destruct (Z.ltb_spec r' 0); [by injection Hv as <-|done].
  - destruct (snd_config_get_integer lib node) as [r' ?]. destruct (Z.ltb_spec r' 0); [by injection Hv as <-|done].
Qed.

Lemma pin_lists_err pcm lists code : pin_lists lib pcm lists = Err code -> code < 0.
Proof.
  induction lists as [|[hw l] lists IH]; cbn [pin_lists]; [done|].
  destruct (Z.ltb_spec (snd_pcm_ioplug_set_param_list lib pcm hw l) 0); [by intros [= <-]|done].
Qed.

(** What a published PCM starts from. *)
Definition fresh_pcm (sb : SonicbrewPcm X) (stream : Z) : Prop :=
  exists dir cfg s, stream = dir_to_u32 dir /\
    bridge_connect dial (endpoint cfg) dir (cfg_channels cfg) (cfg_rate cfg)
      = Ok (s, Handshake_new dir (cfg_channels cfg) (cfg_rate cfg)) /\
    sb_bridge sb = s /\ sb_channels sb = Z.to_nat (cfg_channels cfg) /\ sb_hw_frames sb = 0 /\
    1 <= cfg_channels cfg <= MAX_CHANNELS /\ 1 <= cfg_rate cfg <= MAX_RATE /\ io_stream (sb_io sb) = stream.

Lemma connect_echo e dir channels rate s hs :
  bridge_connect dial e dir channels rate = Ok (s, hs) -> hs = Handshake_new dir channels rate.
Proof.
  unfold bridge_connect. intros (s0 & _ & (s1 & _ & ([hs' s2] & Hr & Hc)%rbind_ok)%rbind_ok)%rbind_ok.
  destruct (read_handshake s1) as [[hs1 s3]|] eqn:Hh; [|done]. injection Hr as -> ->.
  assert (magic hs' = BRIDGE_MAGIC /\ version hs' = BRIDGE_PROTO_VERSION) as [Hm Hv].
  { unfold read_handshake in Hh. apply rbind_ok in Hh as ([buf s4] & _ & Hh).
    match type of Hh with context [?a =? BRIDGE_MAGIC] => destruct (Z.eqb_spec a BRIDGE_MAGIC) end; [|done].
    match type of Hh with context [?a =? BRIDGE_PROTO_VERSION] => destruct (Z.eqb_spec a BRIDGE_PROTO_VERSION) end; [|done].
    cbn [negb] in Hh. apply rbind_ok in Hh as (d & _ & Hh).
    destruct (_ || _); [done|]. destruct (_ || _); [done|]. by injection Hh as <- _. }
  case_bool_decide as Hd; cbn [negb orb] in Hc; [|done].
  guards_in Hc; cbn [negb orb] in Hc; try done. injection Hc as _ <-.
  destruct hs'. unfold Handshake_new in *. cbn in *. congruence.
Qed.

Lemma create_pcm_cases (sb : SonicbrewPcm X) cfg name stream mode w r :
  create_pcm lib sb cfg name stream mode = (w, r) ->
  (exists pcm, w = {| or_published := Some pcm; or_created := Some pcm; or_record := Some sb |} /\ r = Ok tt) \/
  (exists code, code < 0 /\ r = Err (FailAlsa code) /\ or_published w = None /\ or_record w = None).
Proof.
  unfold create_pcm. destruct (snd_pcm_ioplug_create lib _ _ _ _) as [c pcm].
  destruct (Z.ltb_spec c 0); [intros [= <- <-]; right; by exists c|].
  destruct (pin_hw lib pcm (cfg_channels cfg) (cfg_rate cfg)) as [[]|code] eqn:Hp; intros [= <- <-].
  - left. by exists pcm.
  - right. apply pin_lists_err in Hp. by exists code.
Qed.

(** Opening an ALSA PCM either publishes a complete one or reports an
    error.  The entry point returns 0 exactly when it published a handle: then
    libasound owns that handle and the plugin's record, which holds a socket
    whose handshake was echoed for this stream's direction and for a channel
    count and rate in range, at position 0.  Otherwise the code is a negative
    errno, nothing is published and the record is freed. *)
Theorem alsa_open_publishes (fd : Z) (name : option rstring) (conf : C) (stream mode : Z) w code :
  snd_pcm_sonicbrew_open lib dial fd name conf stream mode = (w, code) ->
  (code = 0 /\ exists pcm sb, fresh_pcm sb stream /\
     w = {| or_published := Some pcm; or_created := Some pcm; or_record := Some sb |}) \/
  (code < 0 /\ or_published w = None /\ or_record w = None).
Proof.
  unfold snd_pcm_sonicbrew_open, open_pcm.
  destruct (rbind _ _) as [[sb cfg]|e] eqn:Hprep.
  - apply rbind_ok in Hprep as (dir & Hdir & (pairs & _ & (cfg' & Hcfg & ([s hs] & Hs & [= <- <-])%rbind_ok)%rbind_ok)%rbind_ok).
    destruct (create_pcm lib _ _ _ _ _) as [w' r] eqn:Hcr.
    destruct (create_pcm_cases _ _ _ _ _ _ _ Hcr) as [(pcm & -> & ->)|(c & Hc & -> & Hp & Hr)]; intros [= <- <-].
    + left. split; [done|]. exists pcm. eexists. split; [|done]. exists dir, cfg', s.
      destruct (config_from_pairs pairs) as [c|] eqn:Hcp; [|done]. injection Hcfg as ->.
      destruct (bridge_connect dial _ _ _ _) as [[s' hs']|] eqn:Hb; [|done]. injection Hs as -> ->.
      pose proof (connect_echo _ _ _ _ _ _ Hb) as ->. destruct (config_bounds _ _ Hcp) as (? & ? & _).
      split; [|done]. unfold SND_PCM_STREAM_PLAYBACK, SND_PCM_STREAM_CAPTURE in Hdir.
      destruct (Z.eqb_spec stream 0) as [->|]; [by injection Hdir as <-|].
      destruct (Z.eqb_spec stream 1) as [->|]; [by injection Hdir as <-|done].
    + by right.
  - intros [= <- <-]. right. split; [|done].
    apply rbind_err in Hprep as [Hd|(dir & _ & [Hp|(pairs & _ & [Hc|(cfg & _ & [Hb|(? & _ & Hn)]%rbind_err)]%rbind_err)]%rbind_err)].
    + destruct (stream =? _); [done|]. destruct (stream =? _); [done|]. by injection Hd as <-.
    + destruct (extract_conf_pairs lib conf) as [|c] eqn:He; [done|]. injection Hp as <-.
      by apply extract_keys_err in He.
    + destruct (config_from_pairs pairs); [done|]. by injection Hc as <-.
    + destruct (bridge_connect _ _ _ _ _) as [|[]]; [done|injection Hb as <-..]; done.
    + by destruct x.
Qed.

(** When libasound refuses a constraint after it has created the handle, the
    handle stays although the record it points to is freed. *)
Lemma pin_failure_leaves_handle (sb : SonicbrewPcm X) cfg name stream mode code :
  0 <= (snd_pcm_ioplug_create lib (sb_io sb) (default PLUGIN_NAME name) stream mode).1 ->
  pin_hw lib (snd_pcm_ioplug_create lib (sb_io sb) (default PLUGIN_NAME name) stream mode).2
    (cfg_channels cfg) (cfg_rate cfg) = Err code ->
  (create_pcm lib sb cfg name stream mode).1 =
  {| or_published := None; or_record := None;
     or_created := Some (snd_pcm_ioplug_create lib (sb_io sb) (default PLUGIN_NAME name) stream mode).2 |}.
Proof.
  unfold create_pcm. destruct (snd_pcm_ioplug_create lib _ _ _ _) as [r pcm]. cbn. intros Hr Hp.
  rewrite (proj2 (Z.ltb_ge _ _)) by done. by rewrite Hp.
Qed.
End open_facts.

(** A configuration with a TCP server, and a server that echoes. *)
Definition demo_lib : AlsaLib unit rstring Z := {|
  snd_config_search _ key := if bool_decide (key = lit "socket") then (0, key) else (- ENOENT, key);
  snd_config_get_string _ := (0, lit "/tmp/sonicbrew.sock");
  snd_config_get_integer _ := (0, 0);
  snd_pcm_ioplug_create _ _ _ _ := (0, 77);
  snd_pcm_ioplug_set_param_list _ _ _ := 0
|}.
Definition demo_dial (_ : Endpoint) : result (sock unit) unit :=
  Ok {| sk_rx := handshake_bytes (Handshake_new Playback 2 48000); sk_eof := tt; sk_tx := []; sk_wfail := None |}.

Lemma alsa_open_publishes_witness :
  exists w, snd_pcm_sonicbrew_open demo_lib demo_dial 5 None tt 0 0 = (w, 0) /\ or_published w = Some 77.
Proof.
  eexists. split; [vm_compute; reflexivity|].
  edestruct (alsa_open_publishes demo_lib demo_dial 5 None tt 0 0) as [(_ & pcm & sb & _ & Hw)|(Hneg & _)].
  - vm_compute. reflexivity.
  - injection Hw as Hp _ _. reflexivity.
  - discriminate Hneg.
Defined.
