(* ===== verification/PlanarNodes.v ===== *)
(** * Effects that work channel by channel

    Eight of the effect nodes of [crates/audio-engine/src/nodes/] share one
    [process]: for every channel of the planar block, in order, each sample goes
    through [process_sample], which keeps one state per channel.  This file
    models that loop for any such node, states as a class what such a node
    promises, and proves for all of them that processing a sequence of blocks is
    running one stream per channel. *)

From S2P Require Import Prelude F32 AudioNodes.
Local Open Scope Z_scope.
Import F32.

(** The functions of the platform's mathematical library. *)
Class MathOps : Type := {
  m_sin : f32 -> f32;
  m_cos : f32 -> f32;
  m_exp : f32 -> f32;
  m_tanh : f32 -> f32;
  m_powf : f32 -> f32 -> f32
}.

(** A frame with its samples overwritten. *)
Definition with_out (o : AudioFrame) (l : list f32) : AudioFrame :=
  {| fr_channels := fr_channels o; fr_rate := fr_rate o; fr_samples := l |}.

(** ** The loop *)

Section loop.
Context {D : Type} (process_sample : D -> f32 -> nat -> option (D * f32)).

(** One channel; a read or write out of range panics. *)
Fixpoint planar_channel (idxs : list nat) (c : nat) (inp : list f32) (d : D) (out : list f32)
    : option (D * list f32) :=
  match idxs with
  | [] => Some (d, out)
  | idx :: idxs =>
      x ← inp !! idx;
      '(d, y) ← process_sample d x c;
      _ ← out !! idx;
      planar_channel idxs c inp d (<[idx := y]> out)
  end.

Fixpoint planar_channels (cs : list nat) (per_ch : nat) (inp : list f32) (d : D) (out : list f32)
    : option (D * list f32) :=
  match cs with
  | [] => Some (d, out)
  | c :: cs =>
      '(d, out) ← planar_channel (seq (c * per_ch) per_ch) c inp d out;
      planar_channels cs per_ch inp d out
  end.

(** [process] with its first input and output frames. *)
Definition planar_process (d : D) (inp : AudioFrame) (out : list f32) : option (D * list f32) :=
  let ch := Z.to_nat (fr_channels inp) in
  let n := Nat.min (length (fr_samples inp)) (length out) in
  if (ch =? 0)%nat || (n =? 0)%nat then Some (d, out)
  else planar_channels (seq 0 ch) (n / ch) (fr_samples inp) d out.

(** [process] on the frames of the node's ports. *)
Definition planar_node (d : D) (ins outs : list AudioFrame) : option (D * list AudioFrame) :=
  match ins, outs with
  | inp :: _, out :: outs =>
      '(d, ys) ← planar_process d inp (fr_samples out);
      Some (d, with_out out ys :: outs)
  | _, _ => Some (d, outs)
  end.

(** Successive cycles, each with a fresh output frame. *)
Fixpoint planar_cycles (d : D) (blocks : list AudioFrame) : option (D * list (list f32)) :=
  match blocks with
  | [] => Some (d, [])
  | b :: blocks =>
      '(d, out) ← planar_node d [b] [with_out b (replicate (length (fr_samples b)) zero)];
      '(d, outs) ← planar_cycles d blocks;
      Some (d, (out ≫= fr_samples) :: outs)
  end.
End loop.

(** ** Nodes with a state per channel *)

(** [P] is what is fixed at construction, [S] the state of one channel. *)
Class SampleNode (D P S : Type) : Type := {
  sn_process : D -> f32 -> nat -> option (D * f32);
  sn_params : D -> P;
  sn_chan : D -> nat -> option S;
  sn_step : P -> S -> f32 -> option (S * f32)
}.

Class SampleNodeLaws (D P S : Type) `{SampleNode D P S} : Prop := {
  sn_process_ok : forall (d : D) (x : f32) (c : nat) (s s' : S) (y : f32),
    sn_chan d c = Some s -> sn_step (sn_params d) s x = Some (s', y) ->
    exists d', sn_process d x c = Some (d', y) /\ sn_params d' = sn_params d /\ sn_chan d' c = Some s' /\
      forall c', c' <> c -> sn_chan d' c' = sn_chan d c'
}.

(** One channel on its own. *)
Fixpoint stream {D P S} `{SampleNode D P S} (p : P) (s : S) (xs : list f32) : option (S * list f32) :=
  match xs with
  | [] => Some (s, [])
  | x :: xs =>
      '(s, y) ← sn_step p s x;
      '(s, ys) ← stream p s xs;
      Some (s, y :: ys)
  end.

Lemma bind_nil_in {A B} (f : A -> list B) (l : list A) : (forall x, x ∈ l -> f x = []) -> l ≫= f = [].
Proof.
  induction l as [|a l IH]; intros Hf; [done|]. rewrite bind_cons, Hf by left. apply IH.
  intros x Hx. apply Hf. by right.
Qed.

Section planar_facts.
Context {D P S : Type} `{SampleNodeLaws D P S}.
Implicit Types (d : D) (s : nat -> S) (inp : list f32).

Lemma stream_app (p : P) (st : S) xs ys :
  stream p st (xs ++ ys) =
  '(st, a) ← stream p st xs; '(st, b) ← stream p st ys; Some (st, a ++ b).
Proof.
  revert st. induction xs as [|x xs IH]; intros st; cbn [app stream mbind option_bind].
  - by destruct (stream p st ys) as [[]|].
  - destruct (sn_step p st x) as [[st' y]|]; [|done]. cbn [mbind option_bind]. rewrite IH.
    destruct (stream p st' xs) as [[st1 a]|]; [|done]. cbn [mbind option_bind].
    by destruct (stream p st1 ys) as [[]|].
Qed.

Lemma length_stream (p : P) (st st' : S) xs ys : stream p st xs = Some (st', ys) -> length ys = length xs.
Proof.
  revert st ys. induction xs as [|x xs IH]; intros st ys; cbn [stream]; [by intros [= _ <-]|].
  destruct (sn_step p st x) as [[s1 y]|]; [|done]. cbn [mbind option_bind].
  destruct (stream p s1 xs) as [[s2 zs]|] eqn:E; [|done]. intros [= <- <-]. cbn. f_equal. by eapply IH.
Qed.

(** The channels below [ch] have the given states. *)
Definition states (ch : nat) d s : Prop := forall c, (c < ch)%nat -> sn_chan d c = Some (s c).
Definition put s (c : nat) (v : S) : nat -> S := fun c' => if decide (c' = c) then v else s c'.

Lemma planar_channel_ok ch c inp xs (pre ys post : list f32) d s (s' : S) (zs : list f32) :
  states ch d s -> (c < ch)%nat ->
  (forall i x, xs !! i = Some x -> inp !! (length pre + i)%nat = Some x) -> length ys = length xs ->
  stream (sn_params d) (s c) xs = Some (s', zs) ->
  exists d', planar_channel sn_process (seq (length pre) (length xs)) c inp d (pre ++ ys ++ post) =
      Some (d', pre ++ zs ++ post) /\ sn_params d' = sn_params d /\ states ch d' (put s c s').
Proof.
  revert pre ys d s zs. induction xs as [|x xs IH]; intros pre ys d s zs Hst Hc Hin Hl Hs.
  { injection Hs as <- <-. destruct ys; [|done]. exists d. split; [done|]. split; [done|].
    intros c' Hc'. unfold put. destruct (decide (c' = c)) as [->|]; by apply Hst. }
  destruct ys as [|y ys]; [done|]. cbn [length seq planar_channel stream] in *.
  pose proof (Hin 0%nat x eq_refl) as Hx. rewrite Nat.add_0_r in Hx. rewrite Hx. cbn [mbind option_bind].
  destruct (sn_step (sn_params d) (s c) x) as [[s1 z]|] eqn:Hz; [|done]. cbn [mbind option_bind] in Hs.
  destruct (sn_process_ok d x c (s c) s1 z (Hst c Hc) Hz) as (d1 & -> & Hp1 & Hc1 & Ho1). cbn [mbind option_bind].
  cbn [app]. rewrite list_lookup_middle by done. cbn [mbind option_bind].
  destruct (stream (sn_params d) s1 xs) as [[s2 zs']|] eqn:Hrest; [|done]. injection Hs as <- <-.
  replace (<[length pre := z]> (pre ++ y :: ys ++ post)) with ((pre ++ [z]) ++ ys ++ post)
    by (rewrite insert_app_r_alt, Nat.sub_diag by lia; cbn; by rewrite <- app_assoc).
  replace (Datatypes.S (length pre)) with (length (pre ++ [z])) by (rewrite length_app; cbn; lia).
  destruct (IH (pre ++ [z]) ys d1 (put s c s1) zs') as (d2 & -> & Hp2 & Hst2).
  - intros c' Hc'. unfold put. destruct (decide (c' = c)) as [->|Hne]; [done|].
    rewrite Ho1 by done. by apply Hst.
  - done.
  - intros i w Hw. rewrite length_app. cbn [length]. rewrite <- Nat.add_assoc. by apply (Hin (Datatypes.S i) w).
  - by injection Hl.
  - unfold put. rewrite decide_True by done. by rewrite Hp1.
  - exists d2. split; [by rewrite <- app_assoc|]. split; [congruence|].
    intros c' Hc'. rewrite (Hst2 c' Hc'). unfold put. by destruct (decide (c' = c)).
Qed.

Lemma planar_channels_ok ch k c0 per b d s s' (zs : nat -> list f32) (pre rest : list f32) :
  states ch d s -> length b = (ch * per)%nat -> (c0 + k = ch)%nat ->
  length pre = (c0 * per)%nat -> length rest = (k * per)%nat ->
  (forall c, (c0 <= c < ch)%nat -> stream (sn_params d) (s c) (chan per c b) = Some (s' c, zs c)) ->
  exists d', planar_channels sn_process (seq c0 k) per b d (pre ++ rest) =
      Some (d', pre ++ (seq c0 k ≫= zs)) /\ sn_params d' = sn_params d /\
    states ch d' (fun c => if (c0 <=? c)%nat then s' c else s c).
Proof.
  revert c0 d s pre rest. induction k as [|k IH]; intros c0 d s pre rest Hst Hb Hk Hpre Hrest Hs.
  { destruct rest; [|done]. exists d. split; [done|]. split; [done|].
    intros c Hc. destruct (Nat.leb_spec c0 c); [lia|]. by apply Hst. }
  cbn [seq planar_channels]. rewrite <- (take_drop per rest).
  assert (Hlc : length (chan per c0 b) = per) by (apply (length_chan per ch); [done|lia]).
  destruct (planar_channel_ok ch c0 b (chan per c0 b) pre (take per rest) (drop per rest) d s (s' c0) (zs c0) Hst)
    as (d1 & E & Hp1 & Hst1).
  - lia.
  - intros i x Hi. unfold chan in Hi. apply lookup_take_Some in Hi as [Hi _].
    rewrite lookup_drop in Hi. by rewrite Hpre.
  - rewrite Hlc, length_take. lia.
  - apply Hs. lia.
  - rewrite Hlc, Hpre in E. rewrite E. cbn [mbind option_bind]. rewrite app_assoc.
    assert (Hlz : length (zs c0) = per) by (rewrite <- Hlc; eapply length_stream; apply Hs; lia).
    destruct (IH (Datatypes.S c0) d1 (put s c0 (s' c0)) (pre ++ zs c0) (drop per rest) Hst1 Hb) as (d2 & E2 & Hp2 & Hst2).
    + lia.
    + rewrite length_app, Hlz, Hpre. lia.
    + rewrite length_drop, Hrest. lia.
    + intros c Hc. unfold put. rewrite decide_False by lia. rewrite Hp1. apply Hs. lia.
    + exists d2. rewrite E2. split; [by rewrite bind_cons, <- app_assoc|]. split; [congruence|].
      intros c Hc. rewrite (Hst2 c Hc). unfold put.
      destruct (decide (c = c0)) as [->|Hne].
      * destruct (Nat.leb_spec (Datatypes.S c0) c0), (Nat.leb_spec c0 c0); done || lia.
      * destruct (Nat.leb_spec (Datatypes.S c0) c), (Nat.leb_spec c0 c); done || lia.
Qed.

Lemma planar_process_ok ch per (f : AudioFrame) d s s' (zs : nat -> list f32) :
  (0 < ch)%nat -> Z.to_nat (fr_channels f) = ch -> length (fr_samples f) = (ch * per)%nat -> states ch d s ->
  (forall c, (c < ch)%nat -> stream (sn_params d) (s c) (chan per c (fr_samples f)) = Some (s' c, zs c)) ->
  exists d', planar_process sn_process d f (replicate (length (fr_samples f)) zero) =
      Some (d', seq 0 ch ≫= zs) /\ sn_params d' = sn_params d /\ states ch d' s'.
Proof.
  intros Hch Hf Hl Hst Hs. unfold planar_process. rewrite Hf, length_replicate, Nat.min_id.
  destruct (Nat.eqb_spec ch 0); [lia|]. cbn [orb].
  assert (Hdiv : (length (fr_samples f) / ch = per)%nat)
    by (rewrite Hl, Nat.mul_comm; apply Nat.div_mul; lia).
  destruct (planar_channels_ok ch ch 0 per (fr_samples f) d s s' zs [] (replicate (length (fr_samples f)) zero))
    as (d' & E & Hp & Hst'); [done..| |by intros c [_ Hc]; apply Hs|].
  { by rewrite length_replicate. }
  destruct (Nat.eqb_spec (length (fr_samples f)) 0) as [Hz|Hz].
  - assert (per = 0%nat) as -> by nia. exists d. rewrite Hz. cbn [replicate].
    assert (Hnil : forall c, (c < ch)%nat -> zs c = [] /\ s' c = s c).
    { intros c Hc. specialize (Hs c Hc). unfold chan in Hs. rewrite take_0 in Hs. by injection Hs as -> ->. }
    split; [|split; [done|]].
    + do 2 f_equal. symmetry. apply bind_nil_in. intros c Hc%elem_of_seq. apply Hnil. lia.
    + intros c Hc. destruct (Hnil c Hc) as [_ ->]. by apply Hst.
  - rewrite Hdiv. exists d'. split; [exact E|]. split; [done|]. intros c Hc. by rewrite (Hst' c Hc).
Qed.

Definition whole (ch : nat) (f : AudioFrame) : Prop :=
  Z.to_nat (fr_channels f) = ch /\ exists per, length (fr_samples f) = (ch * per)%nat.

Lemma length_channels ch per (zs : nat -> list f32) k c0 :
  (c0 + k = ch)%nat -> (forall c, (c < ch)%nat -> length (zs c) = per) -> length (seq c0 k ≫= zs) = (k * per)%nat.
Proof.
  revert c0. induction k as [|k IH]; intros c0 Hk Hz; [done|]. cbn [seq].
  rewrite bind_cons, length_app, IH, Hz by (done || lia). lia.
Qed.

(** Running over blocks is running one stream per channel. *)
Lemma planar_run_streams (ch : nat) (blocks : list AudioFrame) d s s' (zs : nat -> list f32) :
  (0 < ch)%nat -> Forall (whole ch) blocks -> states ch d s ->
  (forall c, (c < ch)%nat ->
     stream (sn_params d) (s c) (channel_of ch c (fr_samples <$> blocks)) = Some (s' c, zs c)) ->
  exists d' outs, planar_cycles sn_process d blocks = Some (d', outs) /\
    sn_params d' = sn_params d /\ states ch d' s' /\ forall c, (c < ch)%nat -> channel_of ch c outs = zs c.
Proof.
  intros Hch Hall. revert d s zs. induction Hall as [|f blocks [Hf [per Hl]] Hall IH]; intros d s zs Hst Hs.
  { exists d, []. split; [done|]. split; [done|]. split.
    - intros c Hc. specialize (Hs c Hc). injection Hs as <- _. by apply Hst.
    - intros c Hc. specialize (Hs c Hc). by injection Hs as _ <-. }
  set (b := fr_samples f) in *.
  set (s1 := fun c => match stream (sn_params d) (s c) (chan per c b) with Some (v, _) => v | None => s c end).
  set (z1 := fun c => match stream (sn_params d) (s c) (chan per c b) with Some (_, z) => z | None => [] end).
  set (z2 := fun c => drop per (zs c)).
  assert (Hsplit : forall c, (c < ch)%nat ->
    stream (sn_params d) (s c) (chan per c b) = Some (s1 c, z1 c) /\ length (z1 c) = per /\
    stream (sn_params d) (s1 c) (channel_of ch c (fr_samples <$> blocks)) = Some (s' c, z2 c) /\ zs c = z1 c ++ z2 c).
  { intros c Hc. specialize (Hs c Hc). rewrite fmap_cons, (channel_of_cons ch c b _ per Hch Hl), stream_app in Hs.
    unfold s1, z1, z2.
    destruct (stream (sn_params d) (s c) (chan per c b)) as [[v a]|] eqn:E1; [|done]. cbn [mbind option_bind] in Hs.
    destruct (stream (sn_params d) v _) as [[v2 a2]|] eqn:E2; [|done]. injection Hs as <- <-.
    apply length_stream in E1. rewrite (length_chan per ch) in E1 by done.
    split; [done|]. split; [done|]. by rewrite drop_app_length'. }
  destruct (planar_process_ok ch per f d s s1 z1 Hch Hf Hl Hst) as (d1 & E1 & Hp1 & Hst1).
  { intros c Hc. by apply Hsplit. }
  destruct (IH d1 s1 z2 Hst1) as (d2 & outs & E2 & Hp2 & Hst2 & Hout).
  { intros c Hc. rewrite Hp1. by apply Hsplit. }
  exists d2, ((seq 0 ch ≫= z1) :: outs). cbn [planar_cycles planar_node with_out fr_samples]. fold b in E1 |- *. rewrite E1.
  cbn [mbind option_bind list_bind fr_samples]. rewrite app_nil_r.
  rewrite E2. cbn [mbind option_bind]. split; [done|]. split; [congruence|]. split; [done|].
  intros c Hc. destruct (Hsplit c Hc) as (_ & _ & _ & ->).
  assert (Hz1 : forall c, (c < ch)%nat -> length (z1 c) = per) by (intros; by apply Hsplit).
  rewrite (channel_of_cons ch c _ _ per Hch), Hout by (done || by apply (length_channels ch)).
  f_equal. unfold chan. rewrite (bind_block_in _ per _ c c); [done| |by rewrite lookup_seq_lt].
  intros c' Hc'%elem_of_seq. apply Hz1. lia.
Qed.

(** A step that never panics from states with an invariant makes a node that
    never panics. *)
Lemma stream_total (I : S -> Prop) (p : P) :
  (forall st x, I st -> exists st' y, sn_step p st x = Some (st', y) /\ I st') ->
  forall xs st, I st -> exists st' ys, stream p st xs = Some (st', ys).
Proof.
  intros Hstep xs. induction xs as [|x xs IH]; intros st Hi; [by exists st, []|].
  destruct (Hstep st x Hi) as (s1 & y & E & Hi1). destruct (IH s1 Hi1) as (s2 & ys & E2).
  exists s2, (y :: ys). cbn [stream]. rewrite E. cbn [mbind option_bind]. by rewrite E2.
Qed.

Lemma planar_total (I : S -> Prop) (ch : nat) (blocks : list AudioFrame) d s :
  (0 < ch)%nat -> Forall (whole ch) blocks -> states ch d s -> (forall c, (c < ch)%nat -> I (s c)) ->
  (forall st x, I st -> exists st' y, sn_step (sn_params d) st x = Some (st', y) /\ I st') ->
  is_Some (planar_cycles sn_process d blocks).
Proof.
  intros Hch Hall Hst Hi Hstep.
  set (run c := stream (sn_params d) (s c) (channel_of ch c (fr_samples <$> blocks))).
  destruct (planar_run_streams ch blocks d s
    (fun c => match run c with Some (v, _) => v | None => s c end)
    (fun c => match run c with Some (_, z) => z | None => [] end) Hch Hall Hst) as (d' & outs & E & _); [|by rewrite E].
  intros c Hc. fold (run c). unfold run.
  by destruct (stream_total I (sn_params d) Hstep (channel_of ch c (fr_samples <$> blocks)) (s c) (Hi c Hc)) as (? & ? & ->).
Qed.

(** C15: Channel-wise effects are independent of block boundaries and of each
    other's channels.  For every node that keeps one state per channel (the
    equaliser, the compressor, the gate, the bitcrusher, the distortion, the
    reverb, the chorus and the flanger are such nodes), running it over any
    sequence of planar blocks with whole channels gives on every channel exactly
    the stream its sample step makes of that channel's samples, however they are
    cut into blocks, and ends with that stream's state; in particular it does not
    panic when the streams do not. *)
Theorem effects_run_streams (ch : nat) (blocks : list AudioFrame) d s s' (zs : nat -> list f32) :
  (0 < ch)%nat -> Forall (whole ch) blocks -> states ch d s ->
  (forall c, (c < ch)%nat ->
     stream (sn_params d) (s c) (channel_of ch c (fr_samples <$> blocks)) = Some (s' c, zs c)) ->
  exists d' outs, planar_cycles sn_process d blocks = Some (d', outs) /\
    sn_params d' = sn_params d /\ states ch d' s' /\ forall c, (c < ch)%nat -> channel_of ch c outs = zs c.
Proof. apply planar_run_streams. Qed.
End planar_facts.
