(* ===== verification/EffectNodes.v ===== *)
(** * The channel-wise effect nodes

    [eq.rs], [compressor.rs], [noise_gate.rs], [bitcrusher.rs], [distortion.rs],
    [reverb.rs], [chorus.rs] and [flanger.rs] of
    [crates/audio-engine/src/nodes/]: constructors and [process_sample], with
    floats by their bits and an index out of range as [None].  Each is an
    instance of {!PlanarNodes}, whose theorem makes it one stream per channel. *)

From Stdlib Require Import SpecFloat.
From S2P Require Import Prelude F32 AudioNodes PlanarNodes.
Local Open Scope Z_scope.
Import F32.

(** Constants of the sources, to the nearest 32-bit float. *)
Definition f_0_001 : f32 := 0x3A83126F.
Definition f_0_01 : f32 := 0x3C23D70A.
Definition f_0_05 : f32 := 0x3D4CCCCD.
Definition f_0_1 : f32 := 0x3DCCCCCD.
Definition f_0_24 : f32 := 0x3E75C28F.
Definition f_0_28 : f32 := 0x3E8F5C29.
Definition f_0_7 : f32 := 0x3F333333.
Definition f_0_9 : f32 := 0x3F666666.
Definition f_4 : f32 := 0x40800000.
Definition f_5 : f32 := 0x40A00000.
Definition f_10 : f32 := 0x41200000.
Definition f_20 : f32 := 0x41A00000.
Definition f_40 : f32 := 0x42200000.
Definition f_1e_9 : f32 := 0x3089705F.
Definition PI : f32 := 0x40490FDB.
Definition TWO_PI : f32 := 0x40C90FDB.

Section effects.
Context `{MathOps}.

(** [10.0_f32.powf(db / 20.0)]. *)
Definition db_to_linear (db : f32) : f32 := m_powf f_10 (div db f_20).

(** A time constant in milliseconds as a one-pole coefficient. *)
Definition time_constant (ms : f32) (sample_rate : Z) : f32 :=
  if leb ms zero then one
  else
    let samples := mul (mul ms f_0_001) (of_Z sample_rate) in
    sub one (m_exp (div neg_one samples)).

(** ** Equaliser *)

Inductive FilterType : Type := LowPass | HighPass | BandPass | Peaking | LowShelf | HighShelf.

Record Coeffs : Type := { b0 : f32; b1 : f32; b2 : f32; a1 : f32; a2 : f32 }.

Record EqNode : Type := { coeffs : Coeffs; eq_z1 : list f32; eq_z2 : list f32 }.

Local Infix "+." := add (at level 50, left associativity).
Local Infix "-." := sub (at level 50, left associativity).
Local Infix "*." := mul (at level 40, left associativity).
Local Infix "/." := div (at level 40, left associativity).

Definition compute_coeffs (ft : FilterType) (freq gain_db q : f32) (sample_rate : Z) : Coeffs :=
  let sr := of_Z sample_rate in
  let w0 := two *. PI *. freq /. sr in
  let sin := m_sin w0 in
  let cos := m_cos w0 in
  let alpha := sin /. (two *. q) in
  let a := m_powf f_10 (gain_db /. f_40) in
  let neg_two := neg two in
  let '(b0, b1, b2, a0, a1, a2) :=
    match ft with
    | LowPass => ((one -. cos) /. two, one -. cos, (one -. cos) /. two, one +. alpha, neg_two *. cos, one -. alpha)
    | HighPass => ((one +. cos) /. two, neg (one +. cos), (one +. cos) /. two, one +. alpha, neg_two *. cos, one -. alpha)
    | BandPass => (alpha, zero, neg alpha, one +. alpha, neg_two *. cos, one -. alpha)
    | Peaking => (one +. alpha *. a, neg_two *. cos, one -. alpha *. a, one +. alpha /. a, neg_two *. cos, one -. alpha /. a)
    | LowShelf =>
        let sq := sqrt (a *. a) in
        (a *. ((a +. one) -. (a -. one) *. cos +. two *. sq *. alpha),
         two *. a *. ((a -. one) -. (a +. one) *. cos),
         a *. ((a +. one) -. (a -. one) *. cos -. two *. sq *. alpha),
         (a +. one) +. (a -. one) *. cos +. two *. sq *. alpha,
         neg_two *. ((a -. one) +. (a +. one) *. cos),
         (a +. one) +. (a -. one) *. cos -. two *. sq *. alpha)
    | HighShelf =>
        let sq := sqrt (a *. a) in
        (a *. ((a +. one) +. (a -. one) *. cos +. two *. sq *. alpha),
         neg_two *. a *. ((a -. one) +. (a +. one) *. cos),
         a *. ((a +. one) +. (a -. one) *. cos -. two *. sq *. alpha),
         (a +. one) -. (a -. one) *. cos +. two *. sq *. alpha,
         two *. ((a -. one) -. (a +. one) *. cos),
         (a +. one) -. (a -. one) *. cos -. two *. sq *. alpha)
    end in
  {| b0 := b0 /. a0; b1 := b1 /. a0; b2 := b2 /. a0; a1 := a1 /. a0; a2 := a2 /. a0 |}.

Definition EqNode_new (ft : FilterType) (freq gain_db q : f32) (sample_rate channels : Z) : EqNode :=
  {| coeffs := compute_coeffs ft freq gain_db q sample_rate;
     eq_z1 := replicate (Z.to_nat channels) zero; eq_z2 := replicate (Z.to_nat channels) zero |}.

(** The transposed biquad on its two registers. *)
Definition biquad (c : Coeffs) (z : f32 * f32) (x : f32) : (f32 * f32) * f32 :=
  let '(z1, z2) := z in
  let y := b0 c *. x +. z1 in
  ((b1 c *. x -. a1 c *. y +. z2, b2 c *. x -. a2 c *. y), y).

Definition eq_process_sample (d : EqNode) (x : f32) (ch : nat) : option (EqNode * f32) :=
  z1 ← eq_z1 d !! ch;
  z2 ← eq_z2 d !! ch;
  let '((z1, z2), y) := biquad (coeffs d) (z1, z2) x in
  Some ({| coeffs := coeffs d; eq_z1 := <[ch := z1]> (eq_z1 d); eq_z2 := <[ch := z2]> (eq_z2 d) |}, y).

(** ** Compressor *)

Record CompressorNode : Type := {
  cp_threshold : f32; cp_ratio : f32; cp_attack_coef : f32; cp_release_coef : f32; cp_makeup : f32;
  cp_envelope : list f32
}.

Definition CompressorNode_new (threshold_db ratio attack_ms release_ms makeup_db : f32)
    (sample_rate channels : Z) : CompressorNode :=
  {| cp_threshold := db_to_linear threshold_db; cp_ratio := ratio;
     cp_attack_coef := time_constant attack_ms sample_rate;
     cp_release_coef := time_constant release_ms sample_rate;
     cp_makeup := db_to_linear makeup_db;
     cp_envelope := replicate (Z.to_nat channels) zero |}.

(** The envelope follower both dynamics nodes use. *)
Definition follow (attack release env abs_x : f32) : f32 :=
  let coef := if ltb env abs_x then attack else release in
  env +. coef *. (abs_x -. env).

Definition compressor_process_sample (d : CompressorNode) (x : f32) (ch : nat)
    : option (CompressorNode * f32) :=
  env ← cp_envelope d !! ch;
  let env := follow (cp_attack_coef d) (cp_release_coef d) env (abs x) in
  let gain :=
    if ltb (cp_threshold d) env && ltb f_1e_9 env then
      let over := env /. cp_threshold d in
      let compressed := cp_threshold d *. m_powf over (one /. cp_ratio d) in
      compressed /. env
    else one in
  Some ({| cp_threshold := cp_threshold d; cp_ratio := cp_ratio d; cp_attack_coef := cp_attack_coef d;
           cp_release_coef := cp_release_coef d; cp_makeup := cp_makeup d;
           cp_envelope := <[ch := env]> (cp_envelope d) |},
        x *. gain *. cp_makeup d).

(** ** Noise gate *)

Record NoiseGateNode : Type := {
  ng_threshold : f32; ng_attack_coef : f32; ng_release_coef : f32; ng_hold_samples : Z;
  ng_envelope : list f32; ng_hold_counter : list Z; ng_gain : list f32
}.

Definition NoiseGateNode_new (threshold_db attack_ms hold_ms release_ms : f32) (sample_rate channels : Z)
    : NoiseGateNode :=
  let ch := Z.to_nat channels in
  {| ng_threshold := db_to_linear threshold_db;
     ng_attack_coef := time_constant attack_ms sample_rate;
     ng_release_coef := time_constant release_ms sample_rate;
     ng_hold_samples := to_uint 64 (hold_ms *. f_0_001 *. of_Z sample_rate);
     ng_envelope := replicate ch zero; ng_hold_counter := replicate ch 0; ng_gain := replicate ch zero |}.

(** The hold counter and the gain the gate aims for. *)
Definition gate_target (threshold : f32) (hold_samples : Z) (env : f32) (hold : Z) : Z * f32 :=
  if ltb threshold env then (hold_samples, one)
  else if 0 <? hold then (hold - 1, one)
  else (hold, zero).

Definition gate_process_sample (d : NoiseGateNode) (x : f32) (ch : nat) : option (NoiseGateNode * f32) :=
  env ← ng_envelope d !! ch;
  let env := follow (ng_attack_coef d) (ng_release_coef d) env (abs x) in
  hold ← ng_hold_counter d !! ch;
  let '(hold, target) := gate_target (ng_threshold d) (ng_hold_samples d) env hold in
  g ← ng_gain d !! ch;
  let g_coef := if ltb g target then ng_attack_coef d else ng_release_coef d in
  let g := g +. g_coef *. (target -. g) in
  Some ({| ng_threshold := ng_threshold d; ng_attack_coef := ng_attack_coef d;
           ng_release_coef := ng_release_coef d; ng_hold_samples := ng_hold_samples d;
           ng_envelope := <[ch := env]> (ng_envelope d); ng_hold_counter := <[ch := hold]> (ng_hold_counter d);
           ng_gain := <[ch := g]> (ng_gain d) |},
        x *. g).

(** ** Bitcrusher *)

Record BitcrusherNode : Type := {
  bc_bits : Z; bc_hold_factor : Z; bc_held_samples : list f32; bc_counters : list Z
}.

Definition BitcrusherNode_new (bits hold_factor channels : Z) : BitcrusherNode :=
  let ch := Z.to_nat (Z.max channels 1) in
  {| bc_bits := Z.max 1 (Z.min bits 16); bc_hold_factor := Z.max 1 (Z.min hold_factor 256);
     bc_held_samples := replicate ch zero; bc_counters := replicate ch 0 |}.

(** Quantisation to [2^bits] levels. *)
Definition crush (bits : Z) (held : f32) : f32 :=
  let levels := Z.shiftl 1 bits in
  let denom := of_Z (levels - 1) in
  let norm := (clamp neg_one one held +. one) *. half in
  let quantized := round (norm *. denom) /. denom in
  quantized *. two -. one.

(** The counter is a 64-bit integer. *)
Definition bitcrusher_process_sample (d : BitcrusherNode) (x : f32) (ch : nat) : option (BitcrusherNode * f32) :=
  counter ← bc_counters d !! ch;
  old ← bc_held_samples d !! ch;
  let held := if counter mod bc_hold_factor d =? 0 then x else old in
  Some ({| bc_bits := bc_bits d; bc_hold_factor := bc_hold_factor d;
           bc_held_samples := <[ch := held]> (bc_held_samples d);
           bc_counters := <[ch := wrap 64 (counter + 1)]> (bc_counters d) |},
        crush (bc_bits d) held).

(** ** Distortion *)

Inductive DistortionMode : Type := SoftClip | HardClip | Foldback | Overdrive.

Record DistortionNode : Type := {
  ds_drive : f32; ds_mode : DistortionMode; ds_threshold : f32; ds_output_level : f32
}.

Definition DistortionNode_new (mode : DistortionMode) (drive threshold output_level : f32) : DistortionNode :=
  {| ds_drive := clamp f_0_1 f_20 drive; ds_mode := mode; ds_threshold := clamp f_0_01 one threshold;
     ds_output_level := clamp zero two output_level |}.

(** [if s.abs() > t { t * s.signum() } else { s }], which the limiter uses too. *)
Definition hard_clip (t s : f32) : f32 := if ltb t (abs s) then t *. signum s else s.

(** [for _ in 0..n { if s.abs() <= t { break } .. }]. *)
Fixpoint fold_back (n : nat) (t s : f32) : f32 :=
  match n with
  | O => s
  | S n =>
      if leb (abs s) t then s
      else fold_back n t (t *. signum s *. (two -. abs s /. t))
  end.

Definition distort (d : DistortionNode) (x : f32) : option f32 :=
  let driven := ds_drive d *. x in
  shaped ←
    match ds_mode d with
    | SoftClip => Some (m_tanh driven)
    | HardClip => Some (hard_clip (ds_threshold d) driven)
    | Foldback => clamp_checked (neg (ds_threshold d)) (ds_threshold d) (fold_back 8 (ds_threshold d) driven)
    | Overdrive =>
        Some (if leb zero driven then one -. m_exp (neg driven) else neg (one -. m_exp driven))
    end;
  Some (shaped /. fmax (ds_output_level d) f_1e_9).

Definition distortion_process_sample (d : DistortionNode) (x : f32) (ch : nat) : option (DistortionNode * f32) :=
  y ← distort d x; Some (d, y).

(** ** Reverb *)

Definition COMB_DELAYS_441 : list Z := [1116; 1188; 1277; 1356; 1422; 1491; 1557; 1617].
Definition ALLPASS_DELAYS_441 : list Z := [556; 441; 341; 225].
Definition COMBS_PER_CHANNEL : nat := 8.
Definition ALLPASSES_PER_CHANNEL : nat := 4.
Definition ALLPASS_FEEDBACK : f32 := half.
Definition REFERENCE_RATE : Z := 44100.

Record CombFilter : Type := {
  cf_buffer : list f32; cf_idx : nat; cf_feedback : f32; cf_damp1 : f32; cf_damp2 : f32; cf_lowpass : f32
}.

Definition CombFilter_new (delay : nat) (feedback damping : f32) : CombFilter :=
  {| cf_buffer := replicate (Nat.max delay 1) zero; cf_idx := 0; cf_feedback := feedback;
     cf_damp1 := damping; cf_damp2 := one -. damping; cf_lowpass := zero |}.

Definition comb_process (f : CombFilter) (input : f32) : option (CombFilter * f32) :=
  output ← cf_buffer f !! cf_idx f;
  let lowpass := output *. cf_damp2 f +. cf_lowpass f *. cf_damp1 f in
  let buffer := <[cf_idx f := input +. lowpass *. cf_feedback f]> (cf_buffer f) in
  let idx := (cf_idx f + 1)%nat in
  Some ({| cf_buffer := buffer; cf_idx := if (length buffer <=? idx)%nat then 0%nat else idx;
           cf_feedback := cf_feedback f; cf_damp1 := cf_damp1 f; cf_damp2 := cf_damp2 f; cf_lowpass := lowpass |},
        output).

Record AllpassFilter : Type := { ap_buffer : list f32; ap_idx : nat }.

Definition AllpassFilter_new (delay : nat) : AllpassFilter :=
  {| ap_buffer := replicate (Nat.max delay 1) zero; ap_idx := 0 |}.

Definition allpass_process (f : AllpassFilter) (input : f32) : option (AllpassFilter * f32) :=
  buffered ← ap_buffer f !! ap_idx f;
  let buffer := <[ap_idx f := input +. buffered *. ALLPASS_FEEDBACK]> (ap_buffer f) in
  let idx := (ap_idx f + 1)%nat in
  Some ({| ap_buffer := buffer; ap_idx := if (length buffer <=? idx)%nat then 0%nat else idx |},
        neg input +. buffered).

Record ReverbNode : Type := {
  rv_wet : f32; rv_dry : f32; rv_combs : list CombFilter; rv_allpasses : list AllpassFilter
}.

(** [as usize] of the scaled delay. *)
Definition scale_delay (base : Z) (scale : f32) : nat :=
  Z.to_nat (to_uint 64 (fmax (round (of_Z base *. scale)) one)).

Definition ReverbNode_new (room_size damping wet dry : f32) (sample_rate channels : Z) : ReverbNode :=
  let room_size := clamp zero one room_size in
  let damping := clamp zero one damping in
  let ch := Z.to_nat (Z.max channels 1) in
  let scale := of_Z sample_rate /. of_Z REFERENCE_RATE in
  let feedback := room_size *. f_0_28 +. f_0_7 in
  {| rv_wet := clamp zero one wet; rv_dry := clamp zero one dry;
     rv_combs := seq 0 ch ≫= fun _ =>
       (fun base => CombFilter_new (scale_delay base scale) feedback damping) <$> COMB_DELAYS_441;
     rv_allpasses := seq 0 ch ≫= fun _ =>
       (fun base => AllpassFilter_new (scale_delay base scale)) <$> ALLPASS_DELAYS_441 |}.

(** The comb loop over the given positions, with the running sum, and the
    allpass loop with the running sample. *)
Fixpoint comb_loop (idxs : list nat) (combs : list CombFilter) (x acc : f32) : option (list CombFilter * f32) :=
  match idxs with
  | [] => Some (combs, acc)
  | i :: idxs =>
      f ← combs !! i;
      '(f, y) ← comb_process f x;
      comb_loop idxs (<[i := f]> combs) x (acc +. y)
  end.

Fixpoint allpass_loop (idxs : list nat) (fs : list AllpassFilter) (acc : f32) : option (list AllpassFilter * f32) :=
  match idxs with
  | [] => Some (fs, acc)
  | i :: idxs =>
      f ← fs !! i;
      '(f, y) ← allpass_process f acc;
      allpass_loop idxs (<[i := f]> fs) y
  end.

Definition reverb_process_sample (d : ReverbNode) (x : f32) (ch : nat) : option (ReverbNode * f32) :=
  '(combs, comb_out) ← comb_loop (seq (ch * COMBS_PER_CHANNEL) COMBS_PER_CHANNEL) (rv_combs d) x zero;
  '(allpasses, wet_out) ← allpass_loop (seq (ch * ALLPASSES_PER_CHANNEL) ALLPASSES_PER_CHANNEL) (rv_allpasses d) comb_out;
  Some ({| rv_wet := rv_wet d; rv_dry := rv_dry d; rv_combs := combs; rv_allpasses := allpasses |},
        x *. rv_dry d +. wet_out *. rv_wet d).

(** ** Chorus and flanger *)

(** The two nodes have the same state. *)
Record ModDelay : Type := {
  md_feedback : f32; md_mix : f32; md_center : f32; md_depth : f32; md_phase_inc : f32;
  md_buffers : list (list f32); md_write_pos : list nat; md_lfo_phase : list f32
}.

Definition FLANGER_FEEDBACK_CEIL : f32 := f_0_9.

(** The chorus has no feedback. *)
Definition ChorusNode_init (rate_hz depth_ms center_delay_ms mix : f32) (sample_rate channels : Z) : ModDelay :=
  let rate := clamp f_0_05 f_10 rate_hz in
  let depth := fmax depth_ms zero in
  let center := fmax (fmax center_delay_ms f_5) (depth +. one) in
  let sr := of_Z sample_rate in
  let buffer_len := to_uint 64 (round ((center +. depth +. one) *. f_0_001 *. sr)) in
  let ch := Z.to_nat (Z.max channels 1) in
  {| md_feedback := zero; md_mix := clamp zero one mix; md_center := center *. f_0_001 *. sr;
     md_depth := depth *. f_0_001 *. sr; md_phase_inc := TWO_PI *. rate /. sr;
     md_buffers := replicate ch (replicate (Z.to_nat (Z.max buffer_len 2)) zero);
     md_write_pos := replicate ch 0%nat; md_lfo_phase := replicate ch zero |}.

Definition FlangerNode_init (rate_hz depth_ms center_delay_ms feedback mix : f32) (sample_rate channels : Z) : ModDelay :=
  let rate := clamp f_0_05 f_10 rate_hz in
  let depth := fmax depth_ms zero in
  let center := fmax (fmax center_delay_ms one) (depth +. one) in
  let sr := of_Z sample_rate in
  let buffer_len := to_uint 64 ((center +. depth) *. f_0_001 *. sr +. one) in
  let ch := Z.to_nat (Z.max channels 1) in
  {| md_feedback := clamp zero FLANGER_FEEDBACK_CEIL feedback; md_mix := clamp zero one mix;
     md_center := center *. f_0_001 *. sr;
     md_depth := depth *. f_0_001 *. sr; md_phase_inc := TWO_PI *. rate /. sr;
     md_buffers := replicate ch (replicate (Z.to_nat (Z.max buffer_len 4)) zero);
     md_write_pos := replicate ch 0%nat; md_lfo_phase := replicate ch zero |}.

(** [None]: the allocation of a channel's buffer panics. *)
Definition alloc_mod_delay (d : ModDelay) : option ModDelay :=
  if forallb (fun buf => vec_fits (length buf)) (md_buffers d) then Some d else None.
Definition ChorusNode_new (rate_hz depth_ms center_delay_ms mix : f32) (sample_rate channels : Z) : option ModDelay :=
  alloc_mod_delay (ChorusNode_init rate_hz depth_ms center_delay_ms mix sample_rate channels).
Definition FlangerNode_new (rate_hz depth_ms center_delay_ms feedback mix : f32) (sample_rate channels : Z) : option ModDelay :=
  alloc_mod_delay (FlangerNode_init rate_hz depth_ms center_delay_ms feedback mix sample_rate channels).

(** [*phase += inc; if *phase >= TWO_PI { *phase -= TWO_PI }]. *)
Definition advance_phase (inc phase : f32) : f32 :=
  let phase := phase +. inc in
  if leb TWO_PI phase then phase -. TWO_PI else phase.

(** Reading [delay] samples behind the cursor with linear interpolation. *)
Definition fractional_read (buf : list f32) (wp : nat) (delay : f32) : option f32 :=
  let cap := length buf in
  let read_pos_f := rem_euclid (of_Z (Z.of_nat wp) -. delay) (of_Z (Z.of_nat cap)) in
  let idx0 := to_uint 64 read_pos_f in
  let idx1 := (idx0 + 1) mod Z.of_nat cap in
  let frac := read_pos_f -. of_Z idx0 in
  s0 ← buf !! Z.to_nat idx0;
  s1 ← buf !! Z.to_nat idx1;
  Some (s0 *. (one -. frac) +. s1 *. frac).

Definition mod_delay_done (d : ModDelay) (ch : nat) (buf : list f32) (wp : nat) (phase : f32) : ModDelay :=
  {| md_feedback := md_feedback d; md_mix := md_mix d; md_center := md_center d; md_depth := md_depth d;
     md_phase_inc := md_phase_inc d; md_buffers := <[ch := buf]> (md_buffers d);
     md_write_pos := <[ch := ((wp + 1) mod length buf)%nat]> (md_write_pos d);
     md_lfo_phase := <[ch := advance_phase (md_phase_inc d) phase]> (md_lfo_phase d) |}.

(** The chorus writes its input, then reads. *)
Definition chorus_process_sample (d : ModDelay) (x : f32) (ch : nat) : option (ModDelay * f32) :=
  buf ← md_buffers d !! ch;
  wp ← md_write_pos d !! ch;
  _ ← buf !! wp;
  let buf := <[wp := x]> buf in
  phase ← md_lfo_phase d !! ch;
  wet ← fractional_read buf wp (md_center d +. md_depth d *. m_sin phase);
  Some (mod_delay_done d ch buf wp phase, x *. (one -. md_mix d) +. wet *. md_mix d).

(** The flanger reads, then writes its input with the feedback. *)
Definition flanger_process_sample (d : ModDelay) (x : f32) (ch : nat) : option (ModDelay * f32) :=
  buf ← md_buffers d !! ch;
  wp ← md_write_pos d !! ch;
  phase ← md_lfo_phase d !! ch;
  wet ← fractional_read buf wp (md_center d +. md_depth d *. m_sin phase);
  _ ← buf !! wp;
  let buf := <[wp := x +. wet *. md_feedback d]> buf in
  Some (mod_delay_done d ch buf wp phase, x *. (one -. md_mix d) +. wet *. md_mix d).

(** [process] of the eight nodes. *)
Definition eq_process := planar_node eq_process_sample.
Definition compressor_process := planar_node compressor_process_sample.
Definition gate_process := planar_node gate_process_sample.
Definition bitcrusher_process := planar_node bitcrusher_process_sample.
Definition distortion_process := planar_node distortion_process_sample.
Definition reverb_process := planar_node reverb_process_sample.
Definition chorus_process := planar_node chorus_process_sample.
Definition flanger_process := planar_node flanger_process_sample.

End effects.

(** ** The nodes as instances *)

Section instances.
Context `{MathOps}.

(** Writing one channel's entry of a list of states. *)
Lemma insert_same {A} (l : list A) i x y : l !! i = Some x -> <[i := y]> l !! i = Some y.
Proof. intros Hi. apply list_lookup_insert_eq. by eapply lookup_lt_Some. Qed.

Local Ltac chan_law :=
  repeat match goal with
  | H : mbind _ (?l !! ?c) = Some _ |- _ => destruct (l !! c) eqn:?; cbn [mbind option_bind] in H; [|done]
  end; simplify_eq;
  repeat match goal with H : ?l !! ?c = Some _ |- context [?l !! ?c] => rewrite H end;
  cbn [mbind option_bind].
Local Ltac chan_new :=
  eexists; split; [reflexivity|]; split; [reflexivity|]; cbn; split;
  [by repeat (erewrite insert_same by done; cbn)
  |intros c' Hc'; by rewrite !list_lookup_insert_ne by congruence].

#[export] Instance eq_node : SampleNode EqNode Coeffs (f32 * f32) := {
  sn_process := eq_process_sample;
  sn_params := coeffs;
  sn_chan d c := z1 ← eq_z1 d !! c; z2 ← eq_z2 d !! c; Some (z1, z2);
  sn_step c z x := Some (biquad c z x)
}.

#[export] Instance eq_node_laws : SampleNodeLaws EqNode Coeffs (f32 * f32).
Proof.
  split. cbn. intros d x c s s' y Hc Hs. unfold eq_process_sample. chan_law.
  rewrite Hs. destruct s' as [z1 z2]. chan_new.
Qed.

Definition compressor_step (p : f32 * f32 * f32 * f32 * f32) (env x : f32) : f32 * f32 :=
  let '(threshold, ratio, attack, release, makeup) := p in
  let env := follow attack release env (abs x) in
  let gain := if ltb threshold env && ltb f_1e_9 env
              then div (mul threshold (m_powf (div env threshold) (div one ratio))) env else one in
  (env, mul (mul x gain) makeup).

#[export] Instance compressor_node : SampleNode CompressorNode (f32 * f32 * f32 * f32 * f32) f32 := {
  sn_process := compressor_process_sample;
  sn_params d := (cp_threshold d, cp_ratio d, cp_attack_coef d, cp_release_coef d, cp_makeup d);
  sn_chan d c := cp_envelope d !! c;
  sn_step p env x := Some (compressor_step p env x)
}.

#[export] Instance compressor_node_laws : SampleNodeLaws CompressorNode (f32 * f32 * f32 * f32 * f32) f32.
Proof.
  split. cbn. intros d x c s s' y Hc Hs. unfold compressor_process_sample. chan_law.
  chan_new.
Qed.

Definition gate_step (p : f32 * f32 * f32 * Z) (s : f32 * Z * f32) (x : f32) : (f32 * Z * f32) * f32 :=
  let '(threshold, attack, release, hold_samples) := p in
  let '(env, hold, g) := s in
  let env := follow attack release env (abs x) in
  let '(hold, target) := gate_target threshold hold_samples env hold in
  let g := add g (mul (if ltb g target then attack else release) (sub target g)) in
  ((env, hold, g), mul x g).

#[export] Instance gate_node : SampleNode NoiseGateNode (f32 * f32 * f32 * Z) (f32 * Z * f32) := {
  sn_process := gate_process_sample;
  sn_params d := (ng_threshold d, ng_attack_coef d, ng_release_coef d, ng_hold_samples d);
  sn_chan d c := env ← ng_envelope d !! c; hold ← ng_hold_counter d !! c; g ← ng_gain d !! c; Some (env, hold, g);
  sn_step p s x := Some (gate_step p s x)
}.

#[export] Instance gate_node_laws : SampleNodeLaws NoiseGateNode (f32 * f32 * f32 * Z) (f32 * Z * f32).
Proof.
  split. cbn. intros d x c s s' y Hc Hs. unfold gate_process_sample. chan_law.
  unfold gate_step in *. destruct (gate_target _ _ _ _) as [hold target]. simplify_eq. chan_new.
Qed.

Definition bitcrusher_step (p : Z * Z) (s : f32 * Z) (x : f32) : (f32 * Z) * f32 :=
  let '(bits, hold_factor) := p in
  let '(held, counter) := s in
  let held := if counter mod hold_factor =? 0 then x else held in
  ((held, wrap 64 (counter + 1)), crush bits held).

#[export] Instance bitcrusher_node : SampleNode BitcrusherNode (Z * Z) (f32 * Z) := {
  sn_process := bitcrusher_process_sample;
  sn_params d := (bc_bits d, bc_hold_factor d);
  sn_chan d c := counter ← bc_counters d !! c; held ← bc_held_samples d !! c; Some (held, counter);
  sn_step p s x := Some (bitcrusher_step p s x)
}.

#[export] Instance bitcrusher_node_laws : SampleNodeLaws BitcrusherNode (Z * Z) (f32 * Z).
Proof.
  split. cbn. intros d x c s s' y Hc Hs. unfold bitcrusher_process_sample. chan_law.
  chan_new.
Qed.

#[export] Instance distortion_node : SampleNode DistortionNode DistortionNode unit := {
  sn_process := distortion_process_sample;
  sn_params d := d;
  sn_chan _ _ := Some tt;
  sn_step d _ x := y ← distort d x; Some (tt, y)
}.

#[export] Instance distortion_node_laws : SampleNodeLaws DistortionNode DistortionNode unit.
Proof.
  split. cbn. intros d x c s s' y _ Hs. unfold distortion_process_sample.
  destruct (distort d x) as [z|]; [|done]. injection Hs as <- <-. by exists d.
Qed.

(** The chorus and the flanger have the same state and differ in their step. *)
Record mod_params : Type := {
  mp_feedback : f32; mp_mix : f32; mp_center : f32; mp_depth : f32; mp_phase_inc : f32
}.
Definition params_of (d : ModDelay) : mod_params :=
  {| mp_feedback := md_feedback d; mp_mix := md_mix d; mp_center := md_center d; mp_depth := md_depth d;
     mp_phase_inc := md_phase_inc d |}.
Definition mod_chan (d : ModDelay) (c : nat) : option (list f32 * nat * f32) :=
  buf ← md_buffers d !! c; wp ← md_write_pos d !! c; phase ← md_lfo_phase d !! c; Some (buf, wp, phase).

Definition mod_delay (p : mod_params) (phase : f32) : f32 := add (mp_center p) (mul (mp_depth p) (m_sin phase)).
Definition mod_mix (p : mod_params) (x wet : f32) : f32 := add (mul x (sub one (mp_mix p))) (mul wet (mp_mix p)).

Definition chorus_step (p : mod_params) (s : list f32 * nat * f32) (x : f32) : option ((list f32 * nat * f32) * f32) :=
  let '(buf, wp, phase) := s in
  _ ← buf !! wp;
  let buf := <[wp := x]> buf in
  wet ← fractional_read buf wp (mod_delay p phase);
  Some ((buf, ((wp + 1) mod length buf)%nat, advance_phase (mp_phase_inc p) phase), mod_mix p x wet).

Definition flanger_step (p : mod_params) (s : list f32 * nat * f32) (x : f32) : option ((list f32 * nat * f32) * f32) :=
  let '(buf, wp, phase) := s in
  wet ← fractional_read buf wp (mod_delay p phase);
  _ ← buf !! wp;
  let buf := <[wp := add x (mul wet (mp_feedback p))]> buf in
  Some ((buf, ((wp + 1) mod length buf)%nat, advance_phase (mp_phase_inc p) phase), mod_mix p x wet).

Definition chorus_node : SampleNode ModDelay mod_params (list f32 * nat * f32) := {|
  sn_process := chorus_process_sample; sn_params := params_of; sn_chan := mod_chan; sn_step := chorus_step
|}.
Definition flanger_node : SampleNode ModDelay mod_params (list f32 * nat * f32) := {|
  sn_process := flanger_process_sample; sn_params := params_of; sn_chan := mod_chan; sn_step := flanger_step
|}.

Lemma mod_chan_some d c buf wp phase :
  mod_chan d c = Some (buf, wp, phase) ->
  md_buffers d !! c = Some buf /\ md_write_pos d !! c = Some wp /\ md_lfo_phase d !! c = Some phase.
Proof. unfold mod_chan. intros Hc. chan_law. done. Qed.

Lemma mod_delay_done_chan d c buf0 wp phase buf :
  mod_chan d c = Some (buf0, wp, phase) ->
  params_of (mod_delay_done d c buf wp phase) = params_of d /\
  mod_chan (mod_delay_done d c buf wp phase) c =
    Some (buf, ((wp + 1) mod length buf)%nat, advance_phase (md_phase_inc d) phase) /\
  forall c', c' <> c -> mod_chan (mod_delay_done d c buf wp phase) c' = mod_chan d c'.
Proof.
  intros (Hb & Hw & Hp)%mod_chan_some. split; [done|]. unfold mod_chan. cbn. split.
  - by rewrite (insert_same _ _ _ _ Hb), (insert_same _ _ _ _ Hw), (insert_same _ _ _ _ Hp).
  - intros c' Hc'. by rewrite !list_lookup_insert_ne by congruence.
Qed.

Lemma chorus_node_laws : @SampleNodeLaws _ _ _ chorus_node.
Proof.
  split. cbn. intros d x c [[buf wp] phase] s' y Hc Hs.
  destruct (mod_chan_some _ _ _ _ _ Hc) as (Hb & Hw & Hp).
  unfold chorus_process_sample. rewrite Hb, Hw. cbn [mbind option_bind]. unfold chorus_step in Hs.
  destruct (buf !! wp); [|done]. cbn [mbind option_bind] in *. rewrite Hp. cbn [mbind option_bind].
  unfold mod_delay, params_of in Hs. cbn in Hs |- *.
  destruct (fractional_read _ _ _) as [wet|]; [|done]. injection Hs as <- <-.
  eexists. split; [done|]. by eapply mod_delay_done_chan.
Qed.

Lemma flanger_node_laws : @SampleNodeLaws _ _ _ flanger_node.
Proof.
  split. cbn. intros d x c [[buf wp] phase] s' y Hc Hs.
  destruct (mod_chan_some _ _ _ _ _ Hc) as (Hb & Hw & Hp).
  unfold flanger_process_sample. rewrite Hb, Hw, Hp. cbn [mbind option_bind]. unfold flanger_step in Hs.
  unfold mod_delay, params_of in Hs. cbn in Hs |- *.
  destruct (fractional_read _ _ _) as [wet|]; [|done]. cbn in Hs |- *.
  destruct (buf !! wp); [|done]. injection Hs as <- <-.
  eexists. split; [done|]. by eapply mod_delay_done_chan.
Qed.

(** ** Reverb *)

Definition reverb_step (p : f32 * f32) (s : list CombFilter * list AllpassFilter) (x : f32)
    : option ((list CombFilter * list AllpassFilter) * f32) :=
  let '(wet, dry) := p in
  '(combs, comb_out) ← comb_loop (seq 0 COMBS_PER_CHANNEL) s.1 x zero;
  '(allpasses, wet_out) ← allpass_loop (seq 0 ALLPASSES_PER_CHANNEL) s.2 comb_out;
  Some ((combs, allpasses), add (mul x dry) (mul wet_out wet)).

Definition bank {A} (n c : nat) (l : list A) : option (list A) :=
  if (c * n + n <=? length l)%nat then Some (take n (drop (c * n) l)) else None.

Lemma bank_some {A} n c (l b : list A) :
  bank n c l = Some b -> exists pre post, l = pre ++ b ++ post /\ length pre = (c * n)%nat /\ length b = n.
Proof.
  unfold bank. destruct (Nat.leb_spec (c * n + n) (length l)); [|done]. intros [= <-].
  exists (take (c * n) l), (drop n (drop (c * n) l)).
  split; [by rewrite !take_drop|]. rewrite !length_take, length_drop. lia.
Qed.

Lemma bank_block {A} n (pre b post : list A) c :
  length pre = (c * n)%nat -> length b = n -> bank n c (pre ++ b ++ post) = Some b.
Proof.
  intros Hp Hb. unfold bank. rewrite !length_app, (proj2 (Nat.leb_le _ _)) by lia.
  rewrite <- Hp, drop_app_length, <- Hb. by rewrite take_app_length.
Qed.

(** Another channel's bank is untouched. *)
Lemma bank_other {A} n (pre b b' post : list A) c c' :
  length pre = (c * n)%nat -> length b = n -> length b' = n -> c' <> c ->
  bank n c' (pre ++ b' ++ post) = bank n c' (pre ++ b ++ post).
Proof.
  intros Hp Hb Hb' Hne. unfold bank. rewrite !length_app, Hb, Hb'.
  destruct (_ <=? _)%nat; [|done]. f_equal. apply list_eq. intros i.
  destruct (Nat.lt_ge_cases i n) as [Hi|Hi]; [|by rewrite !lookup_take_ge by done].
  rewrite !lookup_take_lt, !lookup_drop by done.
  destruct (Nat.lt_ge_cases (c' * n + i) (length pre)) as [Hlt|Hge].
  - by rewrite !lookup_app_l by done.
  - rewrite !(lookup_app_r pre) by done.
    rewrite !lookup_app_r by (rewrite ?Hb, ?Hb'; nia). by rewrite Hb, Hb'.
Qed.

Lemma comb_loop_slice pre mid post n k x acc mid' y :
  (k + n <= length mid)%nat -> comb_loop (seq k n) mid x acc = Some (mid', y) ->
  comb_loop (seq (length pre + k) n) (pre ++ mid ++ post) x acc = Some (pre ++ mid' ++ post, y) /\
  length mid' = length mid.
Proof.
  revert k mid acc. induction n as [|n IH]; intros k mid acc Hk; cbn [seq comb_loop]; [by intros [= <- <-]|].
  rewrite lookup_app_r, Nat.add_comm, Nat.add_sub, lookup_app_l by lia.
  destruct (mid !! k) as [f|]; [|done]. cbn [mbind option_bind].
  destruct (comb_process f x) as [[f' z]|]; [|done]. cbn [mbind option_bind]. intros Hs.
  rewrite insert_app_r_alt, Nat.add_sub, insert_app_l by lia.
  destruct (IH (S k) (<[k := f']> mid) (add acc z)) as [E Hl]; [by rewrite length_insert; lia|done|].
  rewrite length_insert in Hl. split; [|done]. rewrite <- E. do 3 f_equal. lia.
Qed.

Lemma allpass_loop_slice pre mid post n k acc mid' y :
  (k + n <= length mid)%nat -> allpass_loop (seq k n) mid acc = Some (mid', y) ->
  allpass_loop (seq (length pre + k) n) (pre ++ mid ++ post) acc = Some (pre ++ mid' ++ post, y) /\
  length mid' = length mid.
Proof.
  revert k mid acc. induction n as [|n IH]; intros k mid acc Hk; cbn [seq allpass_loop]; [by intros [= <- <-]|].
  rewrite lookup_app_r, Nat.add_comm, Nat.add_sub, lookup_app_l by lia.
  destruct (mid !! k) as [f|]; [|done]. cbn [mbind option_bind].
  destruct (allpass_process f acc) as [[f' z]|]; [|done]. cbn [mbind option_bind]. intros Hs.
  rewrite insert_app_r_alt, Nat.add_sub, insert_app_l by lia.
  destruct (IH (S k) (<[k := f']> mid) z) as [E Hl]; [by rewrite length_insert; lia|done|].
  rewrite length_insert in Hl. split; [|done]. rewrite <- E. do 3 f_equal. lia.
Qed.

#[export] Instance reverb_node : SampleNode ReverbNode (f32 * f32) (list CombFilter * list AllpassFilter) := {
  sn_process := reverb_process_sample;
  sn_params d := (rv_wet d, rv_dry d);
  sn_chan d c := cs ← bank COMBS_PER_CHANNEL c (rv_combs d); fs ← bank ALLPASSES_PER_CHANNEL c (rv_allpasses d); Some (cs, fs);
  sn_step := reverb_step
}.

#[export] Instance reverb_node_laws : SampleNodeLaws ReverbNode (f32 * f32) (list CombFilter * list AllpassFilter).
Proof.
  split. cbn [sn_process sn_params sn_chan sn_step reverb_node]. intros d x c s s' y Hc Hs.
  destruct (bank _ c (rv_combs d)) as [cs|] eqn:Hcs; [|done]. cbn [mbind option_bind] in Hc.
  destruct (bank _ c (rv_allpasses d)) as [fs|] eqn:Hfs; [|done]. injection Hc as <-.
  apply bank_some in Hcs as (pre & post & Hcs & Hpre & Hlc), Hfs as (pre' & post' & Hfs & Hpre' & Hlf).
  unfold reverb_step in Hs. cbn [fst snd] in Hs.
  destruct (comb_loop (seq 0 COMBS_PER_CHANNEL) cs x zero) as [[cs' z]|] eqn:E1; [|done]. cbn [mbind option_bind] in Hs.
  destruct (allpass_loop (seq 0 ALLPASSES_PER_CHANNEL) fs z) as [[fs' w]|] eqn:E2; [|done]. injection Hs as <- <-.
  destruct (comb_loop_slice pre cs post COMBS_PER_CHANNEL 0 x zero cs' z ltac:(rewrite Hlc; done) E1) as [F1 Hl1].
  destruct (allpass_loop_slice pre' fs post' ALLPASSES_PER_CHANNEL 0 z fs' w ltac:(rewrite Hlf; done) E2) as [F2 Hl2].
  rewrite Nat.add_0_r in F1, F2. unfold reverb_process_sample. rewrite Hcs, Hfs, <- Hpre, F1. cbn [mbind option_bind].
  rewrite <- Hpre', F2. cbn [mbind option_bind]. eexists. split; [done|]. split; [done|]. cbn [rv_combs rv_allpasses].
  split.
  - rewrite (bank_block _ pre cs' post c), (bank_block _ pre' fs' post' c) by congruence. done.
  - intros c' Hc'. rewrite (bank_other _ pre cs cs' post c), (bank_other _ pre' fs fs' post' c) by congruence.
    done.
Qed.
End instances.

(** ** Streams never panic *)

Section totality.
Context `{MathOps} (channels : Z) (blocks : list AudioFrame).
Let ch := Z.to_nat channels.
Hypothesis (Hch : (0 < ch)%nat) (Hall : Forall (whole ch) blocks).

Lemma replicate_lookup {A} (x : A) n c : (c < n)%nat -> replicate n x !! c = Some x.
Proof. intros. by rewrite lookup_replicate_2. Qed.

Lemma eq_total ft freq gain_db q sample_rate :
  is_Some (planar_cycles eq_process_sample (EqNode_new ft freq gain_db q sample_rate channels) blocks).
Proof.
  apply (@planar_total _ _ _ eq_node _ (fun _ => True) ch blocks _ (fun _ => (zero, zero))); try done.
  - intros c Hc. cbn. by rewrite !replicate_lookup.
  - intros st x _. eexists _, _. split; [|done]. apply (f_equal Some), surjective_pairing.
Qed.

Lemma compressor_total threshold_db ratio attack_ms release_ms makeup_db sample_rate :
  is_Some (planar_cycles compressor_process_sample
    (CompressorNode_new threshold_db ratio attack_ms release_ms makeup_db sample_rate channels) blocks).
Proof.
  apply (@planar_total _ _ _ compressor_node _ (fun _ => True) ch blocks _ (fun _ => zero)); try done.
  - intros c Hc. cbn. by rewrite replicate_lookup.
  - intros st x _. eexists _, _. split; [|done]. apply (f_equal Some), surjective_pairing.
Qed.

Lemma gate_total threshold_db attack_ms hold_ms release_ms sample_rate :
  is_Some (planar_cycles gate_process_sample
    (NoiseGateNode_new threshold_db attack_ms hold_ms release_ms sample_rate channels) blocks).
Proof.
  apply (@planar_total _ _ _ gate_node _ (fun _ => True) ch blocks _ (fun _ => (zero, 0, zero))); try done.
  - intros c Hc. cbn. by rewrite !replicate_lookup.
  - intros st x _. eexists _, _. split; [|done]. apply (f_equal Some), surjective_pairing.
Qed.

Lemma bitcrusher_total bits hold_factor :
  is_Some (planar_cycles bitcrusher_process_sample (BitcrusherNode_new bits hold_factor channels) blocks).
Proof.
  apply (@planar_total _ _ _ bitcrusher_node _ (fun _ => True) ch blocks _ (fun _ => (zero, 0))); try done.
  - intros c Hc. cbn. by rewrite !replicate_lookup by lia.
  - intros st x _. eexists _, _. split; [|done]. apply (f_equal Some), surjective_pairing.
Qed.

(** The cursors of the filters of one channel stay inside their buffers. *)
Definition comb_ok (f : CombFilter) : Prop := (cf_idx f < length (cf_buffer f))%nat.
Definition allpass_ok (f : AllpassFilter) : Prop := (ap_idx f < length (ap_buffer f))%nat.

Lemma comb_process_ok f x : comb_ok f -> exists f' y, comb_process f x = Some (f', y) /\ comb_ok f'.
Proof.
  intros Hf. unfold comb_process. destruct (lookup_lt_is_Some_2 _ _ Hf) as [o ->]. cbn [mbind option_bind].
  do 2 eexists. split; [done|]. unfold comb_ok in *. cbn [cf_idx cf_buffer]. rewrite !length_insert.
  destruct (Nat.leb_spec (length (cf_buffer f)) (cf_idx f + 1)); lia.
Qed.

Lemma allpass_process_ok f x : allpass_ok f -> exists f' y, allpass_process f x = Some (f', y) /\ allpass_ok f'.
Proof.
  intros Hf. unfold allpass_process. destruct (lookup_lt_is_Some_2 _ _ Hf) as [o ->]. cbn [mbind option_bind].
  do 2 eexists. split; [done|]. unfold allpass_ok in *. cbn [ap_idx ap_buffer]. rewrite !length_insert.
  destruct (Nat.leb_spec (length (ap_buffer f)) (ap_idx f + 1)); lia.
Qed.

Lemma comb_loop_ok k n fs x acc :
  (k + n <= length fs)%nat -> Forall comb_ok fs ->
  exists fs' y, comb_loop (seq k n) fs x acc = Some (fs', y) /\ Forall comb_ok fs' /\ length fs' = length fs.
Proof.
  revert k fs acc. induction n as [|n IH]; intros k fs acc Hk Hf; [by exists fs, acc|]. cbn [seq comb_loop].
  destruct (lookup_lt_is_Some_2 fs k ltac:(lia)) as [f Hl]. rewrite Hl. cbn [mbind option_bind].
  destruct (comb_process_ok f x) as (f' & y & -> & Hf'); [by eapply (proj1 (Forall_lookup _ _))|].
  cbn [mbind option_bind].
  destruct (IH (S k) (<[k := f']> fs) (add acc y)) as (fs' & z & E & Hfs & Hlen);
    [rewrite length_insert; lia|by apply Forall_insert|].
  exists fs', z. rewrite length_insert in Hlen. done.
Qed.

Lemma allpass_loop_ok k n fs acc :
  (k + n <= length fs)%nat -> Forall allpass_ok fs ->
  exists fs' y, allpass_loop (seq k n) fs acc = Some (fs', y) /\ Forall allpass_ok fs' /\ length fs' = length fs.
Proof.
  revert k fs acc. induction n as [|n IH]; intros k fs acc Hk Hf; [by exists fs, acc|]. cbn [seq allpass_loop].
  destruct (lookup_lt_is_Some_2 fs k ltac:(lia)) as [f Hl]. rewrite Hl. cbn [mbind option_bind].
  destruct (allpass_process_ok f acc) as (f' & y & -> & Hf'); [by eapply (proj1 (Forall_lookup _ _))|].
  cbn [mbind option_bind].
  destruct (IH (S k) (<[k := f']> fs) y) as (fs' & z & E & Hfs & Hlen);
    [rewrite length_insert; lia|by apply Forall_insert|].
  exists fs', z. rewrite length_insert in Hlen. done.
Qed.

Definition engine_ok (s : list CombFilter * list AllpassFilter) : Prop :=
  length s.1 = COMBS_PER_CHANNEL /\ length s.2 = ALLPASSES_PER_CHANNEL /\ Forall comb_ok s.1 /\ Forall allpass_ok s.2.

Lemma reverb_step_ok p s x : engine_ok s -> exists s' y, reverb_step p s x = Some (s', y) /\ engine_ok s'.
Proof.
  intros (Hl1 & Hl2 & Hf1 & Hf2). unfold reverb_step. destruct p as [wet dry].
  destruct (comb_loop_ok 0 COMBS_PER_CHANNEL s.1 x zero) as (cs & y & -> & Hcs & Hlc); [lia|done|]. cbn [mbind option_bind].
  destruct (allpass_loop_ok 0 ALLPASSES_PER_CHANNEL s.2 y) as (fs & z & -> & Hfs & Hlf); [lia|done|]. cbn [mbind option_bind].
  do 2 eexists. split; [done|]. split; [cbn; congruence|]. split; [cbn; congruence|]. done.
Qed.

Lemma bank_bind {A} (l : list A) n c : (c < n)%nat -> bank (length l) c (seq 0 n ≫= fun _ => l) = Some l.
Proof.
  intros Hc. unfold bank. rewrite (length_bind_const _ (length l)) by done. rewrite length_seq.
  rewrite (proj2 (Nat.leb_le _ _)) by nia.
  by rewrite (bind_block (fun _ => l) (length l) (fun _ => eq_refl) (seq 0 n) c c) by (by rewrite lookup_seq_lt).
Qed.

Lemma reverb_total room_size damping wet dry sample_rate :
  is_Some (planar_cycles reverb_process_sample (ReverbNode_new room_size damping wet dry sample_rate channels) blocks).
Proof.
  set (scale := div (of_Z sample_rate) (of_Z REFERENCE_RATE)).
  set (cs := (fun base => CombFilter_new (scale_delay base scale)
    (add (mul (clamp zero one room_size) f_0_28) f_0_7) (clamp zero one damping)) <$> COMB_DELAYS_441).
  set (fs := (fun base => AllpassFilter_new (scale_delay base scale)) <$> ALLPASS_DELAYS_441).
  apply (@planar_total _ _ _ reverb_node _ engine_ok ch blocks _ (fun _ => (cs, fs))); try done.
  - intros c Hc. cbn [sn_chan reverb_node ReverbNode_new rv_combs rv_allpasses]. fold scale. fold cs. fold fs.
    change COMBS_PER_CHANNEL with (length cs). change ALLPASSES_PER_CHANNEL with (length fs).
    by rewrite !bank_bind by (unfold ch in Hc; lia).
  - intros c _. split; [done|]. split; [done|]. cbn [fst snd]. unfold cs, fs. split; apply Forall_fmap, Forall_forall;
      intros base _; unfold compose, comb_ok, allpass_ok; cbn; rewrite length_replicate; lia.
  - intros st x. apply reverb_step_ok.
Qed.
End totality.

(** Five effect nodes never panic.  Built for any number of channels with
    any parameters, NaN and infinities included, the equaliser, the compressor,
    the noise gate, the bitcrusher and the reverb process every sequence of
    blocks of that many whole channels without an index out of range. *)
Theorem effects_never_panic `{MathOps} (channels sample_rate : Z) (blocks : list AudioFrame) :
  0 < channels -> Forall (whole (Z.to_nat channels)) blocks ->
  (forall ft freq gain_db q,
     is_Some (planar_cycles eq_process_sample (EqNode_new ft freq gain_db q sample_rate channels) blocks)) /\
  (forall threshold_db ratio attack_ms release_ms makeup_db,
     is_Some (planar_cycles compressor_process_sample
       (CompressorNode_new threshold_db ratio attack_ms release_ms makeup_db sample_rate channels) blocks)) /\
  (forall threshold_db attack_ms hold_ms release_ms,
     is_Some (planar_cycles gate_process_sample
       (NoiseGateNode_new threshold_db attack_ms hold_ms release_ms sample_rate channels) blocks)) /\
  (forall bits hold_factor,
     is_Some (planar_cycles bitcrusher_process_sample (BitcrusherNode_new bits hold_factor channels) blocks)) /\
  (forall room_size damping wet dry,
     is_Some (planar_cycles reverb_process_sample
       (ReverbNode_new room_size damping wet dry sample_rate channels) blocks)).
Proof.
  intros Hc Hall. assert (0 < Z.to_nat channels)%nat by lia.
  split; [|split; [|split; [|split]]]; intros; by auto using eq_total, compressor_total, gate_total,
    bitcrusher_total, reverb_total.
Qed.

(** A platform for the witnesses. *)
Definition flat_math : MathOps :=
  {| m_sin _ := zero; m_cos _ := one; m_exp _ := one; m_tanh x := x; m_powf _ _ := one |}.

Lemma effects_never_panic_witness :
  is_Some (planar_cycles (eq_process_sample) (EqNode_new (H := flat_math) LowPass f_10 zero one 48000 2)
    [{| fr_channels := 2; fr_rate := 48000; fr_samples := [one; half; zero; two] |}]).
Proof.
  refine (proj1 (effects_never_panic (H := flat_math) 2 48000
    [{| fr_channels := 2; fr_rate := 48000; fr_samples := [one; half; zero; two] |}] _ _) LowPass f_10 zero one).
  - lia.
  - apply Forall_cons_2; [split; [reflexivity|exists 2%nat; reflexivity]|apply Forall_nil_2].
Defined.

(** The equaliser on a stereo block cut in two. *)
Lemma effects_run_streams_witness :
  let d := EqNode_new (H := flat_math) LowPass f_10 zero one 48000 2 in
  let blocks := [{| fr_channels := 2; fr_rate := 48000; fr_samples := [one; half] |};
                 {| fr_channels := 2; fr_rate := 48000; fr_samples := [zero; two; one; one] |}] in
  exists d' outs, planar_cycles sn_process d blocks = Some (d', outs) /\
    forall c, (c < 2)%nat -> Some (channel_of 2 c outs) =
      snd <$> stream (sn_params d) (zero, zero) (channel_of 2 c (fr_samples <$> blocks)).
Proof.
  intros d blocks.
  set (run c := stream (sn_params d) (zero, zero) (channel_of 2 c (fr_samples <$> blocks))).
  destruct (effects_run_streams 2 blocks d (fun _ => (zero, zero))
    (fun c => match run c with Some (v, _) => v | None => (zero, zero) end)
    (fun c => match run c with Some (_, z) => z | None => [] end)) as (d' & outs & E & _ & _ & Hout).
  - lia.
  - apply Forall_cons_2; [split; [reflexivity|exists 1%nat; reflexivity]|].
    apply Forall_cons_2; [split; [reflexivity|exists 2%nat; reflexivity]|apply Forall_nil_2].
  - intros [|[|c]] Hc; [reflexivity..|lia].
  - intros [|[|c]] Hc; [vm_compute; reflexivity..|lia].
  - exists d', outs. split; [exact E|]. intros c Hc. rewrite (Hout c Hc).
    destruct c as [|[|c]]; [vm_compute; reflexivity..|lia].
Defined.

(** ** Sample and hold *)

(** The last multiple of the period. *)
Definition hold_point (period : Z) (t : nat) : nat := Z.to_nat (Z.of_nat t - Z.of_nat t mod period).

Lemma hold_point_S period t :
  0 < period ->
  hold_point period (S t) = if Z.of_nat (S t) mod period =? 0 then S t else hold_point period t.
Proof.
  intros Hp. unfold hold_point. destruct (Z.eqb_spec (Z.of_nat (S t) mod period) 0) as [He|He]; [lia|].
  assert (Hm : Z.of_nat (S t) mod period = Z.of_nat t mod period + 1).
  { pose proof (Z.mod_pos_bound (Z.of_nat t) period Hp). pose proof (Z.mod_pos_bound (Z.of_nat (S t)) period Hp).
    pose proof (Z.div_mod (Z.of_nat t) period ltac:(lia)) as Hd.
    destruct (Z.eq_dec (Z.of_nat t mod period) (period - 1)) as [Hl|Hl].
    - exfalso. apply He. apply Z.mod_divide; [lia|]. exists (Z.of_nat t / period + 1). lia.
    - symmetry. apply (Z.mod_unique_pos _ _ (Z.of_nat t / period)); lia. }
  rewrite Hm. lia.
Qed.

Section hold.
Context (bits period : Z) (Hp : 0 < period).

Lemma bitcrusher_stream_ok xs pre held s' ys :
  Z.of_nat (length pre + length xs) < 2 ^ 64 ->
  (forall k, length pre = S k -> pre !! hold_point period k = Some held) ->
  stream (H := bitcrusher_node) (bits, period) (held, Z.of_nat (length pre)) xs = Some (s', ys) ->
  forall t y, ys !! t = Some y ->
    exists x, (pre ++ xs) !! hold_point period (length pre + t) = Some x /\ y = crush bits x.
Proof.
  revert pre held ys. induction xs as [|x xs IH]; intros pre held ys Hlen Hheld; cbn [stream sn_step bitcrusher_node].
  { by intros [= _ <-]. }
  unfold bitcrusher_step at 1. cbn [mbind option_bind].
  set (held' := if Z.of_nat (length pre) mod period =? 0 then x else held).
  rewrite wrap_id by (unfold uint; cbn in Hlen; lia).
  replace (Z.of_nat (length pre) + 1) with (Z.of_nat (length (pre ++ [x]))) by (rewrite length_app; cbn; lia).
  destruct (stream _ _ xs) as [[s2 zs]|] eqn:E; [|done]. cbn [mbind option_bind]. intros [= <- <-].
  assert (Hnow : (pre ++ [x]) !! hold_point period (length pre) = Some held').
  { unfold held'. destruct (length pre) as [|k] eqn:Hk.
    - apply length_zero_iff_nil in Hk as ->. cbn. by rewrite Zmod_0_l.
    - rewrite hold_point_S by done. destruct (Z.of_nat (S k) mod period =? 0).
      + rewrite <- Hk. by rewrite list_lookup_middle.
      + apply lookup_app_l_Some. by apply Hheld. }
  assert (Hlen' : Z.of_nat (length (pre ++ [x]) + length xs) < 2 ^ 64)
    by (rewrite length_app; cbn in *; lia).
  intros [|t] y Hy.
  - change (Some (crush bits held') = Some y) in Hy. apply (inj Some) in Hy as <-.
    exists held'. split; [|done].
    rewrite Nat.add_0_r. replace (pre ++ x :: xs) with ((pre ++ [x]) ++ xs) by (by rewrite <- app_assoc).
    by apply lookup_app_l_Some.
  - destruct (IH (pre ++ [x]) held' zs Hlen') with (t := t) (y := y) as (z & Hz & ->); [|exact E|exact Hy|].
    + intros k Hk. rewrite length_app in Hk. cbn in Hk. replace k with (length pre) by lia. done.
    + exists z. split; [|done]. rewrite <- app_assoc in Hz. cbn in Hz. rewrite <- Hz. f_equal. f_equal.
      rewrite length_app. cbn. lia.
Qed.
End hold.

(** The bitcrusher samples and holds.  Over any blocks, below 2^64 samples
    per channel, the output at time [t] of every channel is the quantisation of
    the input at the last multiple of the hold period not after [t], with the
    period clamped to 1..256 and the bit depth to 1..16. *)
Theorem bitcrusher_holds (bits hold_factor channels : Z) (blocks : list AudioFrame) :
  let ch := Z.to_nat channels in
  let d := BitcrusherNode_new bits hold_factor channels in
  (0 < ch)%nat -> Forall (whole ch) blocks ->
  (forall c, (c < ch)%nat -> Z.of_nat (length (channel_of ch c (fr_samples <$> blocks))) < 2 ^ 64) ->
  1 <= bc_hold_factor d <= 256 /\ 1 <= bc_bits d <= 16 /\
  exists d' outs, planar_cycles bitcrusher_process_sample d blocks = Some (d', outs) /\
    forall c, (c < ch)%nat ->
      let xs := channel_of ch c (fr_samples <$> blocks) in
      let ys := channel_of ch c outs in
      length ys = length xs /\
      forall t y, ys !! t = Some y ->
        exists x, xs !! hold_point (bc_hold_factor d) t = Some x /\ y = crush (bc_bits d) x.
Proof.
  intros ch d Hch Hall Hlen. assert (Hf : 1 <= bc_hold_factor d <= 256) by (cbn; lia). split; [done|].
  split; [cbn; lia|].
  set (run c := stream (H := bitcrusher_node) (sn_params d) (zero, 0) (channel_of ch c (fr_samples <$> blocks))).
  assert (Hrun : forall c, (c < ch)%nat -> exists v z, run c = Some (v, z)).
  { intros c Hc. apply (stream_total (fun _ => True)); [|done]. intros st x _. eexists _, _. split; [|done].
    apply (f_equal Some), surjective_pairing. }
  destruct (@planar_run_streams _ _ _ bitcrusher_node _ ch blocks d (fun _ => (zero, 0))
    (fun c => match run c with Some (v, _) => v | None => (zero, 0) end)
    (fun c => match run c with Some (_, z) => z | None => [] end)) as (d' & outs & E & _ & _ & Hout); try done.
  - intros c Hc. cbn. by rewrite !replicate_lookup by (unfold ch in *; lia).
  - intros c Hc. fold (run c). by destruct (Hrun c Hc) as (v & z & ->).
  - exists d', outs. split; [exact E|]. intros c Hc. cbv zeta. rewrite (Hout c Hc).
    destruct (Hrun c Hc) as (v & z & Hz). rewrite Hz. split; [by apply length_stream in Hz|].
    apply (bitcrusher_stream_ok (bc_bits d) (bc_hold_factor d) ltac:(lia) _ [] zero v z); [|done|exact Hz].
    by apply Hlen.
Qed.

Lemma bitcrusher_holds_witness : exists d' outs,
  planar_cycles bitcrusher_process_sample (BitcrusherNode_new 16 3 1)
    [{| fr_channels := 1; fr_rate := 48000; fr_samples := [one; half; zero; neg_one; one] |}] = Some (d', outs) /\
  channel_of 1 0 outs !! 4%nat = Some (crush 16 neg_one).
Proof.
  edestruct (bitcrusher_holds 16 3 1 [{| fr_channels := 1; fr_rate := 48000;
    fr_samples := [one; half; zero; neg_one; one] |}]) as (_ & _ & d' & outs & E & Hout).
  - vm_compute. lia.
  - apply Forall_cons_2; [split; [reflexivity|exists 5%nat; reflexivity]|apply Forall_nil_2].
  - intros [|c] Hc; [vm_compute; reflexivity|vm_compute in Hc; lia].
  - exists d', outs. split; [exact E|]. destruct (Hout 0%nat ltac:(vm_compute; lia)) as [Hlen Hy].
    destruct (lookup_lt_is_Some_2 (channel_of (Z.to_nat 1) 0 outs) 4%nat) as [y Hys].
    + rewrite Hlen. vm_compute. lia.
    + destruct (Hy 4%nat y Hys) as (x & Hx & Hyx). vm_compute in Hx. injection Hx as <-.
      exact (eq_trans Hys (f_equal Some Hyx)).
Defined.

(** ** The chorus without modulation *)

(** Phases do not depend on the sine: those of the next [n] samples are finite. *)
Fixpoint phases_finite (n : nat) (inc phase : f32) : bool :=
  match n with
  | O => true
  | S n => is_finite phase && phases_finite n inc (advance_phase inc phase)
  end.

Section flat_chorus.
Context {M : MathOps}.
Hypothesis Hsin : forall x, is_finite x = true -> is_finite (m_sin x) = true.

(** With depth zero the sine has no effect on the delay. *)
Lemma no_depth (s : f32) : is_finite s = true ->
  forall c, add c (mul zero s) = add c zero \/ add c (mul zero s) = add c (neg zero).
Proof.
  unfold is_finite. intros Hs c. unfold mul, lift2. change (decode zero) with (S754_zero false).
  destruct (decode s) as [b| | |b m e]; try done; destruct b; cbn; by auto.
Qed.

Lemma flat_delay c phase :
  add c zero = add c (neg zero) -> is_finite phase = true ->
  add c (mul zero (m_sin (MathOps := M) phase)) = add c (mul zero (m_sin (MathOps := flat_math) phase)).
Proof.
  intros Hc Hfin. assert (mul zero (m_sin (MathOps := flat_math) phase) = zero) as -> by (vm_compute; reflexivity).
  destruct (no_depth _ (Hsin phase Hfin) c) as [-> | ->]; [reflexivity|symmetry; exact Hc].
Qed.

Definition calm (n : nat) (d : ModDelay) : Prop :=
  md_depth d = zero /\ add (md_center d) zero = add (md_center d) (neg zero) /\
  exists phase, md_lfo_phase d = [phase] /\ phases_finite n (md_phase_inc d) phase = true.

Lemma chorus_sample_flat n d x :
  calm (S n) d -> chorus_process_sample (H := M) d x 0 = chorus_process_sample (H := flat_math) d x 0 /\
  forall d' y, chorus_process_sample (H := flat_math) d x 0 = Some (d', y) -> calm n d'.
Proof.
  intros (Hd & Hc & phase & Hp & Hf). cbn [phases_finite] in Hf. apply andb_true_iff in Hf as [Hfin Hf].
  unfold chorus_process_sample. destruct (md_buffers d !! 0%nat) as [buf|]; cbn [mbind option_bind]; [|done].
  destruct (md_write_pos d !! 0%nat) as [wp|]; cbn [mbind option_bind]; [|done].
  destruct (buf !! wp); cbn [mbind option_bind]; [|done]. rewrite Hp, Hd. cbn [mbind option_bind lookup list_lookup].
  rewrite (flat_delay (md_center d) phase Hc Hfin).
  split; [reflexivity|]. intros d' y.
  destruct (fractional_read _ _ _) as [wet|]; cbn [mbind option_bind]; [|done]. intros [= <- _].
  split; [exact Hd|]. split; [exact Hc|]. exists (advance_phase (md_phase_inc d) phase).
  split; [|exact Hf]. cbn [mod_delay_done md_lfo_phase]. rewrite Hp. reflexivity.
Qed.

Lemma chorus_channel_flat idxs inp d out :
  calm (length idxs) d ->
  planar_channel (chorus_process_sample (H := M)) idxs 0 inp d out =
  planar_channel (chorus_process_sample (H := flat_math)) idxs 0 inp d out.
Proof.
  revert d out. induction idxs as [|i idxs IH]; intros d out Hc; cbn [planar_channel]; [reflexivity|].
  destruct (inp !! i) as [x|]; cbn [mbind option_bind]; [|done].
  destruct (chorus_sample_flat (length idxs) d x Hc) as [-> Hnext].
  destruct (chorus_process_sample d x 0) as [[d' y]|] eqn:E; cbn [mbind option_bind]; [|done].
  destruct (out !! i); cbn [mbind option_bind]; [|done]. apply IH. by eapply Hnext.
Qed.
End flat_chorus.

(** The chorus can panic.  Whatever the platform's sine, as long as it is
    finite on finite numbers: a mono chorus at 48 kHz with the shortest centre
    delay, 5 ms, and modulation depth 0 stops with an index out of range on its
    first 256-sample block of silence, because rounding makes [rem_euclid]
    return the buffer length itself. *)
Theorem chorus_zero_depth_panics {M : MathOps} :
  (forall x, is_finite x = true -> is_finite (m_sin x) = true) ->
  planar_process chorus_process_sample (ChorusNode_init one zero f_5 half 48000 1)
    {| fr_channels := 1; fr_rate := 48000; fr_samples := replicate 256 zero |} (replicate 256 zero) = None.
Proof.
  intros Hsin. unfold planar_process. cbn [fr_channels fr_samples]. rewrite length_replicate, Nat.min_id.
  change (Z.to_nat 1) with 1%nat. cbn [Nat.eqb orb]. change (256 / 1)%nat with 256%nat.
  cbn [seq planar_channels]. rewrite (chorus_channel_flat Hsin).
  - vm_compute. reflexivity.
  - split; [reflexivity|]. split; [vm_compute; reflexivity|]. exists zero. split; [reflexivity|].
    vm_compute. reflexivity.
Qed.

Lemma chorus_zero_depth_panics_witness :
  planar_process (chorus_process_sample (H := flat_math)) (ChorusNode_init one zero f_5 half 48000 1)
    {| fr_channels := 1; fr_rate := 48000; fr_samples := replicate 256 zero |} (replicate 256 zero) = None.
Proof. apply (chorus_zero_depth_panics (M := flat_math)). intros x _. reflexivity. Defined.
