(* ===== verification/RoutingNodes.v ===== *)
(** * Mixing, routing, metering and generating nodes

    [mixer.rs], [limiter.rs], [meter.rs], [aux_send.rs], [channel_map.rs],
    [stereo_widener.rs], [tremolo.rs], [phaser.rs], [noise_source.rs] and
    [tone_generator.rs] of [crates/audio-engine/src/nodes/], and the nodes of
    [crates/audio-engine/src/builtins.rs].  A node takes its input frames and the
    frames of its outputs, which it overwrites in place. *)

From S2P Require Import Prelude F32 AudioNodes PlanarNodes EffectNodes.
Local Open Scope Z_scope.
Import F32.

Local Infix "+." := add (at level 50, left associativity).
Local Infix "-." := sub (at level 50, left associativity).
Local Infix "*." := mul (at level 40, left associativity).
Local Infix "/." := div (at level 40, left associativity).

(** [let (Some(inp), Some(out)) = (in_frames.first(), out_frames.get_mut(0)) else return]. *)
Definition one_to_one (f : AudioFrame -> AudioFrame -> AudioFrame) (ins outs : list AudioFrame) : list AudioFrame :=
  match ins, outs with
  | inp :: _, out :: outs => f inp out :: outs
  | _, _ => outs
  end.

(** [for i in 0..n { out[i] = f(inp[i]) }] with [n] the shorter length. *)
Fixpoint map_into (f : f32 -> f32) (inp out : list f32) : list f32 :=
  match inp, out with
  | x :: inp, _ :: out => f x :: map_into f inp out
  | _, _ => out
  end.

(** ** Mixer *)

Record MixerNode : Type := { gains : list f32 }.

Definition MixerNode_init (n : nat) (gains : list f32) : MixerNode := {| gains := resize n zero gains |}.

(** [None]: the vector of gains, or the one of ports, cannot be allocated; a port
    descriptor is no smaller than a gain. *)
Definition MixerNode_new (n : nat) (gains : list f32) : option MixerNode :=
  if vec_fits n then Some (MixerNode_init n gains) else None.

Definition set_gain (m : MixerNode) (input : nat) (gain : f32) : MixerNode :=
  {| gains := match gains m !! input with Some _ => <[input := gain]> (gains m) | None => gains m end |}.

(** [out[k] += frame[k] * g] over the common length. *)
Fixpoint mix_into (g : f32) (frame out : list f32) : list f32 :=
  match frame, out with
  | x :: frame, o :: out => (o +. x *. g) :: mix_into g frame out
  | _, _ => out
  end.

Definition mixer_process (m : MixerNode) (ins outs : list AudioFrame) : list AudioFrame :=
  match outs with
  | [] => []
  | out :: outs =>
      with_out out
        (foldl (fun acc '(i, frame) => mix_into (default zero (gains m !! i)) (fr_samples frame) acc)
           (replicate (length (fr_samples out)) zero) (zip (seq 0 (length ins)) ins)) :: outs
  end.

(** ** Limiter *)

Record LimiterNode : Type := { lim_threshold : f32 }.

Definition LimiterNode_new `{MathOps} (threshold_db : f32) : LimiterNode :=
  {| lim_threshold := db_to_linear threshold_db |}.

Definition limiter_process (d : LimiterNode) : list AudioFrame -> list AudioFrame -> list AudioFrame :=
  one_to_one (fun inp out => with_out out (map_into (hard_clip (lim_threshold d)) (fr_samples inp) (fr_samples out))).

(** ** Aux send *)

Record AuxSendNode : Type := { send_level : f32 }.

Definition AuxSendNode_new (level : f32) : AuxSendNode := {| send_level := clamp zero one level |}.

Definition aux_send_process (d : AuxSendNode) (ins outs : list AudioFrame) : list AudioFrame :=
  match ins with
  | [] => outs
  | inp :: _ =>
      let write f out := {| fr_channels := fr_channels inp; fr_rate := fr_rate inp;
                            fr_samples := map_into f (fr_samples inp) (fr_samples out) |} in
      match outs with
      | [] => []
      | [main] => [write id main]
      | main :: aux :: outs => write id main :: write (fun x => x *. send_level d) aux :: outs
      end
  end.

(** ** Channel map *)

Inductive ChannelMode : Type :=
| Passthrough | Swap | MuteLeft | MuteRight | Pan (pan : f32) | MonoToStereo | StereoToMono.

Record ChannelMapNode : Type := { cm_mode : ChannelMode }.
Definition ChannelMapNode_new (mode : ChannelMode) : ChannelMapNode := {| cm_mode := mode |}.
Definition set_mode (d : ChannelMapNode) (mode : ChannelMode) : ChannelMapNode := {| cm_mode := mode |}.

Definition FRAC_PI_4 : f32 := 0x3F490FDB.

(** What a mode makes of the samples [out[f * ch]] and [out[f * ch + 1]]. *)
Definition map_pair `{MathOps} (mode : ChannelMode) (l r : f32) : f32 * f32 :=
  match mode with
  | Passthrough => (l, r)
  | Swap => (r, l)
  | MuteLeft => (zero, r)
  | MuteRight => (l, zero)
  | Pan pan =>
      let angle := (pan +. one) *. FRAC_PI_4 in
      (l *. m_cos angle, r *. m_sin angle)
  | MonoToStereo => (l, l)
  | StereoToMono => let mid := (l +. r) *. half in (mid, mid)
  end.

(** [for f in 0..frames { .. }]; with two channels or more both indices are in
    range. *)
Definition map_frames `{MathOps} (mode : ChannelMode) (ch frames : nat) (out : list f32) : list f32 :=
  foldl (fun out f =>
    let '(l, r) := map_pair mode (nth (f * ch) out zero) (nth (f * ch + 1) out zero) in
    <[(f * ch + 1)%nat := r]> (<[(f * ch)%nat := l]> out)) out (seq 0 frames).

Definition channel_map_process `{MathOps} (d : ChannelMapNode) : list AudioFrame -> list AudioFrame -> list AudioFrame :=
  one_to_one (fun inp out =>
    let n := Nat.min (length (fr_samples inp)) (length (fr_samples out)) in
    let copied := map_into id (fr_samples inp) (fr_samples out) in
    let ch := Z.to_nat (fr_channels inp) in
    with_out out
      (if (ch =? 0)%nat || (n =? 0)%nat then copied
       else if (2 <=? ch)%nat then map_frames (cm_mode d) ch (n / ch) copied
       else copied)).

(** ** Stereo widener *)

Record StereoWidenerNode : Type := { width : f32 }.
Definition StereoWidenerNode_new (w : f32) : StereoWidenerNode := {| width := clamp zero two w |}.

Definition widen (w left right : f32) : f32 * f32 :=
  let mid := (left +. right) *. half in
  let side := (left -. right) *. half *. w in
  (mid +. side, mid -. side).

Definition widener_process (d : StereoWidenerNode) : list AudioFrame -> list AudioFrame -> list AudioFrame :=
  one_to_one (fun inp out =>
    let n := Nat.min (length (fr_samples inp)) (length (fr_samples out)) in
    let copied := map_into id (fr_samples inp) (fr_samples out) in
    let ch := Z.to_nat (fr_channels inp) in
    with_out out
      (if negb (ch =? 2)%nat || (n =? 0)%nat then copied
       else
         let per_ch := (n / ch)%nat in
         foldl (fun out i =>
           let '(l, r) := widen (width d) (nth i (fr_samples inp) zero) (nth (per_ch + i) (fr_samples inp) zero) in
           <[(per_ch + i)%nat := r]> (<[i := l]> out)) copied (seq 0 per_ch))).

(** ** Meter *)

Record Levels : Type := { lv_peak : f32; lv_rms : f32 }.

(** The peak and the root mean square of a block. *)
Definition measure (xs : list f32) : f32 * f32 :=
  let '(peak, sum_sq) :=
    foldl (fun '(peak, sum_sq) x =>
      ((if ltb peak (abs x) then abs x else peak), sum_sq +. x *. x)) (zero, zero) xs in
  (peak, sqrt (sum_sq /. of_Z (Z.of_nat (length xs)))).

(** The two atomics, and where the threads are: the audio thread outside
    [process], about to load the peak, about to exchange it, or about to store
    the rms; the control thread outside [snapshot] or, having swapped the peak
    out, about to load the rms. *)
Inductive meter_pc : Type :=
| MIdle
| MLoad (peak rms : f32)
| MCas (peak rms old : f32)
| MStore (rms : f32).

Record MeterNode : Type := { mt_peak : f32; mt_rms : f32; mt_pc : meter_pc; mt_swapped : option f32 }.

Definition MeterNode_new : MeterNode := {| mt_peak := zero; mt_rms := zero; mt_pc := MIdle; mt_swapped := None |}.

Inductive meter_event : Type :=
| MProcess (xs : list f32)      (* process on a block, up to the loop *)
| MTurn (spurious : bool)       (* the next atomic operation of process; may the weak exchange fail? *)
| MSnapshot.                    (* the next atomic operation of snapshot *)

(** [snapshot]: swap the peak with 0, then load the rms. *)
Definition snapshot (m : MeterNode) : MeterNode * list Levels :=
  match mt_swapped m with
  | None => ({| mt_peak := zero; mt_rms := mt_rms m; mt_pc := mt_pc m; mt_swapped := Some (mt_peak m) |}, [])
  | Some peak =>
      ({| mt_peak := mt_peak m; mt_rms := mt_rms m; mt_pc := mt_pc m; mt_swapped := None |},
       [{| lv_peak := peak; lv_rms := mt_rms m |}])
  end.

Definition meter_turn (m : MeterNode) (spurious : bool) : MeterNode :=
  let at_pc pc := {| mt_peak := mt_peak m; mt_rms := mt_rms m; mt_pc := pc; mt_swapped := mt_swapped m |} in
  match mt_pc m with
  | MIdle => m
  | MLoad peak rms => at_pc (if leb peak (mt_peak m) then MStore rms else MCas peak rms (mt_peak m))
  | MCas peak rms old =>
      if negb spurious && (mt_peak m =? old)
      then {| mt_peak := peak; mt_rms := mt_rms m; mt_pc := MStore rms; mt_swapped := mt_swapped m |}
      else at_pc (MLoad peak rms)
  | MStore rms => {| mt_peak := mt_peak m; mt_rms := rms; mt_pc := MIdle; mt_swapped := mt_swapped m |}
  end.

(** Only an idle audio thread takes a block; an empty one returns at once. *)
Definition meter_step (m : MeterNode) (ev : meter_event) : MeterNode * list Levels :=
  match ev with
  | MProcess xs =>
      match mt_pc m, xs with
      | MIdle, _ :: _ =>
          let '(peak, rms) := measure xs in
          ({| mt_peak := mt_peak m; mt_rms := mt_rms m; mt_pc := MLoad peak rms; mt_swapped := mt_swapped m |}, [])
      | _, _ => (m, [])
      end
  | MTurn spurious => (meter_turn m spurious, [])
  | MSnapshot => snapshot m
  end.

Definition meter_process : list AudioFrame -> list AudioFrame -> list AudioFrame :=
  one_to_one (fun inp out => with_out out (map_into id (fr_samples inp) (fr_samples out))).

(** ** Meter: no peak is lost *)

Fixpoint meter_run (m : MeterNode) (evs : list meter_event) : MeterNode * list Levels :=
  match evs with
  | [] => (m, [])
  | ev :: evs =>
      let '(m, l) := meter_step m ev in
      let '(m, ls) := meter_run m evs in (m, l ++ ls)
  end.

(** The blocks the audio thread takes along a schedule. *)
Fixpoint taken (m : MeterNode) (evs : list meter_event) : list (list f32) :=
  match evs with
  | [] => []
  | ev :: evs =>
      match ev, mt_pc m with
      | MProcess xs, MIdle => xs :: taken (meter_step m ev).1 evs
      | _, _ => taken (meter_step m ev).1 evs
      end
  end.

(** The largest pattern of a list of non-negative numbers. *)
Definition peak_of (l : list f32) : f32 := foldr Z.max 0 l.

Lemma peak_of_cons x l : peak_of (x :: l) = Z.max x (peak_of l).
Proof. done. Qed.

Lemma peak_of_nonneg l : 0 <= peak_of l.
Proof. induction l as [|x l IH]; [done|]. rewrite peak_of_cons. lia. Qed.

Lemma peak_of_app l k : peak_of (l ++ k) = Z.max (peak_of l) (peak_of k).
Proof.
  induction l as [|x l IH]; cbn [app]; [by pose proof (peak_of_nonneg k); unfold peak_of at 2; cbn [foldr]; lia|].
  rewrite !peak_of_cons, IH. lia.
Qed.

Definition magnitude (x : f32) : f32 := if abs x <=? inf then abs x else 0.

Lemma measure_peak xs : Forall u32 xs -> (measure xs).1 = peak_of (magnitude <$> xs).
Proof.
  intros Hxs. unfold measure.
  assert (Hgo : forall l peak sum_sq, Forall u32 l -> 0 <= peak <= inf ->
    (foldl (fun '(peak, sum_sq) x => ((if ltb peak (abs x) then abs x else peak), sum_sq +. x *. x)) (peak, sum_sq) l).1 =
    Z.max peak (peak_of (magnitude <$> l))).
  { induction l as [|x l IH]; intros peak sum_sq Hl Hp; [cbn; lia|].
    inversion_clear Hl as [|? ? Hx Hl']. pose proof (abs_bits x Hx) as Ha. rewrite fmap_cons. cbn [foldl].
    rewrite peak_of_cons.
    unfold magnitude at 1. destruct (Z.leb_spec (abs x) inf) as [Hle|Hgt].
    - rewrite ltb_bits by lia. destruct (Z.ltb_spec peak (abs x)); rewrite IH by (done || lia); lia.
    - assert (Hn : ltb peak (abs x) = false).
      { unfold ltb. rewrite (proj2 (decode_nan (abs x) ltac:(unfold uint; lia))); [by destruct (decode peak)|].
        unfold abs at 1. destruct (Z.leb_spec (2 ^ 31) (abs x)); lia. }
      rewrite Hn, IH by done. lia. }
  specialize (Hgo xs zero zero Hxs). destruct (foldl _ _ _) as [peak sum_sq]. cbn [fst] in Hgo |- * .
  rewrite Hgo by (unfold zero, inf; lia). pose proof (peak_of_nonneg (magnitude <$> xs)). unfold zero. lia.
Qed.

Lemma peak_of_bound l M : 0 <= M -> Forall (fun x => x <= M) l -> peak_of l <= M.
Proof. intros HM. induction 1 as [|x l Hx _ IH]; [done|]. rewrite peak_of_cons. lia. Qed.

Lemma measure_range xs : Forall u32 xs -> 0 <= (measure xs).1 <= inf.
Proof.
  intros Hxs. rewrite measure_peak by done. split; [apply peak_of_nonneg|].
  apply peak_of_bound; [done|]. apply Forall_fmap, Forall_forall. intros x _. unfold compose, magnitude.
  destruct (Z.leb_spec (abs x) inf); [done|]. unfold inf. lia.
Qed.

(** The peaks a meter still owes: the atomic, the block in flight, and the
    value a snapshot has swapped out but not returned. *)
Definition owed (m : MeterNode) : list f32 :=
  mt_peak m :: (match mt_pc m with MLoad peak _ | MCas peak _ _ => [peak] | _ => [] end) ++
  match mt_swapped m with Some peak => [peak] | None => [] end.

Definition meter_ok (m : MeterNode) : Prop :=
  Forall (fun x => 0 <= x <= inf) (owed m) /\
  match mt_pc m with MCas peak _ old => 0 <= old < peak | _ => True end.

Definition event_ok (ev : meter_event) : Prop := match ev with MProcess xs => Forall u32 xs | _ => True end.

Definition block_peak (m : MeterNode) (ev : meter_event) : list f32 :=
  match ev, mt_pc m with MProcess xs, MIdle => [(measure xs).1] | _, _ => [] end.

Ltac owed_ok :=
  split; [cbn [app]; rewrite ?app_nil_r; repeat (apply Forall_cons; split); rewrite ?Forall_app; done || (unfold zero, inf; lia)|done || lia].

Ltac peaks :=
  cbn [app]; rewrite ?app_nil_r; repeat (rewrite peak_of_app || rewrite peak_of_cons);
  change (peak_of []) with 0;
  repeat match goal with |- context [peak_of ?l] => lazymatch goal with H : 0 <= peak_of l |- _ => fail | _ => pose proof (peak_of_nonneg l) end end;
  unfold zero; lia.

(** A step neither loses nor invents a peak. *)
Lemma meter_step_ok m ev : meter_ok m -> event_ok ev ->
  meter_ok (meter_step m ev).1 /\
  peak_of (owed (meter_step m ev).1 ++ (lv_peak <$> (meter_step m ev).2)) = peak_of (owed m ++ block_peak m ev).
Proof.
  unfold meter_ok, owed. destruct m as [pk rms pc sw]. cbn [mt_peak mt_pc mt_swapped]. intros [Hall Hold] Hev.
  inversion_clear Hall as [|? ? Hpk Hrest]. apply Forall_app in Hrest as [Hpc Hsw].
  destruct ev as [xs|spurious|].
  - unfold meter_step, block_peak. cbn [mt_pc]. destruct pc; try (by split; [split; [constructor; [|apply Forall_app]|]|]).
    cbn [event_ok] in Hev. pose proof (measure_range xs Hev) as Hm. destruct xs as [|x xs].
    + split; [by split; [constructor; [|apply Forall_app]|]|]. cbn [fst snd mt_peak mt_pc mt_swapped fmap list_fmap]. change ((measure []).1) with 0. peaks.
    + destruct (measure (x :: xs)) as [peak r]. cbn [fst snd mt_peak mt_pc mt_swapped fmap list_fmap] in Hm |- * .
      split; [owed_ok|]. peaks.
  - unfold meter_step, block_peak, meter_turn. cbn [mt_pc fst snd fmap list_fmap]. rewrite !app_nil_r.
    destruct pc as [|peak r|peak r old|r]; cbn [mt_peak mt_pc mt_swapped].
    + by split; [split; [constructor|]|].
    + inversion_clear Hpc as [|? ? Hp _]. rewrite leb_bits by lia. destruct (Z.leb_spec peak pk).
      * split; [owed_ok|]. peaks.
      * split; [owed_ok|done].
    + inversion_clear Hpc as [|? ? Hp _]. destruct spurious; cbn [negb andb mt_peak mt_pc mt_swapped].
      * split; [owed_ok|done].
      * destruct (Z.eqb_spec pk old) as [->|]; cbn [mt_peak mt_pc mt_swapped].
        -- split; [owed_ok|]. peaks.
        -- split; [owed_ok|done].
    + by split; [split; [constructor|]|].
  - unfold meter_step, block_peak, snapshot. cbn [mt_pc mt_swapped]. rewrite app_nil_r.
    destruct sw as [peak|]; cbn [fst snd mt_peak mt_pc mt_swapped fmap list_fmap lv_peak].
    + split; [owed_ok|].
      peaks.
    + rewrite !app_nil_r in * . split.
      * split; [|done]. constructor; [unfold zero, inf; lia|]. apply Forall_app. split; [done|by constructor].
      * peaks.
Qed.

Lemma meter_run_ok m evs : meter_ok m -> Forall event_ok evs ->
  peak_of (owed (meter_run m evs).1 ++ (lv_peak <$> (meter_run m evs).2)) =
  Z.max (peak_of (owed m)) (peak_of (magnitude <$> concat (taken m evs))).
Proof.
  intros Hm Hevs. revert m Hm. induction Hevs as [|ev evs Hev Hevs IH]; intros m Hm.
  { cbn [meter_run taken concat fst snd]. rewrite !fmap_nil. peaks. }
  destruct (meter_step_ok m ev Hm Hev) as [Hm' Hp]. cbn [meter_run taken].
  assert (Ht : peak_of (magnitude <$> concat match ev, mt_pc m with
      | MProcess xs, MIdle => xs :: taken (meter_step m ev).1 evs | _, _ => taken (meter_step m ev).1 evs end) =
    Z.max (peak_of (block_peak m ev)) (peak_of (magnitude <$> concat (taken (meter_step m ev).1 evs)))).
  { unfold block_peak. destruct ev as [xs| |], (mt_pc m); try peaks. cbn [concat].
    rewrite fmap_app, peak_of_app, <- measure_peak by done. peaks. }
  rewrite Ht. destruct (meter_step m ev) as [m1 l1]. cbn [fst snd] in * . specialize (IH m1 Hm').
  destruct (meter_run m1 evs) as [m2 ls]. cbn [fst snd] in * .
  rewrite fmap_app, !peak_of_app in * . lia.
Qed.

(** C30: the meter loses no peak: under every interleaving of the audio thread's
    atomic operations with a control thread taking snapshots, spurious failures
    of the weak exchange included, the largest magnitude of all samples taken
    is the largest of the peaks reported and those still owed (held in the
    atomic, carried by the block in flight, or swapped out by a snapshot that has not
    returned); with both threads at rest that is the reports and the atomic alone. *)
Theorem meter_no_peak_lost (evs : list meter_event) :
  Forall event_ok evs ->
  let m := (meter_run MeterNode_new evs).1 in
  let reports := lv_peak <$> (meter_run MeterNode_new evs).2 in
  peak_of (owed m ++ reports) = peak_of (magnitude <$> concat (taken MeterNode_new evs)) /\
  (mt_pc m = MIdle -> mt_swapped m = None ->
   peak_of (mt_peak m :: reports) = peak_of (magnitude <$> concat (taken MeterNode_new evs))).
Proof.
  intros Hevs. cbv zeta.
  assert (Hall : peak_of (owed (meter_run MeterNode_new evs).1 ++ (lv_peak <$> (meter_run MeterNode_new evs).2)) =
    peak_of (magnitude <$> concat (taken MeterNode_new evs))).
  { rewrite meter_run_ok; [|by repeat constructor|done]. apply Z.max_r. apply peak_of_nonneg. }
  split; [done|]. intros Hpc Hsw. rewrite <- Hall. unfold owed. by rewrite Hpc, Hsw.
Qed.

(** A snapshot falls between the load and the exchange of a block, so the
    exchange fails and is retried; both peaks are reported. *)
Lemma meter_no_peak_lost_witness :
  let evs := [MProcess [half; neg_one]; MTurn false; MTurn false; MTurn false;
              MProcess [two; canonical_nan]; MTurn false; MSnapshot; MSnapshot; MTurn false; MTurn false; MTurn false;
              MTurn false; MSnapshot; MSnapshot] in
  let r := meter_run MeterNode_new evs in
  (lv_peak <$> r.2) = [one; two] /\
  peak_of (mt_peak r.1 :: (lv_peak <$> r.2)) = peak_of (magnitude <$> concat (taken MeterNode_new evs)).
Proof.
  cbv zeta. split; [vm_compute; reflexivity|].
  apply meter_no_peak_lost; [|vm_compute; reflexivity..].
  repeat (apply Forall_cons; split); try exact Logic.I; repeat constructor; vm_compute; done.
Defined.

(** ** Limiter *)

Lemma hard_clip_bound t x : 0 <= t <= inf -> u32 x ->
  ltb t (abs (hard_clip t x)) = false /\ (ltb t (abs x) = false -> hard_clip t x = x).
Proof.
  intros Ht Hx. unfold hard_clip. destruct (ltb t (abs x)) eqn:E; [|done]. split; [|done].
  assert (Hn : is_nan x = false).
  { destruct (is_nan x) eqn:Hn; [|done]. exfalso. unfold is_nan, eqb in Hn.
    assert (Hd : decode x = SpecFloat.S754_nan).
    { destruct (decode x) as [| | |s m e]; try done; [by destruct s|].
      unfold SpecFloat.SFeqb, SpecFloat.SFcompare in Hn. destruct s; rewrite ?Z.compare_refl, ?Pos.compare_cont_refl in Hn; done. }
    apply (decode_nan x Hx) in Hd. pose proof (abs_bits x Hx).
    unfold ltb in E. rewrite (proj2 (decode_nan (abs x) ltac:(unfold uint; lia))) in E; [by destruct (decode t)|].
    unfold abs at 1. destruct (Z.leb_spec (2 ^ 31) (abs x)); lia. }
  assert (Hu : u32 t) by (unfold uint, inf in *; lia).
  rewrite (mul_signum t x Hu Ht Hn).
  assert (Ha : abs (if 2 ^ 31 <=? x then t + 2 ^ 31 else t) = t).
  { unfold abs, inf in * . destruct (2 ^ 31 <=? x).
    - destruct (Z.leb_spec (2 ^ 31) (t + 2 ^ 31)); lia.
    - destruct (Z.leb_spec (2 ^ 31) t); lia. }
  rewrite Ha, ltb_bits by done. apply Z.ltb_irrefl.
Qed.

Lemma length_map_into f inp out : length (map_into f inp out) = length out.
Proof. revert out. induction inp as [|x inp IH]; intros [|o out]; cbn [map_into length]; try done. by rewrite IH. Qed.

Lemma map_into_lookup f inp out k :
  map_into f inp out !! k = if decide (k < length inp /\ k < length out)%nat then f <$> inp !! k else out !! k.
Proof.
  revert inp out. induction k as [|k IH]; intros [|x inp] [|o out]; cbn [map_into length].
  - by rewrite decide_False by lia.
  - by rewrite decide_False by lia.
  - by rewrite decide_False by lia.
  - by rewrite decide_True by lia.
  - by rewrite decide_False by lia.
  - by rewrite decide_False by lia.
  - by rewrite decide_False by lia.
  - cbn [lookup list_lookup]. rewrite IH. repeat case_decide; done || lia.
Qed.

(** The limiter keeps every sample it writes within its threshold (no
    written sample exceeds it in magnitude), passes a sample that does not exceed
    it unchanged bit for bit, and leaves samples past the common length and the
    other outputs alone.  The threshold is a power of ten, so it is not negative. *)
Theorem limiter_bounded `{MathOps} (threshold_db : f32) (inp out : AudioFrame) (ins outs : list AudioFrame) :
  0 <= db_to_linear threshold_db <= inf -> Forall u32 (fr_samples inp) ->
  let t := db_to_linear threshold_db in
  exists ys, limiter_process (LimiterNode_new threshold_db) (inp :: ins) (out :: outs) = with_out out ys :: outs /\
    length ys = length (fr_samples out) /\
    (forall k x, fr_samples inp !! k = Some x -> (k < length ys)%nat ->
       exists y, ys !! k = Some y /\ ltb t (abs y) = false /\ (ltb t (abs x) = false -> y = x)) /\
    (forall k, (length (fr_samples inp) <= k)%nat -> ys !! k = fr_samples out !! k).
Proof.
  intros Ht Hin. cbv zeta. eexists. split; [reflexivity|]. split; [apply length_map_into|].
  unfold LimiterNode_new. cbn [lim_threshold]. rewrite length_map_into. split.
  - intros k x Hx Hk. rewrite map_into_lookup, Hx, decide_True by (split; [by eapply lookup_lt_Some|done]).
    destruct (hard_clip_bound (db_to_linear threshold_db) x Ht) as [Hb Hid]; [by eapply Forall_lookup_1|].
    by exists (hard_clip (db_to_linear threshold_db) x).
  - intros k Hk. rewrite map_into_lookup, decide_False by lia. done.
Qed.

Lemma limiter_bounded_witness : exists ys,
  @limiter_process (@LimiterNode_new {| m_sin := id; m_cos := id; m_exp := id; m_tanh := id; m_powf _ _ := half |} zero)
    [{| fr_channels := 1; fr_rate := 48000; fr_samples := [two; neg_one; 0x3E800000] |}]
    [{| fr_channels := 1; fr_rate := 48000; fr_samples := [zero; zero; zero; one] |}] =
  [{| fr_channels := 1; fr_rate := 48000; fr_samples := ys |}] /\ ys = [half; 0xBF000000; 0x3E800000; one].
Proof.
  destruct (@limiter_bounded {| m_sin := id; m_cos := id; m_exp := id; m_tanh := id; m_powf _ _ := half |} zero
    {| fr_channels := 1; fr_rate := 48000; fr_samples := [two; neg_one; 0x3E800000] |}
    {| fr_channels := 1; fr_rate := 48000; fr_samples := [zero; zero; zero; one] |} [] []) as (ys & E & _).
  - vm_compute. split; discriminate.
  - repeat (apply Forall_cons; split); first [apply Forall_nil; exact Logic.I|split; [apply Z.leb_le|apply Z.ltb_lt]; vm_compute; reflexivity].
  - exists ys. split; [exact E|]. vm_compute in E. by injection E as <-.
Defined.

(** ** Mixer *)

Lemma mix_into_lookup g frame out k :
  mix_into g frame out !! k =
  match out !! k, frame !! k with Some o, Some x => Some (o +. x *. g) | r, _ => r end.
Proof.
  revert frame out. induction k as [|k IH]; intros [|x frame] [|o out]; cbn [mix_into lookup list_lookup]; try done.
  by destruct (out !! k).
Qed.

(** An output sample of the mixer is the sum, in input order and starting
    from zero, of the inputs' samples at that position each times its own
    gain; inputs without a gain count with gain zero, inputs too short for the
    position do not take part, and the output keeps its length. *)
Theorem mixer_sums (m : MixerNode) (ins : list AudioFrame) (out : AudioFrame) (outs : list AudioFrame) (k : nat) :
  exists ys, mixer_process m ins (out :: outs) = with_out out ys :: outs /\ length ys = length (fr_samples out) /\
    ys !! k = if (k <? length (fr_samples out))%nat then
      Some (foldl (fun acc '(i, frame) =>
        match fr_samples frame !! k with Some x => acc +. x *. default zero (gains m !! i) | None => acc end)
        zero (zip (seq 0 (length ins)) ins)) else None.
Proof.
  eexists. split; [reflexivity|].
  assert (Hgo : forall l acc v, length acc = length (fr_samples out) ->
    let r := foldl (fun acc '(i, frame) => mix_into (default zero (gains m !! i)) (fr_samples frame) acc) acc l in
    length r = length (fr_samples out) /\
    (acc !! k = Some v -> r !! k = Some (foldl (fun acc '(i, frame) =>
      match fr_samples frame !! k with Some x => acc +. x *. default zero (gains m !! i) | None => acc end) v l))).
  { induction l as [|[i frame] l IH]; intros acc v Hl; cbv zeta; [done|]. cbn [foldl].
    destruct (IH (mix_into (default zero (gains m !! i)) (fr_samples frame) acc)
      (match fr_samples frame !! k with Some x => v +. x *. default zero (gains m !! i) | None => v end)) as [IHl IHk].
    - rewrite <- Hl. clear. generalize (fr_samples frame), (default zero (gains m !! i)). intros fr g.
      revert acc. induction fr as [|x fr IH]; intros [|o acc]; cbn [mix_into length]; try done. by rewrite IH.
    - split; [done|]. intros Hk. apply IHk. rewrite mix_into_lookup, Hk. by destruct (fr_samples frame !! k). }
  destruct (Hgo (zip (seq 0 (length ins)) ins) (replicate (length (fr_samples out)) zero) zero) as [Hl Hk];
    [by rewrite length_replicate|]. split; [exact Hl|].
  destruct (Nat.ltb_spec k (length (fr_samples out))) as [Hlt|Hge].
  - apply Hk. by apply replicate_lookup.
  - apply lookup_ge_None_2. by rewrite Hl.
Qed.

(** ** Which samples the stereo nodes pair *)

(** Writing the pair [g i] at [a i] and [b i] for the indices below [k]. *)
Definition write_pairs (a b : nat -> nat) (g : nat -> f32 * f32) (k : nat) (out : list f32) : list f32 :=
  foldl (fun out i => <[b i := (g i).2]> (<[a i := (g i).1]> out)) out (seq 0 k).

Lemma write_pairs_S a b g k out :
  write_pairs a b g (S k) out = <[b k := (g k).2]> (<[a k := (g k).1]> (write_pairs a b g k out)).
Proof. unfold write_pairs. by rewrite seq_S, foldl_app. Qed.

Lemma length_write_pairs a b g k out : length (write_pairs a b g k out) = length out.
Proof. induction k as [|k IH]; [done|]. by rewrite write_pairs_S, !length_insert. Qed.

Lemma write_pairs_other a b g k out j :
  (forall i, (i < k)%nat -> j <> a i /\ j <> b i) -> write_pairs a b g k out !! j = out !! j.
Proof.
  induction k as [|k IH]; intros Hj; [done|].
  destruct (Hj k) as [Ha Hb]; [lia|]. rewrite write_pairs_S, !list_lookup_insert_ne by done.
  apply IH. intros i Hi. apply Hj. lia.
Qed.

Section pairing.
Context (a b : nat -> nat) (n : nat).
Hypothesis apart : forall i j, (i < n)%nat -> (j < n)%nat -> a i <> b j.
Hypothesis a_inj : forall i j, (i < n)%nat -> (j < n)%nat -> a i = a j -> i = j.
Hypothesis b_inj : forall i j, (i < n)%nat -> (j < n)%nat -> b i = b j -> i = j.

Lemma write_pairs_at g k out i : (i < k <= n)%nat -> (a i < length out)%nat -> (b i < length out)%nat ->
  write_pairs a b g k out !! a i = Some (g i).1 /\ write_pairs a b g k out !! b i = Some (g i).2.
Proof.
  induction k as [|k IH]; intros Hi Ha Hb; [lia|]. rewrite write_pairs_S.
  destruct (decide (i = k)) as [->|Hne].
  - rewrite (list_lookup_insert_ne _ (b k) (a k)) by (intros E; symmetry in E; by apply apart in E; [|lia..]).
    rewrite !list_lookup_insert_eq by (rewrite ?length_insert, length_write_pairs; done). done.
  - rewrite (list_lookup_insert_ne _ (b k) (a i)) by (intros E; symmetry in E; by apply apart in E; [|lia..]).
    rewrite (list_lookup_insert_ne _ (a k) (a i)) by (intros E; apply a_inj in E; lia).
    rewrite (list_lookup_insert_ne _ (b k) (b i)) by (intros E; apply b_inj in E; lia).
    rewrite (list_lookup_insert_ne _ (a k) (b i)) by (apply apart; lia). apply IH; [lia|done..].
Qed.

(** A loop that reads a pair before writing it reads the original values. *)
Lemma read_pairs (f : f32 -> f32 -> f32 * f32) k out : (k <= n)%nat ->
  foldl (fun out i => let '(l, r) := f (nth (a i) out zero) (nth (b i) out zero) in <[b i := r]> (<[a i := l]> out))
    out (seq 0 k) =
  write_pairs a b (fun i => f (nth (a i) out zero) (nth (b i) out zero)) k out.
Proof.
  induction k as [|k IH]; intros Hk; [done|]. rewrite seq_S, foldl_app, IH, write_pairs_S by lia. cbn [foldl Nat.add].
  rewrite !nth_lookup, !write_pairs_other.
  - by destruct (f _ _).
  - intros i Hi. split; [intros E; symmetry in E; by apply apart in E; [|lia..]|intros E; apply b_inj in E; lia].
  - intros i Hi. split; [intros E; apply a_inj in E; lia|intros E; by apply apart in E; [|lia..]].
Qed.
End pairing.

(** The channel map and the widener read the same stereo block with
    different layouts.  The widener pairs sample [i] of the first half with
    sample [i] of the second, the left and right channels of a planar block; the
    channel map pairs sample [2i] with sample [2i + 1], as if left and right
    alternated, so on the planar blocks the engine passes it combines
    neighbouring samples of one channel. *)
Theorem stereo_nodes_pairing `{MathOps} (mode : ChannelMode) (w : f32) (inp out : AudioFrame) (per i : nat) (x y : f32) :
  fr_channels inp = 2 -> length (fr_samples inp) = (2 * per)%nat -> length (fr_samples out) = (2 * per)%nat ->
  (i < per)%nat ->
  (exists ys, widener_process (StereoWidenerNode_new w) [inp] [out] = [with_out out ys] /\
     (fr_samples inp !! i = Some x -> fr_samples inp !! (per + i)%nat = Some y ->
      ys !! i = Some (widen (clamp zero two w) x y).1 /\ ys !! (per + i)%nat = Some (widen (clamp zero two w) x y).2)) /\
  (exists ys, channel_map_process (ChannelMapNode_new mode) [inp] [out] = [with_out out ys] /\
     (fr_samples inp !! (2 * i)%nat = Some x -> fr_samples inp !! (2 * i + 1)%nat = Some y ->
      ys !! (2 * i)%nat = Some (map_pair mode x y).1 /\ ys !! (2 * i + 1)%nat = Some (map_pair mode x y).2)).
Proof.
  intros Hc Hin Hout Hi. unfold widener_process, channel_map_process, one_to_one.
  rewrite Hc, Hin, Hout, Nat.min_id. change (Z.to_nat 2) with 2%nat.
  replace (2 * per / 2)%nat with per by (rewrite Nat.mul_comm, Nat.div_mul; lia).
  destruct (Nat.eqb_spec (2 * per) 0); [lia|]. cbn [Nat.eqb Nat.leb negb orb].
  assert (Hcopy : map_into id (fr_samples inp) (fr_samples out) = fr_samples inp).
  { apply list_eq. intros k. rewrite map_into_lookup, Hin, Hout.
    case_decide as Hk; [by destruct (fr_samples inp !! k)|]. rewrite !lookup_ge_None_2 by lia. done. }
  rewrite Hcopy. split; (eexists; split; [reflexivity|]); intros Hx Hy.
  - pose (g := fun j => widen (clamp zero two w) (nth j (fr_samples inp) zero) (nth (per + j) (fr_samples inp) zero)).
    assert (Hg : widen (clamp zero two w) x y = g i) by (unfold g; by rewrite !nth_lookup, Hx, Hy). rewrite Hg.
    change (foldl _ (fr_samples inp) (seq 0 per)) with
      (foldl (fun out j => let '(l, r) := g j in <[(per + j)%nat := r]> (<[j := l]> out)) (fr_samples inp) (seq 0 per)).
    rewrite (foldl_ext_in _ (fun out j => <[(per + j)%nat := (g j).2]> (<[j := (g j).1]> out)))
      by (intros l j _; by destruct (g j)).
    apply (write_pairs_at (fun j => j) (fun j => per + j)%nat per); lia.
  - unfold map_frames. rewrite (foldl_ext_in _ (fun out f =>
      let '(l, r) := map_pair mode (nth (2 * f) out zero) (nth (2 * f + 1) out zero) in
      <[(2 * f + 1)%nat := r]> (<[(2 * f)%nat := l]> out))) by (intros l f _; by rewrite (Nat.mul_comm f 2)).
    rewrite (read_pairs (fun f => 2 * f)%nat (fun f => 2 * f + 1)%nat per) by lia.
    assert (Hg : map_pair mode x y = map_pair mode (nth (2 * i) (fr_samples inp) zero) (nth (2 * i + 1) (fr_samples inp) zero))
      by (by rewrite !nth_lookup, Hx, Hy). rewrite Hg.
    apply (write_pairs_at (fun f => 2 * f)%nat (fun f => 2 * f + 1)%nat per) with (g := (fun f => map_pair mode (nth (2 * f) (fr_samples inp) zero) (nth (2 * f + 1) (fr_samples inp) zero))); cbv beta; lia.
Qed.

(** A planar block of two frames, left 1 2 and right 0.5 0.25, under [Swap]. *)
Lemma stereo_nodes_pairing_witness :
  exists ys, @channel_map_process flat_math (ChannelMapNode_new Swap)
      [{| fr_channels := 2; fr_rate := 48000; fr_samples := [one; two; half; 0x3E800000] |}]
      [{| fr_channels := 2; fr_rate := 48000; fr_samples := [zero; zero; zero; zero] |}] =
    [{| fr_channels := 2; fr_rate := 48000; fr_samples := ys |}] /\
    ys = [two; one; 0x3E800000; half] /\ ys !! 0%nat = Some two.
Proof.
  destruct (@stereo_nodes_pairing flat_math Swap one
    {| fr_channels := 2; fr_rate := 48000; fr_samples := [one; two; half; 0x3E800000] |}
    {| fr_channels := 2; fr_rate := 48000; fr_samples := [zero; zero; zero; zero] |} 2 0 one two) as [_ (ys & E & Hy)];
    [reflexivity..|lia|].
  exists ys. split; [exact E|]. split; [by vm_compute in E; injection E as <-|].
  exact (proj1 (Hy eq_refl eq_refl)).
Defined.
