(* ===== verification/LfoNodes.v ===== *)
(** * Tremolo and phaser: one oscillator for all channels

    [tremolo.rs] and [phaser.rs] of [crates/audio-engine/src/nodes/].  Their
    [process] runs over sample times first and channels second, so that one
    low-frequency oscillator serves every channel and advances once per sample
    time.  The loop is modelled for any such node; the theorem says that each
    channel nevertheless comes out as if it were processed alone, all of them
    against the same sweep. *)

From S2P Require Import Prelude F32 AudioNodes PlanarNodes EffectNodes.
Local Open Scope Z_scope.
Import F32.

Local Infix "+." := add (at level 50, left associativity).
Local Infix "-." := sub (at level 50, left associativity).
Local Infix "*." := mul (at level 40, left associativity).
Local Infix "/." := div (at level 40, left associativity).

(** ** The loop *)

Section loop.
Context {D : Type} (coef : D -> f32) (process_sample : D -> f32 -> nat -> f32 -> option (D * f32)) (advance : D -> D).

(** [for c in 0..ch { .. }]: sample time [i] of every channel. *)
Fixpoint frame_channels (cs : list nat) (i per_ch : nat) (a : f32) (inp : list f32) (d : D) (out : list f32)
    : option (D * list f32) :=
  match cs with
  | [] => Some (d, out)
  | c :: cs =>
      let idx := (c * per_ch + i)%nat in
      x ← inp !! idx;
      '(d, y) ← process_sample d x c a;
      _ ← out !! idx;
      frame_channels cs i per_ch a inp d (<[idx := y]> out)
  end.

(** [for i in 0..per_ch { .. }]. *)
Fixpoint frame_loop (times : list nat) (ch per_ch : nat) (inp : list f32) (d : D) (out : list f32) : option (D * list f32) :=
  match times with
  | [] => Some (d, out)
  | i :: times =>
      '(d, out) ← frame_channels (seq 0 ch) i per_ch (coef d) inp d out;
      frame_loop times ch per_ch inp (advance d) out
  end.

Definition frame_process (d : D) (inp : AudioFrame) (out : list f32) : option (D * list f32) :=
  let ch := Z.to_nat (fr_channels inp) in
  let n := Nat.min (length (fr_samples inp)) (length out) in
  if (ch =? 0)%nat || (n =? 0)%nat then Some (d, out)
  else let per_ch := (n / ch)%nat in frame_loop (seq 0 per_ch) ch per_ch (fr_samples inp) d out.

Fixpoint frame_cycles (d : D) (blocks : list AudioFrame) : option (D * list (list f32)) :=
  match blocks with
  | [] => Some (d, [])
  | b :: blocks =>
      '(d, out) ← frame_process d b (replicate (length (fr_samples b)) zero);
      '(d, outs) ← frame_cycles d blocks;
      Some (d, out :: outs)
  end.
End loop.

(** ** Tremolo *)

Record TremoloNode : Type := { tr_depth : f32; tr_phase_inc : f32; tr_lfo_phase : f32 }.

Definition TremoloNode_new (rate_hz depth : f32) (sample_rate : Z) : TremoloNode :=
  let rate := clamp f_0_1 f_20 rate_hz in
  {| tr_depth := clamp zero one depth; tr_phase_inc := TWO_PI *. rate /. of_Z sample_rate; tr_lfo_phase := zero |}.

Section lfo_nodes.
Context `{MathOps}.

Definition tremolo_gain (d : TremoloNode) : f32 :=
  (one -. tr_depth d) +. tr_depth d *. (half +. half *. m_sin (tr_lfo_phase d)).

Definition tremolo_sample (d : TremoloNode) (x : f32) (c : nat) (gain : f32) : option (TremoloNode * f32) :=
  Some (d, x *. gain).

Definition tremolo_advance (d : TremoloNode) : TremoloNode :=
  {| tr_depth := tr_depth d; tr_phase_inc := tr_phase_inc d;
     tr_lfo_phase := advance_phase (tr_phase_inc d) (tr_lfo_phase d) |}.

Definition tremolo_process : TremoloNode -> AudioFrame -> list f32 -> option (TremoloNode * list f32) :=
  frame_process tremolo_gain tremolo_sample tremolo_advance.

(** ** Phaser *)

Definition PHASER_FEEDBACK_CEIL : f32 := f_0_7.

Record AllpassStage : Type := { xm1 : f32; ym1 : f32 }.

Record PhaserNode : Type := {
  ph_feedback : f32; ph_mix : f32; ph_num_stages : nat; ph_base_freq : f32; ph_depth : f32;
  ph_phase_inc : f32; ph_sample_rate : f32;
  ph_stages : list AllpassStage; ph_feedback_state : list f32; ph_lfo_phase : f32
}.

(** [None]: [base_freq.clamp(10.0, sr * 0.24)] panics when the bounds cross. *)
Definition PhaserNode_new (rate_hz base_freq depth feedback mix : f32) (stages : nat) (sample_rate channels : Z)
    : option PhaserNode :=
  let rate := clamp f_0_05 f_10 rate_hz in
  let sr := of_Z sample_rate in
  base ← clamp_checked f_10 (sr *. f_0_24) base_freq;
  let ns := Nat.max 2 (Nat.min 8 stages) in
  let ch := Z.to_nat (Z.max channels 1) in
  Some {| ph_feedback := clamp zero PHASER_FEEDBACK_CEIL feedback; ph_mix := clamp zero one mix;
          ph_num_stages := ns; ph_base_freq := base; ph_depth := clamp zero one depth;
          ph_phase_inc := TWO_PI *. rate /. sr; ph_sample_rate := sr;
          ph_stages := replicate (ch * ns) {| xm1 := zero; ym1 := zero |};
          ph_feedback_state := replicate ch zero; ph_lfo_phase := zero |}.

(** The cascade over the stages of one channel. *)
Fixpoint stage_loop (idxs : list nat) (a : f32) (stages : list AllpassStage) (wet : f32)
    : option (list AllpassStage * f32) :=
  match idxs with
  | [] => Some (stages, wet)
  | j :: idxs =>
      stage ← stages !! j;
      let y := neg a *. wet +. xm1 stage +. a *. ym1 stage in
      stage_loop idxs a (<[j := {| xm1 := wet; ym1 := y |}]> stages) y
  end.

Definition phaser_process_sample (d : PhaserNode) (x : f32) (ch : nat) (a : f32) : option (PhaserNode * f32) :=
  fb ← ph_feedback_state d !! ch;
  let wet := x +. fb *. ph_feedback d in
  let base := (ch * ph_num_stages d)%nat in
  '(stages, wet) ← stage_loop (seq base (ph_num_stages d)) a (ph_stages d) wet;
  Some ({| ph_feedback := ph_feedback d; ph_mix := ph_mix d; ph_num_stages := ph_num_stages d;
           ph_base_freq := ph_base_freq d; ph_depth := ph_depth d; ph_phase_inc := ph_phase_inc d;
           ph_sample_rate := ph_sample_rate d; ph_stages := stages;
           ph_feedback_state := <[ch := wet]> (ph_feedback_state d); ph_lfo_phase := ph_lfo_phase d |},
        x *. (one -. ph_mix d) +. wet *. ph_mix d).

Definition allpass_coef (d : PhaserNode) : f32 :=
  let lfo := m_sin (ph_lfo_phase d) in
  let fc := ph_base_freq d *. (one +. ph_depth d *. (half +. half *. lfo)) in
  let w0 := TWO_PI *. fc /. ph_sample_rate d in
  m_sin w0 /. (one +. m_cos w0).

Definition phaser_advance (d : PhaserNode) : PhaserNode :=
  {| ph_feedback := ph_feedback d; ph_mix := ph_mix d; ph_num_stages := ph_num_stages d;
     ph_base_freq := ph_base_freq d; ph_depth := ph_depth d; ph_phase_inc := ph_phase_inc d;
     ph_sample_rate := ph_sample_rate d; ph_stages := ph_stages d;
     ph_feedback_state := ph_feedback_state d;
     ph_lfo_phase := advance_phase (ph_phase_inc d) (ph_lfo_phase d) |}.

Definition phaser_process : PhaserNode -> AudioFrame -> list f32 -> option (PhaserNode * list f32) :=
  frame_process allpass_coef phaser_process_sample phaser_advance.
End lfo_nodes.

(** ** Nodes with one oscillator *)

(** [P] is what is fixed at construction and [S] the state of one channel; the
    oscillator's phase is common. *)
Class LfoNode (D P S : Type) : Type := {
  ln_coef : D -> f32;
  ln_process : D -> f32 -> nat -> f32 -> option (D * f32);
  ln_advance : D -> D;
  ln_params : D -> P;
  ln_phase : D -> f32;
  ln_chan : D -> nat -> option S;
  ln_sweep : P -> f32 -> f32;
  ln_next : P -> f32 -> f32;
  ln_step : P -> S -> f32 -> f32 -> S * f32
}.

Class LfoNodeLaws (D P S : Type) `{LfoNode D P S} : Prop := {
  ln_coef_sweep : forall d : D, ln_coef d = ln_sweep (ln_params d) (ln_phase d);
  ln_advance_ok : forall d : D, ln_params (ln_advance d) = ln_params d /\
    ln_phase (ln_advance d) = ln_next (ln_params d) (ln_phase d) /\
    forall c, ln_chan (ln_advance d) c = ln_chan d c;
  ln_process_ok : forall (d : D) (x a : f32) (c : nat) (s : S), ln_chan d c = Some s ->
    exists d', ln_process d x c a = Some (d', (ln_step (ln_params d) s x a).2) /\
      ln_params d' = ln_params d /\ ln_phase d' = ln_phase d /\
      ln_chan d' c = Some (ln_step (ln_params d) s x a).1 /\ forall c', c' <> c -> ln_chan d' c' = ln_chan d c'
}.

(** One channel alone against the oscillator started at [phase]. *)
Fixpoint lfo_stream {D P S} `{LfoNode D P S} (p : P) (s : S) (phase : f32) (xs : list f32) : S * list f32 :=
  match xs with
  | [] => (s, [])
  | x :: xs =>
      let '(s, y) := ln_step p s x (ln_sweep p phase) in
      let '(s, ys) := lfo_stream p s (ln_next p phase) xs in
      (s, y :: ys)
  end.

Section lfo_facts.
Context {D P S : Type} `{LfoNodeLaws D P S}.
Implicit Types (d : D) (s : nat -> S) (p : P) (inp out xs : list f32).

Definition phase_after p (n : nat) (phase : f32) : f32 := Nat.iter n (ln_next p) phase.

Lemma phase_after_next p n phase : phase_after p n (ln_next p phase) = ln_next p (phase_after p n phase).
Proof. unfold phase_after. by rewrite <- Nat.iter_swap. Qed.

Lemma lfo_stream_app p (st : S) phase xs ys :
  lfo_stream p st phase (xs ++ ys) =
  let '(s1, a) := lfo_stream p st phase xs in
  let '(s2, b) := lfo_stream p s1 (phase_after p (length xs) phase) ys in (s2, a ++ b).
Proof.
  revert st phase. induction xs as [|x xs IH]; intros st phase; cbn [app lfo_stream length].
  - by destruct (lfo_stream p st _ ys).
  - destruct (ln_step p st x _) as [s1 y]. rewrite IH, phase_after_next.
    destruct (lfo_stream p s1 _ xs) as [s2 a]. by destruct (lfo_stream p s2 _ ys).
Qed.

Lemma length_lfo_stream p (st : S) phase xs : length (lfo_stream p st phase xs).2 = length xs.
Proof.
  revert st phase. induction xs as [|x xs IH]; intros st phase; cbn [lfo_stream]; [done|].
  destruct (ln_step p st x _) as [s1 y]. specialize (IH s1 (ln_next p phase)).
  destruct (lfo_stream p s1 _ xs) as [s2 a]. cbn [snd length] in IH |- * ; by f_equal.
Qed.

(** The channels below [ch] have the given states. *)
Definition lfo_states (ch : nat) d s : Prop := forall c, (c < ch)%nat -> ln_chan d c = Some (s c).

(** One sample time: channels [c0, c0 + k) step on the common coefficient. *)
Lemma frame_channels_ok ch per i a inp (x : nat -> f32) c0 k d s out :
  (i < per)%nat -> (c0 + k <= ch)%nat -> length out = (ch * per)%nat ->
  (forall c, (c < ch)%nat -> inp !! (c * per + i)%nat = Some (x c)) -> lfo_states ch d s ->
  exists d' out', frame_channels ln_process (seq c0 k) i per a inp d out = Some (d', out') /\
    ln_params d' = ln_params d /\ ln_phase d' = ln_phase d /\ length out' = length out /\
    lfo_states ch d' (fun c => if decide (c0 <= c < c0 + k)%nat then (ln_step (ln_params d) (s c) (x c) a).1 else s c) /\
    forall c j, (c < ch)%nat -> (j < per)%nat -> out' !! (c * per + j)%nat =
      if decide (j = i /\ (c0 <= c < c0 + k)%nat) then Some (ln_step (ln_params d) (s c) (x c) a).2
      else out !! (c * per + j)%nat.
Proof.
  intros Hi. revert c0 d s out. induction k as [|k IH]; intros c0 d s out Hk Hl Hin Hst.
  { exists d, out. split_and!; [done..| |].
    - intros c Hc. rewrite decide_False by lia. by apply Hst.
    - intros c j _ _. by rewrite decide_False by lia. }
  cbn [seq frame_channels]. rewrite (Hin c0) by lia. cbn [mbind option_bind].
  destruct (ln_process_ok d (x c0) a c0 (s c0) (Hst c0 ltac:(lia))) as (d1 & -> & Hp1 & Hf1 & Hc1 & Ho1).
  cbn [mbind option_bind]. destruct (lookup_lt_is_Some_2 out (c0 * per + i)%nat) as [o ->]; [rewrite Hl; nia|].
  cbn [mbind option_bind].
  set (y := (ln_step (ln_params d) (s c0) (x c0) a).2).
  destruct (IH (Datatypes.S c0) d1 (fun c => if decide (c = c0) then (ln_step (ln_params d) (s c0) (x c0) a).1 else s c)
    (<[(c0 * per + i)%nat := y]> out)) as (d2 & out2 & -> & Hp2 & Hf2 & Hl2 & Hst2 & Hout2);
    [lia|by rewrite length_insert|done| |].
  { intros c Hc. destruct (decide (c = c0)) as [->|Hne]; [done|]. rewrite Ho1 by done. by apply Hst. }
  exists d2, out2. rewrite length_insert in Hl2. split_and!; [done|congruence|congruence|done| |].
  - intros c Hc. rewrite (Hst2 c Hc), Hp1. repeat case_decide; subst; done || lia.
  - intros c j Hc Hj. rewrite (Hout2 c j Hc Hj), Hp1.
    destruct (decide (c = c0)) as [->|Hne].
    + rewrite (decide_False (P := _ /\ (Datatypes.S c0 <= c0 < _)%nat)) by lia.
      destruct (decide (j = i)) as [->|Hji].
      * rewrite decide_True by lia. rewrite list_lookup_insert_eq by (rewrite Hl; nia). done.
      * rewrite decide_False by lia. by rewrite list_lookup_insert_ne by lia.
    + rewrite list_lookup_insert_ne by nia. repeat case_decide; done || lia.
Qed.

Lemma chan_lookup per ch c i inp : (c < ch)%nat -> (i < per)%nat ->
  chan per c inp !! i = inp !! (c * per + i)%nat.
Proof. intros Hc Hi. unfold chan. by rewrite lookup_take_lt, lookup_drop by done. Qed.

(** Sample times [i0, i0 + k). *)
Lemma frame_loop_ok ch per inp k i0 d s out :
  (i0 + k <= per)%nat -> length out = (ch * per)%nat -> length inp = (ch * per)%nat -> lfo_states ch d s ->
  let run c := lfo_stream (ln_params d) (s c) (ln_phase d) (take k (drop i0 (chan per c inp))) in
  exists d' out', frame_loop ln_coef ln_process ln_advance (seq i0 k) ch per inp d out = Some (d', out') /\
    ln_params d' = ln_params d /\ ln_phase d' = phase_after (ln_params d) k (ln_phase d) /\
    length out' = length out /\ lfo_states ch d' (fun c => (run c).1) /\
    forall c j, (c < ch)%nat -> (j < per)%nat -> out' !! (c * per + j)%nat =
      if decide (i0 <= j < i0 + k)%nat then (run c).2 !! (j - i0)%nat else out !! (c * per + j)%nat.
Proof.
  revert i0 d s out. induction k as [|k IH]; intros i0 d s out Hk Hlo Hli Hst; cbv zeta.
  { exists d, out. split_and!; [done..|]. intros c j _ _. by rewrite decide_False by lia. }
  cbn [seq frame_loop]. set (x := fun c => default zero (inp !! (c * per + i0)%nat)).
  assert (Hin : forall c, (c < ch)%nat -> inp !! (c * per + i0)%nat = Some (x c)).
  { intros c Hc. unfold x. destruct (lookup_lt_is_Some_2 inp (c * per + i0)%nat) as [v ->]; [rewrite Hli; nia|done]. }
  destruct (frame_channels_ok ch per i0 (ln_coef d) inp x 0 ch d s out) as (d1 & out1 & -> & Hp1 & Hf1 & Hl1 & Hst1 & Ho1);
    [lia|lia|done..|].
  cbn [mbind option_bind]. destruct (ln_advance_ok d1) as (Ha1 & Ha2 & Ha3).
  set (s1 := fun c => (ln_step (ln_params d) (s c) (x c) (ln_coef d)).1).
  destruct (IH (Datatypes.S i0) (ln_advance d1) s1 out1) as (d2 & out2 & -> & Hp2 & Hf2 & Hl2 & Hst2 & Ho2).
  { lia. } { congruence. } { done. }
  { intros c Hc. rewrite Ha3, (Hst1 c Hc), decide_True by lia. done. }
  rewrite Ha1, Ha2, Hp1, Hf1 in * .
  assert (Hrun : forall c, (c < ch)%nat ->
    lfo_stream (ln_params d) (s c) (ln_phase d) (take (Datatypes.S k) (drop i0 (chan per c inp))) =
    let r := lfo_stream (ln_params d) (s1 c) (ln_next (ln_params d) (ln_phase d))
               (take k (drop (Datatypes.S i0) (chan per c inp))) in
    (r.1, (ln_step (ln_params d) (s c) (x c) (ln_coef d)).2 :: r.2)).
  { intros c Hc. rewrite (drop_S (chan per c inp) (x c) i0) by (rewrite (chan_lookup per ch) by lia; by apply Hin).
    cbn [take lfo_stream]. unfold s1. rewrite (ln_coef_sweep d).
    destruct (ln_step _ _ _ _) as [v y]. cbn [fst snd]. by destruct (lfo_stream _ _ _ _). }
  exists d2, out2. split_and!; [done|done| |congruence| |].
  - rewrite Hf2. apply phase_after_next.
  - intros c Hc. rewrite (Hst2 c Hc), (Hrun c Hc). done.
  - intros c j Hc Hj. rewrite (Ho2 c j Hc Hj), (Ho1 c j Hc Hj), (Hrun c Hc). cbn [snd].
    destruct (decide (j = i0)) as [->|Hne].
    + rewrite decide_False, !decide_True by lia. by rewrite Nat.sub_diag.
    + rewrite (decide_False (P := j = i0 /\ _)) by lia.
      destruct (decide (Datatypes.S i0 <= j < Datatypes.S i0 + k)%nat).
      * rewrite decide_True by lia. by replace (j - i0)%nat with (Datatypes.S (j - Datatypes.S i0)) by lia.
      * by rewrite decide_False by lia.
Qed.

Lemma frame_process_ok ch per (f : AudioFrame) d s :
  (0 < ch)%nat -> Z.to_nat (fr_channels f) = ch -> length (fr_samples f) = (ch * per)%nat -> lfo_states ch d s ->
  let run c := lfo_stream (ln_params d) (s c) (ln_phase d) (chan per c (fr_samples f)) in
  exists d' out', frame_process ln_coef ln_process ln_advance d f (replicate (length (fr_samples f)) zero) = Some (d', out') /\
    ln_params d' = ln_params d /\ ln_phase d' = phase_after (ln_params d) per (ln_phase d) /\
    length out' = (ch * per)%nat /\ lfo_states ch d' (fun c => (run c).1) /\
    forall c, (c < ch)%nat -> chan per c out' = (run c).2.
Proof.
  intros Hch Hf Hl Hst. cbv zeta. set (inp := fr_samples f) in * .
  assert (Hlc : forall c, (c < ch)%nat -> length (chan per c inp) = per)
    by (intros; by apply (length_chan per ch)).
  destruct (frame_loop_ok ch per inp per 0 d s (replicate (length inp) zero)) as (d' & out' & E & Hp & Hph & Hlo & Hst' & Ho);
    [done|by rewrite length_replicate|done|done|]. rewrite length_replicate, Hl in Hlo.
  assert (Hall : forall c, (c < ch)%nat -> take per (drop 0 (chan per c inp)) = chan per c inp)
    by (intros c Hc; rewrite drop_0; apply take_ge; by rewrite Hlc).
  exists d', out'. split_and!; [|done|done|done| |].
  - unfold frame_process. fold inp. rewrite Hf, length_replicate, Nat.min_id, (proj2 (Nat.eqb_neq ch 0)) by lia.
    cbn [orb]. rewrite Hl in E |- * . replace (ch * per / ch)%nat with per by (rewrite Nat.mul_comm, Nat.div_mul; lia).
    destruct (Nat.eqb_spec (ch * per) 0) as [Hz|Hz]; [|done].
    assert (per = 0%nat) as -> by nia. by rewrite Nat.mul_0_r in E |- * .
  - intros c Hc. by rewrite (Hst' c Hc), Hall.
  - intros c Hc. apply list_eq. intros j. destruct (Nat.lt_ge_cases j per) as [Hj|Hj].
    + by rewrite (chan_lookup per ch), (Ho c j Hc Hj), Hall, decide_True, Nat.sub_0_r by lia.
    + rewrite !lookup_ge_None_2; [done| |].
      * by rewrite length_lfo_stream, Hlc.
      * unfold chan. rewrite length_take. lia.
Qed.

(** Over successive blocks. *)
Lemma frame_run_streams ch (blocks : list AudioFrame) d s :
  (0 < ch)%nat -> Forall (whole ch) blocks -> lfo_states ch d s ->
  let run c := lfo_stream (ln_params d) (s c) (ln_phase d) (channel_of ch c (fr_samples <$> blocks)) in
  exists d' outs, frame_cycles ln_coef ln_process ln_advance d blocks = Some (d', outs) /\
    lfo_states ch d' (fun c => (run c).1) /\ forall c, (c < ch)%nat -> channel_of ch c outs = (run c).2.
Proof.
  intros Hch Hall. revert d s. induction Hall as [|f blocks [Hf [per Hl]] Hall IH]; intros d s Hst; cbv zeta.
  { by exists d, []. }
  destruct (frame_process_ok ch per f d s Hch Hf Hl Hst) as (d1 & out & E & Hp & Hph & Hlo & Hst1 & Ho).
  destruct (IH d1 _ Hst1) as (d2 & outs & E2 & Hst2 & Ho2). rewrite Hp, Hph in * .
  exists d2, (out :: outs). cbn [frame_cycles]. rewrite E. cbn [mbind option_bind]. rewrite E2.
  assert (Hrun : forall c, (c < ch)%nat ->
    lfo_stream (ln_params d) (s c) (ln_phase d) (channel_of ch c (fr_samples <$> f :: blocks)) =
    let r1 := lfo_stream (ln_params d) (s c) (ln_phase d) (chan per c (fr_samples f)) in
    let r2 := lfo_stream (ln_params d) r1.1 (phase_after (ln_params d) per (ln_phase d)) (channel_of ch c (fr_samples <$> blocks)) in
    (r2.1, r1.2 ++ r2.2)).
  { intros c Hc. rewrite fmap_cons, (channel_of_cons ch c _ _ per Hch Hl), lfo_stream_app, (length_chan per ch) by done.
    destruct (lfo_stream _ _ _ (chan _ _ _)) as [v y]. cbn [fst snd]. by destruct (lfo_stream _ v _ _). }
  split_and!; [done| |].
  - intros c Hc. rewrite (Hst2 c Hc), (Hrun c Hc). done.
  - intros c Hc. rewrite (channel_of_cons ch c _ _ per Hch Hlo), (Ho c Hc), (Ho2 c Hc), (Hrun c Hc). done.
Qed.
End lfo_facts.

(** ** The two nodes *)

Section lfo_instances.
Context `{MathOps}.

#[export] Instance tremolo_node : LfoNode TremoloNode (f32 * f32) unit := {
  ln_coef := tremolo_gain;
  ln_process := tremolo_sample;
  ln_advance := tremolo_advance;
  ln_params d := (tr_depth d, tr_phase_inc d);
  ln_phase := tr_lfo_phase;
  ln_chan _ _ := Some tt;
  ln_sweep p phase := (one -. p.1) +. p.1 *. (half +. half *. m_sin phase);
  ln_next p := advance_phase p.2;
  ln_step _ s x gain := (s, x *. gain)
}.

#[export] Instance tremolo_node_laws : LfoNodeLaws TremoloNode (f32 * f32) unit.
Proof. split; [done|done|]. intros d x a c []. by exists d. Qed.

(** The allpass chain of one channel. *)
Fixpoint cascade (a : f32) (stages : list AllpassStage) (wet : f32) : list AllpassStage * f32 :=
  match stages with
  | [] => ([], wet)
  | stage :: stages =>
      let y := neg a *. wet +. xm1 stage +. a *. ym1 stage in
      let '(stages, out) := cascade a stages y in ({| xm1 := wet; ym1 := y |} :: stages, out)
  end.

Lemma length_cascade a stages wet : length (cascade a stages wet).1 = length stages.
Proof.
  revert wet. induction stages as [|st stages IH]; intros wet; cbn [cascade]; [done|].
  specialize (IH (neg a *. wet +. xm1 st +. a *. ym1 st)).
  destruct (cascade a stages _). cbn [fst length] in IH |- * . by rewrite IH.
Qed.

Lemma stage_loop_slice a (pre mid post : list AllpassStage) wet :
  stage_loop (seq (length pre) (length mid)) a (pre ++ mid ++ post) wet =
  Some (pre ++ (cascade a mid wet).1 ++ post, (cascade a mid wet).2).
Proof.
  revert pre wet. induction mid as [|st mid IH]; intros pre wet; cbn [length seq stage_loop cascade]; [done|].
  cbn [app]. rewrite list_lookup_middle by done. cbn [mbind option_bind].
  set (y := neg a *. wet +. xm1 st +. a *. ym1 st). specialize (IH (pre ++ [{| xm1 := wet; ym1 := y |}]) y).
  rewrite length_app, <- !app_assoc in IH. cbn [length app] in IH. rewrite Nat.add_1_r in IH.
  rewrite insert_app_r_alt, Nat.sub_diag by done. cbn [list_insert]. etransitivity; [exact IH|].
  by destruct (cascade a mid y).
Qed.

Record phaser_params : Type := {
  pp_feedback : f32; pp_mix : f32; pp_num_stages : nat; pp_base_freq : f32; pp_depth : f32;
  pp_phase_inc : f32; pp_sample_rate : f32
}.
Definition phaser_params_of (d : PhaserNode) : phaser_params := {|
  pp_feedback := ph_feedback d; pp_mix := ph_mix d; pp_num_stages := ph_num_stages d;
  pp_base_freq := ph_base_freq d; pp_depth := ph_depth d; pp_phase_inc := ph_phase_inc d;
  pp_sample_rate := ph_sample_rate d |}.

Definition phaser_step (p : phaser_params) (s : list AllpassStage * f32) (x a : f32)
    : (list AllpassStage * f32) * f32 :=
  let '(stages, wet) := cascade a s.1 (x +. s.2 *. pp_feedback p) in
  ((stages, wet), x *. (one -. pp_mix p) +. wet *. pp_mix p).

#[export] Instance phaser_node : LfoNode PhaserNode phaser_params (list AllpassStage * f32) := {
  ln_coef := allpass_coef;
  ln_process := phaser_process_sample;
  ln_advance := phaser_advance;
  ln_params := phaser_params_of;
  ln_phase := ph_lfo_phase;
  ln_chan d c := b ← bank (ph_num_stages d) c (ph_stages d); fb ← ph_feedback_state d !! c; Some (b, fb);
  ln_sweep p phase :=
    let fc := pp_base_freq p *. (one +. pp_depth p *. (half +. half *. m_sin phase)) in
    let w0 := TWO_PI *. fc /. pp_sample_rate p in
    m_sin w0 /. (one +. m_cos w0);
  ln_next p := advance_phase (pp_phase_inc p);
  ln_step := phaser_step
}.

#[export] Instance phaser_node_laws : LfoNodeLaws PhaserNode phaser_params (list AllpassStage * f32).
Proof.
  split; [done|done|]. intros d x a c s Hs. cbn [ln_chan ln_params phaser_node] in Hs |- * .
  destruct (bank _ _ _) as [b|] eqn:Hb; [|done]. cbn [mbind option_bind] in Hs.
  destruct (ph_feedback_state d !! c) as [fb|] eqn:Hfb; [|done]. injection Hs as <-.
  apply bank_some in Hb as (pre & post & Hst & Hpre & Hlb).
  cbn [ln_process ln_step ln_phase phaser_node]. unfold phaser_process_sample, phaser_step. rewrite Hfb, Hst. cbn [mbind option_bind].
  rewrite <- Hpre, <- Hlb, stage_loop_slice. cbn [mbind option_bind fst snd].
  destruct (cascade a b _) as [b' wet] eqn:E. cbn [fst snd].
  assert (Hlb' : length b' = ph_num_stages d) by (rewrite <- Hlb; pose proof (length_cascade a b (x +. fb *. ph_feedback d)) as Hc;
    cbn [pp_feedback phaser_params_of] in E; by rewrite E in Hc).
  eexists. split; [done|]. split; [unfold phaser_params_of; cbn; by rewrite Hlb|]. split; [done|].
  cbn [ph_num_stages ph_stages ph_feedback_state]. rewrite Hlb. split.
  - rewrite (bank_block _ pre b' post c Hpre Hlb'). cbn [mbind option_bind].
    by rewrite (insert_same _ c fb wet Hfb).
  - intros c' Hne. rewrite (bank_other _ pre b b' post c c'), list_lookup_insert_ne by done. done.
Qed.

(** With one oscillator for all channels, the tremolo and the phaser treat
    every channel of a stream of planar blocks as if it were alone: no index is
    ever out of range, and channel [c] of the output is its own input run
    through its own stages against the sweep that starts at phase zero, the
    same sweep for every channel, however the stream is cut into blocks. *)
Theorem lfo_nodes_phase_aligned (channels : Z) (blocks : list AudioFrame) (sample_rate : Z)
    (rate_hz depth base_freq feedback mix : f32) (stages : nat) (ph : PhaserNode) :
  0 < channels -> Forall (whole (Z.to_nat channels)) blocks ->
  PhaserNode_new rate_hz base_freq depth feedback mix stages sample_rate channels = Some ph ->
  let input c := channel_of (Z.to_nat channels) c (fr_samples <$> blocks) in
  let tr := TremoloNode_new rate_hz depth sample_rate in
  (exists d' outs, frame_cycles tremolo_gain tremolo_sample tremolo_advance tr blocks = Some (d', outs) /\
     forall c, (c < Z.to_nat channels)%nat ->
       channel_of (Z.to_nat channels) c outs = (lfo_stream (ln_params tr) tt zero (input c)).2) /\
  (exists d' outs, frame_cycles allpass_coef phaser_process_sample phaser_advance ph blocks = Some (d', outs) /\
     forall c, (c < Z.to_nat channels)%nat ->
       channel_of (Z.to_nat channels) c outs =
       (lfo_stream (ln_params ph) (replicate (ph_num_stages ph) {| xm1 := zero; ym1 := zero |}, zero) zero (input c)).2).
Proof.
  intros Hch Hall Hnew. cbv zeta. split.
  - destruct (frame_run_streams (Z.to_nat channels) blocks (TremoloNode_new rate_hz depth sample_rate) (fun _ => tt))
      as (d' & outs & E & _ & Ho); [lia|done|done|]. by exists d', outs.
  - unfold PhaserNode_new in Hnew. destruct (clamp_checked _ _ _) as [base|]; [|done]. injection Hnew as <-.
    match goal with |- context [frame_cycles _ _ _ ?d blocks] =>
      destruct (frame_run_streams (Z.to_nat channels) blocks d
        (fun _ => (replicate (ph_num_stages d) {| xm1 := zero; ym1 := zero |}, zero)))
        as (d' & outs & E & _ & Ho); [lia|done| |] end.
    + intros c Hc. cbn [ln_chan phaser_node ph_num_stages ph_stages ph_feedback_state].
      set (ns := Nat.max 2 _). replace (Z.to_nat (Z.max channels 1)) with (Z.to_nat channels) by lia.
      unfold bank. rewrite length_replicate, (proj2 (Nat.leb_le _ _)) by nia. cbn [mbind option_bind].
      rewrite replicate_lookup, drop_replicate, take_replicate by done. cbn [mbind option_bind].
      do 3 f_equal. nia.
    + by exists d', outs.
Qed.

End lfo_instances.

(** A stereo stream in two blocks with the platform's functions constant. *)
Lemma lfo_nodes_phase_aligned_witness :
  exists d' outs, @frame_cycles _ (@tremolo_gain flat_math) tremolo_sample tremolo_advance
      (TremoloNode_new one half 48000)
      [{| fr_channels := 2; fr_rate := 48000; fr_samples := [one; half; two; one] |};
       {| fr_channels := 2; fr_rate := 48000; fr_samples := [half; two] |}] = Some (d', outs) /\
    channel_of 2 1 outs = (@lfo_stream _ _ _ (@tremolo_node flat_math) (half, tr_phase_inc (TremoloNode_new one half 48000)) tt zero [two; one; two]).2.
Proof.
  destruct (@lfo_nodes_phase_aligned flat_math 2
    [{| fr_channels := 2; fr_rate := 48000; fr_samples := [one; half; two; one] |};
     {| fr_channels := 2; fr_rate := 48000; fr_samples := [half; two] |}] 48000 one half f_10 half half 4
    (default (Build_PhaserNode 0 0 0 0 0 0 0 [] [] 0) (@PhaserNode_new one f_10 half half half 4 48000 2)))
    as [(d' & outs & E & Ho) _].
  - reflexivity.
  - repeat constructor; [by exists 2%nat|by exists 1%nat].
  - vm_compute. reflexivity.
  - exists d', outs. split; [exact E|]. etransitivity; [apply (Ho 1%nat); cbn; lia|]. vm_compute. reflexivity.
Defined.
