(* ===== verification/SourceNodes.v ===== *)
(** * Generators and the built-in nodes

    [noise_source.rs] and [tone_generator.rs] of
    [crates/audio-engine/src/nodes/], and the nodes of
    [crates/audio-engine/src/builtins.rs].  The theorems show that the noise
    generator's xorshift state never reaches its fixed point zero and is never
    lost (the step is injective), and that the tone generator gives every
    channel the same waveform, block boundaries included. *)

From S2P Require Import Prelude F32 AudioNodes PlanarNodes EffectNodes RoutingNodes.
Local Open Scope Z_scope.
Import F32.

Local Infix "+." := add (at level 50, left associativity).
Local Infix "-." := sub (at level 50, left associativity).
Local Infix "*." := mul (at level 40, left associativity).
Local Infix "/." := div (at level 40, left associativity).

(** ** The loop of the generators *)

Section loop.
Context {D : Type} (gen : D -> nat -> option (D * f32)).

Fixpoint source_channel (idxs : list nat) (c : nat) (d : D) (out : list f32) : option (D * list f32) :=
  match idxs with
  | [] => Some (d, out)
  | idx :: idxs =>
      '(d, y) ← gen d c;
      _ ← out !! idx;
      source_channel idxs c d (<[idx := y]> out)
  end.

Fixpoint source_channels (cs : list nat) (per_ch : nat) (d : D) (out : list f32) : option (D * list f32) :=
  match cs with
  | [] => Some (d, out)
  | c :: cs =>
      '(d, out) ← source_channel (seq (c * per_ch) per_ch) c d out;
      source_channels cs per_ch d out
  end.

(** [process] of a source with [channels] channels; [None] is a panic. *)
Definition source_process (channels : Z) (d : D) (outs : list AudioFrame) : option (D * list AudioFrame) :=
  match outs with
  | [] => Some (d, [])
  | out :: rest =>
      let ch := Z.to_nat channels in
      let n := length (fr_samples out) in
      if (ch =? 0)%nat || (n =? 0)%nat then Some (d, outs)
      else
        '(d, samples) ← source_channels (seq 0 ch) (n / ch) d (fr_samples out);
        Some (d, {| fr_channels := channels; fr_rate := fr_rate out; fr_samples := samples |} :: rest)
  end.
End loop.

(** ** Noise *)

Inductive NoiseColor : Type := White | Pink.

Record NoiseSource : Type := {
  ns_color : NoiseColor; ns_amp : f32; rng_state : Z; ns_channels : Z; pink : list f32
}.

Definition NoiseSource_new (color : NoiseColor) (amp : f32) (seed channels : Z) : NoiseSource :=
  {| ns_color := color; ns_amp := amp; rng_state := if seed =? 0 then 1 else seed; ns_channels := channels;
     pink := replicate (7 * Z.to_nat channels) zero |}.

(** The three shift-and-xor steps; [<<] on a [u64] drops the bits above. *)
Definition shl_xor (k s : Z) : Z := Z.lxor s (wrap 64 (Z.shiftl s k)).
Definition shr_xor (k s : Z) : Z := Z.lxor s (Z.shiftr s k).
Definition xorshift64 (s : Z) : Z := shl_xor 17 (shr_xor 7 (shl_xor 13 s)).

Definition next_rand (d : NoiseSource) : NoiseSource * f32 :=
  let s := xorshift64 (rng_state d) in
  ({| ns_color := ns_color d; ns_amp := ns_amp d; rng_state := s; ns_channels := ns_channels d; pink := pink d |},
   of_Z (wrap 32 s) /. of_Z u32_max *. two -. one).

(** The seven filter states of one channel, and the filter's output. *)
Definition kellet (white : f32) (s : list f32) : option (list f32 * f32) :=
  match s with
  | [s0; s1; s2; s3; s4; s5; s6] =>
      let s0 := 0x3F7FB54A *. s0 +. white *. 0x3D6366BD in
      let s1 := 0x3F7E4A38 *. s1 +. white *. 0x3D99C165 in
      let s2 := 0x3F781062 *. s2 +. white *. 0x3E1D8B61 in
      let s3 := 0x3F5DD2F2 *. s3 +. white *. 0x3E9EF7F8 in
      let s4 := 0x3F0CCCCD *. s4 +. white *. 0x3F086F8E in
      let s5 := 0xBF42F838 *. s5 -. white *. 0x3C8A6DAD in
      let pink := (s0 +. s1 +. s2 +. s3 +. s4 +. s5 +. s6 +. white *. 0x3F094467) *. 0x3DE147AE in
      let s6 := white *. 0x3DED6A9C in
      Some ([s0; s1; s2; s3; s4; s5; s6], pink)
  | _ => None
  end.

(** [None]: the channel's seven states are not all in range. *)
Definition gen_sample (d : NoiseSource) (ch : nat) : option (NoiseSource * f32) :=
  let '(d, white) := next_rand d in
  match ns_color d with
  | White => Some (d, white *. ns_amp d)
  | Pink =>
      let base := (ch * 7)%nat in
      '(s, y) ← kellet white (take 7 (drop base (pink d)));
      Some ({| ns_color := ns_color d; ns_amp := ns_amp d; rng_state := rng_state d; ns_channels := ns_channels d;
               pink := take base (pink d) ++ s ++ drop (base + 7) (pink d) |}, y *. ns_amp d)
  end.

Definition noise_process (d : NoiseSource) (outs : list AudioFrame) : option (NoiseSource * list AudioFrame) :=
  source_process gen_sample (ns_channels d) d outs.

(** ** Tone *)

Inductive Waveform : Type := Sine | Square | Saw | Triangle.

Record ToneGenerator : Type := {
  tg_waveform : Waveform; tg_amp : f32; tg_channels : Z; tg_phase : list f32; tg_phase_inc : f32
}.

Definition ToneGenerator_new (waveform : Waveform) (freq amp : f32) (sample_rate channels : Z) : ToneGenerator :=
  let freq := if leb freq zero then one else freq in
  {| tg_waveform := waveform; tg_amp := clamp zero one amp; tg_channels := channels;
     tg_phase := replicate (Z.to_nat channels) zero;
     tg_phase_inc := two *. PI *. freq /. of_Z sample_rate |}.

Section tone.
Context `{MathOps}.

Definition tone_sample (waveform : Waveform) (phase : f32) : f32 :=
  let two_pi := two *. PI in
  match waveform with
  | Sine => m_sin phase
  | Square => if leb zero (m_sin phase) then one else neg_one
  | Saw =>
      let t := frem phase two_pi /. two_pi in
      two *. t -. one
  | Triangle =>
      let t := frem phase two_pi /. two_pi in
      f_4 *. abs (t -. half) -. one
  end.

(** [self.phase[c] += inc; if self.phase[c] >= two_pi { self.phase[c] -= two_pi }]. *)
Definition tone_advance (inc phase : f32) : f32 :=
  let phase := phase +. inc in
  if leb (two *. PI) phase then phase -. two *. PI else phase.

Definition tone_gen (d : ToneGenerator) (c : nat) : option (ToneGenerator * f32) :=
  phase ← tg_phase d !! c;
  Some ({| tg_waveform := tg_waveform d; tg_amp := tg_amp d; tg_channels := tg_channels d;
           tg_phase := <[c := tone_advance (tg_phase_inc d) phase]> (tg_phase d);
           tg_phase_inc := tg_phase_inc d |}, tone_sample (tg_waveform d) phase *. tg_amp d).

Definition tone_process (d : ToneGenerator) (outs : list AudioFrame) : option (ToneGenerator * list AudioFrame) :=
  source_process tone_gen (tg_channels d) d outs.

(** ** Built-in nodes *)

Record SineSource : Type := { sine : AudioFrame }.

Definition SineSource_new (freq amp : f32) (num_frames : nat) (sample_rate : Z) : SineSource :=
  {| sine := {| fr_channels := 1; fr_rate := sample_rate;
                fr_samples := (fun i => m_sin (two *. PI *. freq *. of_Z (Z.of_nat i) /. of_Z sample_rate) *. amp)
                                <$> seq 0 num_frames |} |}.
End tone.

Definition sine_process (d : SineSource) (outs : list AudioFrame) : list AudioFrame :=
  match outs with
  | [] => []
  | out :: outs =>
      {| fr_channels := fr_channels (sine d); fr_rate := fr_rate (sine d);
         fr_samples := map_into id (fr_samples (sine d)) (fr_samples out) |} :: outs
  end.

Record Gain : Type := { gain : f32 }.
Definition Gain_new (g : f32) : Gain := {| gain := g |}.
Definition gain_process (d : Gain) : list AudioFrame -> list AudioFrame -> list AudioFrame :=
  one_to_one (fun inp out => with_out out (map_into (fun x => x *. gain d) (fr_samples inp) (fr_samples out))).

(** [Capture]: the scheduler has already copied the input; nothing to do. *)
Definition capture_process (ins outs : list AudioFrame) : list AudioFrame := outs.

(** ** The noise generator *)

Lemma wrap64_bit z i : 0 <= i < 64 -> Z.testbit (wrap 64 z) i = Z.testbit z i.
Proof. intros Hi. unfold wrap. by rewrite Z.mod_pow2_bits_low by lia. Qed.

Lemma u64_high_bits s i : u64 s -> 64 <= i -> Z.testbit s i = false.
Proof.
  intros Hs Hi. unfold u64, uint in Hs. rewrite <- (Z.mod_small s (2 ^ 64)) by lia. apply Z.mod_pow2_bits_high. lia.
Qed.

Lemma u64_eq_bits x y : u64 x -> u64 y -> (forall i, 0 <= i < 64 -> Z.testbit x i = Z.testbit y i) -> x = y.
Proof.
  intros Hx Hy Hb. apply Z.bits_inj'. intros i Hi. destruct (Z.lt_ge_cases i 64); [apply Hb; lia|].
  by rewrite !u64_high_bits by done.
Qed.

Lemma u64_lxor x y : u64 x -> u64 y -> u64 (Z.lxor x y).
Proof.
  unfold u64, uint. intros [Hx1 Hx2] [Hy1 Hy2].
  assert (Hn : 0 <= Z.lxor x y) by (apply Z.lxor_nonneg; lia). split; [done|].
  destruct (Z.eq_dec (Z.lxor x y) 0) as [->|Hne]; [lia|]. apply Z.log2_lt_pow2; [lia|].
  pose proof (Z.log2_lxor x y Hx1 Hy1) as Hl.
  assert (Z.log2 x < 64 /\ Z.log2 y < 64) as [? ?]; [|lia].
  split; [destruct (Z.eq_dec x 0) as [->|]; [done|]|destruct (Z.eq_dec y 0) as [->|]; [done|]];
    apply Z.log2_lt_pow2; lia.
Qed.

Lemma u64_wrap z : u64 (wrap 64 z).
Proof. unfold u64, uint, wrap. apply Z.mod_pos_bound. lia. Qed.

Lemma u64_shl_xor k s : u64 s -> u64 (shl_xor k s).
Proof. intros Hs. apply u64_lxor; [done|apply u64_wrap]. Qed.

Lemma u64_shr_xor k s : 0 <= k -> u64 s -> u64 (shr_xor k s).
Proof.
  intros Hk Hs. apply u64_lxor; [done|]. unfold u64, uint in Hs |- * ; rewrite Z.shiftr_div_pow2 by done.
  split; [apply Z.div_pos; lia|]. apply Z.div_lt_upper_bound; [lia|]. nia.
Qed.

(** Each step can be undone: the bits are recovered from the unshifted end. *)
Lemma shl_xor_inj k x y : 0 < k -> u64 x -> u64 y -> shl_xor k x = shl_xor k y -> x = y.
Proof.
  intros Hk Hx Hy E. apply u64_eq_bits; [done..|].
  assert (Hb : forall n i, (Z.to_nat i < n)%nat -> 0 <= i < 64 -> Z.testbit x i = Z.testbit y i).
  { induction n as [|n IH]; intros i Hn Hi; [lia|].
    apply (f_equal (fun z => Z.testbit z i)) in E. unfold shl_xor in E.
    rewrite !Z.lxor_spec, !wrap64_bit, !Z.shiftl_spec in E by lia.
    destruct (Z.lt_ge_cases i k) as [Hlt|Hge].
    - rewrite !(Z.testbit_neg_r _ (i - k)) in E by lia. by rewrite !xorb_false_r in E.
    - rewrite (IH (i - k)) in E by lia. by destruct (Z.testbit x i), (Z.testbit y i), (Z.testbit y (i - k)). }
  intros i Hi. by apply (Hb (S (Z.to_nat i))); lia.
Qed.

Lemma shr_xor_inj k x y : 0 < k -> u64 x -> u64 y -> shr_xor k x = shr_xor k y -> x = y.
Proof.
  intros Hk Hx Hy E. apply u64_eq_bits; [done..|].
  assert (Hb : forall n i, (Z.to_nat (64 - i) < n)%nat -> 0 <= i -> Z.testbit x i = Z.testbit y i).
  { induction n as [|n IH]; intros i Hn Hi; [lia|].
    destruct (Z.lt_ge_cases i 64); [|by rewrite !u64_high_bits by done].
    apply (f_equal (fun z => Z.testbit z i)) in E. unfold shr_xor in E.
    rewrite !Z.lxor_spec, !Z.shiftr_spec, (IH (i + k)) in E by lia.
    by destruct (Z.testbit x i), (Z.testbit y i), (Z.testbit y (i + k)). }
  intros i Hi. by apply (Hb (S (Z.to_nat (64 - i)))); lia.
Qed.

Lemma xorshift64_inj x y : u64 x -> u64 y -> xorshift64 x = xorshift64 y -> x = y.
Proof.
  unfold xorshift64. intros Hx Hy E.
  assert (u64 (shl_xor 13 x) /\ u64 (shl_xor 13 y)) as [? ?] by (split; by apply u64_shl_xor).
  apply (shl_xor_inj 17) in E; [|lia|by apply u64_shr_xor..].
  apply (shr_xor_inj 7) in E; [|lia|done..]. by apply (shl_xor_inj 13) in E; [|lia|..].
Qed.

Lemma xorshift64_nonzero x : u64 x -> x <> 0 -> u64 (xorshift64 x) /\ xorshift64 x <> 0.
Proof.
  intros Hx Hne. split.
  - unfold xorshift64. by apply u64_shl_xor, u64_shr_xor, u64_shl_xor.
  - intros E. apply Hne, (xorshift64_inj x 0); [done|done|]. by rewrite E.
Qed.

(** A live generator: its state is not stuck and its filters are in place. *)
Definition noise_ok (d : NoiseSource) : Prop :=
  u64 (rng_state d) /\ rng_state d <> 0 /\ length (pink d) = (7 * Z.to_nat (ns_channels d))%nat.

Lemma kellet_some white s : length s = 7%nat -> exists s' y, kellet white s = Some (s', y) /\ length s' = 7%nat.
Proof.
  intros Hs. do 7 (destruct s as [|? s]; [done|]). destruct s; [|done]. cbn [kellet]. eauto.
Qed.

Lemma gen_sample_ok d c : noise_ok d -> (c < Z.to_nat (ns_channels d))%nat ->
  exists d' y, gen_sample d c = Some (d', y) /\ noise_ok d' /\ ns_channels d' = ns_channels d /\
    rng_state d' = xorshift64 (rng_state d).
Proof.
  intros (Hs & Hne & Hp) Hc. destruct (xorshift64_nonzero _ Hs Hne) as [Hs' Hne'].
  unfold gen_sample, next_rand. cbn [ns_color ns_amp rng_state ns_channels pink].
  destruct (ns_color d).
  - eexists _, _. split; [done|]. by split_and!.
  - destruct (kellet_some (of_Z (wrap 32 (xorshift64 (rng_state d))) /. of_Z u32_max *. two -. one)
      (take 7 (drop (c * 7) (pink d)))) as (s & y & -> & Hl); [rewrite length_take, length_drop; lia|].
    cbn [mbind option_bind]. eexists _, _. split; [done|]. split_and!; [|done|done]. split_and!; [done|done|].
    cbn [pink ns_channels]. rewrite !length_app, length_take, length_drop, Hl. lia.
Qed.

(** Successive calls, each with a fresh output frame of the given size. *)
Fixpoint source_cycles {D} (process : D -> list AudioFrame -> option (D * list AudioFrame)) (rate : Z) (d : D)
    (sizes : list nat) : option (D * list (list AudioFrame)) :=
  match sizes with
  | [] => Some (d, [])
  | n :: sizes =>
      '(d, out) ← process d [{| fr_channels := 0; fr_rate := rate; fr_samples := replicate n zero |}];
      '(d, outs) ← source_cycles process rate d sizes;
      Some (d, out :: outs)
  end.

Section source_total.
Context {D : Type} (gen : D -> nat -> option (D * f32)) (ch : nat) (I : nat -> D -> Prop).
Hypothesis gen_ok : forall n d c, I n d -> (c < ch)%nat -> exists d' y, gen d c = Some (d', y) /\ I (S n) d'.

Lemma source_channel_total c k i n d out : I n d -> (c < ch)%nat -> (i + k <= length out)%nat ->
  exists d' out', source_channel gen (seq i k) c d out = Some (d', out') /\ I (n + k)%nat d' /\ length out' = length out.
Proof.
  revert i n d out. induction k as [|k IH]; intros i n d out Hd Hc Hi.
  { exists d, out. by rewrite Nat.add_0_r. }
  cbn [seq source_channel]. destruct (gen_ok n d c Hd Hc) as (d1 & y & -> & Hd1). cbn [mbind option_bind].
  destruct (lookup_lt_is_Some_2 out i) as [o ->]; [lia|]. cbn [mbind option_bind].
  destruct (IH (S i) (S n) d1 (<[i := y]> out) Hd1 Hc) as (d2 & out2 & -> & Hd2 & Hl2); [rewrite length_insert; lia|].
  rewrite length_insert in Hl2. exists d2, out2. by rewrite Nat.add_succ_r.
Qed.

Lemma source_channels_total per k c0 n d out : I n d -> (c0 + k <= ch)%nat -> (ch * per <= length out)%nat ->
  exists d' out', source_channels gen (seq c0 k) per d out = Some (d', out') /\ I (n + k * per)%nat d' /\
    length out' = length out.
Proof.
  revert c0 n d out. induction k as [|k IH]; intros c0 n d out Hd Hk Hl.
  { exists d, out. by rewrite Nat.add_0_r. }
  cbn [seq source_channels].
  destruct (source_channel_total c0 per (c0 * per) n d out Hd) as (d1 & out1 & -> & Hd1 & Hl1); [lia|nia|].
  cbn [mbind option_bind].
  destruct (IH (S c0) (n + per)%nat d1 out1 Hd1) as (d2 & out2 & -> & Hd2 & Hl2); [lia|by rewrite Hl1|].
  exists d2, out2. split; [done|]. split; [|congruence]. by replace (n + S k * per)%nat with (n + per + k * per)%nat by lia.
Qed.
End source_total.

Lemma noise_process_ok d frame : noise_ok d ->
  exists d' outs, noise_process d [frame] = Some (d', outs) /\ noise_ok d' /\ ns_channels d' = ns_channels d /\
    let ch := Z.to_nat (ns_channels d) in
    rng_state d' = Nat.iter (ch * (length (fr_samples frame) / ch)) xorshift64 (rng_state d).
Proof.
  intros Hd. cbv zeta. set (ch := Z.to_nat (ns_channels d)). unfold noise_process, source_process. fold ch.
  set (n := length (fr_samples frame)).
  destruct (Nat.eqb_spec ch 0) as [->|Hch]; [by exists d, [frame]|].
  destruct (Nat.eqb_spec n 0) as [->|Hn].
  { exists d, [frame]. rewrite Nat.Div0.div_0_l, Nat.mul_0_r. done. }
  cbn [orb].
  destruct (source_channels_total gen_sample ch
    (fun k d' => noise_ok d' /\ ns_channels d' = ns_channels d /\ rng_state d' = Nat.iter k xorshift64 (rng_state d)))
    with (per := (n / ch)%nat) (k := ch) (c0 := 0%nat) (n := 0%nat) (d := d) (out := fr_samples frame)
    as (d' & out & -> & (Hd' & Hc' & Hr') & _); [|done|done| |].
  - intros k d' c (Hk & Hc & Hr) Hlt. destruct (gen_sample_ok d' c Hk) as (d2 & y & -> & Hd2 & Hc2 & Hr2).
    { by rewrite Hc. }
    exists d2, y. split; [done|]. split_and!; [done|congruence|]. rewrite Hr2, Hr. done.
  - rewrite Nat.mul_comm. fold n. pose proof (Nat.div_mod_eq n ch). nia.
  - cbn [mbind option_bind]. eexists _, _. by split_and!.
Qed.

Lemma noise_cycles_ok rate d sizes : noise_ok d ->
  let ch := Z.to_nat (ns_channels d) in
  exists d' outs, source_cycles noise_process rate d sizes = Some (d', outs) /\ noise_ok d' /\
    rng_state d' = Nat.iter (sum_list ((fun n => ch * (n / ch)) <$> sizes))%nat xorshift64 (rng_state d).
Proof.
  revert d. induction sizes as [|n sizes IH]; intros d Hd; cbv zeta; [by exists d, []|].
  cbn [source_cycles]. destruct (noise_process_ok d {| fr_channels := 0; fr_rate := rate; fr_samples := replicate n zero |} Hd)
    as (d1 & o1 & -> & Hd1 & Hc1 & Hr1). cbn [mbind option_bind fr_samples] in Hr1 |- * .
  destruct (IH d1 Hd1) as (d2 & outs & -> & Hd2 & Hr2). exists d2, (o1 :: outs). split_and!; [done|done|].
  rewrite length_replicate in Hr1. rewrite Hr2, Hr1, Hc1. cbn [fmap list_fmap sum_list sum_list_with].
  by rewrite Nat.add_comm, Nat.iter_add.
Qed.

(** Whatever the seed and the block sizes, the noise source never panics,
    draws its generator exactly once per written sample, and its generator is
    never in the degenerate state zero; since a step can be undone, two
    generators in different states never meet. *)
Theorem noise_source_never_stuck (color : NoiseColor) (amp : f32) (seed channels rate : Z) (sizes : list nat) :
  u64 seed ->
  (exists d' outs, source_cycles noise_process rate (NoiseSource_new color amp seed channels) sizes = Some (d', outs) /\
     rng_state d' <> 0 /\
     rng_state d' = Nat.iter (sum_list ((fun n => Z.to_nat channels * (n / Z.to_nat channels)) <$> sizes))%nat
                      xorshift64 (if seed =? 0 then 1 else seed)) /\
  (forall s1 s2, u64 s1 -> u64 s2 -> s1 <> s2 -> xorshift64 s1 <> xorshift64 s2).
Proof.
  intros Hseed. split.
  - destruct (noise_cycles_ok rate (NoiseSource_new color amp seed channels) sizes) as (d' & outs & E & (_ & Hne & _) & Hr).
    + unfold noise_ok, NoiseSource_new; cbn [rng_state pink ns_channels]. rewrite length_replicate.
      destruct (Z.eqb_spec seed 0); by split_and!.
    + by exists d', outs.
  - intros s1 s2 H1 H2 Hne E. apply Hne. by apply xorshift64_inj.
Qed.

Lemma noise_source_never_stuck_witness :
  u64 0 /\ exists d' outs, source_cycles noise_process 48000 (NoiseSource_new Pink half 0 2) [5%nat; 4%nat] = Some (d', outs) /\
    rng_state d' <> 0.
Proof.
  assert (Hu : u64 0) by (unfold u64, uint; lia). split; [done|].
  destruct (noise_source_never_stuck Pink half 0 2 48000 [5%nat; 4%nat] Hu) as [(d' & outs & E & Hne & _) _].
  exists d', outs. split; [exact E|exact Hne].
Defined.

(** ** The tone generator *)

Section tone_facts.
Context `{MathOps}.

(** A source is a channel-wise node that ignores its input. *)
Lemma source_channel_planar {D} (gen : D -> nat -> option (D * f32)) idxs c inp d out :
  Forall (fun i => i < length inp)%nat idxs ->
  source_channel gen idxs c d out = planar_channel (fun d _ c => gen d c) idxs c inp d out.
Proof.
  revert d out. induction idxs as [|i idxs IH]; intros d out Hi; cbn [source_channel planar_channel]; [done|].
  inversion_clear Hi as [|? ? Hlt Hrest]. destruct (lookup_lt_is_Some_2 inp i Hlt) as [x ->]. cbn [mbind option_bind].
  destruct (gen d c) as [[d1 y]|]; [|done]. cbn [mbind option_bind].
  destruct (out !! i); [|done]. cbn [mbind option_bind]. by apply IH.
Qed.

Lemma source_channels_planar {D} (gen : D -> nat -> option (D * f32)) cs per inp d out :
  Forall (fun c => c * per + per <= length inp)%nat cs ->
  source_channels gen cs per d out = planar_channels (fun d _ c => gen d c) cs per inp d out.
Proof.
  revert d out. induction cs as [|c cs IH]; intros d out Hc; cbn [source_channels planar_channels]; [done|].
  inversion_clear Hc as [|? ? Hlt Hrest]. rewrite (source_channel_planar gen _ c inp).
  - destruct (planar_channel _ _ _ _ _ _) as [[d1 out1]|]; [|done]. by apply IH.
  - apply Forall_forall. intros i Hi%elem_of_seq. lia.
Qed.

Definition silence (ch n : nat) : AudioFrame :=
  {| fr_channels := Z.of_nat ch; fr_rate := 0; fr_samples := replicate n zero |}.

Lemma source_process_planar {D} (gen : D -> nat -> option (D * f32)) (channels rate : Z) n d :
  source_process gen channels d [{| fr_channels := 0; fr_rate := rate; fr_samples := replicate n zero |}] =
  '(d, out) ← planar_process (fun d _ c => gen d c) d (silence (Z.to_nat channels) n) (replicate n zero);
  Some (d, [{| fr_channels := if (Z.to_nat channels =? 0)%nat || (n =? 0)%nat then 0 else channels;
               fr_rate := rate; fr_samples := out |}]).
Proof.
  unfold source_process, planar_process, silence. cbn [fr_samples fr_channels fr_rate].
  rewrite Nat2Z.id, length_replicate, Nat.min_id.
  destruct (Nat.eqb_spec (Z.to_nat channels) 0) as [|Hch]; [done|]. destruct (Nat.eqb_spec n 0); [done|]. cbn [orb].
  rewrite (source_channels_planar gen _ _ (replicate n zero)); [done|].
  apply Forall_forall. intros c Hc%elem_of_seq. rewrite length_replicate.
  pose proof (Nat.div_mod_eq n (Z.to_nat channels)). nia.
Qed.

#[export] Instance tone_node : SampleNode ToneGenerator (Waveform * f32 * f32 * Z) f32 := {
  sn_process d _ c := tone_gen d c;
  sn_params d := (tg_waveform d, tg_amp d, tg_phase_inc d, tg_channels d);
  sn_chan d c := tg_phase d !! c;
  sn_step p phase _ := Some (tone_advance p.1.2 phase, tone_sample p.1.1.1 phase *. p.1.1.2)
}.

#[export] Instance tone_node_laws : SampleNodeLaws ToneGenerator (Waveform * f32 * f32 * Z) f32.
Proof.
  split. intros d x c s s' y Hc Hs. injection Hs as <- <-. cbn [sn_process sn_chan tone_node] in Hc |- * .
  unfold tone_gen. rewrite Hc. cbn [mbind option_bind]. eexists. split; [done|]. split; [done|].
  cbn [tg_phase]. split; [by eapply insert_same|]. intros c' Hne. by rewrite list_lookup_insert_ne.
Qed.

Lemma tone_stream (p : Waveform * f32 * f32 * Z) phase xs :
  stream p phase xs =
  Some (Nat.iter (length xs) (tone_advance p.1.2) phase,
        (fun t => tone_sample p.1.1.1 (Nat.iter t (tone_advance p.1.2) phase) *. p.1.1.2) <$> seq 0 (length xs)).
Proof.
  revert phase. induction xs as [|x xs IH]; intros phase; cbn [stream]; [done|].
  cbn [sn_step tone_node mbind option_bind]. rewrite IH. cbn [mbind option_bind length].
  rewrite Nat.iter_succ_r. cbn [seq fmap list_fmap]. rewrite <- fmap_S_seq, <- list_fmap_compose.
  do 3 f_equal. apply list_fmap_ext. intros i t _. unfold compose. by rewrite <- Nat.iter_succ_r.
Qed.

Definition wave (d : ToneGenerator) (phase : f32) (from n : nat) : list f32 :=
  (fun t => tone_sample (tg_waveform d) (Nat.iter t (tone_advance (tg_phase_inc d)) phase) *. tg_amp d) <$> seq from n.

Lemma tone_process_ok rate per ch d phase :
  (0 < ch)%nat -> Z.to_nat (tg_channels d) = ch -> states ch d (fun _ => phase) ->
  exists d' out, tone_process d [{| fr_channels := 0; fr_rate := rate; fr_samples := replicate (ch * per) zero |}] =
      Some (d', [out]) /\ sn_params d' = sn_params d /\
    states ch d' (fun _ => Nat.iter per (tone_advance (tg_phase_inc d)) phase) /\
    length (fr_samples out) = (ch * per)%nat /\
    forall c, (c < ch)%nat -> chan per c (fr_samples out) = wave d phase 0 per.
Proof.
  intros Hch Hc Hst. unfold tone_process. rewrite source_process_planar, Hc.
  assert (Hls : length (fr_samples (silence ch (ch * per))) = (ch * per)%nat) by (cbn [silence fr_samples]; by rewrite length_replicate).
  destruct (planar_process_ok ch per (silence ch (ch * per)) d (fun _ => phase)
    (fun _ => Nat.iter per (tone_advance (tg_phase_inc d)) phase) (fun _ => wave d phase 0 per) Hch)
    as (d' & E & Hp & Hst'); [apply Nat2Z.id|done|done| |].
  { intros c Hlt. rewrite tone_stream, (length_chan per ch) by done. done. }
  rewrite Hls in E. cbn [sn_process tone_node] in E. rewrite E. cbn [mbind option_bind].
  assert (Hlw : length (wave d phase 0 per) = per) by (unfold wave; by rewrite length_fmap, length_seq).
  eexists d', _. split; [reflexivity|]. split; [exact Hp|]. split; [exact Hst'|]. cbn [fr_samples]. split.
  - by apply (length_channels ch per).
  - intros c Hlt. unfold chan. by rewrite (bind_block_in _ per _ c c); [|by intros|by rewrite lookup_seq_lt].
Qed.

Lemma iter_app {A} (f : A -> A) n m x : Nat.iter n f (Nat.iter m f x) = Nat.iter (n + m) f x.
Proof. by rewrite Nat.iter_add. Qed.

Lemma wave_split d phase n m :
  wave d phase 0 (n + m) = wave d phase 0 n ++ wave d (Nat.iter n (tone_advance (tg_phase_inc d)) phase) 0 m.
Proof.
  unfold wave. rewrite seq_app, fmap_app. apply (f_equal (app _)). rewrite Nat.add_0_l.
  rewrite <- (Nat.add_0_r n) at 1. rewrite <- (fmap_add_seq n 0 m), <- list_fmap_compose. apply list_fmap_ext. intros i t _. unfold compose.
  by rewrite iter_app, (Nat.add_comm n).
Qed.

Lemma tone_cycles_ok rate ch sizes d phase :
  (0 < ch)%nat -> Z.to_nat (tg_channels d) = ch -> Forall (fun n => exists per, n = (ch * per)%nat) sizes ->
  states ch d (fun _ => phase) ->
  exists d' outs, source_cycles tone_process rate d sizes = Some (d', outs) /\
    forall c, (c < ch)%nat ->
      channel_of ch c (outs ≫= fmap fr_samples) = wave d phase 0 (sum_list ((fun n => n / ch)%nat <$> sizes)).
Proof.
  intros Hch Hc Hall. revert d phase Hc. induction Hall as [|n sizes [per ->] Hall IH]; intros d phase Hc Hst.
  { by exists d, []. }
  destruct (tone_process_ok rate per ch d phase Hch Hc Hst) as (d1 & out & E1 & Hp & Hst1 & Hlo & Hco).
  injection Hp as Hw Ha Hi Hcs. rewrite <- Hcs in Hc.
  destruct (IH d1 _ Hc Hst1) as (d2 & outs & E2 & Hout).
  exists d2, ([out] :: outs). cbn [source_cycles]. rewrite E1. cbn [mbind option_bind]. rewrite E2. split; [reflexivity|].
  intros c Hlt. cbn [mbind list_bind fmap list_fmap app sum_list sum_list_with].
  rewrite (channel_of_cons ch c _ _ per Hch Hlo), (Hco c Hlt).
  replace (ch * per / ch)%nat with per by (rewrite Nat.mul_comm, Nat.div_mul; lia).
  rewrite wave_split. apply (f_equal (app _)). etransitivity; [exact (Hout c Hlt)|].
  unfold wave. by rewrite Hw, Ha, Hi.
Qed.

(** For any waveform, the tone generator never panics, gives every channel
    the same samples, and its phase runs on across block boundaries: sample
    [t] of a channel is the waveform at the phase advanced [t] times from zero,
    scaled, whatever the sizes of the blocks. *)
Theorem tone_generator_continuous (waveform : Waveform) (freq amp : f32) (sample_rate channels rate : Z) (sizes : list nat) :
  0 < channels -> Forall (fun n => exists per, n = (Z.to_nat channels * per)%nat) sizes ->
  let d := ToneGenerator_new waveform freq amp sample_rate channels in
  exists d' outs, source_cycles tone_process rate d sizes = Some (d', outs) /\
    forall c, (c < Z.to_nat channels)%nat ->
      channel_of (Z.to_nat channels) c (outs ≫= fmap fr_samples) =
      (fun t => tone_sample waveform (Nat.iter t (tone_advance (tg_phase_inc d)) zero) *. tg_amp d)
        <$> seq 0 (sum_list ((fun n => n / Z.to_nat channels)%nat <$> sizes)).
Proof.
  intros Hch Hall. cbv zeta.
  apply (tone_cycles_ok rate (Z.to_nat channels) sizes (ToneGenerator_new waveform freq amp sample_rate channels) zero);
    [lia|reflexivity|exact Hall|].
  intros c Hc. unfold sn_chan, tone_node, ToneGenerator_new. cbn [tg_phase]. by apply replicate_lookup.
Qed.
End tone_facts.

Lemma tone_generator_continuous_witness :
  exists d' outs, source_cycles (@tone_process flat_math) 48000 (ToneGenerator_new Saw f_10 half 48000 2) [4%nat; 2%nat] =
      Some (d', outs) /\
    channel_of 2 0 (outs ≫= fmap fr_samples) = channel_of 2 1 (outs ≫= fmap fr_samples).
Proof.
  destruct (@tone_generator_continuous flat_math Saw f_10 half 48000 2 48000 [4%nat; 2%nat]) as (d' & outs & E & Ho).
  - reflexivity.
  - repeat constructor; [by exists 2%nat|by exists 1%nat].
  - exists d', outs. split; [exact E|]. etransitivity; [apply (Ho 0%nat); cbn; lia|]. symmetry. apply (Ho 1%nat). cbn. lia.
Defined.

(** A tone above the sample rate: one subtraction per sample does not bring the
    phase back below 2π, and it grows with every sample. *)
Theorem tone_phase_leaves_range {M : MathOps} :
  let d := ToneGenerator_new Saw (of_Z 96000) one 48000 1 in
  exists d' out, tone_process d [{| fr_channels := 1; fr_rate := 48000; fr_samples := replicate 8 zero |}] = Some (d', out) /\
    (leb TWO_PI <$> tg_phase d') = [true] /\ (leb (f_5 *. TWO_PI) <$> tg_phase d') = [true].
Proof. cbv zeta. eexists _, _. split; [vm_compute; reflexivity|]. split; vm_compute; reflexivity. Qed.
