(* ===== verification/Render.v ===== *)
(** * Rendering nodes from the control API's parameters

    The parameter enum's per-field defaults ([NodeParams] and the [default_*]
    functions of [crates/control-api/src/lib.rs]), and [render_node] with its
    [parse_*] helpers ([crates/sonicbrew/src/main.rs]), which turns a kind and
    optional parameters into an engine node.  [None] as a result is a panic of
    the node's constructor. *)

From Stdlib Require Import String.
From stdpp Require Import gmap.
From S2P Require Import Prelude F32 RString External Topology SessionStore ControlApi AudioNodes PlanarNodes EffectNodes.
From S2P Require Import RoutingNodes LfoNodes SourceNodes.
Local Open Scope Z_scope.
Import F32.

(** ** Defaults of absent fields *)

Definition default_gain : f32 := 0x3F800000.  (* 1.0 *)
Definition default_mixer_inputs : Z := 2.
Definition default_mixer_gains : list f32 := [half; half].
Definition default_filter_type : rstring := lit "peaking".
Definition default_freq : f32 := 0x447A0000.  (* 1000.0 *)
Definition default_q : f32 := 0x3F34FDF4.  (* 0.707 *)
Definition default_threshold : f32 := 0xC1400000.  (* -12.0 *)
Definition default_ratio : f32 := 0x40800000.  (* 4.0 *)
Definition default_attack : f32 := 0x3F800000.  (* 1.0 *)
Definition default_release : f32 := 0x42480000.  (* 50.0 *)
Definition default_limiter_threshold : f32 := 0xBF800000.  (* -1.0 *)
Definition default_channel_mode : rstring := lit "passthrough".
Definition default_delay_max_ms : f32 := 0x43FA0000.  (* 500.0 *)
Definition default_delay_ms : f32 := 0x437A0000.  (* 250.0 *)
Definition default_feedback : f32 := 0x3E99999A.  (* 0.3 *)
Definition default_mix : f32 := 0x3E99999A.  (* 0.3 *)
Definition default_gate_threshold : f32 := 0xC2480000.  (* -50.0 *)
Definition default_gate_attack : f32 := 0x3F800000.  (* 1.0 *)
Definition default_gate_hold : f32 := 0x42480000.  (* 50.0 *)
Definition default_gate_release : f32 := 0x42C80000.  (* 100.0 *)
Definition default_noise_color : rstring := lit "white".
Definition default_noise_amp : f32 := 0x3F000000.  (* 0.5 *)
Definition default_seed : Z := 12345.
Definition default_waveform : rstring := lit "sine".
Definition default_tone_freq : f32 := 0x43DC0000.  (* 440.0 *)
Definition default_tone_amp : f32 := 0x3F000000.  (* 0.5 *)
Definition default_room_size : f32 := 0x3F000000.  (* 0.5 *)
Definition default_damping : f32 := 0x3F000000.  (* 0.5 *)
Definition default_wet : f32 := 0x3E99999A.  (* 0.3 *)
Definition default_dry : f32 := 0x3F333333.  (* 0.7 *)
Definition default_chorus_rate : f32 := 0x3FC00000.  (* 1.5 *)
Definition default_chorus_depth : f32 := 0x40400000.  (* 3.0 *)
Definition default_chorus_center : f32 := 0x41A00000.  (* 20.0 *)
Definition default_chorus_mix : f32 := 0x3F000000.  (* 0.5 *)
Definition default_distortion_mode : rstring := lit "soft_clip".
Definition default_drive : f32 := 0x40400000.  (* 3.0 *)
Definition default_distortion_threshold : f32 := 0x3F333333.  (* 0.7 *)
Definition default_output_level : f32 := 0x3F800000.  (* 1.0 *)
Definition default_flanger_rate : f32 := 0x3F000000.  (* 0.5 *)
Definition default_flanger_depth : f32 := 0x40000000.  (* 2.0 *)
Definition default_flanger_center : f32 := 0x40400000.  (* 3.0 *)
Definition default_flanger_feedback : f32 := 0x3F000000.  (* 0.5 *)
Definition default_flanger_mix : f32 := 0x3F000000.  (* 0.5 *)
Definition default_send_level : f32 := 0x3F000000.  (* 0.5 *)
Definition default_phaser_rate : f32 := 0x3F000000.  (* 0.5 *)
Definition default_phaser_base : f32 := 0x44480000.  (* 800.0 *)
Definition default_phaser_depth : f32 := 0x3F000000.  (* 0.5 *)
Definition default_phaser_feedback : f32 := 0x3E99999A.  (* 0.3 *)
Definition default_phaser_mix : f32 := 0x3F000000.  (* 0.5 *)
Definition default_phaser_stages : Z := 4.
Definition default_bits : Z := 8.
Definition default_hold_factor : Z := 1.
Definition default_tremolo_rate : f32 := 0x40A00000.  (* 5.0 *)
Definition default_tremolo_depth : f32 := 0x3F000000.  (* 0.5 *)
Definition default_width : f32 := 0x3F800000.  (* 1.0 *)

(** A variant read from a request in which some fields are absent. *)
Definition gain_fields (gain : option f32) : NodeParams :=
  ControlApi.Gain (default default_gain gain).
Definition mixer_fields (inputs : option Z) (gains : option (list f32)) : NodeParams :=
  ControlApi.Mixer (default default_mixer_inputs inputs) (default default_mixer_gains gains).
Definition eq_fields (filter_type : option rstring) (freq gain_db q : option f32) : NodeParams :=
  ControlApi.Eq (default default_filter_type filter_type) (default default_freq freq) (default zero gain_db)
    (default default_q q).
Definition compressor_fields (threshold_db ratio attack_ms release_ms makeup_db : option f32) : NodeParams :=
  ControlApi.Compressor (default default_threshold threshold_db) (default default_ratio ratio)
    (default default_attack attack_ms) (default default_release release_ms) (default zero makeup_db).
Definition limiter_fields (threshold_db : option f32) : NodeParams :=
  ControlApi.Limiter (default default_limiter_threshold threshold_db).
Definition channel_map_fields (mode : option rstring) (pan : option f32) : NodeParams :=
  ControlApi.ChannelMap (default default_channel_mode mode) pan.
Definition delay_fields (max_delay_ms delay_ms feedback mix : option f32) : NodeParams :=
  ControlApi.Delay (default default_delay_max_ms max_delay_ms) (default default_delay_ms delay_ms)
    (default default_feedback feedback) (default default_mix mix).
Definition noise_gate_fields (threshold_db attack_ms hold_ms release_ms : option f32) : NodeParams :=
  ControlApi.NoiseGate (default default_gate_threshold threshold_db) (default default_gate_attack attack_ms)
    (default default_gate_hold hold_ms) (default default_gate_release release_ms).
Definition noise_fields (color : option rstring) (amp : option f32) (seed : option Z) : NodeParams :=
  ControlApi.Noise (default default_noise_color color) (default default_noise_amp amp) (default default_seed seed).
Definition tone_fields (waveform : option rstring) (freq amp : option f32) : NodeParams :=
  ControlApi.Tone (default default_waveform waveform) (default default_tone_freq freq) (default default_tone_amp amp).
Definition reverb_fields (room_size damping wet dry : option f32) : NodeParams :=
  ControlApi.Reverb (default default_room_size room_size) (default default_damping damping)
    (default default_wet wet) (default default_dry dry).
Definition chorus_fields (rate_hz depth_ms center_delay_ms mix : option f32) : NodeParams :=
  ControlApi.Chorus (default default_chorus_rate rate_hz) (default default_chorus_depth depth_ms)
    (default default_chorus_center center_delay_ms) (default default_chorus_mix mix).
Definition distortion_fields (mode : option rstring) (drive threshold output_level : option f32) : NodeParams :=
  ControlApi.Distortion (default default_distortion_mode mode) (default default_drive drive)
    (default default_distortion_threshold threshold) (default default_output_level output_level).
Definition flanger_fields (rate_hz depth_ms center_delay_ms feedback mix : option f32) : NodeParams :=
  ControlApi.Flanger (default default_flanger_rate rate_hz) (default default_flanger_depth depth_ms)
    (default default_flanger_center center_delay_ms) (default default_flanger_feedback feedback) (default default_flanger_mix mix).
Definition aux_send_fields (send_level : option f32) : NodeParams :=
  ControlApi.AuxSend (default default_send_level send_level).
Definition phaser_fields (rate_hz base_freq depth feedback mix : option f32) (stages : option Z) : NodeParams :=
  ControlApi.Phaser (default default_phaser_rate rate_hz) (default default_phaser_base base_freq)
    (default default_phaser_depth depth) (default default_phaser_feedback feedback) (default default_phaser_mix mix) (default default_phaser_stages stages).
Definition bitcrusher_fields (bits hold_factor : option Z) : NodeParams :=
  ControlApi.Bitcrusher (default default_bits bits) (default default_hold_factor hold_factor).
Definition tremolo_fields (rate_hz depth : option f32) : NodeParams :=
  ControlApi.Tremolo (default default_tremolo_rate rate_hz) (default default_tremolo_depth depth).
Definition stereo_widener_fields (width : option f32) : NodeParams :=
  ControlApi.StereoWidener (default default_width width).

(** ** Reading enumerations *)

Definition to_ascii_lowercase (s : rstring) : rstring :=
  (fun c => if (65 <=? c) && (c <=? 90) then c + 32 else c) <$> s.

(** [match s { "a" => x, .. , _ => d }]. *)
Fixpoint pick {A} (s : rstring) (table : list (String.string * A)) (d : A) : A :=
  match table with
  | [] => d
  | (name, x) :: table => if bool_decide (s = lit name) then x else pick s table d
  end.

Definition parse_filter_type (s : rstring) : FilterType :=
  pick (to_ascii_lowercase s)
    [("lowpass", LowPass); ("highpass", HighPass); ("bandpass", BandPass);
     ("peaking", Peaking); ("lowshelf", LowShelf); ("highshelf", HighShelf)]%string Peaking.

Definition parse_channel_mode (s : rstring) (pan : option f32) : ChannelMode :=
  pick (to_ascii_lowercase s)
    [("passthrough", Passthrough); ("swap", Swap); ("mute_left", MuteLeft); ("mute_right", MuteRight);
     ("pan", Pan (default zero pan)); ("mono_to_stereo", MonoToStereo); ("stereo_to_mono", StereoToMono)]%string Passthrough.

Definition parse_noise_color (s : rstring) : NoiseColor :=
  pick (to_ascii_lowercase s) [("pink", Pink)]%string White.

Definition parse_waveform (s : rstring) : Waveform :=
  pick (to_ascii_lowercase s) [("square", Square); ("saw", Saw); ("triangle", Triangle)]%string Sine.

Definition parse_distortion_mode (s : rstring) : DistortionMode :=
  pick (to_ascii_lowercase s)
    [("hard_clip", HardClip); ("hardclip", HardClip); ("foldback", Foldback); ("overdrive", Overdrive)]%string SoftClip.

(** ** Rendering *)

Inductive engine_node : Type :=
| NGain (d : Gain) | NEq (d : EqNode) | NCompressor (d : CompressorNode) | NLimiter (d : LimiterNode)
| NMeter (d : MeterNode) | NMixer (d : MixerNode) | NChannelMap (d : ChannelMapNode) | NDelay (d : DelayNode)
| NNoiseGate (d : NoiseGateNode) | NNoise (d : NoiseSource) | NTone (d : ToneGenerator) | NReverb (d : ReverbNode)
| NChorus (d : ModDelay) | NDistortion (d : DistortionNode) | NFlanger (d : ModDelay) | NAuxSend (d : AuxSendNode)
| NPhaser (d : PhaserNode) | NBitcrusher (d : BitcrusherNode) | NTremolo (d : TremoloNode)
| NStereoWidener (d : StereoWidenerNode) | NFileSource (d : FileSource).

Section render.
Context `{MathOps} (sample_rate channels : Z).

(** [(ms * 0.001 * sr) as usize] and [(s * sample_rate as f32) as usize]. *)
Definition ms_samples (ms : f32) : nat := Z.to_nat (to_uint 64 (mul (mul ms f_0_001) (of_Z sample_rate))).
Definition s_samples (s : f32) : nat := Z.to_nat (to_uint 64 (mul s (of_Z sample_rate))).

Definition render_gain (p : option NodeParams) : Gain :=
  match p with Some (ControlApi.Gain gain) => Gain_new gain | _ => Gain_new half end.

Definition render_eq (p : option NodeParams) : EqNode :=
  match p with
  | Some (Eq filter_type freq gain_db q) => EqNode_new (parse_filter_type filter_type) freq gain_db q sample_rate channels
  | _ => EqNode_new Peaking 0x447A0000 zero 0x3F34FDF4 sample_rate channels
  end.

Definition render_compressor (p : option NodeParams) : CompressorNode :=
  match p with
  | Some (Compressor threshold_db ratio attack_ms release_ms makeup_db) =>
      CompressorNode_new threshold_db ratio attack_ms release_ms makeup_db sample_rate channels
  | _ => CompressorNode_new 0xC1400000 f_4 one 0x42480000 zero sample_rate channels
  end.

Definition render_limiter (p : option NodeParams) : LimiterNode :=
  match p with Some (Limiter threshold_db) => LimiterNode_new threshold_db | _ => LimiterNode_new neg_one end.

Definition render_mixer (p : option NodeParams) : option MixerNode :=
  match p with
  | Some (Mixer inputs gains) => MixerNode_new (Z.to_nat inputs) gains
  | _ => MixerNode_new 2 [half; half]
  end.

Definition render_channel_map (p : option NodeParams) : ChannelMapNode :=
  match p with
  | Some (ChannelMap mode pan) => ChannelMapNode_new (parse_channel_mode mode pan)
  | _ => ChannelMapNode_new Passthrough
  end.

Definition render_delay (p : option NodeParams) : option DelayNode :=
  match p with
  | Some (Delay max_delay_ms delay_ms feedback mix) =>
      DelayNode_new (ms_samples max_delay_ms) (ms_samples delay_ms) feedback mix channels
  | _ => DelayNode_new (s_samples half) (s_samples 0x3E800000) 0x3E99999A 0x3E99999A channels
  end.

Definition render_noise_gate (p : option NodeParams) : NoiseGateNode :=
  match p with
  | Some (NoiseGate threshold_db attack_ms hold_ms release_ms) =>
      NoiseGateNode_new threshold_db attack_ms hold_ms release_ms sample_rate channels
  | _ => NoiseGateNode_new 0xC2480000 one 0x42480000 0x42C80000 sample_rate channels
  end.

Definition render_noise (p : option NodeParams) : NoiseSource :=
  match p with
  | Some (Noise color amp seed) => NoiseSource_new (parse_noise_color color) amp seed channels
  | _ => NoiseSource_new White half 12345 channels
  end.

Definition render_tone (p : option NodeParams) : ToneGenerator :=
  match p with
  | Some (Tone waveform freq amp) => ToneGenerator_new (parse_waveform waveform) freq amp sample_rate channels
  | _ => ToneGenerator_new Sine 0x43DC0000 half sample_rate channels
  end.

Definition render_reverb (p : option NodeParams) : ReverbNode :=
  match p with
  | Some (Reverb room_size damping wet dry) => ReverbNode_new room_size damping wet dry sample_rate channels
  | _ => ReverbNode_new half half 0x3E99999A f_0_7 sample_rate channels
  end.

Definition render_chorus (p : option NodeParams) : option ModDelay :=
  match p with
  | Some (Chorus rate_hz depth_ms center_delay_ms mix) =>
      ChorusNode_new rate_hz depth_ms center_delay_ms mix sample_rate channels
  | _ => ChorusNode_new 0x3FC00000 0x40400000 f_20 half sample_rate channels
  end.

Definition render_distortion (p : option NodeParams) : DistortionNode :=
  match p with
  | Some (Distortion mode drive threshold output_level) =>
      DistortionNode_new (parse_distortion_mode mode) drive threshold output_level
  | _ => DistortionNode_new SoftClip 0x40400000 f_0_7 one
  end.

Definition render_flanger (p : option NodeParams) : option ModDelay :=
  match p with
  | Some (Flanger rate_hz depth_ms center_delay_ms feedback mix) =>
      FlangerNode_new rate_hz depth_ms center_delay_ms feedback mix sample_rate channels
  | _ => FlangerNode_new half two 0x40400000 half half sample_rate channels
  end.

Definition render_aux_send (p : option NodeParams) : AuxSendNode :=
  match p with Some (AuxSend send_level) => AuxSendNode_new send_level | _ => AuxSendNode_new half end.

Definition render_phaser (p : option NodeParams) : option PhaserNode :=
  match p with
  | Some (Phaser rate_hz base_freq depth feedback mix stages) =>
      PhaserNode_new rate_hz base_freq depth feedback mix (Z.to_nat stages) sample_rate channels
  | _ => PhaserNode_new half 0x44480000 half 0x3E99999A half 4 sample_rate channels
  end.

Definition render_bitcrusher (p : option NodeParams) : BitcrusherNode :=
  match p with
  | Some (Bitcrusher bits hold_factor) => BitcrusherNode_new bits hold_factor channels
  | _ => BitcrusherNode_new 8 1 channels
  end.

Definition render_tremolo (p : option NodeParams) : TremoloNode :=
  match p with
  | Some (Tremolo rate_hz depth) => TremoloNode_new rate_hz depth sample_rate
  | _ => TremoloNode_new f_5 half sample_rate
  end.

Definition render_stereo_widener (p : option NodeParams) : StereoWidenerNode :=
  match p with Some (StereoWidener width) => StereoWidenerNode_new width | _ => StereoWidenerNode_new one end.

Definition render_node (kind : option rstring) (p : option NodeParams) : option engine_node :=
  match kind with
  | None => Some (NGain (Gain_new one))
  | Some k =>
      pick k
        [("gain", Some (NGain (render_gain p))); ("eq", Some (NEq (render_eq p)));
         ("compressor", Some (NCompressor (render_compressor p))); ("limiter", Some (NLimiter (render_limiter p)));
         ("meter", Some (NMeter MeterNode_new)); ("mixer", NMixer <$> render_mixer p);
         ("channel_map", Some (NChannelMap (render_channel_map p))); ("delay", NDelay <$> render_delay p);
         ("noise_gate", Some (NNoiseGate (render_noise_gate p))); ("noise", Some (NNoise (render_noise p)));
         ("tone", Some (NTone (render_tone p))); ("reverb", Some (NReverb (render_reverb p)));
         ("chorus", NChorus <$> render_chorus p); ("distortion", Some (NDistortion (render_distortion p)));
         ("flanger", NFlanger <$> render_flanger p); ("aux_send", Some (NAuxSend (render_aux_send p)));
         ("phaser", NPhaser <$> render_phaser p); ("bitcrusher", Some (NBitcrusher (render_bitcrusher p)));
         ("tremolo", Some (NTremolo (render_tremolo p)));
         ("stereo_widener", Some (NStereoWidener (render_stereo_widener p)))]%string
        (Some (NGain (Gain_new one)))
  end.
End render.

(** ** What is rendered *)

Section render_facts.
Context `{MathOps} (sample_rate channels : Z).

(** The node a parameter set describes. *)
Definition described (p : NodeParams) : option engine_node :=
  match p with
  | ControlApi.Gain g => Some (NGain (Gain_new g))
  | Mixer inputs gains => NMixer <$> MixerNode_new (Z.to_nat inputs) gains
  | Eq ft freq gain_db q => Some (NEq (EqNode_new (parse_filter_type ft) freq gain_db q sample_rate channels))
  | Compressor t r a rl m => Some (NCompressor (CompressorNode_new t r a rl m sample_rate channels))
  | Limiter t => Some (NLimiter (LimiterNode_new t))
  | Meter => Some (NMeter MeterNode_new)
  | ChannelMap mode pan => Some (NChannelMap (ChannelMapNode_new (parse_channel_mode mode pan)))
  | Delay mx dl fb mix => NDelay <$> DelayNode_new (ms_samples sample_rate mx) (ms_samples sample_rate dl) fb mix channels
  | NoiseGate t a h r => Some (NNoiseGate (NoiseGateNode_new t a h r sample_rate channels))
  | Noise color amp seed => Some (NNoise (NoiseSource_new (parse_noise_color color) amp seed channels))
  | Tone wf freq amp => Some (NTone (ToneGenerator_new (parse_waveform wf) freq amp sample_rate channels))
  | Reverb r d w dr => Some (NReverb (ReverbNode_new r d w dr sample_rate channels))
  | Chorus r d c m => NChorus <$> ChorusNode_new r d c m sample_rate channels
  | Distortion mode dr t o => Some (NDistortion (DistortionNode_new (parse_distortion_mode mode) dr t o))
  | Flanger r d c f m => NFlanger <$> FlangerNode_new r d c f m sample_rate channels
  | AuxSend l => Some (NAuxSend (AuxSendNode_new l))
  | Phaser r b d f m st => NPhaser <$> PhaserNode_new r b d f m (Z.to_nat st) sample_rate channels
  | Bitcrusher b h => Some (NBitcrusher (BitcrusherNode_new b h channels))
  | Tremolo r d => Some (NTremolo (TremoloNode_new r d sample_rate))
  | StereoWidener w => Some (NStereoWidener (StereoWidenerNode_new w))
  end.

Lemma pick_here {A} name (x d : A) table : pick (lit name) ((name, x) :: table) d = x.
Proof. cbn [pick]. by rewrite bool_decide_true. Qed.

Lemma pick_there {A} s name (x d : A) table : bool_decide (s = lit name) = false -> pick s ((name, x) :: table) d = pick s table d.
Proof. cbn [pick]. by intros ->. Qed.

Ltac picked := repeat (rewrite pick_there by (vm_compute; reflexivity)); rewrite pick_here.

Lemma render_described p : render_node sample_rate channels (Some (kind_name p)) (Some p) = described p.
Proof. destruct p; unfold render_node, kind_name; picked; reflexivity. Qed.

Lemma pick_forall {A} (P : A -> Prop) s table d : Forall (fun '(_, x) => P x) table -> P d -> P (pick s table d).
Proof.
  intros Ht Hd. induction Ht as [|[name x] table Hx _ IH]; [done|]. cbn [pick]. by case_bool_decide.
Qed.

(** Rendering fails only on a phaser at a very low sample rate, or on
    parameters that describe a node too large to allocate. *)
Lemma render_total kind p :
  leb f_10 (mul (of_Z sample_rate) f_0_24) = true ->
  is_Some (DelayNode_new (s_samples sample_rate half) (s_samples sample_rate 0x3E800000) 0x3E99999A 0x3E99999A channels) ->
  is_Some (ChorusNode_new 0x3FC00000 0x40400000 f_20 half sample_rate channels) ->
  is_Some (FlangerNode_new half two 0x40400000 half half sample_rate channels) ->
  from_option (fun q => is_Some (described q)) True p -> is_Some (render_node sample_rate channels kind p).
Proof.
  intros Hsr Hd Hc Hf Hp. unfold render_node. destruct kind as [k|]; [|done].
  assert (Hph : forall a b c d e st, is_Some (PhaserNode_new a b c d e st sample_rate channels)).
  { intros. unfold PhaserNode_new, clamp_checked. rewrite Hsr. cbn [mbind option_bind]. done. }
  apply pick_forall; [|done]. repeat (apply Forall_cons; split; [try (eexists; reflexivity)|]); [..|apply Forall_nil; exact Logic.I];
    apply fmap_is_Some; destruct p as [q|]; try destruct q; cbn [from_option described] in Hp |- *;
    rewrite ?fmap_is_Some in Hp; unfold render_mixer, render_delay, render_chorus, render_flanger, render_phaser;
    first [done | apply Hph].
Qed.

(** Each kind's parameters with every field absent, the gain's apart. *)
Definition absent_fields : list NodeParams :=
  [mixer_fields None None; eq_fields None None None None; compressor_fields None None None None None;
   limiter_fields None; Meter; channel_map_fields None None; delay_fields None None None None;
   noise_gate_fields None None None None; noise_fields None None None; tone_fields None None None;
   reverb_fields None None None None; chorus_fields None None None None; distortion_fields None None None None;
   flanger_fields None None None None None; aux_send_fields None; phaser_fields None None None None None None;
   bitcrusher_fields None None; tremolo_fields None None; stereo_widener_fields None].

(** For nineteen of the twenty kinds, at every sample rate and channel
    count, a node created without parameters is the node created with every
    field of its parameters left out: the renderer's built-in defaults and the API's field
    defaults agree.  The gain is the exception: without parameters it halves
    the signal, with the field left out it passes it. *)
Theorem rendering_defaults_agree :
  Forall (fun p => render_node sample_rate channels (Some (kind_name p)) None =
                   render_node sample_rate channels (Some (kind_name p)) (Some p)) absent_fields /\
  render_node sample_rate channels (Some (lit "gain")) None = Some (NGain (Gain_new half)) /\
  render_node sample_rate channels (Some (lit "gain")) (Some (gain_fields None)) = Some (NGain (Gain_new one)).
Proof.
  split.
  - unfold absent_fields. repeat (apply Forall_cons; split; [rewrite render_described; unfold render_node, kind_name;
      picked; cbn [described]; reflexivity|]).
    apply Forall_nil. exact Logic.I.
  - split; unfold render_node; picked; reflexivity.
Qed.

End render_facts.

(** At 48 kHz and with any [u16] number of channels no default is too large. *)
Lemma defaults_fit (M : MathOps) (channels : Z) :
  is_Some (DelayNode_new (s_samples 48000 half) (s_samples 48000 0x3E800000) 0x3E99999A 0x3E99999A channels) /\
  is_Some (ChorusNode_new 0x3FC00000 0x40400000 f_20 half 48000 channels) /\
  is_Some (FlangerNode_new half two 0x40400000 half half 48000 channels).
Proof.
  assert (Hrep : forall (b : list f32) n, vec_fits (length b) = true -> forallb (fun buf => vec_fits (length buf)) (replicate n b) = true).
  { intros b n Hb. induction n as [|n IH]; [done|]. cbn [replicate forallb]. by rewrite Hb, IH. }
  split; [by eexists; unfold DelayNode_new|]. unfold ChorusNode_new, FlangerNode_new, alloc_mod_delay, ChorusNode_init, FlangerNode_init.
  cbv zeta. cbn [md_buffers]. split; (rewrite Hrep; [by eexists|vm_compute; reflexivity]).
Qed.

Lemma render_total_48k `{MathOps} (channels : Z) kind p :
  from_option (fun q => is_Some (described 48000 channels q)) True p -> is_Some (render_node 48000 channels kind p).
Proof. intros Hp. destruct (defaults_fit _ channels) as (H1 & H2 & H3). apply render_total; [vm_compute; reflexivity|done..]. Qed.

(** A request can ask for a node that cannot be allocated: a delay of 10^20 ms. *)
Lemma huge_delay_panics `{MathOps} (channels : Z) (delay_ms feedback mix : f32) :
  described 48000 channels (Delay 0x60AD78EC delay_ms feedback mix) = None.
Proof.
  cbn [described].
  assert (E : to_uint 64 (mul (mul 0x60AD78EC f_0_001) (of_Z 48000)) = 2 ^ 64 - 1) by (vm_compute; reflexivity).
  assert (Hfit : vec_fits (Nat.max (ms_samples 48000 0x60AD78EC) 1) = false).
  { unfold vec_fits, ms_samples. rewrite E. apply Z.leb_gt. rewrite Nat2Z.inj_max, Z2Nat.id by lia. lia. }
  unfold DelayNode_new. rewrite Hfit. exact eq_refl.
Qed.

(** Whatever calls the API has served, a node with recorded parameters is
    rendered from exactly these, never from defaults of its kind or as a
    passthrough; at the server's 48 kHz a node without recorded parameters is always
    rendered, and one with them exactly when they describe a node that can be allocated. *)
Theorem rendering_follows_api `{MathOps} (sample_rate channels : Z) `{TopoLaws} {S : Type} `{StoreOps S} `{!StoreLaws S} (c : GraphController S) (id : Z) :
  ctl_inv c ->
  (forall p, params c !! id = Some p ->
     render_node sample_rate channels (kinds c !! id) (params c !! id) = described sample_rate channels p) /\
  (params c !! id = None -> is_Some (render_node 48000 channels (kinds c !! id) (params c !! id))).
Proof.
  intros Hc. split.
  - intros p Hp. destruct (ci_params c Hc id p Hp) as [_ Hk]. rewrite Hk, Hp. apply render_described.
  - intros ->. by apply render_total_48k.
Qed.

Lemma rendering_follows_api_witness :
  let spec := {| sp_label := lit "lim"; sp_inputs := 1; sp_outputs := 1; sp_kind := None;
                 sp_params := Some (Limiter neg_one) |} in
  let c := (create_node (GraphController_new example_store) spec).1 in
  params c !! 1 = Some (Limiter neg_one) /\
  @render_node flat_math 48000 2 (kinds c !! 1) (params c !! 1) = Some (NLimiter (@LimiterNode_new flat_math neg_one)).
Proof.
  intros spec c. split; [reflexivity|].
  refine (proj1 (@rendering_follows_api flat_math 48000 2 _ _ _ _ _ c 1 _) (Limiter neg_one) _).
  - apply create_node_inv; [|constructor].
    apply ctl_new_inv. split; [vm_compute; constructor|]. intros e He. by apply elem_of_nil in He.
  - reflexivity.
Defined.
