(* ===== verification/Server.v ===== *)
(** * The server process

    [crates/sonicbrew/src/main.rs]: the command line, the choice of what to run,
    and the server built on the audio engine ([run_server_engine]): decoding
    the file to play, restoring the preset, seeding the topology, the factory
    that renders nodes for the rebuild thread, and the thread that saves the
    preset.  Address parsing, audio decoding and the JSON encoding are
    parameters. *)

From Stdlib Require Import String.
From stdpp Require Import gmap.
From S2P Require Import Prelude F32 RString External Topology SessionStore ControlApi AudioEngine AudioNodes PlanarNodes.
From S2P Require Import EffectNodes RoutingNodes LfoNodes SourceNodes Render.
Local Open Scope Z_scope.

Definition CHANNELS : Z := 2.
Definition SAMPLE_RATE : Z := 48000.
Definition NUM_FRAMES : Z := 256.

(** ** Command line *)

Record Args (A : Type) : Type := {
  self_test : bool; hot_reload_test : bool; live_rebuild_test : bool; engine_live_rebuild_test : bool;
  gateway_live_reload_test : bool; diagnose : bool; server_engine : bool; help : bool;
  ws_addr : A; api_addr : A; metrics_addr : A; load_file : option rstring
}.
Arguments self_test {A}.
Arguments hot_reload_test {A}.
Arguments live_rebuild_test {A}.
Arguments engine_live_rebuild_test {A}.
Arguments gateway_live_reload_test {A}.
Arguments diagnose {A}.
Arguments server_engine {A}.
Arguments help {A}.
Arguments ws_addr {A}.
Arguments api_addr {A}.
Arguments metrics_addr {A}.
Arguments load_file {A}.
Arguments Build_Args {A}.

Inductive arg_error (E : Type) : Type :=
| MissingValue (flag : rstring)
| BadAddress (flag value : rstring) (e : E)
| UnknownArgument (arg : rstring).
Arguments MissingValue {E}.
Arguments BadAddress {E}.
Arguments UnknownArgument {E}.

Definition DEFAULT_WS_ADDR : rstring := lit "127.0.0.1:9001".
Definition DEFAULT_API_ADDR : rstring := lit "127.0.0.1:9002".
Definition DEFAULT_METRICS_ADDR : rstring := lit "127.0.0.1:9003".

Section arguments.
Context {A E : Type} (parse_addr : rstring -> result A E).
Implicit Types a : Args A.

(** [Args::default]; [None]: a default address does not parse. *)
Definition Args_default : option (Args A) :=
  match parse_addr DEFAULT_WS_ADDR, parse_addr DEFAULT_API_ADDR, parse_addr DEFAULT_METRICS_ADDR with
  | Ok ws, Ok api, Ok metrics =>
      Some {| self_test := false; hot_reload_test := false; live_rebuild_test := false;
              engine_live_rebuild_test := false; gateway_live_reload_test := false; diagnose := false;
              server_engine := false; help := false; ws_addr := ws; api_addr := api;
              metrics_addr := metrics; load_file := None |}
  | _, _, _ => None
  end.

(** The eight switches. *)
Inductive switch : Type :=
| SelfTest | HotReloadTest | LiveRebuildTest | EngineLiveRebuildTest | GatewayLiveReloadTest | Diagnose | ServerEngine | Help.

Definition set_switch (s : switch) a : Args A :=
  let on s' := match s, s' with
    | SelfTest, SelfTest | HotReloadTest, HotReloadTest | LiveRebuildTest, LiveRebuildTest
    | EngineLiveRebuildTest, EngineLiveRebuildTest | GatewayLiveReloadTest, GatewayLiveReloadTest
    | Diagnose, Diagnose | ServerEngine, ServerEngine | Help, Help => true | _, _ => false end in
  {| self_test := on SelfTest || self_test a; hot_reload_test := on HotReloadTest || hot_reload_test a;
     live_rebuild_test := on LiveRebuildTest || live_rebuild_test a;
     engine_live_rebuild_test := on EngineLiveRebuildTest || engine_live_rebuild_test a;
     gateway_live_reload_test := on GatewayLiveReloadTest || gateway_live_reload_test a;
     diagnose := on Diagnose || diagnose a; server_engine := on ServerEngine || server_engine a;
     help := on Help || help a; ws_addr := ws_addr a; api_addr := api_addr a;
     metrics_addr := metrics_addr a; load_file := load_file a |}.

(** The options with a value. *)
Inductive option_name : Type := WsAddr | ApiAddr | MetricsAddr | LoadFile.

Definition set_addr (o : option_name) (x : A) a : Args A :=
  {| self_test := self_test a; hot_reload_test := hot_reload_test a; live_rebuild_test := live_rebuild_test a;
     engine_live_rebuild_test := engine_live_rebuild_test a; gateway_live_reload_test := gateway_live_reload_test a;
     diagnose := diagnose a; server_engine := server_engine a; help := help a;
     ws_addr := match o with WsAddr => x | _ => ws_addr a end;
     api_addr := match o with ApiAddr => x | _ => api_addr a end;
     metrics_addr := match o with MetricsAddr => x | _ => metrics_addr a end; load_file := load_file a |}.

Definition set_file (path : rstring) a : Args A :=
  {| self_test := self_test a; hot_reload_test := hot_reload_test a; live_rebuild_test := live_rebuild_test a;
     engine_live_rebuild_test := engine_live_rebuild_test a; gateway_live_reload_test := gateway_live_reload_test a;
     diagnose := diagnose a; server_engine := server_engine a; help := help a;
     ws_addr := ws_addr a; api_addr := api_addr a; metrics_addr := metrics_addr a; load_file := Some path |}.

Definition flag_of (arg : rstring) : option (switch + option_name) :=
  pick arg
    [("--self-test", Some (inl SelfTest)); ("--hot-reload-test", Some (inl HotReloadTest));
     ("--live-rebuild-test", Some (inl LiveRebuildTest));
     ("--engine-live-rebuild-test", Some (inl EngineLiveRebuildTest));
     ("--gateway-live-reload-test", Some (inl GatewayLiveReloadTest)); ("--diagnose", Some (inl Diagnose));
     ("--server-engine", Some (inl ServerEngine)); ("--help", Some (inl Help)); ("-h", Some (inl Help));
     ("--ws-addr", Some (inr WsAddr)); ("--api-addr", Some (inr ApiAddr));
     ("--metrics-addr", Some (inr MetricsAddr)); ("--load-file", Some (inr LoadFile))]%string None.

(** The loop over the arguments after the program name. *)
Fixpoint parse_loop (argv : list rstring) a : result (Args A) (arg_error E) :=
  match argv with
  | [] => Ok a
  | arg :: argv =>
      match flag_of arg with
      | None => Err (UnknownArgument arg)
      | Some (inl s) => parse_loop argv (set_switch s a)
      | Some (inr o) =>
          match argv with
          | [] => Err (MissingValue arg)
          | v :: argv =>
              match o with
              | LoadFile => parse_loop argv (set_file v a)
              | _ =>
                  match parse_addr v with
                  | Ok x => parse_loop argv (set_addr o x a)
                  | Err e => Err (BadAddress arg v e)
                  end
              end
          end
      end
  end.

Definition parse_args (argv : list rstring) : option (result (Args A) (arg_error E)) :=
  a ← Args_default; Some (parse_loop argv a).

(** What [main] runs; [diagnose] only exists with its feature. *)
Inductive mode : Type :=
| PrintUsage | RunHotReload | RunLiveRebuild | RunEngineRebuild | RunGatewayReload | RunDiagnose | RunServerEngine
| RunSelfTest | RunServer.

Definition main_mode (diagnose_feature : bool) a : mode :=
  if help a then PrintUsage
  else if hot_reload_test a then RunHotReload
  else if live_rebuild_test a then RunLiveRebuild
  else if engine_live_rebuild_test a then RunEngineRebuild
  else if gateway_live_reload_test a then RunGatewayReload
  else if diagnose_feature && diagnose a then RunDiagnose
  else if server_engine a then RunServerEngine
  else if self_test a then RunSelfTest
  else RunServer.
End arguments.

(** ** Building the server *)

Record FileBuffer : Type := { fb_samples : list F32.f32; fb_channels : Z; fb_sample_rate : Z; fb_looping : bool }.

(** [--load-file]: a file that does not decode is reported and left out. *)
Definition load_buffer {E} (load_file_source : rstring -> bool -> result FileSource E) (path : option rstring)
    : option FileBuffer :=
  match path with
  | None => None
  | Some path =>
      match load_file_source path true with
      | Err _ => None
      | Ok node =>
          let '(samples, channels, sample_rate, looping) := into_parts node in
          Some {| fb_samples := samples; fb_channels := channels; fb_sample_rate := sample_rate; fb_looping := looping |}
      end
  end.

Record Server (S : Type) : Type := {
  sv_store : S; sv_kinds : gmap Z rstring; sv_params : gmap Z NodeParams; sv_files : gmap Z FileBuffer
}.
Arguments sv_store {S}.
Arguments sv_kinds {S}.
Arguments sv_params {S}.
Arguments sv_files {S}.
Arguments Build_Server {S}.

Section boot.
Context `{TopoOps} {S : Type} `{StoreOps S}.

Definition server_new (s : S) : Server S := {| sv_store := s; sv_kinds := ∅; sv_params := ∅; sv_files := ∅ |}.

(** The preset file: absent, unreadable, or a preset.  The controller used for
    restoring shares the registries; its labels go with it.  A failed import
    is reported only. *)
Definition restore_preset (sv : Server S) (file : option (option Preset)) : Server S :=
  match file with
  | Some (Some preset) =>
      let c := GraphController_new_with_registries (sv_store sv) (sv_kinds sv) (sv_params sv) in
      let '(c, _) := import_preset c preset in
      {| sv_store := store c; sv_kinds := kinds c; sv_params := params c; sv_files := sv_files sv |}
  | _ => sv
  end.

(** The id of the file node; [None]: [m + 1] overflows. *)
Definition file_id (topo : TopologySnapshot) : option Z :=
  match nodes topo with
  | [] => Some 2
  | _ =>
      match max_id topo with
      | None => Some 0
      | Some m => if m <? usize_max then Some (m + 1) else None
      end
  end.

Definition port (dir : PortDir) (channels : Z) : list PortMeta :=
  [{| direction := dir; pm_channels := channels; sample_format := SF_F32 |}].

Definition file_snapshot (id : Z) (buf : FileBuffer) : NodeSnapshot :=
  {| ns_id := id; ns_inputs := []; ns_outputs := port Output (fb_channels buf) |}.

Definition bridge_source : NodeSnapshot := {| ns_id := 0; ns_inputs := []; ns_outputs := port Output CHANNELS |}.
Definition bridge_sink : NodeSnapshot := {| ns_id := 1; ns_inputs := port Input CHANNELS; ns_outputs := [] |}.

(** The mutations the seeding applies, in order. *)
Definition seed_mutations (topo_empty : bool) (id : Z) (loaded : option FileBuffer) : list Mutation :=
  let file_node := match loaded with Some buf => [AddNode (file_snapshot id buf)] | None => [] end in
  if topo_empty then
    let file_matches_graph := match loaded with Some buf => fb_channels buf =? CHANNELS | None => false end in
    [AddNode bridge_source; AddNode bridge_sink] ++ file_node ++
    [AddLink (if file_matches_graph then {| e_from := (id, 0); e_to := (1, 0) |}
              else {| e_from := (0, 0); e_to := (1, 0) |})]
  else file_node.

(** Each mutation with [?]: the first failure ends the boot. *)
Fixpoint apply_all (s : S) (ms : list Mutation) : S * result unit StoreError :=
  match ms with
  | [] => (s, Ok tt)
  | m :: ms =>
      match apply_mutation s m with
      | (s, Err e) => (s, Err e)
      | (s, Ok _) => apply_all s ms
      end
  end.

(** Seeding, then registering the file's kind and buffer; [None]: the overflow. *)
Definition seed (sv : Server S) (loaded : option FileBuffer) : option (Server S * result unit StoreError) :=
  let topo := get_topology (sv_store sv) in
  let topo_empty := match nodes topo with [] => true | _ => false end in
  id ← file_id topo;
  let '(s, r) := apply_all (sv_store sv) (seed_mutations topo_empty id loaded) in
  match r with
  | Err e => Some ({| sv_store := s; sv_kinds := sv_kinds sv; sv_params := sv_params sv; sv_files := sv_files sv |}, Err e)
  | Ok _ =>
      match loaded with
      | None => Some ({| sv_store := s; sv_kinds := sv_kinds sv; sv_params := sv_params sv; sv_files := sv_files sv |}, Ok tt)
      | Some buf =>
          Some ({| sv_store := s; sv_kinds := <[id := lit "file"]> (sv_kinds sv); sv_params := sv_params sv;
                   sv_files := <[id := buf]> (sv_files sv) |}, Ok tt)
      end
  end.

Definition boot (s : S) (preset_file : option (option Preset)) (loaded : option FileBuffer)
    : option (Server S * result unit StoreError) :=
  seed (restore_preset (server_new s) preset_file) loaded.

(** ** The factory *)

Inductive server_node : Type := BridgeSource | BridgeSink | Engine (n : engine_node).

(** [None]: rendering panics. *)
Definition factory_build `{MathOps} (sv : Server S) (id : Z) : option (BuiltNode server_node) :=
  if id =? 0 then Some (Plain BridgeSource)
  else if id =? 1 then Some (AudioEngine.Sink BridgeSink)
  else
    let kind := sv_kinds sv !! id in
    if bool_decide (kind = Some (lit "file")) then
      Some (Plain (Engine match sv_files sv !! id with
        | Some f => NFileSource (FileSource_new (fb_samples f) (fb_channels f) (fb_sample_rate f) (fb_looping f))
        | None => NGain (Gain_new F32.zero)
        end))
    else (fun n => Plain (Engine n)) <$> render_node SAMPLE_RATE CHANNELS kind (sv_params sv !! id).
End boot.

(** ** Saving the preset *)

Section autosave.
Context {T : Type} `{EqDecision T} (to_string_pretty : Preset -> option T).

(** Where the thread is: asleep, about to write the temporary file, or about to
    rename it. *)
Inductive autosave_pc : Type := Asleep | Writing (json : T) | Renaming (json : T).

Record Autosave : Type := {
  last_written : option T; as_pc : autosave_pc; tmp_file : option T; preset_file : option T
}.

Definition autosave_start (existing : option T) : Autosave :=
  {| last_written := None; as_pc := Asleep; tmp_file := None; preset_file := existing |}.

Inductive autosave_event : Type :=
| Wake (preset : Preset)              (* two seconds have passed; what export_preset gives now *)
| WriteOk
| WriteFailed (left_over : option T)  (* what the failed write leaves of the temporary file *)
| RenameOk
| RenameFailed
| Killed (left_over : option T).      (* the process dies and a new one starts; likewise if it was writing *)

Definition autosave_step (a : Autosave) (ev : autosave_event) : Autosave :=
  let asleep tmp := {| last_written := last_written a; as_pc := Asleep; tmp_file := tmp; preset_file := preset_file a |} in
  match ev, as_pc a with
  | Wake preset, Asleep =>
      match to_string_pretty preset with
      | None => a
      | Some json =>
          if decide (last_written a = Some json) then a
          else {| last_written := last_written a; as_pc := Writing json; tmp_file := tmp_file a;
                  preset_file := preset_file a |}
      end
  | WriteOk, Writing json =>
      {| last_written := last_written a; as_pc := Renaming json; tmp_file := Some json; preset_file := preset_file a |}
  | WriteFailed left_over, Writing _ => asleep left_over
  | RenameOk, Renaming json =>
      {| last_written := Some json; as_pc := Asleep; tmp_file := None; preset_file := tmp_file a |}
  | RenameFailed, Renaming _ => asleep (tmp_file a)
  | Killed left_over, pc =>
      {| last_written := None; as_pc := Asleep;
         tmp_file := match pc with Writing _ => left_over | _ => tmp_file a end; preset_file := preset_file a |}
  | _, _ => a
  end.

Definition autosave_run (a : Autosave) (evs : list autosave_event) : Autosave := foldl autosave_step a evs.
End autosave.
Arguments Wake {T}.
Arguments WriteOk {T}.
Arguments WriteFailed {T}.
Arguments RenameOk {T}.
Arguments RenameFailed {T}.
Arguments Killed {T}.

(** ** Command lines read back *)

Section args_facts.
Context {A E : Type} (parse_addr : rstring -> result A E) (show : A -> rstring).
Implicit Types a : Args A.

Definition argv_switch (b : bool) (name : String.string) : list rstring := if b then [lit name] else [].

(** The command line that asks for [a]. *)
Definition argv_of a : list rstring :=
  argv_switch (self_test a) "--self-test" ++ argv_switch (hot_reload_test a) "--hot-reload-test" ++
  argv_switch (live_rebuild_test a) "--live-rebuild-test" ++
  argv_switch (engine_live_rebuild_test a) "--engine-live-rebuild-test" ++
  argv_switch (gateway_live_reload_test a) "--gateway-live-reload-test" ++
  argv_switch (diagnose a) "--diagnose" ++ argv_switch (server_engine a) "--server-engine" ++
  argv_switch (help a) "--help" ++
  [lit "--ws-addr"; show (ws_addr a); lit "--api-addr"; show (api_addr a);
   lit "--metrics-addr"; show (metrics_addr a)] ++
  match load_file a with Some path => [lit "--load-file"; path] | None => [] end.

Lemma parse_switch b name s rest a :
  flag_of (lit name) = Some (inl s) ->
  parse_loop parse_addr (argv_switch b name ++ rest) a = parse_loop parse_addr rest (if b then set_switch s a else a).
Proof. intros Hf. destruct b; cbn [argv_switch app parse_loop]; [by rewrite Hf|done]. Qed.

Lemma parse_addr_option o name x rest a :
  flag_of (lit name) = Some (inr o) -> o <> LoadFile -> parse_addr (show x) = Ok x ->
  parse_loop parse_addr (lit name :: show x :: rest) a = parse_loop parse_addr rest (set_addr o x a).
Proof. intros Hf Ho Hx. cbn [parse_loop]. rewrite Hf. by destruct o; rewrite ?Hx. Qed.

Lemma argv_of_parses a d :
  (forall x, parse_addr (show x) = Ok x) -> Args_default parse_addr = Some d ->
  parse_loop parse_addr (argv_of a) d = Ok a.
Proof.
  intros Hshow Hd. unfold argv_of.
  rewrite (parse_switch _ _ SelfTest), (parse_switch _ _ HotReloadTest), (parse_switch _ _ LiveRebuildTest),
    (parse_switch _ _ EngineLiveRebuildTest), (parse_switch _ _ GatewayLiveReloadTest), (parse_switch _ _ Diagnose),
    (parse_switch _ _ ServerEngine), (parse_switch _ _ Help) by (vm_compute; reflexivity).
  cbn [app]. rewrite (parse_addr_option WsAddr), (parse_addr_option ApiAddr), (parse_addr_option MetricsAddr)
    by (done || vm_compute; reflexivity).
  unfold Args_default in Hd. destruct (parse_addr DEFAULT_WS_ADDR), (parse_addr DEFAULT_API_ADDR), (parse_addr DEFAULT_METRICS_ADDR); try done.
  injection Hd as <-.
  destruct a as [b1 b2 b3 b4 b5 b6 b7 b8 ws api me lf].
  cbn [self_test hot_reload_test live_rebuild_test engine_live_rebuild_test gateway_live_reload_test diagnose
    server_engine help ws_addr api_addr metrics_addr load_file].
  destruct lf as [path|]; [cbn [parse_loop]; replace (flag_of (lit "--load-file")) with (Some (@inr switch _ LoadFile)) by (vm_compute; reflexivity)|cbn [parse_loop]];
    f_equal; destruct b1, b2, b3, b4, b5, b6, b7, b8; reflexivity.
Qed.
End args_facts.

(** Every combination of switches, addresses and file is reachable from
    the command line: the arguments that spell out [a] parse to [a], given that a printed
    address parses back and the built-in default addresses parse. *)
Theorem args_roundtrip {A E : Type} (parse_addr : rstring -> result A E) (show : A -> rstring) (a : Args A) :
  (forall x, parse_addr (show x) = Ok x) -> is_Some (Args_default parse_addr) ->
  parse_args parse_addr (argv_of show a) = Some (Ok a).
Proof.
  intros Hshow [d Hd]. unfold parse_args. rewrite Hd. cbn [mbind option_bind].
  by rewrite (argv_of_parses parse_addr show a d).
Qed.

Lemma args_roundtrip_witness :
  parse_args (E := unit) (fun s => Ok s) [lit "--server-engine"; lit "--ws-addr"; lit "[::1]:1"; lit "--api-addr"; lit "b";
    lit "--metrics-addr"; lit "c"; lit "--load-file"; lit "x.flac"] =
  Some (Ok (Build_Args false false false false false false true false (lit "[::1]:1") (lit "b") (lit "c") (Some (lit "x.flac")))).
Proof.
  exact (args_roundtrip (E := unit) (fun s => Ok s) id
    (Build_Args false false false false false false true false (lit "[::1]:1") (lit "b") (lit "c") (Some (lit "x.flac")))
    (fun _ => eq_refl) ltac:(by eexists)).
Defined.

(** ** Booting *)

Section boot_facts.
Context `{TopoLaws} {S : Type} `{StoreOps S} `{!StoreLaws S} (reliable : S -> Prop).
Hypothesis reliable_ok : forall s m, reliable s -> exists s' id, apply_mutation s m = (s', Ok id) /\ reliable s'.

Lemma apply_all_ok s ms : reliable s ->
  exists s', apply_all s ms = (s', Ok tt) /\ get_topology s' = foldl topo_apply (get_topology s) ms.
Proof.
  revert s. induction ms as [|m ms IH]; intros s Hs; [by exists s|].
  cbn [apply_all foldl]. destruct (reliable_ok s m Hs) as (s1 & id & E & Hs1). rewrite E.
  rewrite <- (apply_mutation_ok s m s1 id E). by apply IH.
Qed.

Lemma add_nodes (t : TopologySnapshot) ns es :
  NoDup (ids t ++ (ns_id <$> ns)) ->
  foldl topo_apply t ((AddNode <$> ns) ++ (AddLink <$> es)) = {| nodes := nodes t ++ ns; edges := edges t ++ es |}.
Proof.
  revert t. induction ns as [|n ns IH]; intros t Hnd.
  - cbn [fmap list_fmap app]. rewrite app_nil_r. clear Hnd. revert t. induction es as [|e es IH]; intros t.
    + cbn. rewrite app_nil_r. by destruct t.
    + cbn [foldl fmap list_fmap]. rewrite topo_add_link. rewrite (IH {| nodes := nodes t; edges := edges t ++ [e] |}).
      cbn [nodes edges]. by rewrite <- app_assoc.
  - cbn [fmap list_fmap app foldl]. rewrite topo_add_fresh.
    + rewrite IH; cbn [nodes edges]; [by rewrite <- app_assoc|].
      unfold ids. cbn [nodes]. rewrite fmap_app, <- app_assoc. exact Hnd.
    + rewrite fmap_cons in Hnd. intros Hin. apply NoDup_app in Hnd as (_ & Hd & _). apply (Hd (ns_id n) Hin). by left.
Qed.

(** What seeding leaves in the store and the registries. *)
Definition seeded_nodes (id : Z) (loaded : option FileBuffer) : list NodeSnapshot :=
  match loaded with Some buf => [file_snapshot id buf] | None => [] end.

Definition first_link (loaded : option FileBuffer) : SnapshotEdge :=
  if match loaded with Some buf => fb_channels buf =? CHANNELS | None => false end
  then {| e_from := (2, 0); e_to := (1, 0) |} else {| e_from := (0, 0); e_to := (1, 0) |}.

Lemma seed_fresh sv loaded :
  reliable (sv_store sv) -> get_topology (sv_store sv) = {| nodes := []; edges := [] |} ->
  exists s', seed sv loaded = Some ({| sv_store := s';
      sv_kinds := match loaded with Some _ => <[2 := lit "file"]> (sv_kinds sv) | None => sv_kinds sv end;
      sv_params := sv_params sv;
      sv_files := match loaded with Some buf => <[2 := buf]> (sv_files sv) | None => sv_files sv end |}, Ok tt) /\
    get_topology s' = {| nodes := [bridge_source; bridge_sink] ++ seeded_nodes 2 loaded; edges := [first_link loaded] |}.
Proof.
  intros Hs Ht. unfold seed, file_id. rewrite Ht. cbn [nodes mbind option_bind].
  destruct (apply_all_ok (sv_store sv) (seed_mutations true 2 loaded) Hs) as (s' & -> & Ht').
  exists s'. split; [by destruct loaded|]. rewrite Ht', Ht.
  assert (Hm : seed_mutations true 2 loaded =
    (AddNode <$> ([bridge_source; bridge_sink] ++ seeded_nodes 2 loaded)) ++ (AddLink <$> [first_link loaded])).
  { unfold seed_mutations, first_link. by destruct loaded. }
  rewrite Hm, add_nodes; [done|]. unfold ids. cbn [nodes fmap list_fmap app].
  destruct loaded; apply (bool_decide_eq_true_1 _); vm_compute; reflexivity.
Qed.

Lemma seed_existing sv loaded :
  reliable (sv_store sv) -> room (get_topology (sv_store sv)) -> NoDup (ids (get_topology (sv_store sv))) ->
  nodes (get_topology (sv_store sv)) <> [] ->
  exists s' id, (id ∉ ids (get_topology (sv_store sv))) /\
    seed sv loaded = Some ({| sv_store := s';
      sv_kinds := match loaded with Some _ => <[id := lit "file"]> (sv_kinds sv) | None => sv_kinds sv end;
      sv_params := sv_params sv;
      sv_files := match loaded with Some buf => <[id := buf]> (sv_files sv) | None => sv_files sv end |}, Ok tt) /\
    get_topology s' = {| nodes := nodes (get_topology (sv_store sv)) ++ seeded_nodes id loaded;
                         edges := edges (get_topology (sv_store sv)) |}.
Proof.
  intros Hs Hroom Hnd Hne. set (t := get_topology (sv_store sv)) in *.
  destruct (fresh_id_spec t Hroom) as (Hfresh & Hpos & _).
  assert (Hid : file_id t = Some (fresh_id t)).
  { unfold file_id, fresh_id. destruct (nodes t) eqn:En; [done|]. unfold max_id, ids. rewrite En. cbn [fmap list_fmap].
    set (m := foldl Z.max _ _).
    assert (Hm : 0 <= m < usize_max).
    { unfold room, ids in Hroom. rewrite En in Hroom. cbn [fmap list_fmap] in Hroom. rewrite Forall_forall in Hroom.
      destruct (foldl_max_elem (ns_id <$> l) (ns_id n)) as [Hm|Hm]; fold m in Hm; apply Hroom; [rewrite Hm; by left|by right]. }
    destruct (Z.ltb_spec m usize_max); [|lia]. f_equal. change (default 0 (Some m)) with m. unfold sat_add, usize_max in *. lia. }
  destruct (apply_all_ok (sv_store sv) (seed_mutations false (fresh_id t) loaded) Hs) as (s' & E & Ht').
  exists s', (fresh_id t). split; [done|]. split.
  - unfold seed. fold t. rewrite Hid. cbn [mbind option_bind].
    replace (match nodes t with [] => true | _ => false end) with false by (by destruct (nodes t)).
    rewrite E. by destruct loaded.
  - rewrite Ht'. fold t.
    assert (Hm : seed_mutations false (fresh_id t) loaded = (AddNode <$> seeded_nodes (fresh_id t) loaded) ++ (AddLink <$> []))
      by (by destruct loaded).
    rewrite Hm, add_nodes; [by rewrite app_nil_r|]. destruct loaded; cbn; [|by rewrite app_nil_r].
    apply NoDup_app. split; [done|]. split; [|apply NoDup_singleton]. intros x Hx ->%list_elem_of_singleton. done.
Qed.
End boot_facts.

(** Rendering leaves the rebuild without a node only for parameters that cannot
    be rendered. *)
Lemma factory_some `{MathOps} {S} (sv : Server S) id :
  from_option (fun q => is_Some (described SAMPLE_RATE CHANNELS q)) True (sv_params sv !! id) -> is_Some (factory_build sv id).
Proof.
  intros Hp. unfold factory_build. destruct (id =? 0); [by eexists|]. destruct (id =? 1); [by eexists|].
  case_bool_decide; [by eexists|]. apply fmap_is_Some. by apply (render_total_48k CHANNELS).
Qed.

Lemma factory_no_params `{MathOps} {S} (sv : Server S) id : sv_params sv = ∅ -> is_Some (factory_build sv id).
Proof. intros Hp. apply factory_some. by rewrite Hp, lookup_empty. Qed.

(** The node that plays the file. *)
Definition player_node (buf : FileBuffer) : BuiltNode server_node :=
  Plain (Engine (NFileSource (FileSource_new (fb_samples buf) (fb_channels buf) (fb_sample_rate buf) (fb_looping buf)))).

(** Nodes numbered by their position keep their endpoints. *)
Lemma endpoint_position (t : TopologySnapshot) p p' :
  (forall i n, nodes t !! i = Some n -> ns_id n = Z.of_nat i) -> endpoint_of t p p' -> p' = p.
Proof. intros Ht (i & n & Hn & Hi & ->). rewrite (Ht i n Hn) in Hi. destruct p. cbn in Hi. by subst. Qed.

(** C22: the first start.  On an empty store that accepts writes, with no preset
    to restore, the server seeds the bridge's source and sink and, if a file was decoded, a
    node for it; exactly one link leads into the sink, from the file when its channel
    count is the graph's and from the bridge source otherwise.  The graph
    built from this topology has the bridge's two ends and the file's player
    in this order and that one link, unless the graph library itself refuses. *)
Theorem boot_first_graph `{TopoLaws} {S} `{StoreOps S} `{!StoreLaws S} {M : MathOps} {G E} `{GraphLaws G server_node E}
    (reliable : S -> Prop) (s : S) (loaded : option FileBuffer) :
  (forall s m, reliable s -> exists s' id, apply_mutation s m = (s', Ok id) /\ reliable s') ->
  reliable s -> get_topology s = {| nodes := []; edges := [] |} ->
  exists sv, boot s None loaded = Some (sv, Ok tt) /\
    get_topology (sv_store sv) =
      {| nodes := [bridge_source; bridge_sink] ++ seeded_nodes 2 loaded; edges := [first_link loaded] |} /\
    match build_graph (G := G) (factory_build sv) (get_topology (sv_store sv)) with
    | Ok g =>
        g_nodes g = [Plain BridgeSource; AudioEngine.Sink BridgeSink] ++
          match loaded with Some buf => [player_node buf] | None => [] end /\
        g_links g = [first_link loaded]
    | Err e => exists ge, e = GraphError ge
    end.
Proof.
  intros Hrel Hs Ht. destruct (seed_fresh reliable Hrel (server_new s) loaded Hs Ht) as (s' & E1 & Ht').
  eexists. split; [exact E1|]. cbn [sv_store]. split; [exact Ht'|]. rewrite Ht'.
  set (t := {| nodes := _; edges := _ |}). set (sv := Build_Server _ _ _ _).
  assert (Hpos : forall i n, nodes t !! i = Some n -> ns_id n = Z.of_nat i).
  { intros i n. unfold t. cbn [nodes]. destruct loaded as [buf|]; destruct i as [|[|[|i]]]; cbn; intros [= <-]; done. }
  assert (Hnd : NoDup (ids t)) by (destruct loaded; apply (bool_decide_eq_true_1 _); vm_compute; reflexivity).
  pose proof (build_graph_cases (G := G) (factory_build sv) t Hnd) as Hc.
  destruct (build_graph (factory_build sv) t) as [g|[id|id|id|ge]].
  - destruct Hc as [Hn Hl]. split.
    + unfold built_for in Hn. unfold t in Hn. cbn [nodes app] in Hn.
      inversion Hn as [|? b0 ? bs0 Hb0 Hn0]; subst. inversion Hn0 as [|? b1 ? bs1 Hb1 Hn1]; subst.
      injection Hb0 as <-. injection Hb1 as <-. destruct loaded as [buf|]; cbn [seeded_nodes] in Hn1.
      * inversion Hn1 as [|? b2 ? bs2 Hb2 Hn2]; subst. inversion Hn2; subst. unfold player_node.
        cbn [app]. do 3 f_equal. injection Hb2 as <-. done.
      * by inversion Hn1; subst.
    + unfold t in Hl at 3. cbn [edges] in Hl. inversion Hl as [|? l ? ls [Hf Hto] Hls]; subst. inversion Hls; subst.
      apply (endpoint_position t _ _ Hpos) in Hf. apply (endpoint_position t _ _ Hpos) in Hto.
      destruct l as [lf lt], (first_link loaded) as [ff ft]. cbn in Hf, Hto. by subst.
  - destruct Hc as [_ Hn]. by destruct (factory_no_params sv id eq_refl) as [x Hx]; rewrite Hn in Hx.
  - destruct Hc as [Hid (e & He & <-)]. exfalso. unfold t in He. cbn [edges] in He.
    apply list_elem_of_singleton in He as ->. apply Hid. unfold t, first_link. destruct loaded as [buf|]; cbn; [destruct (fb_channels buf =? CHANNELS)|]; cbn; set_solver.
  - destruct Hc as [Hid (e & He & <-)]. exfalso. unfold t in He. cbn [edges] in He.
    apply list_elem_of_singleton in He as ->. apply Hid. unfold t, first_link. destruct loaded as [buf|]; cbn; [destruct (fb_channels buf =? CHANNELS)|]; cbn; set_solver.
  - by eexists.
Qed.

Lemma example_store_reliable (s : engine_store (gmap Z Mutation)) (m : Mutation) :
  schedule s = (fun _ => no_faults) ->
  exists s' id, apply_mutation s m = (s', Ok id) /\ schedule s' = fun _ => no_faults.
Proof. intros Hs. do 2 eexists. cbn. rewrite Hs. cbn. by split. Qed.

Lemma boot_first_graph_witness :
  let buf := {| fb_samples := [F32.one; F32.half]; fb_channels := 2; fb_sample_rate := 48000; fb_looping := true |} in
  exists sv, boot example_store None (Some buf) = Some (sv, Ok tt) /\
    edges (get_topology (sv_store sv)) = [{| e_from := (2, 0); e_to := (1, 0) |}].
Proof.
  intros buf.
  destruct (boot_first_graph (M := flat_math) (G := list_graph server_node) (fun s => schedule s = fun _ => no_faults)
    example_store (Some buf)) as (sv & E & Ht & _).
  - exact example_store_reliable.
  - reflexivity.
  - reflexivity.
  - exists sv. split; [exact E|]. by rewrite Ht.
Defined.

(** Later starts.  On a store that already holds nodes, with an unreadable
    or absent preset, the server changes nothing but to append the file's node,
    under an id no node has, unlinked and registered as a file; every other node, every link and
    all registered kinds and parameters stay as they were, and every node of
    the topology can be rendered. *)
Theorem boot_existing_extends `{TopoLaws} {S} `{StoreOps S} `{!StoreLaws S} {M : MathOps}
    (reliable : S -> Prop) (s : S) (preset : option (option Preset)) (loaded : option FileBuffer) :
  (forall s m, reliable s -> exists s' id, apply_mutation s m = (s', Ok id) /\ reliable s') ->
  reliable s -> topo_wf (get_topology s) -> room (get_topology s) -> nodes (get_topology s) <> [] ->
  preset = None \/ preset = Some None ->
  exists sv id, boot s preset loaded = Some (sv, Ok tt) /\ (id ∉ ids (get_topology s)) /\
    get_topology (sv_store sv) =
      {| nodes := nodes (get_topology s) ++ seeded_nodes id loaded; edges := edges (get_topology s) |} /\
    topo_wf (get_topology (sv_store sv)) /\
    sv_kinds sv = match loaded with Some _ => {[id := lit "file"]} | None => ∅ end /\
    (id <> 0 -> id <> 1 -> forall buf, loaded = Some buf -> factory_build sv id = Some (player_node buf)) /\
    forall i, is_Some (factory_build sv i).
Proof.
  intros Hrel Hs Hwf Hroom Hne Hpre.
  destruct (seed_existing reliable Hrel (server_new s) loaded Hs Hroom (proj1 Hwf) Hne) as (s' & id & Hid & E & Ht).
  eexists _, id. split; [destruct Hpre as [-> | ->]; exact E|]. cbn [sv_store sv_kinds sv_files server_new] in Ht |- *.
  split; [done|]. split; [done|]. split; [|split; [by destruct loaded|split; [|intros i; by apply factory_no_params]]].
  - rewrite Ht. destruct loaded as [buf|]; cbn [seeded_nodes].
    + rewrite <- (topo_add_fresh (get_topology s) (file_snapshot id buf)) by done. by apply topo_wf_add.
    + rewrite app_nil_r. by destruct (get_topology s).
  - intros H0' H1' buf ->. unfold factory_build. rewrite (proj2 (Z.eqb_neq id 0)), (proj2 (Z.eqb_neq id 1)) by done.
    cbn [sv_kinds sv_files]. rewrite !lookup_insert_eq. by rewrite bool_decide_true.
Qed.

Lemma boot_existing_extends_witness :
  let s := store (create_node (GraphController_new example_store) (example_spec "a" 2 1)).1 in
  let buf := {| fb_samples := [F32.one]; fb_channels := 1; fb_sample_rate := 44100; fb_looping := true |} in
  exists sv id, boot s (Some None) (Some buf) = Some (sv, Ok tt) /\
    ids (get_topology (sv_store sv)) = [1; id] /\ (id ∉ [1]).
Proof.
  intros s buf.
  destruct (boot_existing_extends (M := flat_math) (fun s => schedule s = fun _ => no_faults) s (Some None) (Some buf))
    as (sv & id & E & Hid & Ht & _).
  - exact example_store_reliable.
  - reflexivity.
  - apply (ci_topo (create_node (GraphController_new example_store) (example_spec "a" 2 1)).1).
    apply create_node_inv; [|constructor].
    apply ctl_new_inv. split; [vm_compute; constructor|]. intros e He. by apply elem_of_nil in He.
  - repeat constructor; vm_compute; congruence.
  - discriminate.
  - by right.
  - exists sv, id. split; [exact E|]. split; [by rewrite Ht|exact Hid].
Defined.

(** ** Saving and restarting *)

(** What an export without the labels says of a node. *)
Definition unlabelled (n : PresetNode) : PresetNode :=
  {| pn_id := pn_id n; pn_label := lit "node-" ++ dec (pn_id n); pn_inputs := pn_inputs n; pn_outputs := pn_outputs n;
     pn_kind := pn_kind n; pn_params := pn_params n |}.

Definition without_labels (p : Preset) : Preset :=
  {| pr_version := pr_version p; pr_nodes := unlabelled <$> pr_nodes p; pr_links := pr_links p |}.

Lemma export_new_controller `{TopoOps} {S} `{StoreOps S} (c : GraphController S) :
  export_preset (GraphController_new_with_registries (store c) (kinds c) (params c)) = without_labels (export_preset c).
Proof.
  unfold without_labels, export_preset. cbn [pr_version pr_nodes pr_links]. f_equal.
  unfold list_nodes. rewrite <- !list_fmap_compose. apply list_fmap_ext. intros i n _.
  unfold compose. cbn [ni_label ni_id store labels kinds params GraphController_new_with_registries unlabelled pn_id].
  by rewrite lookup_empty.
Qed.

Lemma unlabelled_twice p : without_labels (without_labels p) = without_labels p.
Proof.
  unfold without_labels. cbn [pr_nodes]. f_equal. rewrite <- list_fmap_compose. by apply list_fmap_ext.
Qed.

(** What survives a restart.  The saving thread has a controller of its own,
    so what it saves is the running graph with every label replaced by the
    default one; a new process that restores it on any well-formed store that
    accepts writes has the same ids, port counts, kinds, parameters and links, so
    that saving again gives the same preset, but every port is restored with a
    single channel, the bridge's stereo ports included. *)
Theorem restart_restores_unlabelled `{TopoLaws} {S} `{StoreOps S} `{!StoreLaws S}
    (reliable : S -> Prop) (c : GraphController S) (s2 : S) :
  (forall s m, reliable s -> exists s' id, apply_mutation s m = (s', Ok id) /\ reliable s') ->
  NoDup (ids (get_topology (store c))) -> reliable s2 -> topo_wf (get_topology s2) ->
  let saved := export_preset (GraphController_new_with_registries (store c) (kinds c) (params c)) in
  let sv := restore_preset (server_new s2) (Some (Some saved)) in
  saved = without_labels (export_preset c) /\
  export_preset (GraphController_new_with_registries (sv_store sv) (sv_kinds sv) (sv_params sv)) = saved /\
  Forall (fun n => Forall (fun p => pm_channels p = 1) (ns_inputs n ++ ns_outputs n)) (nodes (get_topology (sv_store sv))).
Proof.
  intros Hrel Hnd Hs Hwf. cbv zeta. set (ca := GraphController_new_with_registries (store c) (kinds c) (params c)).
  split; [apply export_new_controller|].
  set (c2 := GraphController_new_with_registries s2 ∅ ∅).
  destruct (import_preset_topo reliable Hrel c2 (export_preset ca)) as (c' & E & He & Ht).
  - by apply ctl_new_inv.
  - done.
  - by apply (export_preset_ok ca).
  - assert (Hr : restore_preset (server_new s2) (Some (Some (export_preset ca))) =
      {| sv_store := store c'; sv_kinds := kinds c'; sv_params := params c'; sv_files := ∅ |}).
    { unfold restore_preset, server_new. cbn [sv_store sv_kinds sv_params sv_files]. fold c2. by rewrite E. }
    rewrite Hr. cbn [sv_store sv_kinds sv_params]. split.
    + rewrite export_new_controller, He. unfold ca. by rewrite export_new_controller, unlabelled_twice.
    + rewrite Ht. cbn [nodes]. apply Forall_fmap, Forall_true. intros n. unfold compose, preset_snapshot, build_ports.
      cbn [ns_inputs ns_outputs]. apply Forall_app. split; by apply Forall_replicate.
Qed.

Lemma restart_restores_unlabelled_witness :
  let c := (create_node (GraphController_new example_store) (example_spec "lead" 1 1)).1 in
  let saved := export_preset (GraphController_new_with_registries (store c) (kinds c) (params c)) in
  (ni_label <$> list_nodes c) = [lit "lead"] /\ (pn_label <$> pr_nodes saved) = [lit "node-1"] /\
  saved = without_labels (export_preset c).
Proof.
  intros c saved. split; [vm_compute; reflexivity|]. split; [vm_compute; reflexivity|].
  apply (restart_restores_unlabelled (fun s => schedule s = fun _ => no_faults) c example_store).
  - exact example_store_reliable.
  - apply (bool_decide_eq_true_1 _). vm_compute. reflexivity.
  - reflexivity.
  - split; [vm_compute; constructor|]. intros e He. by apply elem_of_nil in He.
Defined.

Section autosave_facts.
Context {T : Type} `{EqDecision T} (to_string_pretty : Preset -> option T) (existing : option T).
Implicit Types (a : Autosave (T := T)) (evs : list (autosave_event (T := T))).

(** The presets the thread has been handed. *)
Definition offered evs : list Preset := evs ≫= fun ev => match ev with Wake p => [p] | _ => [] end.

(** The text is a complete encoding of a preset that was offered. *)
Definition complete evs (json : T) : Prop := exists p, p ∈ offered evs /\ to_string_pretty p = Some json.

Record saved_ok evs a : Prop := {
  so_preset : preset_file a = existing \/ exists json, preset_file a = Some json /\ complete evs json;
  so_last : forall json, last_written a = Some json -> preset_file a = Some json;
  so_writing : forall json, as_pc a = Writing json -> complete evs json;
  so_renaming : forall json, as_pc a = Renaming json -> tmp_file a = Some json /\ complete evs json
}.

Lemma complete_more evs ev json : complete evs json -> complete (evs ++ [ev]) json.
Proof. intros (p & Hp & E). exists p. split; [|done]. unfold offered. rewrite bind_app. apply elem_of_app. by left. Qed.

Lemma saved_ok_more evs ev a : saved_ok evs a -> saved_ok (evs ++ [ev]) a.
Proof.
  intros [H1 H2 H3 H4]. split; [|done| |].
  - destruct H1 as [?|(j & ? & ?)]; [by left|right]. exists j. split; [done|by apply complete_more].
  - intros j Hj. apply complete_more. by apply H3.
  - intros j Hj. destruct (H4 j Hj). split; [done|by apply complete_more].
Qed.

Lemma autosave_step_ok evs a ev : saved_ok evs a -> saved_ok (evs ++ [ev]) (autosave_step to_string_pretty a ev).
Proof.
  intros Ha. pose proof (saved_ok_more evs ev a Ha) as Hm. destruct Hm as [H1 H2 H3 H4].
  unfold autosave_step. destruct ev as [p| |lo| | |lo], (as_pc a) as [|j|j] eqn:Epc; try (by split; rewrite ?Epc).
  - destruct (to_string_pretty p) as [json|] eqn:Ep; [|by split; rewrite ?Epc].
    destruct (decide (last_written a = Some json)); [by split; rewrite ?Epc|].
    split; cbn [last_written as_pc tmp_file preset_file]; try done. intros j [= <-]. exists p. split; [|done].
    unfold offered. rewrite bind_app. apply elem_of_app. right. by left.
  - split; cbn [last_written as_pc tmp_file preset_file]; try done. intros j' [= <-]. split; [done|]. by apply H3.
  - destruct (H4 j eq_refl) as [Ht Hc]. split; cbn [last_written as_pc tmp_file preset_file]; try done.
    + right. by exists j.
    + by intros j' [= <-].
Qed.

Lemma autosave_run_ok evs : saved_ok evs (autosave_run to_string_pretty (autosave_start existing) evs).
Proof.
  induction evs as [|ev evs IH] using rev_ind.
  - split; try done. by left.
  - unfold autosave_run in * . rewrite foldl_app. by apply autosave_step_ok.
Qed.

(** C37: the preset file is never half written.  Whatever writes and renames
    fail and wherever the process is killed, the file is the one the process
    found or the complete encoding of a graph that was current when the thread
    woke; and when the thread goes back to sleep after an undisturbed turn, the
    file holds the graph it woke with, whether it wrote it or skipped the write. *)
Theorem autosave_never_torn evs :
  let a := autosave_run to_string_pretty (autosave_start existing) evs in
  (preset_file a = existing \/ exists p json, p ∈ offered evs /\ to_string_pretty p = Some json /\ preset_file a = Some json) /\
  (as_pc a = Asleep -> forall p json, to_string_pretty p = Some json ->
     let woken := autosave_step to_string_pretty a (Wake p) in
     let done := match as_pc woken with Asleep => woken | _ => autosave_run to_string_pretty woken [WriteOk; RenameOk] end in
     as_pc done = Asleep /\ preset_file done = Some json).
Proof.
  cbv zeta. pose proof (autosave_run_ok evs) as [H1 H2 H3 H4].
  set (a := autosave_run to_string_pretty (autosave_start existing) evs) in *. split.
  - destruct H1 as [?|(j & Hj & p & Hp & E)]; [by left|right]. by exists p, j.
  - intros Hpc p json E. unfold autosave_step at 1. rewrite Hpc, E.
    destruct (decide (last_written a = Some json)) as [Hl|Hl].
    + unfold autosave_step. rewrite Hpc, E, decide_True by done. rewrite Hpc. split; [done|by apply H2].
    + unfold autosave_step. rewrite Hpc, E, decide_False by done. by cbn.
Qed.
End autosave_facts.

(** A write fails half way, then the same graph is saved. *)
Lemma autosave_never_torn_witness :
  let p := {| pr_version := 1; pr_nodes := []; pr_links := [] |} in
  let enc := fun p : Preset => Some (length (pr_nodes p) :: [7%nat]) in
  let a := autosave_run enc (autosave_start None) [Wake p; WriteFailed (Some [0%nat])] in
  preset_file a = None /\ preset_file (autosave_run enc (autosave_step enc a (Wake p)) [WriteOk; RenameOk]) = Some [0%nat; 7%nat].
Proof.
  intros p enc a. split; [reflexivity|].
  exact (proj2 (proj2 (autosave_never_torn enc None [Wake p; WriteFailed (Some [0%nat])]) eq_refl p [0%nat; 7%nat] eq_refl)).
Defined.
