(* ===== verification/Netmap.v ===== *)
(** * The netmap transport

    [crates/net-rtp-aes67/src/transport/netmap_layout.rs] and
    [netmap_backend.rs]: the C layout of the structures shared with the kernel,
    opening a port, staging and taking packets in the first transmit and
    receive ring, and the RTP methods on top.  The region shared with the kernel is its
    bytes; a read or write outside it is [None].  The operating system's
    answers are arguments: what the sync calls leave in the region, and the
    outcomes of opening, registering and mapping. *)

From Stdlib Require Import String.
From S2P Require Import Prelude F32 RString RtpCodec RtpTransport.
Local Open Scope Z_scope.

(** ** Layout of C structures *)

(** A field's name, size and alignment. *)
Abbreviation fields := (list (String.string * Z * Z)).

Definition align_up (a x : Z) : Z := (x + a - 1) / a * a.

(** Offsets of the fields in order, and the first free offset after them. *)
Fixpoint layout (off : Z) (fs : fields) : list (String.string * Z) * Z :=
  match fs with
  | [] => ([], off)
  | (name, size, align) :: fs =>
      let at_ := align_up align off in
      let '(l, e) := layout (at_ + size) fs in ((name, at_) :: l, e)
  end.

Definition align_of (fs : fields) : Z := foldr (fun f a => Z.max f.2 a) 1 fs.
Definition size_of (fs : fields) : Z := align_up (align_of fs) (layout 0 fs).2.
Fixpoint find_field (l : list (String.string * Z)) (name : String.string) : Z :=
  match l with
  | [] => 0
  | (n, o) :: l => if String.eqb n name then o else find_field l name
  end.
Definition offset_of (fs : fields) (name : String.string) : Z := find_field (layout 0 fs).1 name.

Definition IFNAMSIZ : Z := 16.
Definition NETMAP_API : Z := 14.

Definition NetmapSlot : fields := [("buf_idx", 4, 4); ("len", 2, 2); ("flags", 2, 2); ("ptr", 8, 8)]%string.

Definition Nmreq_fields : fields :=
  [("nr_name", IFNAMSIZ, 1); ("nr_version", 4, 4); ("nr_offset", 4, 4); ("nr_memsize", 4, 4); ("nr_tx_slots", 4, 4);
   ("nr_rx_slots", 4, 4); ("nr_tx_rings", 2, 2); ("nr_rx_rings", 2, 2); ("nr_ringid", 2, 2); ("nr_cmd", 2, 2);
   ("nr_arg1", 2, 2); ("nr_arg2", 2, 2); ("nr_arg3", 4, 4); ("nr_flags", 4, 4); ("nr_spare2", 4, 4)]%string.

Definition NetmapIf : fields :=
  [("ni_name", IFNAMSIZ, 1); ("ni_version", 4, 4); ("ni_flags", 4, 4); ("ni_tx_rings", 4, 4); ("ni_rx_rings", 4, 4);
   ("ni_bufs_head", 4, 4); ("ni_host_tx_rings", 4, 4); ("ni_host_rx_rings", 4, 4); ("ni_spare1", 12, 4)]%string.

Definition NETMAP_IF_RING_OFS_OFFSET : Z := 56.

(** The sum is a [u32], wrapping as in a release build. *)
Definition rx_ring0_index (ni_tx_rings ni_host_tx_rings : Z) : Z := wrap 32 (ni_tx_rings + ni_host_tx_rings).

Definition NetmapTimeval : fields := [("tv_sec", 8, 8); ("tv_usec", 8, 8)]%string.

Definition NetmapRingHeader : fields :=
  [("buf_ofs", 8, 8); ("num_slots", 4, 4); ("nr_buf_size", 4, 4); ("ringid", 2, 2); ("dir", 2, 2); ("head", 4, 4);
   ("cur", 4, 4); ("tail", 4, 4); ("flags", 4, 4); ("ts", 16, 8); ("offset_mask", 8, 8); ("buf_align", 8, 8);
   ("_pad_to_cache_align", 56, 1); ("sem", 128, 1)]%string.

Definition NETMAP_RING_HEADER_SIZE : Z := size_of NetmapRingHeader.

Definition iowr (group num len : Z) : Z :=
  Z.lor (Z.lor (Z.lor 0xC0000000 (Z.shiftl (Z.land len 0x1FFF) 16)) (Z.shiftl group 8)) num.
Definition ioc_void (group num : Z) : Z := Z.lor (Z.lor 0x20000000 (Z.shiftl group 8)) num.

Definition NIOCGINFO : Z := iowr 105 145 (size_of Nmreq_fields).
Definition NIOCREGIF : Z := iowr 105 146 (size_of Nmreq_fields).
Definition NIOCTXSYNC : Z := ioc_void 105 148.
Definition NIOCRXSYNC : Z := ioc_void 105 149.

(** The derived numbers are the ones the kernel's headers give. *)
Lemma layout_numbers :
  size_of NetmapSlot = 16 /\ size_of Nmreq_fields = 60 /\ size_of NetmapIf = NETMAP_IF_RING_OFS_OFFSET /\
  size_of NetmapTimeval = 16 /\ NETMAP_RING_HEADER_SIZE = 256 /\
  (layout 0 NetmapRingHeader).1 =
    [("buf_ofs", 0); ("num_slots", 8); ("nr_buf_size", 12); ("ringid", 16); ("dir", 18); ("head", 20); ("cur", 24);
     ("tail", 28); ("flags", 32); ("ts", 40); ("offset_mask", 56); ("buf_align", 64); ("_pad_to_cache_align", 72);
     ("sem", 128)]%string /\
  NIOCGINFO = 0xC03C6991 /\ NIOCREGIF = 0xC03C6992 /\ NIOCTXSYNC = 0x20006994 /\ NIOCRXSYNC = 0x20006995.
Proof. vm_compute. done. Qed.

(** ** The shared region *)

Definition load (m : bytes) (a : Z) (n : nat) : option bytes :=
  if (0 <=? a) && (a + Z.of_nat n <=? Z.of_nat (length m)) then Some (take n (drop (Z.to_nat a) m)) else None.
Definition store (m : bytes) (a : Z) (bs : bytes) : option bytes :=
  if (0 <=? a) && (a + Z.of_nat (length bs) <=? Z.of_nat (length m))
  then Some (take (Z.to_nat a) m ++ bs ++ drop (Z.to_nat a + length bs) m) else None.
Definition load_uint (n : nat) (m : bytes) (a : Z) : option Z := of_le <$> load m a n.
Definition store_uint (n : nat) (m : bytes) (a v : Z) : option bytes := store m a (le_bytes n v).

(** ** Rings *)

Inductive netmap_error : Type :=
| NotOpen
| NameTooLong
| OsFailed (call : String.string) (code : Z)
| ZeroRegion
| NoRingPair (tx rx : Z)
| BadRingOffset (index ofs : Z)
| BadGeometry (num_slots buf_size buf_ofs : Z)
| TooLongForSlot (len : nat)
| TooLongForBuffer (len : nat) (buf_size : Z)
| RingFull
| StagedShort (staged len : nat)
| CorruptRing (field : String.string) (value num_slots : Z)
| NoPacket
| NotAnIpSocket
| Protocol (e : TransportError).

Record Ring : Type := { hdr : Z; num_slots : Z; buf_size : Z; buf_ofs : Z }.

Definition ring_field (r : Ring) (name : String.string) : Z := hdr r + offset_of NetmapRingHeader name.

(** [Ring::from_hdr]; [buf_ofs] is signed. *)
Definition Ring_from_hdr (m : bytes) (hdr : Z) : option (result Ring netmap_error) :=
  num_slots ← load_uint 4 m (hdr + offset_of NetmapRingHeader "num_slots");
  buf_size ← load_uint 4 m (hdr + offset_of NetmapRingHeader "nr_buf_size");
  buf_ofs ← load_uint 8 m (hdr + offset_of NetmapRingHeader "buf_ofs");
  let buf_ofs := to_signed 64 buf_ofs in
  Some (if (num_slots =? 0) || (buf_size =? 0) || (buf_ofs <? 0)
        then Err (BadGeometry num_slots buf_size buf_ofs)
        else Ok {| hdr := hdr; num_slots := num_slots; buf_size := buf_size; buf_ofs := buf_ofs |}).

Definition ring_head (m : bytes) (r : Ring) : option Z := load_uint 4 m (ring_field r "head").
Definition ring_cur (m : bytes) (r : Ring) : option Z := load_uint 4 m (ring_field r "cur").
Definition ring_tail (m : bytes) (r : Ring) : option Z := load_uint 4 m (ring_field r "tail").
Definition set_head (m : bytes) (r : Ring) (v : Z) : option bytes := store_uint 4 m (ring_field r "head") v.
Definition set_cur (m : bytes) (r : Ring) (v : Z) : option bytes := store_uint 4 m (ring_field r "cur") v.

Definition debug_state (m : bytes) (r : Ring) : option (Z * Z * Z * Z * Z * Z) :=
  ringid ← load_uint 2 m (ring_field r "ringid");
  dir ← load_uint 2 m (ring_field r "dir");
  head ← ring_head m r;
  cur ← ring_cur m r;
  tail ← ring_tail m r;
  Some (ringid, dir, head, cur, tail, num_slots r).

Definition slots_free (m : bytes) (r : Ring) : option Z :=
  let n := num_slots r in
  if n =? 0 then Some 0
  else
    head ← ring_head m r;
    tail ← ring_tail m r;
    let inflight := wrap 32 (head - tail) mod n in
    Some (n - inflight).

Definition slot (r : Ring) (i : Z) : Z := hdr r + NETMAP_RING_HEADER_SIZE + i * size_of NetmapSlot.
Definition buffer (r : Ring) (idx : Z) : Z := hdr r + (buf_ofs r + idx * buf_size r).

(** ** The transport *)

Record Inner : Type := { region : bytes; tx : Ring; rx : Ring }.

Record NetmapTransport : Type := {
  ifname : bytes; inner : option Inner; memid : Z; nm_seq : Z; nm_timestamp : Z; nm_ssrc : Z; nm_channels : Z
}.

Definition NetmapTransport_new (nanos : option Z) : NetmapTransport :=
  {| ifname := []; inner := None; memid := 0; nm_seq := 0; nm_timestamp := 0; nm_ssrc := system_ssrc nanos;
     nm_channels := 2 |}.

Definition with_region (t : NetmapTransport) (i : Inner) (m : bytes) : NetmapTransport :=
  {| ifname := ifname t; inner := Some {| region := m; tx := tx i; rx := rx i |}; memid := memid t; nm_seq := nm_seq t;
     nm_timestamp := nm_timestamp t; nm_ssrc := nm_ssrc t; nm_channels := nm_channels t |}.

(** [send_raw] on the region: the staged length or an error. *)
Definition stage_packet (m : bytes) (r : Ring) (packet : bytes) : option (bytes * result nat netmap_error) :=
  if 65535 <? Z.of_nat (length packet) then Some (m, Err (TooLongForSlot (length packet)))
  else if buf_size r <? Z.of_nat (length packet) then Some (m, Err (TooLongForBuffer (length packet) (buf_size r)))
  else
    free ← slots_free m r;
    if free =? 0 then Some (m, Err RingFull)
    else
      head ← ring_head m r;
      if num_slots r <=? head then Some (m, Err (CorruptRing "tx.head" head (num_slots r)))
      else
        buf_idx ← load_uint 4 m (slot r head + offset_of NetmapSlot "buf_idx");
        m ← store m (buffer r buf_idx) packet;
        m ← store_uint 2 m (slot r head + offset_of NetmapSlot "len") (Z.of_nat (length packet));
        m ← set_head m r ((head + 1) mod num_slots r);
        m ← set_cur m r ((head + 1) mod num_slots r);
        Some (m, Ok (length packet)).

Definition send_raw (t : NetmapTransport) (packet : bytes) : option (NetmapTransport * result nat netmap_error) :=
  match inner t with
  | None => Some (t, Err NotOpen)
  | Some i => '(m, r) ← stage_packet (region i) (tx i) packet; Some (with_region t i m, r)
  end.

(** A sync call: the kernel's answer is the region it leaves, or an error. *)
Definition sync_ioctl (t : NetmapTransport) (name : String.string) (kernel : bytes -> result bytes Z)
    : NetmapTransport * result unit netmap_error :=
  match inner t with
  | None => (t, Err NotOpen)
  | Some i =>
      match kernel (region i) with
      | Ok m => (with_region t i m, Ok tt)
      | Err code => (t, Err (OsFailed name code))
      end
  end.
Definition txsync t kernel := sync_ioctl t "NIOCTXSYNC" kernel.
Definition rxsync t kernel := sync_ioctl t "NIOCRXSYNC" kernel.

(** [recv_raw] on the region, with room for [cap] bytes. *)
Definition take_packet (m : bytes) (r : Ring) (cap : nat) : option (bytes * result bytes netmap_error) :=
  cur ← ring_cur m r;
  if num_slots r <=? cur then Some (m, Err (CorruptRing "rx.cur" cur (num_slots r)))
  else
    tail ← ring_tail m r;
    if cur =? tail then Some (m, Ok [])
    else
      len ← load_uint 2 m (slot r cur + offset_of NetmapSlot "len");
      buf_idx ← load_uint 4 m (slot r cur + offset_of NetmapSlot "buf_idx");
      let n := Nat.min (Nat.min (Z.to_nat len) cap) (Z.to_nat (buf_size r)) in
      data ← load m (buffer r buf_idx) n;
      let next := (cur + 1) mod num_slots r in
      m ← set_cur m r next;
      m ← set_head m r next;
      Some (m, Ok data).

Definition recv_raw (t : NetmapTransport) (cap : nat) : option (NetmapTransport * result bytes netmap_error) :=
  match inner t with
  | None => Some (t, Err NotOpen)
  | Some i => '(m, r) ← take_packet (region i) (rx i) cap; Some (with_region t i m, r)
  end.

Definition prime_rx (t : NetmapTransport) (kernel : bytes -> result bytes Z) : option (NetmapTransport * result unit netmap_error) :=
  match inner t with
  | None => Some (t, Err NotOpen)
  | Some i =>
      tail ← ring_tail (region i) (rx i);
      m ← set_head (region i) (rx i) tail;
      m ← set_cur m (rx i) tail;
      Some (rxsync (with_region t i m) kernel)
  end.

Definition tx_debug_state (t : NetmapTransport) : option (option (Z * Z * Z * Z * Z * Z)) :=
  match inner t with None => Some None | Some i => Some <$> debug_state (region i) (tx i) end.
Definition rx_debug_state (t : NetmapTransport) : option (option (Z * Z * Z * Z * Z * Z)) :=
  match inner t with None => Some None | Some i => Some <$> debug_state (region i) (rx i) end.
Definition tx_ring_slots_free (t : NetmapTransport) : option Z :=
  match inner t with None => Some 0 | Some i => slots_free (region i) (tx i) end.
Definition tx_num_slots (t : NetmapTransport) : Z := match inner t with None => 0 | Some i => num_slots (tx i) end.
Definition tx_buf_size (t : NetmapTransport) : Z := match inner t with None => 0 | Some i => buf_size (tx i) end.

(** ** RTP on the rings *)

Definition advance_clock (t : NetmapTransport) (len : nat) (codec : Codec) : NetmapTransport :=
  {| ifname := ifname t; inner := inner t; memid := memid t; nm_seq := wrap 16 (nm_seq t + 1);
     nm_timestamp := wrap 32 (nm_timestamp t + timestamp_advance len codec (nm_channels t));
     nm_ssrc := nm_ssrc t; nm_channels := nm_channels t |}.

(** The clock moves before the packet is staged; the sync follows each packet. *)
Definition netmap_send_rtp (t : NetmapTransport) (body : bytes) (codec : Codec) (kernel : bytes -> result bytes Z)
    : option (NetmapTransport * result unit netmap_error) :=
  let pt := codec_to_payload_type codec (nm_channels t) in
  let h := RtpHeader_new pt (nm_seq t) (nm_timestamp t) (nm_ssrc t) in
  let t := advance_clock t (length body) codec in
  let packet := RtpPacket_encode {| header := h; payload := body |} in
  '(t, staged) ← send_raw t packet;
  Some match staged with
       | Err e => (t, Err e)
       | Ok n => if (n <? length packet)%nat then (t, Err (StagedShort n (length packet))) else txsync t kernel
       end.

Definition netmap_recv_rtp (t : NetmapTransport) (kernel : bytes -> result bytes Z)
    : option (NetmapTransport * result bytes netmap_error) :=
  match rxsync t kernel with
  | (t, Err e) => Some (t, Err e)
  | (t, Ok _) =>
      '(t, got) ← recv_raw t (Z.to_nat 65535);
      Some (t, let? data := got in
               match data with
               | [] => Err NoPacket
               | _ => let? packet := map_err Protocol (RtpPacket_parse data) in Ok (payload packet)
               end)
  end.

Definition netmap_join_multicast (t : NetmapTransport) : result unit netmap_error := Err NotAnIpSocket.

(** ** Opening and closing *)

Record Nmreq : Type := {
  nr_name : bytes; nr_version : Z; nr_offset : Z; nr_memsize : Z; nr_ringid : Z; nr_arg2 : Z; nr_flags : Z
}.

(** The calls made, in order. *)
Inductive os_call : Type := OpenDevice | Ioctl (cmd : Z) | Mmap (len : Z) | Munmap (len : Z) | CloseDevice.

(** The operating system's answers; a successful [mmap] gives the region. *)
Record os_answers : Type := {
  os_open : result unit Z; os_regif : Nmreq -> result Nmreq Z; os_mmap : Z -> result bytes Z; os_munmap : result unit Z
}.

Definition read_ring_ofs (m : bytes) (if_offset index : Z) : option (result Z netmap_error) :=
  ofs ← load_uint 8 m (if_offset + NETMAP_IF_RING_OFS_OFFSET + index * 8);
  let ofs := to_signed 64 ofs in
  Some (if ofs <=? 0 then Err (BadRingOffset index ofs) else Ok ofs).

Definition obind {A B E} (x : option (result A E)) (k : A -> option (result B E)) : option (result B E) :=
  r ← x; match r with Ok a => k a | Err e => Some (Err e) end.

(** The closure that finds the rings in the mapped region. *)
Definition find_rings (m : bytes) (offset : Z) : option (result Inner netmap_error) :=
  ni_tx_rings ← load_uint 4 m (offset + offset_of NetmapIf "ni_tx_rings");
  ni_host_tx_rings ← load_uint 4 m (offset + offset_of NetmapIf "ni_host_tx_rings");
  ni_rx_rings ← load_uint 4 m (offset + offset_of NetmapIf "ni_rx_rings");
  if (ni_tx_rings =? 0) || (ni_rx_rings =? 0) then Some (Err (NoRingPair ni_tx_rings ni_rx_rings))
  else
    obind (read_ring_ofs m offset 0) (fun tx_ofs =>
    obind (read_ring_ofs m offset (rx_ring0_index ni_tx_rings ni_host_tx_rings)) (fun rx_ofs =>
    if (tx_ofs <=? 0) || (rx_ofs <=? 0) then Some (Err (BadRingOffset 0 tx_ofs))
    else
      obind (Ring_from_hdr m (offset + tx_ofs)) (fun tx =>
      obind (Ring_from_hdr m (offset + rx_ofs)) (fun rx =>
      Some (Ok {| region := m; tx := tx; rx := rx |}))))).

(** [open_with_memid]: the calls made and the transport, an error, or [None] for
    a read outside the mapping. *)
Definition open_with_memid (os : os_answers) (name : bytes) (pin : option Z) (nanos : option Z)
    : option (list os_call * result NetmapTransport netmap_error) :=
  if IFNAMSIZ <=? Z.of_nat (length name) then Some ([], Err NameTooLong)
  else
    match os_open os with
    | Err code => Some ([OpenDevice], Err (OsFailed "open" code))
    | Ok _ =>
        let req := {| nr_name := name ++ replicate (16 - length name) 0; nr_version := NETMAP_API; nr_offset := 0;
                      nr_memsize := 0; nr_ringid := 0; nr_arg2 := default 0 pin; nr_flags := 0 |} in
        match os_regif os req with
        | Err code => Some ([OpenDevice; Ioctl NIOCREGIF; CloseDevice], Err (OsFailed "NIOCREGIF" code))
        | Ok req =>
            let map_len := nr_memsize req in
            if map_len =? 0 then Some ([OpenDevice; Ioctl NIOCREGIF; CloseDevice], Err ZeroRegion)
            else
              match os_mmap os map_len with
              | Err code => Some ([OpenDevice; Ioctl NIOCREGIF; Mmap map_len; CloseDevice], Err (OsFailed "mmap" code))
              | Ok m =>
                  found ← find_rings m (nr_offset req);
                  Some match found with
                  | Ok inner =>
                      ([OpenDevice; Ioctl NIOCREGIF; Mmap map_len],
                       Ok {| ifname := name; inner := Some inner; memid := nr_arg2 req; nm_seq := 0; nm_timestamp := 0;
                             nm_ssrc := system_ssrc nanos; nm_channels := 2 |})
                  | Err e => ([OpenDevice; Ioctl NIOCREGIF; Mmap map_len; CloseDevice; Munmap map_len], Err e)
                  end
              end
        end
    end.

Definition netmap_open os name nanos := open_with_memid os name None nanos.

(** [teardown]: unmap once, then the device closes with the inner value. *)
Definition teardown (os : os_answers) (t : NetmapTransport) : list os_call * NetmapTransport * result unit netmap_error :=
  let detached := {| ifname := ifname t; inner := None; memid := memid t; nm_seq := nm_seq t;
                     nm_timestamp := nm_timestamp t; nm_ssrc := nm_ssrc t; nm_channels := nm_channels t |} in
  match inner t with
  | None => ([], detached, Ok tt)
  | Some i =>
      ([Munmap (Z.of_nat (length (region i))); CloseDevice], detached,
       map_err (OsFailed "munmap") (os_munmap os))
  end.

(** [close] tears down, then the value is dropped, which tears down again. *)
Definition netmap_close (os : os_answers) (t : NetmapTransport) : list os_call * result unit netmap_error :=
  let '(calls, t, r) := teardown os t in
  let '(calls', _, _) := teardown os t in (calls ++ calls', r).

(** ** Memory lemmas *)

Lemma load_some m a n bs : load m a n = Some bs <->
  0 <= a /\ a + Z.of_nat n <= Z.of_nat (length m) /\ bs = take n (drop (Z.to_nat a) m).
Proof.
  unfold load. destruct (Z.leb_spec 0 a); cbn [andb]; [|by split; [|lia]].
  destruct (Z.leb_spec (a + Z.of_nat n) (Z.of_nat (length m))); [|by split; [|lia]].
  split; [by intros [= <-]|]. by intros (_ & _ & ->).
Qed.

Lemma load_in m a n : 0 <= a -> a + Z.of_nat n <= Z.of_nat (length m) -> exists bs, load m a n = Some bs /\ length bs = n.
Proof.
  intros Ha Hn. eexists. split; [by apply load_some|]. rewrite length_take, length_drop. lia.
Qed.

Lemma store_in m a bs : 0 <= a -> a + Z.of_nat (length bs) <= Z.of_nat (length m) ->
  exists m', store m a bs = Some m' /\ length m' = length m /\
    load m' a (length bs) = Some bs /\
    forall b n, b + Z.of_nat n <= a \/ a + Z.of_nat (length bs) <= b -> load m' b n = load m b n.
Proof.
  intros Ha Hn. unfold store. rewrite (proj2 (Z.leb_le _ _)), (proj2 (Z.leb_le _ _)) by lia. cbn [andb].
  eexists. split; [done|].
  assert (Hlen : length (take (Z.to_nat a) m ++ bs ++ drop (Z.to_nat a + length bs) m) = length m)
    by (rewrite !length_app, length_take, length_drop; lia).
  split; [done|]. split.
  - apply load_some. split; [done|]. rewrite Hlen. split; [done|].
    rewrite drop_app_length' by (rewrite length_take; lia). by rewrite take_app_length.
  - intros b n Hd. unfold load. rewrite Hlen.
    destruct (Z.leb_spec 0 b); cbn [andb]; [|done].
    destruct (Z.leb_spec (b + Z.of_nat n) (Z.of_nat (length m))); [|done]. f_equal.
    apply list_eq. intros i. destruct (Nat.lt_ge_cases i n) as [Hi|Hi]; [|by rewrite !lookup_take_ge].
    rewrite !lookup_take_lt, !lookup_drop by done. destruct Hd as [Hd|Hd].
    + rewrite lookup_app_l by (rewrite length_take; lia). by rewrite lookup_take_lt by lia.
    + rewrite lookup_app_r by (rewrite length_take; lia).
      rewrite lookup_app_r by (rewrite length_take; lia). rewrite lookup_drop, length_take. f_equal. lia.
Qed.

Lemma load_uint_store m a n v m' :
  store_uint n m a v = Some m' -> 0 <= v < 256 ^ Z.of_nat n -> load_uint n m' a = Some v.
Proof.
  unfold store_uint, load_uint. intros Hs Hv.
  destruct (Z.leb_spec 0 a) as [Ha|Ha].
  2: { unfold store in Hs. by rewrite (proj2 (Z.leb_gt 0 a)) in Hs by lia. }
  destruct (Z.leb_spec (a + Z.of_nat n) (Z.of_nat (length m))) as [Hn|Hn].
  2: { unfold store in Hs. rewrite length_le_bytes, (proj2 (Z.leb_le 0 a)), (proj2 (Z.leb_gt _ _)) in Hs by lia. done. }
  destruct (store_in m a (le_bytes n v)) as (m2 & E & _ & Hl & _); [done|by rewrite length_le_bytes|].
  rewrite Hs in E. injection E as <-. rewrite length_le_bytes in Hl. rewrite Hl. cbn. f_equal. by apply of_le_le_bytes_id.
Qed.

Lemma load_uint_in n m a : byte_list m -> 0 <= a -> a + Z.of_nat n <= Z.of_nat (length m) ->
  exists v, load_uint n m a = Some v /\ 0 <= v < 256 ^ Z.of_nat n.
Proof.
  intros Hm Ha Hn. destruct (load_in m a n Ha Hn) as (bs & E & Hl). unfold load_uint. rewrite E. cbn.
  eexists. split; [done|]. rewrite <- Hl. apply of_le_range. apply load_some in E as (_ & _ & ->).
  by apply Forall_take, Forall_drop.
Qed.

(** ** Well-formed rings *)

Definition slots_end (r : Ring) : Z := hdr r + 256 + 16 * num_slots r.

(** The ring's header and slots lie in the region, and the buffers its slots
    name lie in the region behind them and do not overlap. *)
Record ring_ok (m : bytes) (r : Ring) : Prop := {
  ro_hdr : 0 <= hdr r;
  ro_slots : 0 < num_slots r < 2 ^ 32;
  ro_size : 0 < buf_size r < 2 ^ 32;
  ro_end : slots_end r <= Z.of_nat (length m);
  ro_ofs : 256 + 16 * num_slots r <= buf_ofs r;
  ro_bufs : forall i idx, 0 <= i < num_slots r -> load_uint 4 m (slot r i) = Some idx ->
    0 <= idx /\ buffer r idx + buf_size r <= Z.of_nat (length m);
  ro_distinct : forall i j idx, 0 <= i < num_slots r -> 0 <= j < num_slots r ->
    load_uint 4 m (slot r i) = Some idx -> load_uint 4 m (slot r j) = Some idx -> i = j;
  ro_bytes : byte_list m
}.

(** Slot [i] holds the packet [p]. *)
Definition slot_holds (m : bytes) (r : Ring) (i : Z) (p : bytes) : Prop :=
  load_uint 2 m (slot r i + 4) = Some (Z.of_nat (length p)) /\
  exists idx, load_uint 4 m (slot r i) = Some idx /\ load m (buffer r idx) (length p) = Some p.

Lemma slot_addr r i : slot r i = hdr r + 256 + i * 16.
Proof. unfold slot. by replace NETMAP_RING_HEADER_SIZE with 256 by reflexivity; replace (size_of NetmapSlot) with 16 by reflexivity. Qed.
Lemma buffer_addr r idx : buffer r idx = hdr r + buf_ofs r + idx * buf_size r.
Proof. unfold buffer. lia. Qed.
Lemma head_addr r : ring_field r "head" = hdr r + 20.
Proof. done. Qed.
Lemma cur_addr r : ring_field r "cur" = hdr r + 24.
Proof. done. Qed.
Lemma tail_addr r : ring_field r "tail" = hdr r + 28.
Proof. done. Qed.

(** A store that stays off the ring's header and slots keeps what it does not
    touch. *)
Lemma store_bytes_ok m a bs m' : byte_list m -> byte_list bs -> store m a bs = Some m' -> byte_list m'.
Proof.
  intros Hm Hb. unfold store. destruct (_ && _); [|done]. intros [= <-].
  apply Forall_app. split; [by apply Forall_take|]. apply Forall_app. split; [done|by apply Forall_drop].
Qed.

(** Different buffers do not overlap. *)
Lemma buffers_apart r i j : i <> j -> 0 < buf_size r ->
  buffer r i + buf_size r <= buffer r j \/ buffer r j + buf_size r <= buffer r i.
Proof. rewrite !buffer_addr. intros Hne Hs. destruct (Z.lt_ge_cases i j); [left|right]; nia. Qed.

(** A fixed-width store that fits succeeds, can be read back and leaves
    everything apart from it alone. *)
Lemma store_uint_in n m a v : byte_list m -> 0 <= a -> a + Z.of_nat n <= Z.of_nat (length m) -> 0 <= v < 256 ^ Z.of_nat n ->
  exists m', store_uint n m a v = Some m' /\ length m' = length m /\ byte_list m' /\ load_uint n m' a = Some v /\
    forall b k, b + Z.of_nat k <= a \/ a + Z.of_nat n <= b -> load m' b k = load m b k.
Proof.
  intros Hm Ha Hn Hv. destruct (store_in m a (le_bytes n v)) as (m' & E & Hl & _ & Hf); [done|by rewrite length_le_bytes|].
  exists m'. split; [done|]. split; [done|]. split; [|split; [by eapply load_uint_store|by rewrite length_le_bytes in Hf]].
  eapply store_bytes_ok; [done| |done]. apply le_bytes_u8.
Qed.

Lemma load_uint_frame n m m' a : load m' a n = load m a n -> load_uint n m' a = load_uint n m a.
Proof. unfold load_uint. by intros ->. Qed.

(** The slots' descriptors and the cursors of a well-formed ring lie in the
    region. *)
Lemma ring_slot_in m r i n k : ring_ok m r -> 0 <= i < num_slots r -> 0 <= k -> k + Z.of_nat n <= 16 ->
  0 <= slot r i + k /\ slot r i + k + Z.of_nat n <= Z.of_nat (length m).
Proof. intros [] Hi Hk Hn. unfold slots_end in *. rewrite slot_addr. lia. Qed.

Lemma ring_header_in m r k n : ring_ok m r -> 0 <= k -> k + Z.of_nat n <= 256 ->
  0 <= hdr r + k /\ hdr r + k + Z.of_nat n <= Z.of_nat (length m).
Proof. intros [] Hk Hn. unfold slots_end in *. lia. Qed.

Lemma next_in r i : 0 < num_slots r < 2 ^ 32 -> 0 <= (i + 1) mod num_slots r < 256 ^ Z.of_nat 4.
Proof. intros H. pose proof (Z.mod_pos_bound (i + 1) (num_slots r)). change (256 ^ Z.of_nat 4) with (2 ^ 32). lia. Qed.

(** Two 4-byte fields written one after the other. *)
Lemma two_fields_set m a b v : byte_list m -> 0 <= a -> 0 <= b -> a + 4 <= b \/ b + 4 <= a ->
  a + 4 <= Z.of_nat (length m) -> b + 4 <= Z.of_nat (length m) -> 0 <= v < 256 ^ Z.of_nat 4 ->
  exists m1 m', store_uint 4 m a v = Some m1 /\ store_uint 4 m1 b v = Some m' /\ length m' = length m /\ byte_list m' /\
    load_uint 4 m' a = Some v /\ load_uint 4 m' b = Some v /\
    forall x k, x + Z.of_nat k <= a \/ a + 4 <= x -> x + Z.of_nat k <= b \/ b + 4 <= x -> load m' x k = load m x k.
Proof.
  intros Hm Ha Hb Hab Hal Hbl Hv.
  destruct (store_uint_in 4 m a v) as (m1 & E1 & L1 & B1 & V1 & F1); [done..|].
  destruct (store_uint_in 4 m1 b v) as (m' & E2 & L2 & B2 & V2 & F2); [done|done|lia|done|].
  exists m1, m'. split; [done|]. split; [done|]. split; [lia|]. split; [done|].
  split; [|split; [done|intros x k Hxa Hxb; by rewrite F2, F1]].
  rewrite <- V1. apply load_uint_frame, F2. lia.
Qed.

Lemma load_uint_range n m a v : byte_list m -> load_uint n m a = Some v -> 0 <= v < 256 ^ Z.of_nat n.
Proof.
  intros Hm H. unfold load_uint in H. destruct (load m a n) as [bs|] eqn:E; [|done]. injection H as <-.
  apply load_some in E as (H1 & H2 & ->).
  replace (Z.of_nat n) with (Z.of_nat (length (take n (drop (Z.to_nat a) m)))) by (rewrite length_take, length_drop; lia).
  apply of_le_range. by apply Forall_take, Forall_drop.
Qed.

(** The free count of a ring with slots is never zero. *)
Lemma slots_free_some m r : ring_ok m r -> exists f, slots_free m r = Some f /\ 1 <= f <= num_slots r.
Proof.
  intros Hok. pose proof Hok as [R1 R2 R3 R4 R5 R6 R7 R8].
  destruct (load_uint_in 4 m (hdr r + 20) R8) as (h & Hh & _); [apply (ring_header_in m r 20 4 Hok); lia..|].
  destruct (load_uint_in 4 m (hdr r + 28) R8) as (t & Ht & _); [apply (ring_header_in m r 28 4 Hok); lia..|].
  unfold slots_free, ring_head, ring_tail. rewrite (proj2 (Z.eqb_neq _ _)) by lia. rewrite head_addr, tail_addr, Hh, Ht.
  cbn [mbind option_bind]. eexists. split; [done|].
  pose proof (Z.mod_pos_bound (wrap 32 (h - t)) (num_slots r)). lia.
Qed.

(** What staging a packet leaves in the region, in terms of reads. *)
Lemma stage_effect m r h p : ring_ok m r -> byte_list p ->
  Z.of_nat (length p) <= 65535 -> Z.of_nat (length p) <= buf_size r ->
  ring_head m r = Some h -> h < num_slots r ->
  exists idx m', stage_packet m r p = Some (m', Ok (length p)) /\ length m' = length m /\ byte_list m' /\
    0 <= h /\ 0 <= idx /\ load_uint 4 m (slot r h) = Some idx /\ load m' (buffer r idx) (length p) = Some p /\
    load_uint 2 m' (slot r h + 4) = Some (Z.of_nat (length p)) /\
    ring_head m' r = Some ((h + 1) mod num_slots r) /\ ring_cur m' r = Some ((h + 1) mod num_slots r) /\
    forall b k, b + Z.of_nat k <= buffer r idx \/ buffer r idx + Z.of_nat (length p) <= b ->
      b + Z.of_nat k <= slot r h + 4 \/ slot r h + 6 <= b ->
      b + Z.of_nat k <= hdr r + 20 \/ hdr r + 28 <= b -> load m' b k = load m b k.
Proof.
  intros Hok Hp H16 Hbuf Hh Hlt. pose proof Hok as [R1 R2 R3 R4 R5 R6 R7 R8].
  destruct (load_uint_range 4 m _ h R8 Hh) as [H0 _].
  destruct (ring_slot_in m r h 4 0 Hok) as [S1 S2]; [lia..|]. rewrite Z.add_0_r in S1, S2.
  destruct (load_uint_in 4 m (slot r h) R8 S1 S2) as (idx & Hidx & Hir).
  destruct (R6 h idx ltac:(lia) Hidx) as [Hi0 Hib].
  assert (slots_end r <= buffer r idx) as Hapart by (rewrite buffer_addr; unfold slots_end; nia).
  pose proof (slot_addr r h) as Hsa. unfold slots_end in Hapart, R4.
  destruct (slots_free_some m r Hok) as (f & Hf & Hfp).
  destruct (store_in m (buffer r idx) p) as (m1 & E1 & L1 & V1 & F1); [lia..|].
  pose proof (store_bytes_ok _ _ _ _ R8 Hp E1) as B1.
  destruct (store_uint_in 2 m1 (slot r h + 4) (Z.of_nat (length p))) as (m2 & E2 & L2 & B2 & V2 & F2);
    [done|lia|lia|change (256 ^ Z.of_nat 2) with 65536; lia|].
  destruct (two_fields_set m2 (hdr r + 20) (hdr r + 24) ((h + 1) mod num_slots r)) as (m3 & m4 & E3 & E4 & L4 & B4 & V3 & V4 & F4);
    [done|lia..|by apply next_in|].
  exists idx, m4. split.
  { unfold stage_packet. rewrite (proj2 (Z.ltb_ge _ _)), (proj2 (Z.ltb_ge _ _)), Hf by lia. cbn [mbind option_bind].
    rewrite (proj2 (Z.eqb_neq _ _)), Hh by lia. cbn [mbind option_bind]. rewrite (proj2 (Z.leb_gt _ _)) by lia.
    change (offset_of NetmapSlot "buf_idx") with 0. change (offset_of NetmapSlot "len") with 4.
    rewrite Z.add_0_r, Hidx. cbn [mbind option_bind]. rewrite E1. cbn [mbind option_bind]. rewrite E2.
    cbn [mbind option_bind]. unfold set_head, set_cur. rewrite head_addr, cur_addr, E3. cbn [mbind option_bind]. by rewrite E4. }
  split; [lia|]. split; [done|]. split; [done|]. split; [done|]. split; [done|].
  split; [rewrite F4, F2 by lia; done|].
  split; [rewrite <- V2; apply load_uint_frame, F4; lia|].
  split; [done|]. split; [done|].
  intros b k H1 H2 H3. rewrite F4, F2, F1 by lia. done.
Qed.

(** Staging keeps the ring well formed, fills the slot at [head], moves both
    cursors past it, and leaves the kernel's cursor and every other slot alone. *)
Lemma stage_step m r h p : ring_ok m r -> byte_list p ->
  Z.of_nat (length p) <= 65535 -> Z.of_nat (length p) <= buf_size r ->
  ring_head m r = Some h -> h < num_slots r ->
  exists m', stage_packet m r p = Some (m', Ok (length p)) /\ ring_ok m' r /\ slot_holds m' r h p /\
    ring_head m' r = Some ((h + 1) mod num_slots r) /\ ring_cur m' r = Some ((h + 1) mod num_slots r) /\
    ring_tail m' r = ring_tail m r /\
    forall i q, 0 <= i < num_slots r -> i <> h -> Z.of_nat (length q) <= buf_size r -> slot_holds m r i q -> slot_holds m' r i q.
Proof.
  intros Hok Hp H16 Hbuf Hh Hlt. pose proof Hok as [R1 R2 R3 R4 R5 R6 R7 R8].
  destruct (stage_effect m r h p Hok Hp H16 Hbuf Hh Hlt)
    as (idx & m' & E & L & B & H0 & Hi0 & Hidx & Vp & Vl & Vh & Vc & F).
  assert (slots_end r <= buffer r idx) as Hapart by (rewrite buffer_addr; unfold slots_end; nia).
  unfold slots_end in Hapart. pose proof (slot_addr r h) as Hsa.
  assert (Hslot : forall i, 0 <= i < num_slots r -> load_uint 4 m' (slot r i) = load_uint 4 m (slot r i)).
  { intros i Hi. pose proof (slot_addr r i). apply load_uint_frame, F; nia. }
  exists m'. split; [done|]. split; [|split; [|split; [done|split; [done|split]]]].
  - split; [done..|by rewrite L|done| | |done].
    + intros i j Hi. rewrite Hslot, L by done. by apply R6.
    + intros i j k Hi Hj. rewrite !Hslot by done. by apply R7.
  - split; [done|]. exists idx. by rewrite Hslot.
  - unfold ring_tail. rewrite tail_addr. apply load_uint_frame, F; lia.
  - intros i q Hi Hne Hq (Hql & jdx & Hj & Hqb). pose proof (slot_addr r i).
    destruct (R6 i jdx Hi Hj) as [Hj0 Hjb].
    assert (jdx <> idx) as Hji by (intros ->; by apply Hne, (R7 i h idx)).
    assert (slots_end r <= buffer r jdx) as Hja by (rewrite buffer_addr; unfold slots_end; nia).
    unfold slots_end in Hja. pose proof (buffers_apart r jdx idx Hji ltac:(lia)).
    split; [rewrite <- Hql; apply load_uint_frame, F; nia|].
    exists jdx. rewrite Hslot by done. split; [done|]. rewrite <- Hqb. apply F; lia.
Qed.

(** Several packets staged before one sync. *)
Fixpoint stage_all (m : bytes) (r : Ring) (ps : list bytes) : option (bytes * result unit netmap_error) :=
  match ps with
  | [] => Some (m, Ok tt)
  | p :: ps => '(m, s) ← stage_packet m r p; match s with Ok _ => stage_all m r ps | Err e => Some (m, Err e) end
  end.

Definition packet_fits (r : Ring) (p : bytes) : Prop :=
  byte_list p /\ Z.of_nat (length p) <= 65535 /\ Z.of_nat (length p) <= buf_size r.

Lemma mod_succ_in h k n : 0 <= h < n -> 0 <= k -> ((h + 1) mod n + k) mod n = (h + (k + 1)) mod n.
Proof. intros Hh Hk. rewrite Zplus_mod_idemp_l. f_equal. lia. Qed.

(** Slots that are not among the next [k] are untouched, the next [k] hold
    the packets. *)
Lemma stage_all_step ps : forall m r h, ring_ok m r -> Forall (packet_fits r) ps ->
  ring_head m r = Some h -> 0 <= h < num_slots r -> Z.of_nat (length ps) <= num_slots r ->
  exists m', stage_all m r ps = Some (m', Ok tt) /\ ring_ok m' r /\
    ring_head m' r = Some ((h + Z.of_nat (length ps)) mod num_slots r) /\ ring_tail m' r = ring_tail m r /\
    (forall j p, ps !! j = Some p -> slot_holds m' r ((h + Z.of_nat j) mod num_slots r) p) /\
    (forall i q, 0 <= i < num_slots r -> (forall j, (j < length ps)%nat -> i <> (h + Z.of_nat j) mod num_slots r) ->
       Z.of_nat (length q) <= buf_size r -> slot_holds m r i q -> slot_holds m' r i q).
Proof.
  induction ps as [|p ps IH]; intros m r h Hok Hps Hh Hr Hn.
  { exists m. cbn. rewrite Z.add_0_r, Z.mod_small by done. do 5 (split; [done|]). intros i q _ _ _ Hold. exact Hold. }
  apply Forall_cons in Hps as [(Hp & H16 & Hb) Hps]. cbn [length] in Hn.
  destruct (stage_step m r h p) as (m1 & E1 & Hok1 & Hs1 & Hh1 & _ & Ht1 & Hk1); [done..|lia|].
  assert (0 <= (h + 1) mod num_slots r < num_slots r) as Hr1 by (apply Z.mod_pos_bound; lia).
  destruct (IH m1 r _ Hok1 Hps Hh1 Hr1 ltac:(lia)) as (m' & E & Hok' & Hh' & Ht' & Hs' & Hk').
  exists m'. cbn [stage_all]. rewrite E1. cbn [mbind option_bind]. split; [done|]. split; [done|].
  split; [rewrite Hh', mod_succ_in by lia; cbn [length]; do 2 f_equal; lia|]. split; [by rewrite Ht'|]. split.
  - intros [|j] q Hj; cbn in Hj.
    + injection Hj as <-. rewrite Z.add_0_r, Z.mod_small by done. apply Hk'; [done| |done|done].
      intros j Hj. rewrite mod_succ_in by lia. rewrite <- (Z.mod_small h (num_slots r)) at 1 by done.
      intros Heq. apply Z.cong_iff_0 in Heq. apply Z.mod_divide in Heq as [z Hz]; [|lia].
      destruct (Z.lt_ge_cases z 0); nia.
    + specialize (Hs' j q Hj). rewrite mod_succ_in in Hs' by lia. by replace (Z.of_nat (S j)) with (Z.of_nat j + 1) by lia.
  - intros i q Hi Hd Hq Hold. apply Hk'; [done| |done|].
    + intros j Hj. rewrite mod_succ_in by lia. replace (Z.of_nat j + 1) with (Z.of_nat (S j)) by lia.
      apply Hd. cbn. lia.
    + apply Hk1; [done| |done|done]. specialize (Hd 0%nat ltac:(cbn; lia)). by rewrite Z.add_0_r, Z.mod_small in Hd.
Qed.

(** Taking the packet at [cur] returns it and releases its slot. *)
Lemma take_step m r c t p cap : ring_ok m r -> ring_cur m r = Some c -> c < num_slots r ->
  ring_tail m r = Some t -> c <> t -> slot_holds m r c p -> (length p <= cap)%nat -> Z.of_nat (length p) <= buf_size r ->
  exists m', take_packet m r cap = Some (m', Ok p) /\ length m' = length m /\
    ring_cur m' r = Some ((c + 1) mod num_slots r) /\ ring_head m' r = Some ((c + 1) mod num_slots r).
Proof.
  intros Hok Hc Hlt Ht Hne (Hl & idx & Hidx & Hp) Hcap Hb. pose proof Hok as [R1 R2 R3 R4 R5 R6 R7 R8].
  unfold slots_end in R4.
  destruct (two_fields_set m (hdr r + 24) (hdr r + 20) ((c + 1) mod num_slots r)) as (m3 & m4 & E3 & E4 & L4 & _ & V3 & V4 & _);
    [done|lia..|by apply next_in|].
  exists m4. split; [|done]. unfold take_packet. rewrite Hc. cbn [mbind option_bind].
  rewrite (proj2 (Z.leb_gt _ _)), Ht by lia. cbn [mbind option_bind]. rewrite (proj2 (Z.eqb_neq _ _)) by done.
  change (offset_of NetmapSlot "buf_idx") with 0. change (offset_of NetmapSlot "len") with 4.
  rewrite Hl, Z.add_0_r, Hidx. cbn [mbind option_bind].
  replace ((_ `min` _) `min` _)%nat with (length p) by lia. rewrite Hp. cbn [mbind option_bind].
  unfold set_head, set_cur. rewrite head_addr, cur_addr, E3. cbn [mbind option_bind]. by rewrite E4.
Qed.

Lemma RtpHeader_new_wf pt sq ts src : u16 sq -> u32 ts -> u32 src -> wf_header (RtpHeader_new pt sq ts src).
Proof.
  intros. unfold wf_header, RtpHeader_new. cbn [version csrc_count payload_type seq timestamp ssrc].
  change 0x7F with (Z.ones 7). rewrite Z.land_ones by lia. pose proof (Z.mod_pos_bound pt (2 ^ 7)).
  split; [done|]. split; [lia|]. split; [lia|]. done.
Qed.

(** ** A small region to run on *)

Definition demo_ring : Ring := {| hdr := 0; num_slots := 2; buf_size := 64; buf_ofs := 288 |}.
Definition demo_region (head cur tail : Z) : bytes :=
  replicate 20 0 ++ le_bytes 4 head ++ le_bytes 4 cur ++ le_bytes 4 tail ++ replicate 224 0 ++
  (le_bytes 4 0 ++ replicate 12 0) ++ (le_bytes 4 1 ++ replicate 12 0) ++ replicate 128 0.

Ltac demo_ring_ok :=
  split; [vm_compute; congruence|split; reflexivity|split; reflexivity|vm_compute; congruence|vm_compute; congruence| |
    |apply (bool_decide_eq_true_1 _); vm_compute; reflexivity];
  [ intros i idx Hi Hl; cbn [num_slots demo_ring] in Hi; assert (i = 0 \/ i = 1) as [-> | ->] by lia; vm_compute in Hl;
    injection Hl as <-; split; vm_compute; congruence
  | intros i j idx Hi Hj Hl Hm; cbn [num_slots demo_ring] in Hi, Hj; assert (i = 0 \/ i = 1) as [-> | ->] by lia;
    assert (j = 0 \/ j = 1) as [-> | ->] by lia; vm_compute in Hl, Hm; congruence ].

Lemma demo_region_ok : ring_ok (demo_region 1 1 0) demo_ring.
Proof. demo_ring_ok. Qed.

(** A batch of packets staged before one sync, no more than the ring has
    slots, each within a buffer, lies in consecutive slots from [head], wrapping
    at the end of the ring: none of them overwrites another or a packet staged
    before outside that range, [head] has moved by the number of packets, the
    kernel's [tail] has not moved and every write stayed inside the mapping. *)
Theorem netmap_batch_staged (ps : list bytes) (m : bytes) (r : Ring) (h : Z) :
  ring_ok m r -> Forall (packet_fits r) ps -> ring_head m r = Some h -> 0 <= h < num_slots r ->
  Z.of_nat (length ps) <= num_slots r ->
  exists m', stage_all m r ps = Some (m', Ok tt) /\ ring_ok m' r /\
    ring_head m' r = Some ((h + Z.of_nat (length ps)) mod num_slots r) /\ ring_tail m' r = ring_tail m r /\
    (forall j p, ps !! j = Some p -> slot_holds m' r ((h + Z.of_nat j) mod num_slots r) p) /\
    (forall i q, 0 <= i < num_slots r -> (forall j, (j < length ps)%nat -> i <> (h + Z.of_nat j) mod num_slots r) ->
       Z.of_nat (length q) <= buf_size r -> slot_holds m r i q -> slot_holds m' r i q).
Proof. apply stage_all_step. Qed.

Lemma netmap_batch_staged_witness :
  exists m', stage_all (demo_region 1 1 0) demo_ring [[7; 8]; [9]] = Some (m', Ok tt) /\
    slot_holds m' demo_ring 1 [7; 8] /\ slot_holds m' demo_ring 0 [9] /\ ring_head m' demo_ring = Some 1.
Proof.
  destruct (netmap_batch_staged [[7; 8]; [9]] (demo_region 1 1 0) demo_ring 1) as (m' & E & _ & Hh & _ & Hs & _).
  - exact demo_region_ok.
  - repeat apply Forall_cons_2; try apply Forall_nil_2; split; [bytes_ok|cbn; lia|bytes_ok|cbn; lia].
  - reflexivity.
  - cbn. lia.
  - cbn. lia.
  - exists m'. split; [exact E|]. split; [exact (Hs 0%nat _ eq_refl)|]. split; [exact (Hs 1%nat _ eq_refl)|exact Hh].
Defined.

(** The guard for a full ring does not fire: with slots in the ring, staging
    never answers [RingFull], whatever the cursors are. *)
Lemma netmap_ring_never_full m r p m' : 0 < num_slots r -> stage_packet m r p <> Some (m', Err RingFull).
Proof.
  intros Hn. unfold stage_packet. destruct (65535 <? _); [done|]. destruct (buf_size r <? _); [done|].
  unfold slots_free. rewrite (proj2 (Z.eqb_neq _ _)) by lia.
  destruct (ring_head m r) as [h|]; [|done]. destruct (ring_tail m r) as [t|]; [|done]. cbn [mbind option_bind].
  pose proof (Z.mod_pos_bound (wrap 32 (h - t)) (num_slots r)). rewrite (proj2 (Z.eqb_neq _ _)) by lia.
  destruct (num_slots r <=? h); [congruence|].
  destruct (load_uint 4 m _) as [idx|]; [|discriminate]. cbn [mbind option_bind].
  destruct (store m _ p) as [m1|]; [|discriminate]. cbn [mbind option_bind].
  destruct (store_uint 2 m1 _ _) as [m2|]; [|discriminate]. cbn [mbind option_bind].
  destruct (set_head m2 r _) as [m3|]; [|discriminate]. cbn [mbind option_bind].
  by destruct (set_cur m3 r _) as [m4|].
Qed.

(** Two packets fill a ring of two slots; a third then overwrites the first. *)
Lemma netmap_full_ring_overwrites :
  match stage_all (demo_region 0 0 0) demo_ring [[1]; [2]] with
  | Some (m2, Ok _) =>
      slots_free m2 demo_ring = Some 2 /\ load m2 (buffer demo_ring 0) 1 = Some [1] /\
      match stage_packet m2 demo_ring [3] with
      | Some (m3, Ok _) => load m3 (buffer demo_ring 0) 1 = Some [3]
      | _ => False
      end
  | _ => False
  end.
Proof. vm_compute. done. Qed.

(** ** Framing over the rings *)

Definition netmap_packet (t : NetmapTransport) (body : bytes) (codec : Codec) : bytes :=
  RtpPacket_encode {| header := RtpHeader_new (codec_to_payload_type codec (nm_channels t)) (nm_seq t) (nm_timestamp t) (nm_ssrc t);
                      payload := body |}.

Lemma length_netmap_packet t body codec : length (netmap_packet t body codec) = (12 + length body)%nat.
Proof. unfold netmap_packet, RtpPacket_encode. rewrite length_app, length_RtpHeader_encode. done. Qed.

Lemma netmap_packet_parses t body codec : u16 (nm_seq t) -> u32 (nm_timestamp t) -> u32 (nm_ssrc t) ->
  exists q, RtpPacket_parse (netmap_packet t body codec) = Ok q /\ payload q = body.
Proof.
  intros. eexists. split; [apply rtp_packet_encode_parse; [by apply RtpHeader_new_wf|done]|done].
Qed.

(** A receiver whose ring holds an RTP packet after the sync gets its body. *)
Lemma netmap_recv_delivers t i kernel m c tl p q :
  inner t = Some i -> kernel (region i) = Ok m -> ring_ok m (rx i) -> ring_cur m (rx i) = Some c -> c < num_slots (rx i) ->
  ring_tail m (rx i) = Some tl -> c <> tl -> slot_holds m (rx i) c p -> Z.of_nat (length p) <= 65535 ->
  Z.of_nat (length p) <= buf_size (rx i) -> RtpPacket_parse p = Ok q ->
  exists m', netmap_recv_rtp t kernel = Some (with_region t i m', Ok (payload q)) /\
    ring_cur m' (rx i) = Some ((c + 1) mod num_slots (rx i)) /\ ring_head m' (rx i) = Some ((c + 1) mod num_slots (rx i)).
Proof.
  intros Hi Hk Hok Hc Hlt Ht Hne Hs H16 Hb Hq.
  destruct (take_step m (rx i) c tl p (Z.to_nat 65535) Hok Hc Hlt Ht Hne Hs ltac:(lia) Hb) as (m' & E & _ & V1 & V2).
  exists m'. split; [|done]. unfold netmap_recv_rtp, rxsync, sync_ioctl. rewrite Hi, Hk.
  unfold recv_raw. cbn [inner with_region region rx]. rewrite E. cbn [mbind option_bind rbind].
  destruct p as [|b p]; [done|]. rewrite Hq. cbn [map_err rbind]. done.
Qed.

(** Staging one RTP packet and syncing: the packet sits at [head] of the region
    the kernel is given, and the transport has the kernel's answer. *)
Lemma netmap_send_stages t i h body codec kernel :
  inner t = Some i -> ring_ok (region i) (tx i) -> ring_head (region i) (tx i) = Some h -> h < num_slots (tx i) ->
  byte_list body -> 12 + Z.of_nat (length body) <= 65535 -> 12 + Z.of_nat (length body) <= buf_size (tx i) ->
  exists m, slot_holds m (tx i) h (netmap_packet t body codec) /\
    ring_head m (tx i) = Some ((h + 1) mod num_slots (tx i)) /\ ring_cur m (tx i) = Some ((h + 1) mod num_slots (tx i)) /\
    netmap_send_rtp t body codec kernel =
      Some match kernel m with
           | Ok m' => (with_region (advance_clock t (length body) codec) i m', Ok tt)
           | Err code => (with_region (advance_clock t (length body) codec) i m, Err (OsFailed "NIOCTXSYNC" code))
           end.
Proof.
  intros Hi Hok Hh Hlt Hb H16 Hbuf. pose proof (length_netmap_packet t body codec) as Hl.
  destruct (stage_step (region i) (tx i) h (netmap_packet t body codec)) as (m & E & _ & Hs & Hh' & Hc' & _); [done| |lia..|done|done|].
  { apply Forall_app. split; [apply RtpHeader_encode_bytes|done]. }
  exists m. split; [done|]. split; [done|]. split; [done|].
  unfold netmap_send_rtp, send_raw. cbn [inner advance_clock]. rewrite Hi. fold (netmap_packet t body codec). rewrite E.
  cbn [mbind option_bind]. rewrite Nat.ltb_irrefl. unfold txsync, sync_ioctl. cbn [inner with_region region tx rx]. by destruct (kernel m).
Qed.

(** C16: what one netmap port sends, another receives: a payload that fits a
    buffer is framed and staged in the slot at [head] before the sync, both
    cursors moved past it so that the kernel takes it, and once the switch has
    put that packet into the receiver's ring at [cur], [recv_rtp] returns
    exactly the payload and releases the slot. *)
Theorem netmap_rtp_roundtrip t i h body codec ktx :
  inner t = Some i -> ring_ok (region i) (tx i) -> ring_head (region i) (tx i) = Some h -> h < num_slots (tx i) ->
  u16 (nm_seq t) -> u32 (nm_timestamp t) -> u32 (nm_ssrc t) ->
  byte_list body -> 12 + Z.of_nat (length body) <= 65535 -> 12 + Z.of_nat (length body) <= buf_size (tx i) ->
  exists m packet, slot_holds m (tx i) h packet /\
    ring_head m (tx i) = Some ((h + 1) mod num_slots (tx i)) /\ ring_cur m (tx i) = Some ((h + 1) mod num_slots (tx i)) /\
    netmap_send_rtp t body codec ktx =
      Some match ktx m with
           | Ok m' => (with_region (advance_clock t (length body) codec) i m', Ok tt)
           | Err code => (with_region (advance_clock t (length body) codec) i m, Err (OsFailed "NIOCTXSYNC" code))
           end /\
    forall t2 i2 krx m2 c tl, inner t2 = Some i2 -> krx (region i2) = Ok m2 -> ring_ok m2 (rx i2) ->
      ring_cur m2 (rx i2) = Some c -> c < num_slots (rx i2) -> ring_tail m2 (rx i2) = Some tl -> c <> tl ->
      slot_holds m2 (rx i2) c packet -> Z.of_nat (length packet) <= buf_size (rx i2) ->
      exists m3, netmap_recv_rtp t2 krx = Some (with_region t2 i2 m3, Ok body) /\
        ring_cur m3 (rx i2) = Some ((c + 1) mod num_slots (rx i2)) /\
        ring_head m3 (rx i2) = Some ((c + 1) mod num_slots (rx i2)).
Proof.
  intros Hi Hok Hh Hlt H1 H2 H3 Hb H16 Hbuf.
  destruct (netmap_send_stages t i h body codec ktx) as (m & Hs & Vh & Vc & E); [done..|].
  destruct (netmap_packet_parses t body codec H1 H2 H3) as (q & Hq & <-).
  exists m, (netmap_packet t (payload q) codec). do 4 (split; [done|]).
  intros t2 i2 krx m2 c tl Hi2 Hk Hok2 Hc Hlt2 Ht Hne Hs2 Hb2.
  eapply netmap_recv_delivers; [done..| |done|done]. rewrite length_netmap_packet. lia.
Qed.

Definition demo_transport (head cur tail : Z) : NetmapTransport :=
  {| ifname := []; inner := Some {| region := demo_region head cur tail; tx := demo_ring; rx := demo_ring |}; memid := 1;
     nm_seq := 65535; nm_timestamp := 5; nm_ssrc := 9; nm_channels := 2 |}.

Lemma netmap_rtp_roundtrip_witness :
  exists m packet, slot_holds m demo_ring 1 packet /\
    netmap_send_rtp (demo_transport 1 1 0) [1; 2; 3; 4] PcmL16 Ok =
      Some (with_region (advance_clock (demo_transport 1 1 0) 4 PcmL16)
              {| region := demo_region 1 1 0; tx := demo_ring; rx := demo_ring |} m, Ok tt).
Proof.
  destruct (netmap_rtp_roundtrip (demo_transport 1 1 0) {| region := demo_region 1 1 0; tx := demo_ring; rx := demo_ring |} 1
              [1; 2; 3; 4] PcmL16 Ok) as (m & packet & Hs & _ & _ & E & _).
  - reflexivity.
  - exact demo_region_ok.
  - reflexivity.
  - reflexivity.
  - vm_compute. split; congruence.
  - vm_compute. split; congruence.
  - vm_compute. split; congruence.
  - bytes_ok.
  - cbn. lia.
  - cbn. lia.
  - exists m, packet. split; [exact Hs|exact E].
Defined.

(** The packet of a first send, put into another port's ring, comes back. *)
Lemma netmap_loopback :
  match stage_packet (demo_region 1 1 0) demo_ring (netmap_packet (demo_transport 0 0 0) [1; 2; 3; 4] PcmL16) with
  | Some (m, Ok _) =>
      match set_cur m demo_ring 1 with
      | Some m => snd <$> netmap_recv_rtp (demo_transport 1 1 1) (fun _ => Ok m) = Some (Ok [1; 2; 3; 4])
      | None => False
      end
  | _ => False
  end.
Proof. vm_compute. done. Qed.

(** ** Device and mapping are released once *)

(** How often the device was opened successfully and closed, and the lengths
    mapped successfully and unmapped, in a sequence of calls. *)
Definition opened (os : os_answers) (cs : list os_call) : nat :=
  length (omap (fun c => match c, os_open os with OpenDevice, Ok _ => Some tt | _, _ => None end) cs).
Definition closed (cs : list os_call) : nat :=
  length (omap (fun c => match c with CloseDevice => Some tt | _ => None end) cs).
Definition mapped (os : os_answers) (cs : list os_call) : list Z :=
  omap (fun c => match c with Mmap len => match os_mmap os len with Ok _ => Some len | Err _ => None end | _ => None end) cs.
Definition unmapped (cs : list os_call) : list Z := omap (fun c => match c with Munmap len => Some len | _ => None end) cs.

(** Opening and, when that succeeded, closing. *)
Definition open_and_close (os : os_answers) (name : bytes) (pin nanos : option Z) : option (list os_call) :=
  '(calls, r) ← open_with_memid os name pin nanos;
  Some (calls ++ match r with Ok t => (netmap_close os t).1 | Err _ => [] end).

Lemma obind_ok {A B E} (x : option (result A E)) (k : A -> option (result B E)) b :
  obind x k = Some (Ok b) -> exists a, x = Some (Ok a) /\ k a = Some (Ok b).
Proof. destruct x as [[a|e]|]; cbn; [eauto|done|done]. Qed.

Lemma find_rings_region m ofs i : find_rings m ofs = Some (Ok i) -> region i = m.
Proof.
  unfold find_rings. intros (tx & _ & H)%bind_Some. apply bind_Some in H as (htx & _ & H).
  apply bind_Some in H as (rx & _ & H). destruct (_ || _); [done|].
  apply obind_ok in H as (txo & _ & H). apply obind_ok in H as (rxo & _ & H). destruct (_ || _); [done|].
  apply obind_ok in H as (txr & _ & H). apply obind_ok in H as (rxr & _ & H). by injection H as <-.
Qed.

(** Opening a port never leaks and never releases twice.  Whatever the
    operating system answers, over the calls of opening, and of closing and dropping the
    transport when opening succeeded, the device is closed exactly as often as
    it was opened, and each region mapped is unmapped once with its length; a
    name too long for the request touches nothing. *)
Theorem netmap_open_releases os name pin nanos calls :
  (forall len m, os_mmap os len = Ok m -> Z.of_nat (length m) = len) ->
  open_and_close os name pin nanos = Some calls ->
  closed calls = opened os calls /\ unmapped calls = mapped os calls /\
  (IFNAMSIZ <= Z.of_nat (length name) -> calls = []).
Proof.
  intros Hlaw. unfold open_and_close, open_with_memid.
  destruct (Z.leb_spec IFNAMSIZ (Z.of_nat (length name))) as [Hn|Hn]; [by intros [= <-]|].
  unfold opened. destruct (os_open os) as [[]|e] eqn:Ho; [|intros [= <-]; split; [done|split; [done|lia]]].
  destruct (os_regif os _) as [req|e]; [|intros [= <-]; split; [done|split; [done|lia]]].
  destruct (nr_memsize req =? 0); [intros [= <-]; split; [done|split; [done|lia]]|].
  destruct (os_mmap os (nr_memsize req)) as [m|e] eqn:Hm.
  2: { intros [= <-]. split; [done|]. split; [|lia]. unfold mapped. cbn. by rewrite Hm. }
  destruct (find_rings m (nr_offset req)) as [[i|e]|] eqn:Hf; [| |done]; cbn [mbind option_bind]; intros [= <-].
  - apply find_rings_region in Hf as <-. apply Hlaw in Hm as Hl. split; [done|]. split; [|lia].
    unfold mapped, unmapped. cbn. by rewrite Hm, Hl.
  - split; [done|]. split; [|lia]. unfold mapped, unmapped. cbn. by rewrite Hm.
Qed.

(** A system whose port has one ring pair in a region of two copies of the
    small ring, the interface record first. *)
Definition demo_if : bytes :=
  replicate 24 0 ++ le_bytes 4 1 ++ le_bytes 4 1 ++ replicate 24 0 ++ le_bytes 8 72 ++ le_bytes 8 72.
Definition demo_port_ring : bytes :=
  le_bytes 8 288 ++ le_bytes 4 2 ++ le_bytes 4 64 ++ drop 16 (demo_region 0 0 0).
Definition demo_os : os_answers :=
  let region := demo_if ++ demo_port_ring in
  {| os_open := Ok tt;
     os_regif := fun req => Ok {| nr_name := nr_name req; nr_version := 14; nr_offset := 0;
                                  nr_memsize := Z.of_nat (length region); nr_ringid := 0; nr_arg2 := 1; nr_flags := 0 |};
     os_mmap := fun len => if len =? Z.of_nat (length region) then Ok region else Err 12;
     os_munmap := Ok tt |}.

Lemma netmap_open_releases_witness :
  let n := Z.of_nat (length (demo_if ++ demo_port_ring)) in
  let calls := [OpenDevice; Ioctl NIOCREGIF; Mmap n; Munmap n; CloseDevice] in
  closed calls = opened demo_os calls /\ unmapped calls = mapped demo_os calls.
Proof.
  intros n calls. destruct (netmap_open_releases demo_os [118; 48] None None calls) as (H1 & H2 & _).
  - intros len m. cbn [os_mmap demo_os]. destruct (Z.eqb_spec len (Z.of_nat (length (demo_if ++ demo_port_ring)))) as [->|]; [|discriminate].
    intros [= <-]. reflexivity.
  - vm_compute. reflexivity.
  - split; [exact H1|exact H2].
Defined.
