(* ===== verification/Distributed.v ===== *)
(** * The distributed engine

    [crates/session-store/src/distributed.rs] and [raft_network.rs]: the
    [SessionStore] of one cluster node, the loopback network between the nodes
    of a process, and the cluster's bootstrap.  The consensus core (openraft) is
    a parameter; what the sources rely on is that an accepted write has been applied to the
    local state machine before it is answered.  Calls of the engine overlap: a write is
    started, answered by the core and finished by its caller in separate steps, between which
    other calls, batches applied for other nodes and installed snapshots come. *)

From Stdlib Require Import String Sorting.Sorted.
From stdpp Require Import gmap fin_maps sorting.
From S2P Require Import Prelude F32 RString External Topology SessionStore RaftStateMachine ControlApi.
Local Open Scope Z_scope.

(** ** The consensus core

    [W] is the state of every node of the process; a handle ([Arc<Raft>]) names
    one node. *)

Class ClusterOps (W M BS BX : Type) : Type := {
  node_sm : W -> nat -> StateMachine BS BX;
  live : W -> nat -> Prop;
  raft_new : W -> Z -> StateMachine BS BX -> option (W * nat);
  raft_initialize : W -> nat -> gmap Z rstring -> option W
}.

(** ** The loopback network *)

Inductive RPCError (E : Type) : Type := RpcUnreachable (target : Z) | RemoteError (target : Z) (e : E).
Arguments RpcUnreachable {E}.
Arguments RemoteError {E}.

(** The registry all clones of the factory share. *)
Abbreviation Registry := (gmap Z nat).

Definition LoopbackNetworkFactory_new : Registry := ∅.
Definition register (reg : Registry) (id : Z) (raft : nat) : Registry := <[id := raft]> reg.
Definition deregister (reg : Registry) (id : Z) : Registry := delete id reg.

(** A connection keeps its target and looks it up at every call. *)
Record LoopbackNetwork : Type := { target : Z }.
Definition new_client (target : Z) : LoopbackNetwork := {| target := target |}.
Definition lookup_target (reg : Registry) (c : LoopbackNetwork) : result nat Z :=
  match reg !! target c with Some raft => Ok raft | None => Err (target c) end.

Section rpc.
Context {W AE AER IS ISR VR VRR E1 E2 : Type}.
Variables (raft_append_entries : W -> nat -> AE -> W * result AER E1)
          (raft_install_snapshot : W -> nat -> IS -> W * result ISR E2)
          (raft_vote : W -> nat -> VR -> W * result VRR E1).

Definition append_entries (w : W) (reg : Registry) (c : LoopbackNetwork) (rpc : AE) : W * result AER (RPCError E1) :=
  match lookup_target reg c with
  | Err t => (w, Err (RpcUnreachable t))
  | Ok raft => let '(w, r) := raft_append_entries w raft rpc in (w, map_err (RemoteError (target c)) r)
  end.
Definition net_install_snapshot (w : W) (reg : Registry) (c : LoopbackNetwork) (rpc : IS) : W * result ISR (RPCError E2) :=
  match lookup_target reg c with
  | Err t => (w, Err (RpcUnreachable t))
  | Ok raft => let '(w, r) := raft_install_snapshot w raft rpc in (w, map_err (RemoteError (target c)) r)
  end.
Definition vote (w : W) (reg : Registry) (c : LoopbackNetwork) (rpc : VR) : W * result VRR (RPCError E1) :=
  match lookup_target reg c with
  | Err t => (w, Err (RpcUnreachable t))
  | Ok raft => let '(w, r) := raft_vote w raft rpc in (w, map_err (RemoteError (target c)) r)
  end.
End rpc.

(** ** The engine *)

(** The raft handle, which the reader shares, and the events sent so far. *)
Record DistributedRaftEngine : Type := { d_raft : nat; d_events : list TopologyEvent }.
Definition DistributedRaftEngine_new (raft : nat) : DistributedRaftEngine := {| d_raft := raft; d_events := [] |}.

Inductive dist_error : Type := TaskDropped | WriteRefused (msg : rstring).

Section engine.
Context `{TopoOps} {M : Type} (default_membership : M).
Context {W BS BX : Type} `{Encoding (PersistedState M) BS} `{ClusterOps W M BS BX}.
Implicit Types (w : W) (d : DistributedRaftEngine).

(** Reads go to the database the state machine writes; a failed read is the
    empty topology. *)
Definition dist_get_topology (io : faults) (sm : StateMachine BS BX) : TopologySnapshot :=
  match reader_topology (M := M) io sm with Ok t => t | Err _ => topo_new end.

(** ** Bootstrap *)

Record ClusterNode : Type := { cn_id : Z; cn_raft : nat }.

(** The engine's temporary database is created empty. *)
Definition sm_new_ephemeral : option (StateMachine BS BX) :=
  match sm_open default_membership no_faults {| state_row := None; snapshot_row := None |} with
  | Ok sm => Some sm
  | Err _ => None
  end.

Definition spawn_node (st : W * Registry * list ClusterNode) (id : Z) : option (W * Registry * list ClusterNode) :=
  let '(w, reg, nodes) := st in
  sm ← sm_new_ephemeral;
  '(w, raft) ← raft_new w id sm;
  Some (w, register reg id raft, nodes ++ [{| cn_id := id; cn_raft := raft |}]).

Fixpoint spawn_nodes (st : W * Registry * list ClusterNode) (node_ids : list Z) : option (W * Registry * list ClusterNode) :=
  match node_ids with
  | [] => Some st
  | id :: node_ids => st ← spawn_node st id; spawn_nodes st node_ids
  end.

Definition members_of (node_ids : list Z) : gmap Z rstring :=
  list_to_map ((fun id => (id, (lit "inproc://" ++ dec id)%list)) <$> node_ids).

(** [None] is a panic. *)
Definition spawn_cluster (w : W) (node_ids : list Z) : option (W * Registry * list ClusterNode) :=
  match node_ids with
  | [] => None
  | _ =>
      '(w, reg, nodes) ← spawn_nodes (w, LoopbackNetworkFactory_new, []) node_ids;
      first ← head nodes;
      w ← raft_initialize w (cn_raft first) (members_of node_ids);
      Some (w, reg, nodes)
  end.
End engine.

(** What openraft promises at start-up: a new node has a fresh handle and the state
    machine it was given; initialising appends membership entries only. *)
Class ClusterLaws (W M BS BX : Type) `{TopoOps} `{Encoding (PersistedState M) BS} `{ClusterOps W M BS BX} : Prop := {
  raft_new_fresh : forall (w : W) id sm w' raft, raft_new w id sm = Some (w', raft) ->
    ~ live w raft /\ live w' raft /\ node_sm w' raft = sm /\
    forall x, live w x -> live w' x /\ node_sm w' x = node_sm w x;
  raft_initialize_members : forall (w : W) raft ms w' x, raft_initialize w raft ms = Some w' ->
    exists calls (applied : list (Entry M)) rs, sm_run (node_sm w x) calls = (node_sm w' x, applied, rs) /\
      omap mutation_of applied = []
}.

(** ** Writes of one node's engine

    [apply_mutation] spawns a task that writes through the core and sends the answer
    over a channel; the caller blocks on the channel, and then
    broadcasts the event and returns.  No lock is held, so any number of calls can be anywhere
    between these points. *)

(** A channel whose sender was dropped delivers [None]. *)
Abbreviation answer := (option (result ClientWriteResponse rstring)).

Inductive call_stage : Type :=
| Waiting                      (* the task is spawned, the caller blocks in [recv] *)
| Answered (a : answer)        (* the channel holds the outcome *)
| Returned (r : result Z dist_error).

(** After [recv]: the error paths, or the event and the id. *)
Definition dist_finish (d : DistributedRaftEngine) (for_event : Mutation) (a : answer) : DistributedRaftEngine * result Z dist_error :=
  match a with
  | None => (d, Err TaskDropped)
  | Some (Err e) => (d, Err (WriteRefused e))
  | Some (Ok r) =>
      ({| d_raft := d_raft d; d_events := d_events d ++ [mutation_to_event for_event] |}, Ok (mutation_id r))
  end.

(** A place in a node's history: the epoch, counted by the snapshots installed, and the
    number of mutations applied in it. *)
Abbreviation place := (nat * nat)%type.
Definition before (a b : place) : Prop := (a.1 < b.1 \/ (a.1 = b.1 /\ a.2 < b.2))%nat.
Definition not_after (a b : place) : Prop := (a.1 < b.1 \/ (a.1 = b.1 /\ a.2 <= b.2))%nat.
#[export] Instance before_dec a b : Decision (before a b).
Proof. unfold before. apply _. Defined.

(** A call: what it writes and how far it is; the other fields note where in the history it
    began, where its entry was applied and where it returned. *)
Record Call : Type := {
  c_mutation : Mutation;
  c_stage : call_stage;
  c_begun : place;
  c_entry : option place;
  c_ended : place
}.

Section history.
Context `{TopoOps} {M BS BX P : Type} `{EncodingLaws (PersistedState M) BS}
  `{EncodingLaws (PersistedSnapshot M P) BX} `{EncodingLaws TopologySnapshot P} (payload_len : P -> Z).

(** The state an epoch starts from, and the mutations applied since, each with the
    id [apply] answered. *)
Record Epoch : Type := { ep_base : PersistedState M; ep_log : list (Mutation * Z) }.

Record DistNode : Type := {
  dn_sm : StateMachine BS BX;
  dn_engine : DistributedRaftEngine;
  dn_calls : list Call;
  dn_finished : list nat;      (* the accepted calls, in the order they returned *)
  dn_epochs : list Epoch
}.

Definition entry_at (eps : list Epoch) (x : place) : option (Mutation * Z) :=
  ep ← eps !! x.1; ep_log ep !! x.2.
Definition now (eps : list Epoch) : place :=
  (Nat.pred (length eps), match last eps with Some ep => length (ep_log ep) | None => 0%nat end).

(** The mutations of a batch, with their responses. *)
Definition batch_log (es : list (Entry M)) (rs : list ClientWriteResponse) : list (Mutation * Z) :=
  omap (fun x => (fun m => (m, mutation_id x.2)) <$> mutation_of x.1) (zip es rs).

Definition extend_epoch (eps : list Epoch) (more : list (Mutation * Z)) : list Epoch :=
  alter (fun ep => {| ep_base := ep_base ep; ep_log := ep_log ep ++ more |}) (Nat.pred (length eps)) eps.

(** The state a snapshot leaves, when it is decoded and the state row written. *)
Definition installed_base (io1 : faults) (meta : SnapshotMeta M) (payload : P) (sm : StateMachine BS BX) : option (PersistedState M) :=
  topology ← decode_value payload;
  let base := {| ps_topology := topology; ps_last_applied := sm_last_log_id meta;
                 ps_last_membership := sm_last_membership meta; ps_next_mutation_id := 0 |} in
  match (write_state io1 base sm).2 with Ok _ => Some base | Err _ => None end.

Definition set_call (n : DistNode) (i : nat) (c : Call) : DistNode :=
  {| dn_sm := dn_sm n; dn_engine := dn_engine n; dn_calls := <[i := c]> (dn_calls n); dn_finished := dn_finished n; dn_epochs := dn_epochs n |}.
Definition set_sm (n : DistNode) (sm : StateMachine BS BX) (eps : list Epoch) : DistNode :=
  {| dn_sm := sm; dn_engine := dn_engine n; dn_calls := dn_calls n; dn_finished := dn_finished n; dn_epochs := eps |}.

(** The steps of one node.  The core applies batches, of this node's writes and of
    others', builds and installs snapshots, and answers calls: with success only when an entry of the
    call's own, begun before it was applied, has gone through [apply] here, with that entry's response; otherwise with
    an error or not at all, whether or not the entry was or will be applied. *)
Inductive dist_step (n : DistNode) : DistNode -> Prop :=
| step_begin m :
    dist_step n {| dn_sm := dn_sm n; dn_engine := dn_engine n; dn_finished := dn_finished n; dn_epochs := dn_epochs n;
      dn_calls := dn_calls n ++ [{| c_mutation := m; c_stage := Waiting; c_begun := now (dn_epochs n); c_entry := None; c_ended := (0, 0)%nat |}] |}
| step_apply io es sm' r :
    apply io es (dn_sm n) = (sm', r) ->
    dist_step n (set_sm n sm' (match r with Ok rs => extend_epoch (dn_epochs n) (batch_log es rs) | Err _ => dn_epochs n end))
| step_install io1 io2 meta payload sm' r :
    install_snapshot io1 io2 meta payload (dn_sm n) = (sm', r) ->
    dist_step n (set_sm n sm' (match installed_base io1 meta payload (dn_sm n) with
                               | Some base => dn_epochs n ++ [{| ep_base := base; ep_log := [] |}]
                               | None => dn_epochs n
                               end))
| step_build io1 io2 sm' r :
    build_snapshot payload_len io1 io2 (dn_sm n) = (sm', r) -> dist_step n (set_sm n sm' (dn_epochs n))
| step_accepted i c x id :
    dn_calls n !! i = Some c -> c_stage c = Waiting ->
    entry_at (dn_epochs n) x = Some (c_mutation c, id) -> not_after (c_begun c) x ->
    (forall j c', dn_calls n !! j = Some c' -> c_entry c' <> Some x) ->
    dist_step n (set_call n i {| c_mutation := c_mutation c; c_stage := Answered (Some (Ok {| mutation_id := id |}));
                                 c_begun := c_begun c; c_entry := Some x; c_ended := c_ended c |})
| step_failed i c e :
    dn_calls n !! i = Some c -> c_stage c = Waiting ->
    dist_step n (set_call n i {| c_mutation := c_mutation c; c_stage := Answered (Err <$> e);
                                 c_begun := c_begun c; c_entry := None; c_ended := c_ended c |})
| step_return i c a d r :
    dn_calls n !! i = Some c -> c_stage c = Answered a -> dist_finish (dn_engine n) (c_mutation c) a = (d, r) ->
    dist_step n {| dn_sm := dn_sm n; dn_engine := d; dn_epochs := dn_epochs n;
      dn_finished := if is_ok r then dn_finished n ++ [i] else dn_finished n;
      dn_calls := <[i := {| c_mutation := c_mutation c; c_stage := Returned r; c_begun := c_begun c; c_entry := c_entry c;
                            c_ended := now (dn_epochs n) |}]> (dn_calls n) |}.

Definition dist_start (sm : StateMachine BS BX) (s : PersistedState M) (raft : nat) : DistNode :=
  {| dn_sm := sm; dn_engine := DistributedRaftEngine_new raft; dn_calls := []; dn_finished := [];
     dn_epochs := [{| ep_base := s; ep_log := [] |}] |}.

(** ** The history's bookkeeping *)

Lemma extend_snoc eps ep more :
  extend_epoch (eps ++ [ep]) more = eps ++ [{| ep_base := ep_base ep; ep_log := ep_log ep ++ more |}].
Proof.
  unfold extend_epoch. rewrite length_app. cbn [length]. replace (Nat.pred (length eps + 1)) with (length eps) by lia.
  by rewrite alter_app_r_alt, Nat.sub_diag by lia.
Qed.

Lemma now_extend eps more : not_after (now eps) (now (extend_epoch eps more)).
Proof.
  destruct eps as [|ep eps _] using rev_ind; [by right|]. rewrite extend_snoc. unfold now, not_after. right.
  rewrite !length_app, !last_snoc. cbn. rewrite length_app. lia.
Qed.

Lemma now_install eps ep : (0 < length eps)%nat -> not_after (now eps) (now (eps ++ [ep])).
Proof. intros Hl. unfold now, not_after. rewrite length_app. cbn. left. lia. Qed.

Lemma entry_extend eps more x y : entry_at eps x = Some y -> entry_at (extend_epoch eps more) x = Some y.
Proof.
  destruct x as [k p]. unfold entry_at, extend_epoch. cbn [fst snd]. intros (ep & He & Hl)%bind_Some.
  destruct (decide (Nat.pred (length eps) = k)) as [<-|Hne].
  - rewrite list_lookup_alter_eq, He. cbn. by apply lookup_app_l_Some.
  - rewrite list_lookup_alter_ne by done. by rewrite He.
Qed.

Lemma entry_install eps ep x y : entry_at eps x = Some y -> entry_at (eps ++ [ep]) x = Some y.
Proof. unfold entry_at. intros (e & He & Hl)%bind_Some. by rewrite (lookup_app_l_Some _ _ _ _ He). Qed.

Lemma entry_before_now eps x y : entry_at eps x = Some y -> before x (now eps).
Proof.
  unfold entry_at, now, before. intros (ep & He & Hl)%bind_Some.
  pose proof (lookup_lt_Some _ _ _ He). pose proof (lookup_lt_Some _ _ _ Hl).
  destruct (decide (x.1 = Nat.pred (length eps))) as [E|]; [|cbn; lia]. right. split; [done|].
  rewrite last_lookup, <- E, He. cbn. lia.
Qed.

Lemma batch_log_mutations s es : (batch_log es (apply_entries (M := M) s es).2).*1 = omap mutation_of es.
Proof.
  unfold batch_log. revert s. induction es as [|e es IH]; intros s; [done|]. cbn [apply_entries].
  destruct (apply_entry s e) as [s1 r]. specialize (IH s1). destruct (apply_entries s1 es) as [s2 rs]. cbn in IH |- *.
  by destruct (mutation_of e); cbn; rewrite ?IH.
Qed.

(** The ids of a batch count on from the state's counter. *)
Lemma batch_log_ids es : forall s p m id, batch_log es (apply_entries (M := M) s es).2 !! p = Some (m, id) ->
  id = ps_next_mutation_id s + Z.of_nat p.
Proof.
  unfold batch_log. induction es as [|e es IH]; intros s p m id; [done|]. cbn [apply_entries].
  pose proof (apply_entry_state s e) as Hs. destruct (apply_entry s e) as [s1 r] eqn:Ee. cbn in Hs. specialize (IH s1).
  destruct (apply_entries s1 es) as [s2 rs]. cbn [snd] in IH |- *. cbn [zip zip_with omap list_omap fst snd].
  unfold mutation_of in *. unfold apply_entry in Ee. destruct e as [l [|m0|m0]]; cbn in *; injection Ee as <- <-; cbn in *.
  - apply IH.
  - destruct p as [|p]; cbn; [intros [= _ <-]; lia|]. intros Hp%IH. cbn in Hp. lia.
  - apply IH.
Qed.

(** ** What every history satisfies *)

Record epochs_ok (sm : StateMachine BS BX) (eps : list Epoch) (s : PersistedState M) : Prop := {
  eo_first : ep_base <$> head eps = Some s;
  eo_later : forall k ep, eps !! S k = Some ep -> ps_next_mutation_id (ep_base ep) = 0;
  eo_ids : forall k ep p m id, eps !! k = Some ep -> ep_log ep !! p = Some (m, id) -> id = ps_next_mutation_id (ep_base ep) + Z.of_nat p;
  eo_state : exists ep es, last eps = Some ep /\ omap mutation_of es = (ep_log ep).*1 /\ holds sm (state_after (ep_base ep) es)
}.

Lemma epochs_apply sm eps s io es sm' r : epochs_ok sm eps s -> apply io es sm = (sm', r) ->
  epochs_ok sm' (match r with Ok rs => extend_epoch eps (batch_log es rs) | Err _ => eps end) s.
Proof.
  intros [Hf Hl Hi (ep & es0 & Hep & Hes & Hh)] Ha.
  destruct (apply_cases io es sm _ Hh) as [(sm1 & E & Hh1)|(e & E)]; rewrite E in Ha; injection Ha as <- <-.
  2: { split; [done..|]. by exists ep, es0. }
  set (more := batch_log es _). destruct eps as [|ep0 eps _] using rev_ind; [done|]. rewrite last_snoc in Hep. injection Hep as ->.
  rewrite extend_snoc. split.
  - by destruct eps.
  - intros k ep1. specialize (Hl k). destruct (decide (S k < length eps)%nat).
    + rewrite lookup_app_l in Hl |- * by lia. apply Hl.
    + rewrite lookup_app_r in Hl |- * by lia. destruct (S k - length eps)%nat; [|done]. cbn in *. intros [= <-]. apply (Hl ep eq_refl).
  - intros k ep1 p m id Hk Hp. destruct (decide (k < length eps)%nat).
    + rewrite lookup_app_l in Hk by lia. apply (Hi k ep1 p m id); [|done]. by rewrite lookup_app_l by lia.
    + rewrite lookup_app_r in Hk by lia. destruct (k - length eps)%nat eqn:Ek; [|done]. cbn in Hk. injection Hk as <-. cbn in Hp |- *.
      specialize (Hi k ep). rewrite lookup_app_r, Ek in Hi by lia.
      apply lookup_app_Some in Hp as [Hp|[Hge Hp]]; [by apply (Hi p m id)|].
      apply batch_log_ids in Hp. rewrite Hp. cbn. rewrite Hes, length_fmap. lia.
  - eexists _, (es0 ++ es). rewrite last_snoc. split; [done|]. cbn. rewrite omap_app, fmap_app, Hes. unfold more.
    rewrite batch_log_mutations. split; [done|]. by rewrite <- state_after_app.
Qed.

Lemma install_cases io1 io2 meta payload sm sm' r : install_snapshot io1 io2 meta payload sm = (sm', r) ->
  match installed_base io1 meta payload sm with
  | Some base => holds sm' base /\ ps_next_mutation_id base = 0
  | None => sm' = sm
  end.
Proof.
  unfold install_snapshot, installed_base. destruct (decode_value payload) as [t|]; cbn [ok_or mbind option_bind]; [|by intros [= <- _]].
  cbv zeta. set (base := Build_PersistedState _ _ _ _).
  destruct (write_state_cases io1 base sm) as [(sm1 & -> & Hh & _)|(e & ->)]; cbn [snd]; [|by intros [= <- _]].
  destruct (write_snapshot_cases io2 {| sn_meta := meta; sn_payload := payload |} sm1) as [(sm2 & -> & Hrow & _)|(e & ->)];
    intros [= <- _]; split; try done.
  unfold holds in *. by rewrite Hrow.
Qed.

Lemma epochs_install sm eps s io1 io2 meta payload sm' r : epochs_ok sm eps s ->
  install_snapshot io1 io2 meta payload sm = (sm', r) ->
  epochs_ok sm' (match installed_base io1 meta payload sm with
                 | Some base => eps ++ [{| ep_base := base; ep_log := [] |}] | None => eps end) s.
Proof.
  intros He Hin%install_cases. destruct (installed_base _ _ _ _) as [base|]; [|by subst]. destruct Hin as [Hh Hz].
  destruct He as [Hf Hl Hi (ep & es0 & Hep & _)]. split.
  - by destruct eps.
  - intros k ep1 [Hk|[Hge Hk]]%lookup_app_Some; [by eapply Hl|]. destruct (S k - length eps)%nat; [|done]. by injection Hk as <-.
  - intros k ep1 p m id [Hk|[Hge Hk]]%lookup_app_Some; [by eapply Hi|]. destruct (k - length eps)%nat; [|done]. by injection Hk as <-.
  - eexists _, []. rewrite last_snoc. split; [done|]. split; [done|]. by rewrite state_after_nil.
Qed.

Lemma epochs_build sm eps s io1 io2 sm' r : epochs_ok sm eps s ->
  build_snapshot payload_len io1 io2 sm = (sm', r) -> epochs_ok sm' eps s.
Proof.
  intros [Hf Hl Hi (ep & es0 & Hep & Hes & Hh)] Hb. split; [done..|]. exists ep, es0. split; [done|]. split; [done|].
  unfold build_snapshot in Hb. destruct (read_state io1 sm) as [s'|]; [|by injection Hb as <- _].
  destruct (ok_or _ _) as [pl|]; [|by injection Hb as <- _]. cbv zeta in Hb.
  destruct (write_snapshot_cases io2 {| sn_meta := snapshot_meta payload_len s' pl; sn_payload := pl |} sm) as [(sm1 & E & Hrow & _)|(e & E)];
    rewrite E in Hb; injection Hb as <- _; [|done].
  unfold holds in *. by rewrite Hrow.
Qed.
End history.

(** One call's place in the history. *)
Section calls.
Context `{TopoOps} {M BS BX P : Type} `{EncodingLaws (PersistedState M) BS}
  `{EncodingLaws (PersistedSnapshot M P) BX} `{EncodingLaws TopologySnapshot P} (payload_len : P -> Z).
Implicit Types (n : DistNode (M := M) (BS := BS) (BX := BX)) (eps : list (Epoch (M := M))).

Record call_ok eps (c : Call) : Prop := {
  co_begun : not_after (c_begun c) (now eps);
  co_waiting : c_stage c = Waiting -> c_entry c = None;
  co_answered : forall r, c_stage c = Answered (Some (Ok r)) ->
    exists x, c_entry c = Some x /\ entry_at eps x = Some (c_mutation c, mutation_id r) /\ not_after (c_begun c) x;
  co_returned : forall id, c_stage c = Returned (Ok id) ->
    exists x, c_entry c = Some x /\ entry_at eps x = Some (c_mutation c, id) /\ not_after (c_begun c) x /\ before x (c_ended c);
  co_ended : not_after (c_ended c) (now eps)
}.

Lemma call_ok_grow eps eps' c : not_after (now eps) (now eps') ->
  (forall x y, entry_at eps x = Some y -> entry_at eps' x = Some y) -> call_ok eps c -> call_ok eps' c.
Proof.
  intros Hn He [H1' H2' H3' H4' H5']. split; [unfold not_after in *; lia|done|..|unfold not_after in *; lia].
  - intros r Hr. destruct (H3' r Hr) as (x & ? & ? & ?). exists x. auto.
  - intros r Hr. destruct (H4' r Hr) as (x & ? & ? & ? & ?). exists x. auto.
Qed.

(** The accepted calls that have returned, with where they did. *)
Definition accepted_at n (i : nat) (c : Call) (id : Z) : Prop := dn_calls n !! i = Some c /\ c_stage c = Returned (Ok id).

Record dist_inv (s : PersistedState M) n : Prop := {
  di_epochs : epochs_ok (dn_sm n) (dn_epochs n) s;
  di_calls : Forall (call_ok (dn_epochs n)) (dn_calls n);
  di_distinct : forall i j c c' x, dn_calls n !! i = Some c -> dn_calls n !! j = Some c' -> c_entry c = Some x -> c_entry c' = Some x -> i = j;
  di_finished : NoDup (dn_finished n) /\ forall i, i ∈ dn_finished n <-> exists c id, accepted_at n i c id;
  di_events : Forall2 (fun i ev => exists c, dn_calls n !! i = Some c /\ ev = mutation_to_event (c_mutation c)) (dn_finished n) (d_events (dn_engine n));
  di_order : forall a b i j c c', (a < b)%nat -> dn_finished n !! a = Some i -> dn_finished n !! b = Some j ->
    dn_calls n !! i = Some c -> dn_calls n !! j = Some c' -> not_after (c_ended c) (c_ended c')
}.

(** Steps of the core leave the calls alone and let the history grow. *)
Lemma inv_core s n sm eps : dist_inv s n -> epochs_ok sm eps s -> not_after (now (dn_epochs n)) (now eps) ->
  (forall x y, entry_at (dn_epochs n) x = Some y -> entry_at eps x = Some y) -> dist_inv s (set_sm n sm eps).
Proof.
  intros [_ Hc Hd Hf Hev Ho] He Hn Hg. split; try done. cbn. eapply Forall_impl; [exact Hc|]. intros c. by apply call_ok_grow.
Qed.

Lemma inv_install_grow eps (base : option (PersistedState M)) : (0 < length eps)%nat ->
  let eps' := match base with Some b => eps ++ [{| ep_base := b; ep_log := [] |}] | None => eps end in
  not_after (now eps) (now eps') /\ forall x y, entry_at eps x = Some y -> entry_at eps' x = Some y.
Proof.
  intros Hl eps'. unfold eps'. destruct base; [|split; [unfold not_after; lia|done]].
  split; [by apply now_install|]. intros x y. apply entry_install.
Qed.

(** Replacing a call that has not returned by one in the same place. *)
Lemma inv_answer s n i c c' : dist_inv s n -> dn_calls n !! i = Some c -> c_stage c = Waiting ->
  c_mutation c' = c_mutation c -> c_ended c' = c_ended c -> (forall r, c_stage c' <> Returned r) ->
  call_ok (dn_epochs n) c' ->
  (forall x, c_entry c' = Some x -> forall j c'', dn_calls n !! j = Some c'' -> c_entry c'' <> Some x) ->
  dist_inv s (set_call n i c').
Proof.
  intros [He Hc Hd Hf Hev Ho] Hi Hw Hm Hend Hnr Hok Hfresh. pose proof (lookup_lt_Some _ _ _ Hi) as Hlt.
  assert (Hne : i ∉ dn_finished n) by (intros Hin; apply Hf in Hin as (c0 & id & Hc0 & Hr); congruence).
  assert (Hlook : forall j, j <> i -> <[i := c']> (dn_calls n) !! j = dn_calls n !! j) by (intros; by rewrite list_lookup_insert_ne).
  assert (Hfin : forall a j, dn_finished n !! a = Some j -> <[i := c']> (dn_calls n) !! j = dn_calls n !! j).
  { intros a j Ha. apply Hlook. intros ->. apply Hne. by eapply list_elem_of_lookup_2. }
  split; cbn.
  - done.
  - by apply Forall_insert.
  - intros j k c1 c2 x Hj Hk E1 E2. destruct (decide (j = i)) as [->|Hji], (decide (k = i)) as [->|Hki]; [done|..].
    + rewrite list_lookup_insert_eq in Hj by done. injection Hj as <-. rewrite Hlook in Hk by done. by destruct (Hfresh x E1 k c2).
    + rewrite list_lookup_insert_eq in Hk by done. injection Hk as <-. rewrite Hlook in Hj by done. by destruct (Hfresh x E2 j c1).
    + rewrite Hlook in Hj, Hk by done. by eapply Hd.
  - split; [apply Hf|]. intros j. rewrite (proj2 Hf j). unfold accepted_at. cbn. destruct (decide (j = i)) as [->|Hji].
    + rewrite list_lookup_insert_eq by done. split; intros (c0 & id & Hc0 & Hr); exfalso; [congruence|]. injection Hc0 as <-. by apply (Hnr (Ok id)).
    + by rewrite Hlook.
  - apply Forall2_same_length_lookup_2; [by eapply Forall2_length|]. intros a j ev Ha Hb.
    destruct (Forall2_lookup_lr _ _ _ _ _ _ Hev Ha Hb) as (c0 & Hc0 & ->). exists c0. by rewrite (Hfin a).
  - intros a b j k c1 c2 Hab Ha Hb Hj Hk. rewrite (Hfin a) in Hj by done. rewrite (Hfin b) in Hk by done. by eapply Ho.
Qed.

Lemma inv_return s n i c a d r : dist_inv s n -> dn_calls n !! i = Some c -> c_stage c = Answered a ->
  dist_finish (dn_engine n) (c_mutation c) a = (d, r) ->
  dist_inv s {| dn_sm := dn_sm n; dn_engine := d; dn_epochs := dn_epochs n;
      dn_finished := if is_ok r then dn_finished n ++ [i] else dn_finished n;
      dn_calls := <[i := {| c_mutation := c_mutation c; c_stage := Returned r; c_begun := c_begun c; c_entry := c_entry c;
                            c_ended := now (dn_epochs n) |}]> (dn_calls n) |}.
Proof.
  intros [He Hc Hd Hf Hev Ho] Hi Hw Hfin. pose proof (lookup_lt_Some _ _ _ Hi) as Hlt.
  set (c1 := {| c_mutation := c_mutation c; c_stage := Returned r; c_begun := c_begun c; c_entry := c_entry c; c_ended := now (dn_epochs n) |}).
  assert (Hne : i ∉ dn_finished n) by (intros Hin; apply Hf in Hin as (c0 & id & Hc0 & Hr); congruence).
  assert (Hlook : forall j, j <> i -> <[i := c1]> (dn_calls n) !! j = dn_calls n !! j) by (intros; by rewrite list_lookup_insert_ne).
  assert (Hold : forall a j, dn_finished n !! a = Some j -> <[i := c1]> (dn_calls n) !! j = dn_calls n !! j).
  { intros a' j Ha. apply Hlook. intros ->. apply Hne. by eapply list_elem_of_lookup_2. }
  assert (Hci : call_ok (dn_epochs n) c) by by eapply Forall_lookup_1.
  assert (Hc1 : call_ok (dn_epochs n) c1).
  { destruct Hci as [C1 C2 C3 C4 C5]. split; cbn; [done|done|done| |unfold not_after; lia].
    intros id [= ->]. unfold dist_finish in Hfin. destruct a as [[r0|e]|]; [|done..]. injection Hfin as _ <-.
    destruct (C3 r0 Hw) as (x & E1 & E2 & E3). exists x. split; [done|]. split; [done|]. split; [done|]. by eapply entry_before_now. }
  assert (Hevs : (is_ok r = true /\ d_events d = d_events (dn_engine n) ++ [mutation_to_event (c_mutation c)]) \/ (is_ok r = false /\ d = dn_engine n)).
  { unfold dist_finish in Hfin. destruct a as [[r0|e]|]; injection Hfin as <- <-; [by left|by right|by right]. }
  assert (Hacc : forall j, (exists c0 id, <[i := c1]> (dn_calls n) !! j = Some c0 /\ c_stage c0 = Returned (Ok id)) <->
      (j = i /\ is_ok r = true) \/ (exists c0 id, accepted_at n j c0 id)).
  { intros j. destruct (decide (j = i)) as [->|Hji].
    - rewrite list_lookup_insert_eq by done. split.
      + intros (c0 & id & [= <-] & [= ->]). by left.
      + intros [[_ Hr]|(c0 & id & Hc0 & Hst)]; [|congruence]. destruct r as [id|]; [|done]. by exists c1, id.
    - rewrite Hlook by done. split; [by right|]. intros [[? _]|]; done. }
  split; cbn.
  - done.
  - by apply Forall_insert.
  - intros j k c2 c3 x Hj Hk E1 E2.
    assert (Hpre : forall j c2, <[i := c1]> (dn_calls n) !! j = Some c2 -> exists c0, dn_calls n !! j = Some c0 /\ c_entry c0 = c_entry c2).
    { intros j' c' Hj'. destruct (decide (j' = i)) as [->|]; [|rewrite Hlook in Hj' by done; by exists c'].
      rewrite list_lookup_insert_eq in Hj' by done. injection Hj' as <-. by exists c. }
    destruct (Hpre j c2 Hj) as (p1 & P1 & Q1), (Hpre k c3 Hk) as (p2 & P2 & Q2).
    apply (Hd j k p1 p2 x P1 P2); congruence.
  - destruct Hf as [Hnd Hin]. split.
    + destruct (is_ok r); [|done]. apply NoDup_app. split; [done|]. split; [|apply NoDup_singleton]. by intros j Hj ->%list_elem_of_singleton.
    + intros j. unfold accepted_at at 1. cbn. rewrite Hacc, <- (Hin j).
      destruct (is_ok r); [rewrite elem_of_app, list_elem_of_singleton; tauto|]. split; [by right|]. by intros [[_ ?]|?].
  - assert (Hev' : Forall2 (fun i0 ev => exists c0, <[i := c1]> (dn_calls n) !! i0 = Some c0 /\ ev = mutation_to_event (c_mutation c0)) (dn_finished n) (d_events (dn_engine n))).
    { apply Forall2_same_length_lookup_2; [by eapply Forall2_length|]. intros a' j ev Ha Hb.
      destruct (Forall2_lookup_lr _ _ _ _ _ _ Hev Ha Hb) as (c0 & Hc0 & ->). exists c0. by rewrite (Hold a'). }
    destruct Hevs as [[-> ->]|[-> ->]]; [|done]. apply Forall2_app; [done|]. repeat constructor. exists c1.
    by rewrite list_lookup_insert_eq.
  - intros a' b j k c2 c3 Hab Ha Hb Hj Hk.
    assert (Hend : forall j c0, <[i := c1]> (dn_calls n) !! j = Some c0 -> not_after (c_ended c0) (now (dn_epochs n))).
    { intros j' c0 Hj'. apply co_ended. eapply Forall_lookup_1; [|exact Hj']. by apply Forall_insert. }
    destruct (is_ok r); [|rewrite (Hold a') in Hj by done; rewrite (Hold b) in Hk by done; by eapply Ho].
    apply lookup_app_Some in Hb as [Hb|[Hge Hb]].
    + apply lookup_app_Some in Ha as [Ha|[Hge' _]]; [|apply lookup_lt_Some in Hb; lia].
      rewrite (Hold a') in Hj by done; rewrite (Hold b) in Hk by done; by eapply Ho.
    + destruct (b - length (dn_finished n))%nat; [|done]. injection Hb as <-. rewrite list_lookup_insert_eq in Hk by done.
      injection Hk as <-. cbn. by apply (Hend j).
Qed.

Lemma dist_step_inv s n n' : dist_step payload_len n n' -> dist_inv s n -> dist_inv s n'.
Proof.
  intros Hstep Hi. assert (Hlen : (0 < length (dn_epochs n))%nat).
  { pose proof (eo_first _ _ _ (di_epochs _ _ Hi)) as Hf. destruct (dn_epochs n); [done|cbn; lia]. }
  destruct Hstep as [m|io es sm' r Ha|io1 io2 meta payload sm' r Ha|io1 io2 sm' r Ha|i c x id Hc Hw Hx Hb Hfresh|i c e Hc Hw|i c a d r Hc Hw Hfin].
  - destruct Hi as [He Hc Hd [Hnd Hin] Hev Ho]. set (c0 := {| c_mutation := m; c_stage := Waiting; c_begun := now (dn_epochs n); c_entry := None; c_ended := (0, 0)%nat |}).
    assert (Hkeep : forall i, i ∈ dn_finished n -> (dn_calls n ++ [c0]) !! i = dn_calls n !! i).
    { intros i Hfi. apply Hin in Hfi as (c & id & Hc' & _). rewrite lookup_app_l; [done|]. by eapply lookup_lt_Some. }
    assert (Hk2 : forall a i, dn_finished n !! a = Some i -> (dn_calls n ++ [c0]) !! i = dn_calls n !! i)
      by (intros a i Ha; by apply Hkeep; eapply list_elem_of_lookup_2).
    assert (Hnew : forall i c, (dn_calls n ++ [c0]) !! i = Some c -> dn_calls n !! i = Some c \/ c = c0).
    { intros i c [Hl|[_ Hl]]%lookup_app_Some; [by left|]. right. by destruct (i - length (dn_calls n))%nat; [injection Hl as <-|]. }
    split; cbn; [done|..].
    + apply Forall_app. split; [done|]. apply Forall_singleton. split; cbn; try done; unfold not_after; cbn; lia.
    + intros i j c c' x Hi' Hj Ei Ej. destruct (Hnew i c Hi') as [?| ->], (Hnew j c' Hj) as [?| ->]; try done. by eapply Hd.
    + split; [done|]. intros i. rewrite (Hin i). unfold accepted_at. cbn. split; intros (c & id & Hl & Hs).
      * exists c, id. split; [|done]. by apply lookup_app_l_Some.
      * destruct (Hnew i c Hl) as [?| ->]; [by exists c, id|done].
    + apply Forall2_same_length_lookup_2; [by eapply Forall2_length|]. intros a j ev Hja Hb.
      destruct (Forall2_lookup_lr _ _ _ _ _ _ Hev Hja Hb) as (c & Hc' & ->). exists c. by rewrite (Hk2 a).
    + intros a b i j c c' Hab Hfa Hfb Hi' Hj. rewrite (Hk2 a) in Hi' by done. rewrite (Hk2 b) in Hj by done. by eapply Ho.
  - apply inv_core; [done|by eapply epochs_apply, Ha; apply di_epochs|..].
    + destruct r; [apply now_extend|unfold not_after; lia].
    + destruct r; [intros x y; apply entry_extend|done].
  - destruct (inv_install_grow (dn_epochs n) (installed_base io1 meta payload (dn_sm n)) Hlen) as [Hn Hg].
    apply inv_core; [done| |done|done]. eapply epochs_install, Ha. apply di_epochs, Hi.
  - apply inv_core; [done|by eapply epochs_build, Ha; apply di_epochs|unfold not_after; lia|done].
  - eapply inv_answer; try done; cbn.
    + destruct (Forall_lookup_1 _ _ _ _ (di_calls _ _ Hi) Hc) as [C1 C2 C3 C4 C5]. split; cbn; try done.
      intros r [= <-]. by exists x.
    + intros x' [= <-]. done.
  - eapply inv_answer; try done; cbn.
    destruct (Forall_lookup_1 _ _ _ _ (di_calls _ _ Hi) Hc) as [C1 C2 C3 C4 C5]. split; cbn; try done. by destruct e.
  - by eapply inv_return.
Qed.

Lemma dist_start_inv sm s raft : holds sm s -> dist_inv s (dist_start sm s raft).
Proof.
  intros Hh. split; cbn; try done.
  - split; [done|..].
    + intros k ep Hk. by destruct k.
    + intros [|k] ep p m id Hk; [|by destruct k]. by injection Hk as <-.
    + eexists _, []. split; [done|]. split; [done|]. by rewrite state_after_nil.
  - split; [constructor|]. intros i. split; [by intros ?%elem_of_nil|]. by intros (c & id & Hc & _).
Qed.

Lemma dist_reachable sm s raft n : holds sm s -> rtc (dist_step payload_len) (dist_start sm s raft) n -> dist_inv s n.
Proof.
  intros Hh. apply (rtc_ind_r (fun n => dist_inv s n)); [by apply dist_start_inv|]. intros n1 n2 _ Hst. by apply dist_step_inv.
Qed.
End calls.

(** ** A cluster of lists

    Every node is its state machine; handles are positions. *)

Abbreviation lockstep := (list plain_sm).
Definition empty_sm : plain_sm := {| state_row := None; snapshot_row := None |}.
Definition lockstep_sm (w : lockstep) (raft : nat) : plain_sm := default empty_sm (w !! raft).

#[export] Instance lockstep_ops : ClusterOps lockstep unit (PersistedState unit) (PersistedSnapshot unit TopologySnapshot) := {
  node_sm := lockstep_sm;
  live w raft := (raft < length w)%nat;
  raft_new w id sm := Some (w ++ [sm], length w);
  raft_initialize w raft ms := Some w
}.

#[export] Instance lockstep_laws : ClusterLaws lockstep unit (PersistedState unit) (PersistedSnapshot unit TopologySnapshot).
Proof.
  split; cbn [node_sm raft_new raft_initialize live lockstep_ops].
  - intros w id sm w' raft [= <- <-]. unfold lockstep_sm. split; [lia|]. split; [rewrite length_app; cbn; lia|].
    split; [by rewrite list_lookup_middle|]. intros x Hx. split; [rewrite length_app; lia|]. by rewrite lookup_app_l.
  - intros w raft ms w' x [= <-]. by exists [], [], [].
Qed.

(** ** Theorems *)

(** C8: the clients of one cluster node see one replicated log, snapshots
    included.  Take any interleaving of overlapping [apply_mutation] calls of the node's engine
    (begun, answered with success, an error or not at all, and returned), batches the
    core applies for anyone, snapshots built and snapshots installed, with I/O failures anywhere.
    The history falls into epochs, one per installed snapshot; the topology read is the
    replay of the current epoch's mutations on the state it started from, and
    the id [apply] gave a mutation is its position in its epoch, counted from that state's counter,
    which every installed snapshot resets to 0, so ids repeat across epochs.  A call
    that returned an id has its mutation at that position, applied after it began and before it
    returned, at a place no other call has; so calls that do not overlap are in
    the log in their order.  The subscribers are told of exactly the returned calls that succeeded, once each, in the order they
    returned: calls that do not overlap in log order, overlapping ones in any. *)
Theorem distributed_one_log `{TopoOps} {M BS BX P} `{EncodingLaws (PersistedState M) BS} `{EncodingLaws (PersistedSnapshot M P) BX}
    `{EncodingLaws TopologySnapshot P} (payload_len : P -> Z) (sm : StateMachine BS BX) (s : PersistedState M) (raft : nat) (n : DistNode) :
  holds sm s -> rtc (dist_step payload_len) (dist_start sm s raft) n ->
  (exists ep, last (dn_epochs n) = Some ep /\
     dist_get_topology (M := M) no_faults (dn_sm n) = foldl topo_apply (ps_topology (ep_base ep)) (ep_log ep).*1) /\
  (ep_base <$> head (dn_epochs n) = Some s) /\
  (forall k ep, dn_epochs n !! S k = Some ep -> ps_next_mutation_id (ep_base ep) = 0) /\
  (forall k ep p m id, dn_epochs n !! k = Some ep -> ep_log ep !! p = Some (m, id) -> id = ps_next_mutation_id (ep_base ep) + Z.of_nat p) /\
  (forall i c id, accepted_at n i c id -> exists x, c_entry c = Some x /\ entry_at (dn_epochs n) x = Some (c_mutation c, id) /\
     not_after (c_begun c) x /\ before x (c_ended c)) /\
  (forall i j c c' id id', accepted_at n i c id -> accepted_at n j c' id' -> i <> j -> c_entry c <> c_entry c') /\
  (NoDup (dn_finished n) /\ forall i, i ∈ dn_finished n <-> exists c id, accepted_at n i c id) /\
  Forall2 (fun i ev => exists c, dn_calls n !! i = Some c /\ ev = mutation_to_event (c_mutation c)) (dn_finished n) (d_events (dn_engine n)) /\
  (forall a b i j c c', (a < b)%nat -> dn_finished n !! a = Some i -> dn_finished n !! b = Some j ->
     dn_calls n !! i = Some c -> dn_calls n !! j = Some c' -> ~ not_after (c_ended c') (c_begun c)).
Proof.
  intros Hh Hr. destruct (dist_reachable payload_len sm s raft n Hh Hr) as [[E1 E2 E3 (ep & es & E4 & E5 & E6)] Hc Hd Hf Hev Ho].
  assert (Hacc : forall i c id, accepted_at n i c id -> exists x, c_entry c = Some x /\ entry_at (dn_epochs n) x = Some (c_mutation c, id) /\
     not_after (c_begun c) x /\ before x (c_ended c)).
  { intros i c id [Hi Hs]. by apply (co_returned _ _ (Forall_lookup_1 _ _ _ _ Hc Hi)). }
  split; [|split; [done|split; [done|split; [done|split; [done|split; [|split; [done|split; [done|]]]]]]]].
  - exists ep. split; [done|]. unfold dist_get_topology. rewrite (reader_holds _ _ E6). cbn. by rewrite E5.
  - intros i j c c' id id' Hi Hj Hne Heq. destruct (Hacc i c id Hi) as (x & Hx & _). apply Hne.
    apply (Hd i j c c' x); [apply Hi|apply Hj|done|congruence].
  - intros a b i j c c' Hab Ha Hb Hi Hj Hno.
    assert (i ∈ dn_finished n) as (c0 & id & Hi0)%(proj2 Hf) by by eapply list_elem_of_lookup_2.
    assert (c0 = c) as -> by (destruct Hi0; congruence). destruct (Hacc i c id Hi0) as (x & _ & _ & Hx1 & Hx2).
    pose proof (Ho a b i j c c' Hab Ha Hb Hi Hj) as Hend. unfold not_after, before in *. lia.
Qed.

Abbreviation demo_node := (DistNode (M := unit) (BS := PersistedState unit) (BX := PersistedSnapshot unit TopologySnapshot)).
Definition fresh_sm : plain_sm := {| state_row := Some (PersistedState_default tt); snapshot_row := None |}.
Definition write_entry (i : Z) (m : Mutation) : Entry unit := sample_entry i m.

(** Two overlapping calls, applied in one batch in the order they began; the second
    caller runs first after the answers.  Then a snapshot is installed and a third call made. *)
Definition demo_calls (stage1 stage2 : call_stage) (ended1 ended2 : place) : list Call :=
  [{| c_mutation := AddNode sample_node; c_stage := stage1; c_begun := (0, 0)%nat; c_entry := Some (0, 0)%nat; c_ended := ended1 |};
   {| c_mutation := RemoveNode 7; c_stage := stage2; c_begun := (0, 0)%nat; c_entry := Some (0, 1)%nat; c_ended := ended2 |}].
Definition demo_log : list (Mutation * Z) := [(AddNode sample_node, 0); (RemoveNode 7, 1)].
Definition demo_meta : SnapshotMeta unit := {| sm_last_log_id := None; sm_last_membership := (None, tt); sm_snapshot_id := [] |}.

Definition demo_end : demo_node :=
  let sm1 := (apply no_faults [write_entry 1 (AddNode sample_node); write_entry 2 (RemoveNode 7)] fresh_sm).1 in
  let sm2 := (install_snapshot no_faults no_faults demo_meta topo_new sm1).1 in
  {| dn_sm := (apply no_faults [write_entry 9 (AddNode sample_node)] sm2).1;
     dn_engine := {| d_raft := 0; d_events := [NodeRemoved 7; NodeAdded sample_node; NodeAdded sample_node] |};
     dn_calls := demo_calls (Returned (Ok 0)) (Returned (Ok 1)) (0, 2)%nat (0, 2)%nat ++
       [{| c_mutation := AddNode sample_node; c_stage := Returned (Ok 0); c_begun := (1, 0)%nat; c_entry := Some (1, 0)%nat; c_ended := (1, 1)%nat |}];
     dn_finished := [1%nat; 0%nat; 2%nat];
     dn_epochs := [{| ep_base := PersistedState_default tt; ep_log := demo_log |};
                   {| ep_base := {| ps_topology := topo_new; ps_last_applied := None; ps_last_membership := (None, tt); ps_next_mutation_id := 0 |};
                      ep_log := [(AddNode sample_node, 0)] |}] |}.

(** Normalise the state a run has reached. *)
Ltac evaluate_state := match goal with |- rtc _ ?x _ => let y := eval vm_compute in x in change x with y end.
Tactic Notation "run_step" uconstr(r) := eapply rtc_l; [eapply r; reflexivity|evaluate_state].
Ltac run_accept i x id :=
  eapply rtc_l; [eapply (step_accepted _ _ i _ x id); [reflexivity|reflexivity|reflexivity|vm_compute; lia|]|evaluate_state];
  [by intros [|[|[|j]]] c' Hj; cbn in Hj; try discriminate; apply (inj Some) in Hj as <-|].

Lemma demo_run : rtc (dist_step (fun _ : TopologySnapshot => 0)) (dist_start fresh_sm (PersistedState_default tt) 0) demo_end.
Proof.
  eapply rtc_l; [apply (step_begin _ _ (AddNode sample_node))|evaluate_state].
  eapply rtc_l; [apply (step_begin _ _ (RemoveNode 7))|evaluate_state].
  run_step (step_apply _ _ no_faults [write_entry 1 (AddNode sample_node); write_entry 2 (RemoveNode 7)]).
  run_accept 0%nat (0, 0)%nat 0.
  run_accept 1%nat (0, 1)%nat 1.
  run_step (step_return _ _ 1%nat).
  run_step (step_return _ _ 0%nat).
  run_step (step_install _ _ no_faults no_faults demo_meta topo_new).
  eapply rtc_l; [apply (step_begin _ _ (AddNode sample_node))|evaluate_state].
  run_step (step_apply _ _ no_faults [write_entry 9 (AddNode sample_node)]).
  run_accept 2%nat (1, 0)%nat 0.
  run_step (step_return _ _ 2%nat). apply rtc_refl.
Qed.

(** The run ends with events out of log order, and with two accepted calls of id 0. *)
Lemma distributed_one_log_witness :
  dist_get_topology (M := unit) no_faults (dn_sm demo_end) = foldl topo_apply topo_new [AddNode sample_node] /\
  d_events (dn_engine demo_end) = [NodeRemoved 7; NodeAdded sample_node; NodeAdded sample_node] /\
  (exists c x, accepted_at demo_end 1 c 1 /\ entry_at (dn_epochs demo_end) x = Some (RemoveNode 7, 1) /\ not_after (c_begun c) x).
Proof.
  destruct (distributed_one_log (fun _ : TopologySnapshot => 0) fresh_sm (PersistedState_default tt) 0 demo_end) as (Ht & _ & _ & _ & Ha & _).
  - eexists. split; reflexivity.
  - exact demo_run.
  - destruct Ht as (ep & Hep & Ht). split; [|split; [reflexivity|]].
    + rewrite Ht. vm_compute in Hep. injection Hep as <-. reflexivity.
    + destruct (Ha 1%nat {| c_mutation := RemoveNode 7; c_stage := Returned (Ok 1); c_begun := (0, 0)%nat; c_entry := Some (0, 1)%nat; c_ended := (0, 2)%nat |} 1)
        as (x & _ & Hx & Hb & _); [split; reflexivity|].
      eexists _, x. split; [split; reflexivity|]. split; [exact Hx|exact Hb].
Defined.

(** The engine of a node that applies a batch for others changes its topology and
    tells nobody. *)
Lemma distributed_events_are_local :
  exists n : demo_node, rtc (dist_step (fun _ : TopologySnapshot => 0)) (dist_start fresh_sm (PersistedState_default tt) 1) n /\
    dist_get_topology (M := unit) no_faults (dn_sm n) = {| nodes := [sample_node]; edges := [] |} /\ d_events (dn_engine n) = [].
Proof.
  eexists. split; [eapply rtc_l; [eapply (step_apply _ _ no_faults [write_entry 1 (AddNode sample_node)]); reflexivity|apply rtc_refl]|].
  split; reflexivity.
Qed.

(** A read that fails answers the empty topology, and the id the control API
    then picks for a new node is one that is in use. *)
Lemma distributed_read_fault_reuses_id :
  let n := {| ns_id := 1; ns_inputs := []; ns_outputs := [] |} in
  let sm := (apply no_faults [write_entry 1 (AddNode n)] fresh_sm).1 in
  let io := fun st => bool_decide (st = BeginRead) in
  1 ∈ ids (dist_get_topology (M := unit) no_faults sm) /\ fresh_id (dist_get_topology (M := unit) io sm) = 1.
Proof. vm_compute. split; [left|reflexivity]. Qed.

(** ** Bootstrap *)

Section bootstrap.
Context `{TopoOps} {M W BS BX : Type} (default_membership : M) `{EncodingLaws (PersistedState M) BS}
  `{!ClusterOps W M BS BX} `{!ClusterLaws W M BS BX}.
Implicit Types (w : W) (reg : Registry).

(** The nodes made so far: distinct live handles, each registered under its id
    with the seeded state machine. *)
Definition spawned w reg (ns : list ClusterNode) : Prop :=
  NoDup (cn_raft <$> ns) /\
  forall n, n ∈ ns -> live w (cn_raft n) /\ reg !! cn_id n = Some (cn_raft n) /\
    holds (node_sm w (cn_raft n)) (PersistedState_default default_membership).

Lemma spawn_node_spawned w reg ns id st : id ∉ (cn_id <$> ns) -> spawned w reg ns ->
  spawn_node default_membership (w, reg, ns) id = Some st ->
  exists raft, st.2 = ns ++ [{| cn_id := id; cn_raft := raft |}] /\ spawned st.1.1 st.1.2 st.2.
Proof.
  intros Hid [Hnd Hns]. unfold spawn_node, sm_new_ephemeral.
  destruct (sm_open default_membership no_faults _) as [sm|e] eqn:Eo; [|done]. cbn [mbind option_bind].
  destruct (sm_open_holds default_membership no_faults _ sm Eo) as (_ & Hseed & _). specialize (Hseed eq_refl).
  destruct (raft_new w id sm) as [[w' raft]|] eqn:En; [|done]. cbn [mbind option_bind]. intros [= <-]. exists raft.
  apply raft_new_fresh in En as (Hdead & Hlive & Hsm & Hkeep). split; [done|]. cbn [fst snd]. split.
  - rewrite fmap_app. apply NoDup_app. split; [done|]. split; [|apply NoDup_singleton].
    intros x (n & -> & Hn)%list_elem_of_fmap Hx%list_elem_of_singleton. apply Hdead. cbn in Hx. rewrite <- Hx. by apply Hns.
  - intros n [Hn| ->%list_elem_of_singleton]%elem_of_app.
    + destruct (Hns n Hn) as (Hl & Hr & Hh). destruct (Hkeep _ Hl) as [Hl' ->]. split; [done|]. split; [|done].
      unfold register. rewrite lookup_insert_ne; [done|]. intros ->. apply Hid. by apply list_elem_of_fmap_2.
    + cbn. split; [done|]. split; [apply lookup_insert_eq|]. by rewrite Hsm.
Qed.

Lemma spawn_nodes_spawned l : forall w reg ns st, NoDup ((cn_id <$> ns) ++ l) -> spawned w reg ns ->
  spawn_nodes default_membership (w, reg, ns) l = Some st ->
  cn_id <$> st.2 = (cn_id <$> ns) ++ l /\ spawned st.1.1 st.1.2 st.2.
Proof.
  induction l as [|id l IH]; intros w reg ns st Hnd Hsp; cbn [spawn_nodes].
  { intros [= <-]. by rewrite app_nil_r. }
  destruct (spawn_node default_membership (w, reg, ns) id) as [[[w1 reg1] ns1]|] eqn:E; [|done]. cbn [mbind option_bind].
  apply spawn_node_spawned in E as (raft & Hns1 & Hsp1); [|by intros Hin; eapply NoDup_app in Hnd as (_ & Hd & _); eapply Hd; [done|left]|done].
  cbn in Hns1, Hsp1. subst ns1. intros Hl. apply IH in Hl; [|by rewrite fmap_app, <- app_assoc|done].
  by rewrite fmap_app, <- app_assoc in Hl.
Qed.
End bootstrap.

(** A cluster comes up whole.  For distinct ids, a bootstrap that does not
    panic returns the nodes in the order asked for, on distinct cores; every
    node answers to its id on the network; every node's engine reads the empty
    topology; and the voters the first node was initialised with are exactly
    the ids. *)
Theorem cluster_boots_empty `{TopoOps} {M W BS BX} (default_membership : M) `{EncodingLaws (PersistedState M) BS}
    `{!ClusterOps W M BS BX} `{!ClusterLaws W M BS BX} (w w' : W) (node_ids : list Z) reg ns :
  NoDup node_ids -> spawn_cluster default_membership w node_ids = Some (w', reg, ns) ->
  cn_id <$> ns = node_ids /\ NoDup (cn_raft <$> ns) /\
  (forall n, n ∈ ns -> lookup_target reg (new_client (cn_id n)) = Ok (cn_raft n) /\
     dist_get_topology (M := M) no_faults (node_sm w' (cn_raft n)) = topo_new) /\
  dom (members_of node_ids) = list_to_set node_ids.
Proof.
  intros Hnd Hsp. destruct node_ids as [|id l]; [done|]. unfold spawn_cluster in Hsp.
  apply bind_Some in Hsp as ([[w1 reg1] ns1] & Hn & Hsp). apply bind_Some in Hsp as (first & _ & Hsp).
  apply bind_Some in Hsp as (w2 & Hi & Hsp). injection Hsp as <- <- <-.
  destruct (spawn_nodes_spawned default_membership (id :: l) w LoopbackNetworkFactory_new [] (w1, reg1, ns1)) as [Hids [Hr Hns]];
    [done|split; [constructor|by intros n ?%elem_of_nil]|done|].
  cbn in Hids, Hr, Hns. split; [done|]. split; [done|]. split.
  - intros n Hin. destruct (Hns n Hin) as (_ & Hreg & Hh). unfold lookup_target. cbn [target new_client]. rewrite Hreg. split; [done|].
    destruct (raft_initialize_members _ _ _ _ (cn_raft n) Hi) as (calls & applied & rs & Hrun & Hnone).
    pose proof (sm_run_holds calls _ _ Hh) as Hh2. rewrite Hrun in Hh2. destruct Hh2 as [Hh2 _].
    unfold dist_get_topology. rewrite (reader_holds _ _ Hh2). cbn. by rewrite Hnone.
  - unfold members_of. rewrite dom_list_to_map_L. f_equal. by rewrite <- list_fmap_compose, list_fmap_id.
Qed.

Lemma cluster_boots_empty_witness :
  exists w reg ns, spawn_cluster tt ([] : lockstep) [1; 2; 3] = Some (w, reg, ns) /\
    lookup_target reg (new_client 2) = Ok 1%nat /\ cn_id <$> ns = [1; 2; 3].
Proof.
  destruct (spawn_cluster tt ([] : lockstep) [1; 2; 3]) as [[[w reg] ns]|] eqn:E; [|vm_compute in E; discriminate].
  destruct (cluster_boots_empty tt ([] : lockstep) w [1; 2; 3] reg ns) as (H1 & _ & H3 & _).
  - apply (bool_decide_eq_true_1 _); vm_compute; reflexivity.
  - exact E.
  - exists w, reg, ns. split; [reflexivity|]. split; [|exact H1].
    apply (H3 {| cn_id := 2; cn_raft := 1 |}). vm_compute in E. injection E as <- <- <-. right; left.
Defined.
