(* ===== verification/Rest.v ===== *)
(** * The REST façade

    The rest of [crates/control-api/src/lib.rs]: the [RestApi] and its
    constructors, the routes and the handlers as one function from requests to
    responses.  Matching a path against the routes, JSON and the socket are
    axum's; a request is the handler axum calls with its decoded arguments. *)

From Stdlib Require Import String.
From stdpp Require Import gmap.
From S2P Require Import Prelude F32 RString External Topology SessionStore ControlApi.
Local Open Scope Z_scope.

(** ** Routes *)

Inductive Method : Type := GET | POST | DELETE.
Inductive segment : Type := Lit (s : String.string) | Capture.
Inductive endpoint : Type :=
| EListNodes | ECreateNode | EDeleteNode | EListLinks | ECreateLink | EDeleteLink | ETopology | EGetPreset | EImportPreset.

#[export] Instance Method_eq_dec : EqDecision Method.
Proof. solve_decision. Defined.
#[export] Instance segment_eq_dec : EqDecision segment.
Proof. solve_decision. Defined.
#[export] Instance endpoint_eq_dec : EqDecision endpoint.
Proof. solve_decision. Defined.

Definition build_router : list (list segment * list (Method * endpoint)) :=
  [([Lit "nodes"], [(GET, EListNodes); (POST, ECreateNode)]);
   ([Lit "nodes"; Capture], [(DELETE, EDeleteNode)]);
   ([Lit "links"], [(GET, EListLinks); (POST, ECreateLink)]);
   ([Lit "links"; Capture], [(DELETE, EDeleteLink)]);
   ([Lit "topology"], [(GET, ETopology)]);
   ([Lit "preset"], [(GET, EGetPreset); (POST, EImportPreset)])]%string.

(** ** The façade *)

Record RestApi (S : Type) : Type := {
  ra_store : S; ra_kinds : gmap Z rstring; ra_params : gmap Z NodeParams
}.
Arguments ra_store {S}.
Arguments ra_kinds {S}.
Arguments ra_params {S}.
Arguments Build_RestApi {S}.

(** A request with its arguments, and what is answered. *)
Inductive Request : Type :=
| ListNodes | CreateNode (spec : NodeSpec) | DeleteNode (id : Z)
| ListLinks | CreateLink (req : LinkRequest) | DeleteLink (id : Z)
| GetTopology | GetPreset | ImportPreset (preset : Preset).

Inductive body : Type :=
| NoBody | NodeList (l : list NodeInfo) | LinkList (l : list LinkInfo) | TopologyBody (t : TopologyInfo)
| PresetBody (p : Preset) | CreateNodeResponse (id : Z) | LinkResponse (id : Z) | ErrorText (e : ControlError).

Section rest.
Context `{TopoOps} {S : Type} `{StoreOps S}.
Implicit Types c : GraphController S.

Definition RestApi_new_with_registries (s : S) (kinds : gmap Z rstring) (params : gmap Z NodeParams) : RestApi S :=
  {| ra_store := s; ra_kinds := kinds; ra_params := params |}.
Definition RestApi_new_with_kind_registry (s : S) (kinds : gmap Z rstring) : RestApi S :=
  RestApi_new_with_registries s kinds ∅.
Definition RestApi_new (s : S) : RestApi S := RestApi_new_with_registries s ∅ ∅.

Definition GraphController_new_with_kind_registry (s : S) (k : gmap Z rstring) : GraphController S :=
  GraphController_new_with_registries s k ∅.

Definition controller (api : RestApi S) : GraphController S :=
  GraphController_new_with_registries (ra_store api) (ra_kinds api) (ra_params api).

Definition list_nodes_handler c : body := NodeList (list_nodes c).
Definition list_links_handler c : body := LinkList (list_links c).
Definition get_preset_handler c : body := PresetBody (export_preset c).

(** The error text of the handlers that answer one. *)
Definition failure {X} (r : result X ControlError) : body :=
  match r with Ok _ => NoBody | Err e => ErrorText e end.

(** One request: the state after it, the status and the body. *)
Definition handle c (r : Request) : GraphController S * Z * body :=
  match r with
  | ListNodes => (c, 200, list_nodes_handler c)
  | ListLinks => (c, 200, list_links_handler c)
  | GetTopology => (c, 200, TopologyBody (get_topology_handler c))
  | GetPreset => (c, 200, get_preset_handler c)
  | CreateNode spec =>
      let '(c, status, id) := create_node_handler c spec in
      (c, status, match id with Some id => CreateNodeResponse id | None => NoBody end)
  | CreateLink req =>
      let '(c, status, id) := create_link_handler c req in
      (c, status, match id with Some id => LinkResponse id | None => NoBody end)
  | DeleteNode id => let '(c', status) := delete_node_handler c id in (c', status, failure (delete_node c id).2)
  | DeleteLink id => let '(c', status) := delete_link_handler c id in (c', status, failure (delete_link c id).2)
  | ImportPreset p => let '(c', status) := import_preset_handler c p in (c', status, failure (import_preset c p).2)
  end.

(** The requests of a session, in the order the controller sees them. *)
Fixpoint serve_requests c (rs : list Request) : GraphController S * list (Z * body) :=
  match rs with
  | [] => (c, [])
  | r :: rs =>
      let '(c, status, b) := handle c r in
      let '(c, answers) := serve_requests c rs in (c, (status, b) :: answers)
  end.

(** [serve]: the controller is built first; without a socket nothing is
    served. *)
Definition serve {E} (api : RestApi S) (bound : result unit E) (rs : list Request)
    : GraphController S * result (list (Z * body)) E :=
  let c := controller api in
  match bound with
  | Err e => (c, Err e)
  | Ok _ => let '(c, answers) := serve_requests c rs in (c, Ok answers)
  end.
End rest.

(** ** Facts *)

(** No route shadows another and every handler has exactly one. *)
Lemma router_unambiguous :
  NoDup build_router.*1 /\ Forall (fun r => NoDup r.2.*1) build_router /\
  (build_router ≫= fun r => r.2.*2) =
    [EListNodes; ECreateNode; EDeleteNode; EListLinks; ECreateLink; EDeleteLink; ETopology; EGetPreset; EImportPreset].
Proof.
  split; [apply (bool_decide_eq_true_1 _); vm_compute; reflexivity|].
  split; [|reflexivity]. repeat constructor; apply (bool_decide_eq_true_1 _); vm_compute; reflexivity.
Qed.

Section rest_facts.
Context `{TopoLaws} {S : Type} `{StoreOps S} `{!StoreLaws S}.
Implicit Types c : GraphController S.

(** What a client can observe of a controller. *)
Definition observed c : list NodeInfo * list LinkInfo := (list_nodes c, list_links c).

Lemma observed_same c c' :
  get_topology (store c') = get_topology (store c) -> labels c' = labels c -> kinds c' = kinds c -> params c' = params c ->
  observed c' = observed c.
Proof. intros Ht Hl Hk Hp. unfold observed, list_nodes, list_links. by rewrite Ht, Hl, Hk, Hp. Qed.

Definition is_import (r : Request) : bool := match r with ImportPreset _ => true | _ => false end.
Definition is_get (r : Request) : bool :=
  match r with ListNodes | ListLinks | GetTopology | GetPreset => true | _ => false end.

(** The ports of a request are unsigned. *)
Definition request_ok (r : Request) : Prop :=
  match r with
  | CreateLink req => 0 <= default 0 (lr_from_port req) /\ 0 <= default 0 (lr_to_port req)
  | _ => True
  end.

Lemma status_for_error e : status_for e = 400 \/ status_for e = 404 \/ status_for e = 422 \/ status_for e = 501.
Proof. destruct e; cbn; auto. Qed.

(** Ids leave room for [n] more nodes. *)
Definition roomy (n : nat) c : Prop :=
  Forall (fun i => 0 <= i /\ i + Z.of_nat n < usize_max) (ids (get_topology (store c))).

Lemma roomy_room n c : roomy n c -> room (get_topology (store c)).
Proof. intros Hr. eapply Forall_impl; [exact Hr|]. cbn. intros i. lia. Qed.

Lemma roomy_less n c : roomy (Datatypes.S n) c -> roomy n c.
Proof. intros Hr. eapply Forall_impl; [exact Hr|]. cbn. intros i. lia. Qed.

Lemma fresh_id_bound n c : roomy (Datatypes.S n) c -> Z.of_nat n + 1 < usize_max ->
  0 <= fresh_id (get_topology (store c)) /\ fresh_id (get_topology (store c)) + Z.of_nat n < usize_max.
Proof.
  unfold roomy, fresh_id, max_id, sat_add, usize_max. intros Hr Hn. rewrite Forall_forall in Hr.
  destruct (ids (get_topology (store c))) as [|i l]; cbn [default from_option id]; [lia|].
  assert (foldl Z.max i l ∈ i :: l) as Hin by (destruct (foldl_max_elem l i) as [->|]; [by left|by right]).
  specialize (Hr _ Hin). cbn [default from_option]. unfold id. lia.
Qed.

(** What one request other than an import does. *)
Definition answered c c' (r : Request) (status : Z) (b : body) : Prop :=
  (status = 200 \/ status = 201 \/ status = 204 \/ status = 400 \/ status = 404 \/ status = 422) /\
  (400 <= status -> observed c' = observed c) /\
  (is_get r = true -> c' = c /\ status = 200) /\
  (forall id, b = CreateNodeResponse id -> status = 201 /\ exists n, n ∈ list_nodes c' /\ ni_id n = id) /\
  (forall id, b = LinkResponse id -> status = 201 /\ exists l, list_links c' !! Z.to_nat id = Some l /\ li_id l = id).

Lemma answered_get c r b : is_get r = true ->
  (forall id, b <> CreateNodeResponse id) -> (forall id, b <> LinkResponse id) -> answered c c r 200 b.
Proof.
  intros Hg Hb1 Hb2. split; [by left|]. split; [done|]. split; [done|].
  split; intros id Hb; [by destruct (Hb1 id)|by destruct (Hb2 id)].
Qed.

(** A refused request. *)
Lemma answered_refused c c' r e b : is_get r = false -> status_for e <> 501 -> observed c' = observed c ->
  (forall id, b <> CreateNodeResponse id) -> (forall id, b <> LinkResponse id) -> answered c c' r (status_for e) b.
Proof.
  intros Hg He Ho Hb1 Hb2. destruct (status_for_error e) as [E|[E|[E|E]]]; [..|done]; rewrite E;
    (split; [auto 10|]; split; [done|]; split; [by rewrite Hg|]; split; intros id Hb; [by destruct (Hb1 id)|by destruct (Hb2 id)]).
Qed.

Lemma create_answered c spec c' st b : ctl_inv c -> room (get_topology (store c)) -> handle c (CreateNode spec) = (c', st, b) ->
  answered c c' (CreateNode spec) st b.
Proof.
  intros Hc Hroom. cbn. unfold create_node_handler. destruct (fresh_id_spec _ Hroom) as (Hfresh & _ & _).
  destruct (create_node_cases c spec)
    as [(k & c1 & Hk & -> & Ht & Hl & Hks & Hp)|(e & c1 & -> & Ht & Hl & Hks & Hp & He)]; intros [= <- <- <-].
  - split; [auto|]. split; [lia|]. split; [done|]. split; [|done]. intros id [= <-]. split; [done|].
    unfold list_nodes. rewrite Ht, topo_add_fresh by done. cbn [nodes]. rewrite fmap_app.
    eexists. split; [apply elem_of_app; right; left|done].
  - apply answered_refused; [done| |by apply observed_same|done|done].
    destruct He as [He|[_ [s ->]]]; [|done]. unfold check_spec in He. case_bool_decide; [by injection He as <-|].
    destruct (sp_params spec); [|done]. destruct (sp_kind spec); [|done]. case_bool_decide; [by injection He as <-|done].
Qed.

Lemma link_answered c req c' st b : ctl_inv c -> request_ok (CreateLink req) -> handle c (CreateLink req) = (c', st, b) ->
  answered c c' (CreateLink req) st b.
Proof.
  intros Hc [Hf Hto]. cbn. unfold create_link_handler.
  destruct (link_ports_cases c (lr_from req) (default 0 (lr_from_port req)) (lr_to req) (default 0 (lr_to_port req))
              (proj1 (ci_topo _ Hc)) Hf Hto) as [(_ & _ & c1 & -> & Ht & _)|(e & c1 & -> & Ht & Hl & Hk & Hp & He)]; intros [= <- <- <-].
  - split; [auto|]. split; [lia|]. split; [done|]. split; [done|]. intros id [= <-]. split; [done|].
    unfold list_links. rewrite Ht, topo_add_link. cbn [edges]. rewrite list_lookup_imap, Nat2Z.id, list_lookup_middle by done.
    cbn. by eexists.
  - apply answered_refused; [done| |by apply observed_same|done|done]. destruct He as [->|[[-> _]|[-> _]]]; done.
Qed.

Lemma delete_node_answered c id c' st b : ctl_inv c -> handle c (DeleteNode id) = (c', st, b) -> answered c c' (DeleteNode id) st b.
Proof.
  intros Hc. cbn. unfold delete_node_handler.
  destruct (delete_node_cases c id (proj1 (ci_topo _ Hc)))
    as [(_ & c1 & -> & _)|(e & c1 & -> & Ht & Hl & Hk & Hp & He)]; intros [= <- <- <-].
  - split; [auto 10|]. split; [lia|]. done.
  - apply answered_refused; [done| |by apply observed_same|done|done]. by destruct He as [[_ ->]|[_ [s ->]]].
Qed.

Lemma delete_link_answered c id c' st b : handle c (DeleteLink id) = (c', st, b) -> answered c c' (DeleteLink id) st b.
Proof.
  cbn. unfold delete_link_handler.
  destruct (delete_link_cases c id) as [[_ ->]|(_ & c1 & [[-> Ht]|(s & -> & Ht)] & Hl & Hk & Hp)]; intros [= <- <- <-].
  - by apply (answered_refused c c (DeleteLink id) (NotFound (NoLink id))).
  - split; [auto 10|]. split; [lia|]. done.
  - apply (answered_refused c c1 (DeleteLink id) (Graph (StoreFailed s))); [done|done|by apply observed_same|done|done].
Qed.

Lemma handle_answered c r c' st b : ctl_inv c -> room (get_topology (store c)) -> request_ok r -> is_import r = false ->
  handle c r = (c', st, b) -> answered c c' r st b.
Proof.
  intros Hc Hroom Hr Hi Hh. destruct r; try done.
  - injection Hh as <- <- <-. by apply answered_get.
  - by eapply create_answered.
  - by eapply delete_node_answered.
  - injection Hh as <- <- <-. by apply answered_get.
  - by eapply link_answered.
  - by eapply delete_link_answered.
  - injection Hh as <- <- <-. by apply answered_get.
  - injection Hh as <- <- <-. by apply answered_get.
Qed.

(** A request other than an import keeps the controller sound and uses up at
    most one id. *)
Lemma handle_inv c r : ctl_inv c -> room (get_topology (store c)) -> request_ok r -> is_import r = false ->
  ctl_inv (handle c r).1.1.
Proof.
  intros Hc Hroom Hr Hi. destruct r as [|spec|id| |req|id| | |]; try done; cbn.
  - pose proof (create_node_inv c spec Hc Hroom) as Hx. unfold create_node_handler. by destruct (create_node c spec) as [? []].
  - pose proof (delete_node_inv c id Hc) as Hx. unfold delete_node_handler. by destruct (delete_node c id) as [? []].
  - destruct Hr as [Hf Ht]. pose proof (link_ports_inv c (lr_from req) _ (lr_to req) _ Hc Hf Ht) as Hx.
    unfold create_link_handler. by destruct (link_ports c _ _ _ _) as [? []].
  - pose proof (delete_link_inv c id Hc) as Hx. unfold delete_link_handler. by destruct (delete_link c id) as [? []].
Qed.

Lemma roomy_same n c c' : get_topology (store c') = get_topology (store c) -> roomy n c -> roomy n c'.
Proof. unfold roomy. by intros ->. Qed.

Lemma handle_roomy n c r : ctl_inv c -> Z.of_nat n + 1 < usize_max -> roomy (Datatypes.S n) c -> request_ok r -> is_import r = false ->
  roomy n (handle c r).1.1.
Proof.
  intros Hc Hn Hroom Hr Hi. pose proof (roomy_less n c Hroom) as Hless. pose proof (roomy_room _ _ Hroom) as Hrm.
  destruct r as [|spec|id| |req|id| | |]; try done; cbn.
  - unfold create_node_handler. destruct (fresh_id_spec _ Hrm) as (Hfresh & _ & _).
    destruct (create_node_cases c spec) as [(k & c1 & _ & -> & Ht & _)|(e & c1 & -> & Ht & _)]; [|by eapply roomy_same].
    cbn. unfold roomy. rewrite Ht, topo_add_fresh by done. unfold ids. cbn [nodes]. rewrite fmap_app. apply Forall_app.
    split; [done|]. constructor; [|constructor]. by apply fresh_id_bound.
  - unfold delete_node_handler. destruct (delete_node_cases c id (proj1 (ci_topo _ Hc)))
      as [(Hin & c1 & -> & Ht & _)|(e & c1 & -> & Ht & _)]; [|by eapply roomy_same].
    cbn. unfold roomy. rewrite Ht, remove_ids by done. apply Forall_forall. intros i [_ Hi']%list_elem_of_filter.
    unfold roomy in Hless. rewrite Forall_forall in Hless. by apply Hless.
  - destruct Hr as [Hf Hto]. unfold create_link_handler.
    destruct (link_ports_cases c (lr_from req) _ (lr_to req) _ (proj1 (ci_topo _ Hc)) Hf Hto)
      as [(_ & _ & c1 & -> & Ht & _)|(e & c1 & -> & Ht & _)]; [|by eapply roomy_same].
    cbn. unfold roomy. by rewrite Ht, topo_add_link.
  - unfold delete_link_handler. destruct (delete_link_cases c id) as [[_ ->]|(_ & c1 & [[-> Ht]|(s & -> & Ht)] & _)];
      [done| |by eapply roomy_same]. cbn. unfold roomy. by rewrite Ht, topo_remove_link.
Qed.

Lemma serve_requests_inv k rs : forall c, ctl_inv c -> roomy (length rs + k) c -> Z.of_nat (length rs + k) < usize_max ->
  Forall (fun r => request_ok r /\ is_import r = false) rs ->
  ctl_inv (serve_requests c rs).1 /\ roomy k (serve_requests c rs).1.
Proof.
  induction rs as [|r rs IH]; intros c Hc Hroom Hn Hrs; [done|]. apply Forall_cons in Hrs as [[Hr Hi] Hrs].
  cbn [length Nat.add] in *.
  pose proof (handle_inv c r Hc (roomy_room _ _ Hroom) Hr Hi) as Hc1.
  pose proof (handle_roomy (length rs + k) c r Hc ltac:(lia) Hroom Hr Hi) as Hroom1.
  cbn [serve_requests]. destruct (handle c r) as [[c1 st] b]. cbn in Hc1, Hroom1.
  specialize (IH c1 Hc1 Hroom1 ltac:(lia) Hrs). by destruct (serve_requests c1 rs).
Qed.
End rest_facts.

(** ** Theorems *)

(** C12: every answer of a session is truthful and every refusal is free.  Over
    any sequence of REST requests other than preset imports, on a store with
    room for that many ids: the state stays sound; reading requests change
    nothing; a request refused with 400, 404 or 422 leaves every node, link,
    label, kind and parameter as listed before; an id answered with 201 names a
    node, or the position of a link, that is then listed. *)
Theorem rest_session_sound `{TopoLaws} {S} `{StoreOps S} `{!StoreLaws S} (api : RestApi S) (rs : list Request) (r : Request) :
  ctl_inv (controller api) -> roomy (Datatypes.S (length rs)) (controller api) ->
  Z.of_nat (Datatypes.S (length rs)) < usize_max ->
  Forall (fun r => request_ok r /\ is_import r = false) (rs ++ [r]) ->
  let c := (serve_requests (controller api) rs).1 in
  let '(c', status, b) := handle c r in
  ctl_inv c' /\
  (status = 200 \/ status = 201 \/ status = 204 \/ status = 400 \/ status = 404 \/ status = 422) /\
  (400 <= status -> list_nodes c' = list_nodes c /\ list_links c' = list_links c) /\
  (is_get r = true -> c' = c /\ status = 200) /\
  (forall id, b = CreateNodeResponse id -> status = 201 /\ exists n, n ∈ list_nodes c' /\ ni_id n = id) /\
  (forall id, b = LinkResponse id -> status = 201 /\ exists l, list_links c' !! Z.to_nat id = Some l /\ li_id l = id).
Proof.
  intros Hc Hroom Hn Hrs c. apply Forall_app in Hrs as [Hrs Hr]. apply Forall_cons in Hr as [[Hr Hi] _].
  destruct (serve_requests_inv 1 rs (controller api) Hc) as [Hc1 Hroom1]; [by rewrite Nat.add_1_r|lia|done|]. fold c in Hc1, Hroom1.
  pose proof (handle_inv c r Hc1 (roomy_room _ _ Hroom1) Hr Hi) as Hinv.
  destruct (handle c r) as [[c' st] b] eqn:E. split; [done|].
  destruct (handle_answered c r c' st b Hc1 (roomy_room _ _ Hroom1) Hr Hi E) as (H1' & H2' & H3').
  split; [done|]. split; [|done]. intros Hst. specialize (H2' Hst). unfold observed in H2'. by injection H2' as -> ->.
Qed.

Lemma rest_session_sound_witness :
  let api := RestApi_new example_store in
  let rs := [CreateNode (example_spec "a" 1 1); CreateNode (example_spec "" 1 1)] in
  let c := (serve_requests (controller api) rs).1 in
  let '(c', status, b) := handle c (CreateLink {| lr_from := 1; lr_from_port := None; lr_to := 9; lr_to_port := None |}) in
  status = 404 /\ list_nodes c' = list_nodes c.
Proof.
  intros api rs c.
  pose proof (rest_session_sound api rs (CreateLink {| lr_from := 1; lr_from_port := None; lr_to := 9; lr_to_port := None |})) as Hs.
  cbv zeta in Hs. fold c in Hs. destruct (handle c _) as [[c' st] b] eqn:E.
  assert (st = 404) as Hst by (vm_compute in E; injection E as _ <- _; reflexivity).
  split; [exact Hst|]. destruct Hs as (_ & _ & Hs & _); [..|apply Hs; rewrite Hst; lia].
  - apply (ctl_new_inv example_store). split; [vm_compute; constructor|]. intros e He. by apply elem_of_nil in He.
  - constructor.
  - reflexivity.
  - repeat constructor; cbn; lia.
Defined.
