(* ===== verification/Requests.v ===== *)
(** * Requests as programs over shared state

    The handlers of [crates/control-api/src/lib.rs] run on many threads at once and
    share a store and three registries, each behind its own lock; a handler locks them one
    at a time, so other threads run between its accesses.  A request is therefore a program whose
    steps are single accesses.  Run without interruption it is the handler of {!Rest}. *)

From Stdlib Require Import String.
From stdpp Require Import gmap.
From S2P Require Import Prelude F32 RString External Topology SessionStore ControlApi Rest.
Local Open Scope Z_scope.

(** ** Programs *)

Inductive prog (A : Type) : Type :=
| Ret (a : A)
| ReadTopology (k : TopologySnapshot -> prog A)
| Mutate (m : Mutation) (k : result Z ControlError -> prog A)
| ReadRegistries (k : gmap Z rstring -> gmap Z rstring -> gmap Z NodeParams -> prog A)
| SetLabel (id : Z) (v : option rstring) (k : prog A)
| SetKind (id : Z) (v : option rstring) (k : prog A)
| SetParams (id : Z) (v : option NodeParams) (k : prog A).
Arguments Ret {A}.
Arguments ReadTopology {A}.
Arguments Mutate {A}.
Arguments ReadRegistries {A}.
Arguments SetLabel {A}.
Arguments SetKind {A}.
Arguments SetParams {A}.

Fixpoint pbind {A B} (p : prog A) (f : A -> prog B) : prog B :=
  match p with
  | Ret a => f a
  | ReadTopology k => ReadTopology (fun t => pbind (k t) f)
  | Mutate m k => Mutate m (fun r => pbind (k r) f)
  | ReadRegistries k => ReadRegistries (fun l ks ps => pbind (k l ks ps) f)
  | SetLabel id v k => SetLabel id v (pbind k f)
  | SetKind id v k => SetKind id v (pbind k f)
  | SetParams id v k => SetParams id v (pbind k f)
  end.

Notation "'do*' x := p 'in' q" := (pbind p (fun x => q)) (at level 10, x name, p at level 100, q at level 200) : sonic_scope.
Local Open Scope sonic_scope.

(** ** The handlers, access by access *)

(** An entry of a registry, written or removed. *)
Definition set_entry {V} (m : gmap Z V) (id : Z) (v : option V) : gmap Z V :=
  match v with Some x => <[id := x]> m | None => delete id m end.

(** Recording a node: the kind and the parameters are written only when given. *)
Definition record_prog {A} (id : Z) (label : rstring) (kind : option rstring) (ps : option NodeParams) (k : prog A) : prog A :=
  let k := match ps with Some p => SetParams id (Some p) k | None => k end in
  let k := match kind with Some s => SetKind id (Some s) k | None => k end in
  SetLabel id (Some label) k.

Definition forget_prog {A} (id : Z) (k : prog A) : prog A := SetLabel id None (SetKind id None (SetParams id None k)).

(** The registries are read with all three locks held. *)
Definition list_nodes_prog : prog (list NodeInfo) :=
  ReadTopology (fun topo => ReadRegistries (fun labels kinds params =>
    Ret ((fun ns => {|
      ni_id := ns_id ns;
      ni_label := default (lit "node-" ++ dec (ns_id ns)) (labels !! ns_id ns);
      ni_inputs := wrap 16 (Z.of_nat (length (ns_inputs ns)));
      ni_outputs := wrap 16 (Z.of_nat (length (ns_outputs ns)));
      ni_kind := kinds !! ns_id ns;
      ni_params := params !! ns_id ns |}) <$> nodes topo))).

Definition list_links_prog : prog (list LinkInfo) :=
  ReadTopology (fun topo => Ret (imap (fun id edge => {|
     li_id := Z.of_nat id; li_from := (e_from edge).1; li_from_port := wrap 16 (e_from edge).2;
     li_to := (e_to edge).1; li_to_port := wrap 16 (e_to edge).2 |}) (edges topo))).

Definition create_node_prog (spec : NodeSpec) : prog (result Z ControlError) :=
  match check_spec spec with
  | Err e => Ret (Err e)
  | Ok kind =>
      ReadTopology (fun topo =>
        let new_id := fresh_id topo in
        Mutate (AddNode {| ns_id := new_id; ns_inputs := build_ports (sp_inputs spec) Input;
                           ns_outputs := build_ports (sp_outputs spec) Output |}) (fun r =>
          match r with
          | Err e => Ret (Err e)
          | Ok _ => record_prog new_id (sp_label spec) kind (sp_params spec) (Ret (Ok new_id))
          end))
  end.

Definition link_ports_prog `{TopoOps} (from from_port to to_port : Z) : prog (result Z ControlError) :=
  ReadTopology (fun topo =>
    match topo_node topo from with
    | None => Ret (Err (NotFound (NoSource from)))
    | Some src =>
        if Z.of_nat (length (ns_outputs src)) <=? from_port
        then Ret (Err (BadRequest (FromPortOutOfRange from (length (ns_outputs src)) from_port)))
        else
          match topo_node topo to with
          | None => Ret (Err (NotFound (NoDestination to)))
          | Some dst =>
              if Z.of_nat (length (ns_inputs dst)) <=? to_port
              then Ret (Err (BadRequest (ToPortOutOfRange to (length (ns_inputs dst)) to_port)))
              else
                Mutate (AddLink {| e_from := (from, from_port); e_to := (to, to_port) |}) (fun r =>
                  match r with
                  | Err e => Ret (Err e)
                  | Ok _ => ReadTopology (fun topo =>
                      Ret match length (edges topo) with
                          | O => Err (Graph LinkNotPersisted)
                          | S n => Ok (Z.of_nat n)
                          end)
                  end)
          end
    end).

Definition delete_node_prog `{TopoOps} (id : Z) : prog (result unit ControlError) :=
  ReadTopology (fun topo =>
    match topo_node topo id with
    | None => Ret (Err (NotFound (NoNode id)))
    | Some _ => Mutate (RemoveNode id) (fun r =>
        match r with Err e => Ret (Err e) | Ok _ => forget_prog id (Ret (Ok tt)) end)
    end).

Definition delete_link_prog (id : Z) : prog (result unit ControlError) :=
  ReadTopology (fun topo =>
    if Z.of_nat (length (edges topo)) <=? id then Ret (Err (NotFound (NoLink id)))
    else Mutate (RemoveLink (Z.to_nat id)) (fun r => Ret match r with Err e => Err e | Ok _ => Ok tt end)).

Definition export_preset_prog : prog Preset :=
  do* ns := list_nodes_prog in
  do* ls := list_links_prog in
  Ret {| pr_version := PRESET_VERSION;
         pr_nodes := (fun n => {| pn_id := ni_id n; pn_label := ni_label n; pn_inputs := ni_inputs n;
                                  pn_outputs := ni_outputs n; pn_kind := ni_kind n; pn_params := ni_params n |}) <$> ns;
         pr_links := (fun l => {| pl_from := li_from l; pl_from_port := li_from_port l;
                                  pl_to := li_to l; pl_to_port := li_to_port l |}) <$> ls |}.

Fixpoint clear_prog (existing : list Z) (k : prog (result unit ControlError)) : prog (result unit ControlError) :=
  match existing with
  | [] => k
  | id :: existing => Mutate (RemoveNode id) (fun r =>
      match r with Err e => Ret (Err e) | Ok _ => forget_prog id (clear_prog existing k) end)
  end.

Fixpoint restore_nodes_prog (ns : list PresetNode) (k : prog (result unit ControlError)) : prog (result unit ControlError) :=
  match ns with
  | [] => k
  | n :: ns => Mutate (AddNode (preset_snapshot n)) (fun r =>
      match r with
      | Err e => Ret (Err e)
      | Ok _ => record_prog (pn_id n) (pn_label n) (pn_kind n) (pn_params n) (restore_nodes_prog ns k)
      end)
  end.

Fixpoint restore_links_prog (ls : list PresetLink) : prog (result unit ControlError) :=
  match ls with
  | [] => Ret (Ok tt)
  | l :: ls => Mutate (AddLink (preset_edge l)) (fun r =>
      match r with Err e => Ret (Err e) | Ok _ => restore_links_prog ls end)
  end.

Definition import_preset_prog (preset : Preset) : prog (result unit ControlError) :=
  ReadTopology (fun topo => clear_prog (ids topo) (restore_nodes_prog (pr_nodes preset) (restore_links_prog (pr_links preset)))).

(** One request: its status and body. *)
Definition handle_prog `{TopoOps} (r : Request) : prog (Z * body) :=
  let created (resp : Z -> body) (x : result Z ControlError) :=
    match x with Ok id => (201, resp id) | Err e => (status_for e, NoBody) end in
  let emptied (x : result unit ControlError) :=
    match x with Ok _ => (204, NoBody) | Err e => (status_for e, ErrorText e) end in
  match r with
  | ListNodes => do* l := list_nodes_prog in Ret (200, NodeList l)
  | ListLinks => do* l := list_links_prog in Ret (200, LinkList l)
  | GetTopology => do* ns := list_nodes_prog in do* ls := list_links_prog in Ret (200, TopologyBody {| ti_nodes := ns; ti_links := ls |})
  | GetPreset => do* p := export_preset_prog in Ret (200, PresetBody p)
  | CreateNode spec => do* x := create_node_prog spec in Ret (created CreateNodeResponse x)
  | CreateLink req =>
      do* x := link_ports_prog (lr_from req) (default 0 (lr_from_port req)) (lr_to req) (default 0 (lr_to_port req)) in
      Ret (created LinkResponse x)
  | DeleteNode id => do* x := delete_node_prog id in Ret (emptied x)
  | DeleteLink id => do* x := delete_link_prog id in Ret (emptied x)
  | ImportPreset p => do* x := import_preset_prog p in Ret (emptied x)
  end.

(** ** Running *)

Section run.
Context `{TopoOps} {S : Type} `{StoreOps S}.
Implicit Types c : GraphController S.

Definition with_labels c l : GraphController S := {| store := store c; labels := l; kinds := kinds c; params := params c |}.
Definition with_kinds c k : GraphController S := {| store := store c; labels := labels c; kinds := k; params := params c |}.
Definition with_params c p : GraphController S := {| store := store c; labels := labels c; kinds := kinds c; params := p |}.

(** One access; [None] when the request has been answered. *)
Definition prog_step {A} c (p : prog A) : option (GraphController S * prog A) :=
  match p with
  | Ret _ => None
  | ReadTopology k => Some (c, k (get_topology (store c)))
  | Mutate m k => let '(c', r) := ctl_apply c m in Some (c', k r)
  | ReadRegistries k => Some (c, k (labels c) (kinds c) (params c))
  | SetLabel id v k => Some (with_labels c (set_entry (labels c) id v), k)
  | SetKind id v k => Some (with_kinds c (set_entry (kinds c) id v), k)
  | SetParams id v k => Some (with_params c (set_entry (params c) id v), k)
  end.

(** A request nobody interrupts. *)
Fixpoint exec {A} c (p : prog A) : GraphController S * A :=
  match p with
  | Ret a => (c, a)
  | ReadTopology k => exec c (k (get_topology (store c)))
  | Mutate m k => exec (ctl_apply c m).1 (k (ctl_apply c m).2)
  | ReadRegistries k => exec c (k (labels c) (kinds c) (params c))
  | SetLabel id v k => exec (with_labels c (set_entry (labels c) id v)) k
  | SetKind id v k => exec (with_kinds c (set_entry (kinds c) id v)) k
  | SetParams id v k => exec (with_params c (set_entry (params c) id v)) k
  end.

(** [exec] is the steps, one after the other. *)
Lemma exec_step {A} c (p : prog A) :
  match prog_step c p with
  | Some (c', p') => exec c p = exec c' p'
  | None => exists a, p = Ret a /\ exec c p = (c, a)
  end.
Proof. destruct p; cbn; try done; [by eexists|]. by destruct (ctl_apply c m). Qed.

Lemma exec_bind {A B} (p : prog A) (f : A -> prog B) : forall c, exec c (pbind p f) = exec (exec c p).1 (f (exec c p).2).
Proof. induction p as [a|k IH|m k IH|k IH|id v k IH|id v k IH|id v k IH]; intros c; cbn; auto. Qed.

(** ** A request run alone is its handler *)

Lemma exec_record {A} c id label kind ps (k : prog A) :
  exec c (record_prog id label kind ps k) = exec (record_node c id label kind ps) k.
Proof. unfold record_prog, record_node. by destruct kind, ps. Qed.

Lemma exec_forget {A} c id (k : prog A) : exec c (forget_prog id k) = exec (forget_node c id) k.
Proof. done. Qed.

Lemma exec_list_nodes c : exec c list_nodes_prog = (c, list_nodes c).
Proof. done. Qed.

Lemma exec_list_links c : exec c list_links_prog = (c, list_links c).
Proof. done. Qed.

Lemma exec_export c : exec c export_preset_prog = (c, export_preset c).
Proof. unfold export_preset_prog. by rewrite exec_bind, exec_list_nodes; cbn [fst snd]; rewrite exec_bind, exec_list_links. Qed.

Lemma exec_create c spec : exec c (create_node_prog spec) = create_node c spec.
Proof.
  unfold create_node_prog, create_node, create_prepare. destruct (check_spec spec) as [kind|e]; [|done]. cbn [exec rbind].
  unfold create_commit. cbv zeta. destruct (ctl_apply c _) as [c' [i|e]]; cbn [fst snd]; [by rewrite exec_record|done].
Qed.

Lemma exec_link c a b d e : exec c (link_ports_prog a b d e) = link_ports c a b d e.
Proof.
  unfold link_ports_prog, link_ports. cbv zeta. cbn [exec]. destruct (topo_node _ a) as [src|]; [|done]. destruct (_ <=? b); [done|].
  destruct (topo_node _ d) as [dst|]; [|done]. destruct (_ <=? e); [done|]. cbn [exec].
  destruct (ctl_apply c _) as [c' [i|err]]; cbn [fst snd exec]; [|done]. by destruct (length _).
Qed.

Lemma exec_delete_node c id : exec c (delete_node_prog id) = delete_node c id.
Proof.
  unfold delete_node_prog, delete_node. cbn [exec]. destruct (topo_node _ id); [|done]. cbn [exec].
  by destruct (ctl_apply c _) as [c' [i|err]].
Qed.

Lemma exec_delete_link c id : exec c (delete_link_prog id) = delete_link c id.
Proof.
  unfold delete_link_prog, delete_link. cbn [exec]. destruct (_ <=? id); [done|]. cbn [exec].
  by destruct (ctl_apply c _) as [c' [i|err]].
Qed.

Lemma exec_clear l k : forall c, exec c (clear_prog l k) =
  match (clear_nodes c l).2 with Ok _ => exec (clear_nodes c l).1 k | Err e => ((clear_nodes c l).1, Err e) end.
Proof.
  induction l as [|id l IH]; intros c; [done|]. cbn [clear_prog exec clear_nodes].
  destruct (ctl_apply c (RemoveNode id)) as [c' [i|err]]; cbn [fst snd]; [|done]. by rewrite exec_forget, IH.
Qed.

Lemma exec_restore_nodes ns k : forall c, exec c (restore_nodes_prog ns k) =
  match (restore_nodes c ns).2 with Ok _ => exec (restore_nodes c ns).1 k | Err e => ((restore_nodes c ns).1, Err e) end.
Proof.
  induction ns as [|n ns IH]; intros c; [done|]. cbn [restore_nodes_prog exec restore_nodes].
  destruct (ctl_apply c (AddNode _)) as [c' [i|err]]; cbn [fst snd]; [|done]. by rewrite exec_record, IH.
Qed.

Lemma exec_restore_links ls : forall c, exec c (restore_links_prog ls) = restore_links c ls.
Proof.
  induction ls as [|l ls IH]; intros c; [done|]. cbn [restore_links_prog exec restore_links].
  destruct (ctl_apply c (AddLink _)) as [c' [i|err]]; cbn [fst snd]; [by rewrite IH|done].
Qed.

Lemma exec_import c p : exec c (import_preset_prog p) = import_preset c p.
Proof.
  unfold import_preset_prog, import_preset. cbn [exec]. rewrite exec_clear.
  destruct (clear_nodes c _) as [c1 [u|e]]; cbn [fst snd]; [|done]. rewrite exec_restore_nodes.
  destruct (restore_nodes c1 _) as [c2 [u2|e]]; cbn [fst snd]; [|done]. apply exec_restore_links.
Qed.

(** A request run without interruption does exactly what {!Rest.handle} does. *)
Lemma exec_handle c r : let '(c', (status, b)) := exec c (handle_prog r) in handle c r = (c', status, b).
Proof.
  destruct r as [|spec|id| |req|id| | |p]; unfold handle_prog, handle; rewrite ?exec_bind, ?exec_list_nodes, ?exec_list_links; cbn [fst snd].
  - done.
  - rewrite exec_create. unfold create_node_handler. by destruct (create_node c spec) as [c' [i|e]].
  - rewrite exec_delete_node. unfold delete_node_handler. by destruct (delete_node c id) as [c' [i|e]].
  - done.
  - rewrite exec_link. unfold create_link_handler. by destruct (link_ports c _ _ _ _) as [c' [i|e]].
  - rewrite exec_delete_link. unfold delete_link_handler. by destruct (delete_link c id) as [c' [i|e]].
  - done.
  - by rewrite exec_export.
  - rewrite exec_import. unfold import_preset_handler. by destruct (import_preset c p) as [c' [i|e]].
Qed.
End run.
