(* ===== verification/Live.v ===== *)
(** * The running server

    [run_server_engine] of [crates/sonicbrew/src/main.rs] once it has seeded
    its store: the wait for the first graph, and then the threads that share the
    store, the registries and the slot.  Any number of API requests run at once, each access by
    access ({!Requests}); the rebuild thread builds node by node, reading each node's kind and parameters when
    it gets to them; the real-time thread swaps graphs in.  All of them interleave freely. *)

From Stdlib Require Import String.
From stdpp Require Import gmap.
From S2P Require Import Prelude F32 RString External Topology SessionStore ControlApi Rest Requests AudioEngine.
From S2P Require Import AudioNodes PlanarNodes EffectNodes RoutingNodes LfoNodes SourceNodes Render Server Monitor.
Local Open Scope Z_scope.

(** ** The store with its broadcast channel

    Every accepted mutation sends one event; [sent] counts them. *)

Record counted (S : Type) : Type := { cs_store : S; sent : nat }.
Arguments cs_store {S}.
Arguments sent {S}.
Arguments Build_counted {S}.

#[export] Instance counted_ops {S} `{StoreOps S} : StoreOps (counted S) := {
  get_topology s := get_topology (cs_store s);
  apply_mutation s m :=
    let '(st, r) := apply_mutation (cs_store s) m in
    ({| cs_store := st; sent := match r with Ok _ => Datatypes.S (sent s) | Err _ => sent s end |}, r)
}.

#[export] Instance counted_laws {S} `{TopoOps} `{StoreOps S} `{!StoreLaws S} : StoreLaws (counted S).
Proof.
  split; cbn; intros s m s' x; destruct (apply_mutation (cs_store s) m) as [st r] eqn:E; intros [= <- ->]; cbn.
  - by eapply apply_mutation_ok.
  - by eapply apply_mutation_err.
Qed.

(** ** The wait for the first graph *)

(** [(a, b) < (c, d)] on pairs compares the first components first. *)
Definition pair_lt (a b c d : nat) : bool := (a <? c)%nat || ((a =? c)%nat && (b <? d)%nat).

(** Each poll sees the slot; the deadline ends the polls. *)
Fixpoint wait_first_graph {G N E} `{GraphOps G N E} (polls : list (option G)) : option G :=
  match polls with
  | [] => None
  | slot :: polls =>
      let '(n, l) := match slot with Some g => (length (g_nodes g), length (g_links g)) | None => (0, 0)%nat end in
      if pair_lt n l 2 1 then wait_first_graph polls else slot
  end.

(** ** The world *)

Section live.
Context `{TopoOps} {S : Type} `{StoreOps S} {M : MathOps} {G E : Type} `{GraphOps G server_node E}.
Context (channel_capacity : nat).

(** Where the rebuild thread is: about to read the topology; about to build the first
    node of [todo]; holding the kind it read and about to read the parameters;
    waiting for events; or ended by a panic. *)
Inductive live_pc : Type :=
| LWant
| LNodes (topo : TopologySnapshot) (todo : list NodeSnapshot) (g : G) (id_map : gmap Z Z)
| LParams (topo : TopologySnapshot) (n : NodeSnapshot) (todo : list NodeSnapshot) (kind : option rstring) (g : G) (id_map : gmap Z Z)
| LIdle
| LDead.

Record LiveWorld : Type := {
  lw_ctl : GraphController (counted S);
  lw_files : gmap Z FileBuffer;
  lw_jobs : list (prog (Z * body));  (* what is left of each request *)
  lw_seen : nat;  (* events the rebuild thread's receiver has passed *)
  lw_pc : live_pc;
  lw_slot : option G;
  lw_graph : G
}.

Definition at_pc (w : LiveWorld) (pc : live_pc) : LiveWorld :=
  {| lw_ctl := lw_ctl w; lw_files := lw_files w; lw_jobs := lw_jobs w; lw_seen := lw_seen w; lw_pc := pc;
     lw_slot := lw_slot w; lw_graph := lw_graph w |}.

Definition live_topo (w : LiveWorld) : TopologySnapshot := get_topology (store (lw_ctl w)).
Definition live_sent (w : LiveWorld) : nat := sent (store (lw_ctl w)).
Definition unread (w : LiveWorld) : nat := (live_sent w - lw_seen w)%nat.

(** What the factory builds when it finds the kind as it is in [c1] and the
    parameters as they are in [c2]. *)
Definition read_node (c1 c2 : GraphController (counted S)) (files : gmap Z FileBuffer) : Z -> option (BuiltNode server_node) :=
  factory_build {| sv_store := store c1; sv_kinds := kinds c1; sv_params := params c2; sv_files := files |}.

(** What it builds when nothing changes while it reads. *)
Definition live_factory (w : LiveWorld) : Z -> option (BuiltNode server_node) := read_node (lw_ctl w) (lw_ctl w) (lw_files w).

(** A node built for [n] goes into the graph and the id map. *)
Definition place (topo : TopologySnapshot) (n : NodeSnapshot) (todo : list NodeSnapshot) (g : G) (id_map : gmap Z Z)
    (b : BuiltNode server_node) : live_pc :=
  let '(g, new_id) := add_built g b in LNodes topo todo g (<[ns_id n := new_id]> id_map).

Definition file_node (buf : option FileBuffer) : BuiltNode server_node :=
  Plain (Engine match buf with
    | Some f => NFileSource (FileSource_new (fb_samples f) (fb_channels f) (fb_sample_rate f) (fb_looping f))
    | None => NGain (Gain_new F32.zero)
    end).

(** The rebuild thread up to its next access of the store, of a registry
    or of the slot; requests and cycles run between two turns. *)
Definition live_rebuild (w : LiveWorld) : LiveWorld :=
  match lw_pc w with
  | LWant => at_pc w (LNodes (live_topo w) (nodes (live_topo w)) g_new ∅)
  | LNodes topo (n :: todo) g id_map =>
      if ns_id n =? 0 then at_pc w (place topo n todo g id_map (Plain BridgeSource))
      else if ns_id n =? 1 then at_pc w (place topo n todo g id_map (AudioEngine.Sink BridgeSink))
      else
        let kind := kinds (lw_ctl w) !! ns_id n in
        if bool_decide (kind = Some (lit "file"))
        then at_pc w (place topo n todo g id_map (file_node (lw_files w !! ns_id n)))
        else at_pc w (LParams topo n todo kind g id_map)
  | LParams topo n todo kind g id_map =>
      match render_node SAMPLE_RATE CHANNELS kind (params (lw_ctl w) !! ns_id n) with
      | Some node => at_pc w (place topo n todo g id_map (Plain (Engine node)))
      | None => at_pc w LDead
      end
  | LNodes topo [] g id_map =>
      let built := let? g := link_edges (edges topo) g id_map in map_err GraphError (g_compile g) in
      {| lw_ctl := lw_ctl w; lw_files := lw_files w; lw_jobs := lw_jobs w; lw_seen := lw_seen w; lw_pc := LIdle;
         lw_slot := match built with Ok g => Some g | Err _ => lw_slot w end; lw_graph := lw_graph w |}
  | LIdle =>
      if (unread w =? 0)%nat then w
      else
        {| lw_ctl := lw_ctl w; lw_files := lw_files w; lw_jobs := lw_jobs w;
           lw_seen := if (channel_capacity <? unread w)%nat then (live_sent w - channel_capacity)%nat
                      else Datatypes.S (lw_seen w);
           lw_pc := LWant; lw_slot := lw_slot w; lw_graph := lw_graph w |}
  | LDead => w
  end.

(** One iteration of the real-time thread; timing is recorded elsewhere. *)
Definition live_cycle (w : LiveWorld) : LiveWorld :=
  let '(graph, slot) := engine_step (lw_graph w) (lw_slot w) in
  {| lw_ctl := lw_ctl w; lw_files := lw_files w; lw_jobs := lw_jobs w; lw_seen := lw_seen w; lw_pc := lw_pc w;
     lw_slot := slot; lw_graph := graph |}.

Definition with_jobs (w : LiveWorld) (c : GraphController (counted S)) (jobs : list (prog (Z * body))) : LiveWorld :=
  {| lw_ctl := c; lw_files := lw_files w; lw_jobs := jobs; lw_seen := lw_seen w; lw_pc := lw_pc w;
     lw_slot := lw_slot w; lw_graph := lw_graph w |}.

(** A request arrives, the [i]-th request makes its next access, the rebuild
    thread runs to its next access, or the real-time thread runs a cycle. *)
Inductive live_event : Type := Arrive (r : Request) | Worker (i : nat) | RebuildTurn | RtCycle.

Definition live_step (w : LiveWorld) (ev : live_event) : LiveWorld :=
  match ev with
  | Arrive r => with_jobs w (lw_ctl w) (lw_jobs w ++ [handle_prog r])
  | Worker i =>
      match lw_jobs w !! i ≫= prog_step (lw_ctl w) with
      | Some (c, job) => with_jobs w c (<[i := job]> (lw_jobs w))
      | None => w
      end
  | RebuildTurn => live_rebuild w
  | RtCycle => live_cycle w
  end.

Definition live_run (w : LiveWorld) (evs : list live_event) : LiveWorld := foldl live_step w evs.

(** The controller in every state a run passes through. *)
Fixpoint live_history (w : LiveWorld) (evs : list live_event) : list (GraphController (counted S)) :=
  lw_ctl w :: match evs with [] => [] | ev :: evs => live_history (live_step w ev) evs end.

(** A booted server whose threads have started: the rebuild thread subscribed
    after the seeding, has built once and is waiting; that graph was taken out
    of the slot and is live; the API's controller shares the registries. *)
Definition live_start (sv : Server (counted S)) (graph : G) : LiveWorld :=
  {| lw_ctl := controller (RestApi_new_with_registries (sv_store sv) (sv_kinds sv) (sv_params sv));
     lw_files := sv_files sv; lw_jobs := []; lw_seen := sent (sv_store sv); lw_pc := LIdle; lw_slot := None; lw_graph := graph |}.
End live.
Arguments live_pc G : clear implicits.
Arguments LiveWorld S G : clear implicits.

(** ** Accesses of requests *)

Section accesses.
Context `{TopoLaws} {S : Type} `{StoreOps S} `{!StoreLaws S}.
Implicit Types c : GraphController (counted S).

(** An access that changes the topology sends an event; ids stay distinct. *)
Lemma prog_step_announced {A} c c' (p p' : prog A) : prog_step c p = Some (c', p') ->
  (sent (store c) <= sent (store c'))%nat /\
  (sent (store c') = sent (store c) -> get_topology (store c') = get_topology (store c)) /\
  (NoDup (ids (get_topology (store c))) -> NoDup (ids (get_topology (store c')))).
Proof.
  destruct p as [a|k|m k|k|id v k|id v k|id v k]; cbn; intros Hs; try discriminate Hs;
    try (apply (inj Some), (inj2 pair) in Hs as [<- _]; done).
  unfold ctl_apply in Hs. cbn in Hs. destruct (apply_mutation (cs_store (store c)) m) as [st [id|e]] eqn:Ea; cbn in Hs;
    apply (inj Some), (inj2 pair) in Hs as [<- _]; cbn.
  - apply apply_mutation_ok in Ea. rewrite Ea. split_and!; [lia|lia|apply topo_nodup].
  - apply apply_mutation_err in Ea. by rewrite Ea.
Qed.
End accesses.

(** ** Building access by access *)

Section partial.
Context {G N E : Type} `{GraphOps G N E}.
Implicit Types f : Z -> option (BuiltNode N).

Lemma build_nodes_app f ns1 ns2 : forall (g : G) m,
  build_nodes f (ns1 ++ ns2) g m = (let? (g', m') := build_nodes f ns1 g m in build_nodes f ns2 g' m').
Proof.
  induction ns1 as [|n ns IH]; intros g m; [done|]. cbn [app build_nodes]. destruct (f (ns_id n)) as [b|]; [|done]. cbn [ok_or rbind].
  destruct (add_built g b). apply IH.
Qed.

Lemma build_nodes_ext f f' ns : (forall n, n ∈ ns -> f (ns_id n) = f' (ns_id n)) ->
  forall (g : G) m, build_nodes f ns g m = build_nodes f' ns g m.
Proof.
  induction ns as [|n ns IH]; intros Hf g m; [done|]. cbn [build_nodes]. rewrite <- (Hf n) by left.
  destruct (f (ns_id n)) as [b|]; [|done]. cbn [ok_or rbind]. destruct (add_built g b).
  apply IH. intros x Hx. apply Hf. by right.
Qed.

Lemma build_graph_ext f f' t : (forall id, id ∈ ids t -> f id = f' id) -> build_graph (G := G) f t = build_graph f' t.
Proof. intros Hf. unfold build_graph. by rewrite (build_nodes_ext f f') by (intros n Hn; apply Hf; by apply list_elem_of_fmap_2). Qed.

(** [f] with the node built for [id]. *)
Definition extend f (id : Z) (b : BuiltNode N) : Z -> option (BuiltNode N) := fun i => if i =? id then Some b else f i.

Lemma extend_eq f id b : extend f id b id = Some b.
Proof. unfold extend. by rewrite Z.eqb_refl. Qed.
Lemma extend_ne f id b i : i <> id -> extend f id b i = f i.
Proof. intros Hi. unfold extend. by rewrite (proj2 (Z.eqb_neq _ _)). Qed.
End partial.

(** ** The invariant *)

Section live_facts.
Context `{TopoLaws} {S : Type} `{StoreOps S} `{!StoreLaws S} {M : MathOps} {G E : Type} `{GraphOps G server_node E}.
Context (channel_capacity : nat) (h : list (GraphController (counted S))).
Implicit Types w : LiveWorld S G.
Implicit Types c : GraphController (counted S).
Implicit Types f : Z -> option (BuiltNode server_node).
Implicit Types files : gmap Z FileBuffer.

(** [b] is what the factory builds for [id] from a kind and from parameters found in
    states of [h] in which [s] events had been sent. *)
Definition rendered_from (s : nat) files (id : Z) (b : BuiltNode server_node) : Prop :=
  exists c1 c2, c1 ∈ h /\ c2 ∈ h /\ sent (store c1) = s /\ sent (store c2) = s /\ read_node c1 c2 files id = Some b.

Definition rendering (s : nat) files (ns : list NodeSnapshot) f : Prop :=
  forall n, n ∈ ns -> exists b, f (ns_id n) = Some b /\ rendered_from s files (ns_id n) b.

(** The nodes [ns] are in [g], each rendered so. *)
Definition partly_built (s : nat) files (ns : list NodeSnapshot) (g : G) (m : gmap Z Z) : Prop :=
  exists f, rendering s files ns f /\ build_nodes (E := E) f ns g_new ∅ = Ok (g, m).

(** Parameters that cannot be rendered were recorded. *)
Definition unrenderable : Prop :=
  exists c id p, c ∈ h /\ params c !! id = Some p /\ described SAMPLE_RATE CHANNELS p = None.

(** Topology [t] is built, into the slot or the live graph. *)
Definition live_settled (s : nat) (t : TopologySnapshot) files (slot : option G) (graph : G) : Prop :=
  exists f, rendering s files (nodes t) f /\
    forall g, build_graph f t = Ok g -> slot = Some g \/ (slot = None /\ evolved g graph).

(** What holds at each place of the rebuild thread, [u] events being unread. *)
Definition pc_inv (s u : nat) (t : TopologySnapshot) files (pc : live_pc G) (slot : option G) (graph : G) : Prop :=
  match pc with
  | LWant => True
  | LNodes t' todo g m => (0 < u)%nat \/ t' = t /\ exists placed, nodes t = placed ++ todo /\ partly_built s files placed g m
  | LParams t' n todo kind g m => (0 < u)%nat \/ t' = t /\
      (exists placed, nodes t = placed ++ n :: todo /\ partly_built s files placed g m) /\
      ns_id n <> 0 /\ ns_id n <> 1 /\ kind <> Some (lit "file") /\
      exists c1, c1 ∈ h /\ sent (store c1) = s /\ kind = kinds c1 !! ns_id n
  | LIdle => (0 < u)%nat \/ live_settled s t files slot graph
  | LDead => unrenderable
  end.

Definition live_inv w : Prop :=
  (lw_seen w <= live_sent w)%nat /\ NoDup (ids (live_topo w)) /\ lw_ctl w ∈ h /\
  pc_inv (live_sent w) (unread w) (live_topo w) (lw_files w) (lw_pc w) (lw_slot w) (lw_graph w).

Lemma pc_inv_unread s u t s' u' t' files pc slot graph :
  (0 < u')%nat -> pc_inv s u t files pc slot graph -> pc_inv s' u' t' files pc slot graph.
Proof. intros Hu. destruct pc; cbn; auto. Qed.

(** Placing the next node. *)
Lemma place_inv s u t files t' n todo g m b placed slot graph :
  NoDup (ids t) -> t' = t -> nodes t = placed ++ n :: todo -> partly_built s files placed g m ->
  rendered_from s files (ns_id n) b -> pc_inv s u t files (place t' n todo g m b) slot graph.
Proof.
  intros Hnd -> Hns (f & Hf & Hb) Hr. unfold place. destruct (add_built g b) as [g' new_id] eqn:Ha. right.
  split; [done|]. exists (placed ++ [n]). split; [by rewrite <- app_assoc|]. exists (extend f (ns_id n) b).
  assert (Hne : forall x, x ∈ placed -> ns_id x <> ns_id n).
  { intros x Hx E0. unfold ids in Hnd. rewrite Hns, fmap_app in Hnd. apply NoDup_app in Hnd as (_ & Hnd & _).
    apply (Hnd (ns_id x)); [by apply list_elem_of_fmap_2|]. rewrite E0, fmap_cons. left. }
  split.
  - intros x [Hx|Hx%list_elem_of_singleton]%elem_of_app.
    + rewrite extend_ne by by apply Hne. by apply Hf.
    + subst x. exists b. by rewrite extend_eq.
  - rewrite build_nodes_app, (build_nodes_ext _ f), Hb by (intros x Hx; apply extend_ne; by apply Hne).
    cbn [rbind build_nodes]. rewrite extend_eq. cbn [ok_or rbind]. by rewrite Ha.
Qed.

(** What the thread reads, in terms of the factory. *)
Lemma read_node_file c1 c2 files id : id <> 0 -> id <> 1 -> kinds c1 !! id = Some (lit "file") ->
  read_node c1 c2 files id = Some (file_node (files !! id)).
Proof.
  intros H0' H1' Hk. unfold read_node, factory_build. cbn [sv_kinds sv_files].
  rewrite (proj2 (Z.eqb_neq _ _)), (proj2 (Z.eqb_neq _ _)), Hk by done. by rewrite bool_decide_true.
Qed.

Lemma read_node_other c1 c2 files id : id <> 0 -> id <> 1 -> kinds c1 !! id <> Some (lit "file") ->
  read_node c1 c2 files id = (fun n => Plain (Engine n)) <$> render_node SAMPLE_RATE CHANNELS (kinds c1 !! id) (params c2 !! id).
Proof.
  intros H0' H1' Hk. unfold read_node, factory_build. cbn [sv_kinds sv_files sv_params].
  rewrite (proj2 (Z.eqb_neq _ _)), (proj2 (Z.eqb_neq _ _)) by done. by rewrite bool_decide_false.
Qed.

(** ** Steps keep the invariant *)

Lemma live_rebuild_same w :
  lw_ctl (live_rebuild channel_capacity w) = lw_ctl w /\ lw_files (live_rebuild channel_capacity w) = lw_files w /\
  lw_graph (live_rebuild channel_capacity w) = lw_graph w.
Proof.
  unfold live_rebuild. destruct (lw_pc w) as [|t [|n todo] g m|t n todo kind g m| |]; try done.
  - destruct (_ =? 0); [done|]. destruct (_ =? 1); [done|]. cbv zeta. by destruct (bool_decide _).
  - by destruct (render_node _ _ _ _).
  - by destruct (_ =? _)%nat.
Qed.

Lemma live_rebuild_inv w : live_inv w -> live_inv (live_rebuild channel_capacity w).
Proof.
  intros (Hle & Hnd & Hh & Hi). unfold live_rebuild. destruct (lw_pc w) as [|t [|n todo] g m|t n todo kind g m| |] eqn:Hpc; cbn [pc_inv] in Hi.
  - split_and!; try done. right. split; [done|]. exists []. split; [done|]. exists (fun _ => None). split; [|done].
    by intros n Hn%elem_of_nil.
  - split_and!; try done. destruct Hi as [Hi|(-> & placed & Hns & f & Hf & Hb)]; [by left|right].
    rewrite app_nil_r in Hns. subst placed. exists f. split; [exact Hf|]. intros g' Hg'. left.
    change (build_graph f (live_topo w) = Ok g') in Hg'. unfold build_graph in Hg'. rewrite Hb in Hg'. cbn [rbind] in Hg'. cbn [lw_slot].
    by rewrite Hg'.
  - assert (Hplace : forall b, (forall c2, c2 ∈ h -> read_node (lw_ctl w) c2 (lw_files w) (ns_id n) = Some b) ->
      live_inv (at_pc w (place t n todo g m b))).
    { intros b Hb. split_and!; try done. cbn [lw_pc at_pc]. destruct Hi as [Hi|(Ht & placed & Hns & Hp)].
      - unfold place. destruct (add_built g b). by left.
      - eapply place_inv; try done. exists (lw_ctl w), (lw_ctl w). split_and!; try done. by apply Hb. }
    destruct (Z.eqb_spec (ns_id n) 0) as [E0|H0']; [apply Hplace; intros; by rewrite E0|].
    destruct (Z.eqb_spec (ns_id n) 1) as [E1|H1']; [apply Hplace; intros; by rewrite E1|]. cbv zeta.
    case_bool_decide as Hk; [apply Hplace; intros; by apply read_node_file|].
    split_and!; try done. cbn [lw_pc at_pc]. destruct Hi as [Hi|(Ht & Hp)]; [by left|right].
    split_and!; try done. by exists (lw_ctl w).
  - destruct (render_node SAMPLE_RATE CHANNELS kind (params (lw_ctl w) !! ns_id n)) as [node|] eqn:Hr.
    + split_and!; try done. cbn [lw_pc at_pc]. destruct Hi as [Hi|(Ht & (placed & Hns & Hp) & H0' & H1' & Hk & c1 & Hc1 & Hs & Hkind)].
      * unfold place. destruct (add_built g _). by left.
      * eapply place_inv; try done. exists c1, (lw_ctl w). split_and!; try done. subst kind. by rewrite read_node_other, Hr.
    + split_and!; try done. cbn. pose proof (render_total_48k CHANNELS kind (params (lw_ctl w) !! ns_id n)) as Htot.
      destruct (params (lw_ctl w) !! ns_id n) as [p|] eqn:Hp; cbn in Htot.
      * exists (lw_ctl w), (ns_id n), p. split_and!; try done. destruct (described SAMPLE_RATE CHANNELS p) eqn:Hd; [|done].
        destruct Htot as [x Hx]; [by eexists|]. unfold SAMPLE_RATE in Hr. congruence.
      * destruct Htot as [x Hx]; [done|]. unfold SAMPLE_RATE in Hr. congruence.
  - destruct (Nat.eqb_spec (unread w) 0) as [|Hne]; [split_and!; try done; by rewrite Hpc|].
    split_and!; try done. unfold unread, live_sent in *. cbn [lw_seen lw_ctl].
    destruct (Nat.ltb_spec channel_capacity (sent (store (lw_ctl w)) - lw_seen w)); lia.
  - split_and!; try done. by rewrite Hpc.
Qed.

Lemma worker_inv w c' jobs : live_inv w -> c' ∈ h -> (live_sent w <= sent (store c'))%nat ->
  (sent (store c') = live_sent w -> get_topology (store c') = live_topo w) -> NoDup (ids (get_topology (store c'))) ->
  live_inv (with_jobs w c' jobs).
Proof.
  intros (Hle & Hnd & Hh & Hi) Hc' Hs Ht Hnd'. split_and!; [cbn; unfold live_sent in *; cbn; lia|done|done|].
  cbn [with_jobs lw_pc lw_files lw_slot lw_graph]. unfold live_sent, unread, live_topo, live_sent in *. cbn [with_jobs lw_ctl lw_seen].
  destruct (decide (sent (store c') = sent (store (lw_ctl w)))) as [Heq|Hne].
  - by rewrite Heq, Ht.
  - eapply pc_inv_unread; [lia|exact Hi].
Qed.

Lemma live_cycle_inv w : live_inv w -> live_inv (live_cycle w).
Proof.
  intros (Hle & Hnd & Hh & Hi). unfold live_cycle, engine_step. set (slot' := lw_slot w) in *.
  assert (Hset : forall gr sl, (match slot' with Some n => (n, None) | None => (engine_cycle (lw_graph w), None) end) = (gr, sl) ->
    pc_inv (live_sent w) (unread w) (live_topo w) (lw_files w) (lw_pc w) sl gr).
  { intros gr sl Hes. destruct (lw_pc w); try exact Hi. cbn in Hi |- *. destruct Hi as [Hi|(f & Hf & Hi)]; [by left|right].
    exists f. split; [done|]. intros g Hg. right. destruct slot' as [g'|]; injection Hes as <- <-; (split; [done|]).
    - destruct (Hi g Hg) as [[= ->]|[]]; [apply rtc_refl|done].
    - destruct (Hi g Hg) as [|[_ Hev]]; [done|]. by eapply rtc_r. }
  destruct slot' as [g'|]; split_and!; try done; by apply Hset.
Qed.

Lemma live_step_inv w ev : lw_ctl (live_step channel_capacity w ev) ∈ h -> live_inv w -> live_inv (live_step channel_capacity w ev).
Proof.
  intros Hin Hi. destruct ev as [r|i| |]; cbn [live_step] in *; [exact Hi| |by apply live_rebuild_inv|by apply live_cycle_inv].
  destruct (lw_jobs w !! i ≫= prog_step (lw_ctl w)) as [[c job]|] eqn:Hj; [|exact Hi].
  apply bind_Some in Hj as (p & _ & Hp). destruct (prog_step_announced _ _ _ _ Hp) as (Hs & Ht & Hn).
  apply worker_inv; try done. apply Hn, Hi.
Qed.

Lemma live_run_inv evs : forall w, (forall c, c ∈ live_history channel_capacity w evs -> c ∈ h) -> live_inv w ->
  live_inv (live_run channel_capacity w evs).
Proof.
  induction evs as [|ev evs IH]; intros w Hh Hi; [done|]. cbn [live_run foldl].
  assert (Hh' : forall c, c ∈ live_history channel_capacity (live_step channel_capacity w ev) evs -> c ∈ h)
    by (intros c Hc; apply Hh; by right).
  apply (IH _ Hh'), live_step_inv; [|done]. apply Hh'. destruct evs; left.
Qed.

(** ** Catching up *)

(** Turns the rebuild thread needs: every unread event asks for one pass over the
    topology, with at most two turns per node. *)
Definition live_backlog w : nat :=
  let pass := (2 * length (nodes (live_topo w)))%nat in
  match lw_pc w with
  | LDead => 0
  | LIdle => unread w * (pass + 3)
  | LWant => unread w * (pass + 3) + pass + 2
  | LNodes _ todo _ _ => unread w * (pass + 3) + 2 * length todo + 1
  | LParams _ _ todo _ _ _ => unread w * (pass + 3) + 2 * length todo + 2
  end.

Lemma place_nodes t n todo (g : G) m b : exists g' m', place t n todo g m b = LNodes t todo g' m'.
Proof. unfold place. destruct (add_built g b). eauto. Qed.

Lemma live_rebuild_backlog w : (lw_seen w <= live_sent w)%nat -> (0 < live_backlog w)%nat ->
  (live_backlog (live_rebuild channel_capacity w) < live_backlog w)%nat.
Proof.
  intros Hle. unfold live_backlog, live_rebuild. destruct (lw_pc w) as [|t [|n todo] g m|t n todo kind g m| |] eqn:Hpc; intros Hb.
  - cbn [at_pc lw_pc]. change (unread (at_pc w _)) with (unread w). change (live_topo (at_pc w _)) with (live_topo w). lia.
  - cbn [lw_pc length]. change (unread (Build_LiveWorld _ _ _ _ _ _ _)) with (unread w).
    change (live_topo (Build_LiveWorld _ _ _ _ _ _ _)) with (live_topo w). lia.
  - assert (Hplace : forall b, (live_backlog (at_pc w (place t n todo g m b)) <
      unread w * (2 * length (nodes (live_topo w)) + 3) + 2 * length (n :: todo) + 1)%nat).
    { intros b. destruct (place_nodes t n todo g m b) as (g' & m' & ->). unfold live_backlog. cbn [at_pc lw_pc length].
      change (unread (at_pc w _)) with (unread w). change (live_topo (at_pc w _)) with (live_topo w). lia. }
    destruct (_ =? 0); [apply Hplace|]. destruct (_ =? 1); [apply Hplace|]. cbv zeta. destruct (bool_decide _); [apply Hplace|].
    cbn [at_pc lw_pc length]. change (unread (at_pc w _)) with (unread w). change (live_topo (at_pc w _)) with (live_topo w). lia.
  - destruct (render_node _ _ _ _) as [node|]; [|cbn; lia].
    destruct (place_nodes t n todo g m (Plain (Engine node))) as (g' & m' & ->). cbn [at_pc lw_pc].
    change (unread (at_pc w _)) with (unread w). change (live_topo (at_pc w _)) with (live_topo w). lia.
  - destruct (Nat.eqb_spec (unread w) 0) as [Hz|Hz]; [rewrite Hz in Hb; lia|]. cbn [lw_pc].
    change (live_topo (Build_LiveWorld _ _ _ _ _ _ _)) with (live_topo w).
    set (w' := Build_LiveWorld _ _ _ _ _ _ _). assert (Hu : (Datatypes.S (unread w') <= unread w)%nat).
    { unfold w', unread, live_sent in *. cbn [lw_ctl lw_seen]. destruct (Nat.ltb_spec channel_capacity (sent (store (lw_ctl w)) - lw_seen w)); lia. }
    nia.
  - lia.
Qed.

Lemma live_rebuild_idle w : live_backlog w = 0%nat -> live_rebuild channel_capacity w = w.
Proof.
  unfold live_backlog, live_rebuild. destruct (lw_pc w) eqn:Hpc; [lia|lia|lia| |done]. intros Hb.
  by destruct (Nat.eqb_spec (unread w) 0); [|nia].
Qed.

Lemma rebuilds_catch_up n : forall w, live_inv w -> (live_backlog w <= n)%nat ->
  let w' := live_run channel_capacity w (replicate n RebuildTurn) in
  live_inv w' /\ live_backlog w' = 0%nat /\ lw_ctl w' = lw_ctl w /\ lw_files w' = lw_files w.
Proof.
  induction n as [|n IH]; intros w Hi Hb; cbn [replicate live_run foldl]; [split; [done|]; split; [lia|done]|].
  cbn [live_step]. destruct (live_rebuild_same w) as (<- & <- & _). apply IH; [by apply live_rebuild_inv|].
  destruct (decide (live_backlog w = 0%nat)) as [E0|]; [rewrite live_rebuild_idle by done; lia|].
  pose proof (live_rebuild_backlog w (proj1 Hi)). lia.
Qed.

Lemma live_backlog_zero w : live_backlog w = 0%nat -> lw_pc w = LDead \/ lw_pc w = LIdle /\ unread w = 0%nat.
Proof. unfold live_backlog. destruct (lw_pc w); [lia|lia|lia| |by left]. intros Hb. right. split; [done|nia]. Qed.

(** Nobody restarts a rebuild thread that has panicked. *)
Lemma dead_stays w ev : lw_pc w = LDead -> lw_pc (live_step channel_capacity w ev) = LDead.
Proof.
  intros Hd. destruct ev as [r|i| |]; cbn [live_step]; [done| | |].
  - by destruct (_ ≫= _) as [[]|].
  - unfold live_rebuild. by rewrite Hd.
  - unfold live_cycle. by destruct (engine_step _ _).
Qed.

(** The kind and the parameters of [id] have not changed since the last event. *)
Definition entry_settled w (id : Z) : Prop :=
  forall c, c ∈ h -> sent (store c) = live_sent w -> kinds c !! id = kinds (lw_ctl w) !! id /\ params c !! id = params (lw_ctl w) !! id.

Lemma entry_settled_factory w id b : entry_settled w id -> rendered_from (live_sent w) (lw_files w) id b -> live_factory w id = Some b.
Proof.
  intros He (c1 & c2 & Hc1 & Hc2 & Hs1 & Hs2 & <-). destruct (He c1 Hc1 Hs1) as [Hk _]. destruct (He c2 Hc2 Hs2) as [_ Hp].
  unfold live_factory, read_node, factory_build. cbn [sv_kinds sv_params sv_files]. by rewrite Hk, Hp.
Qed.
End live_facts.

(** ** Theorems *)

Section live_theorems.
Context `{TopoLaws} {S : Type} `{StoreOps S} `{!StoreLaws S} {M : MathOps} {G E : Type} `{GraphLaws G server_node E}.
Context (channel_capacity : nat).

(** C1: what plays follows the API.  Start from a booted server whose first graph is live,
    and let any requests arrive, preset imports included, run at once access by access, and interleave
    in any way with the rebuild thread's accesses and real-time cycles, whatever the event channel drops.  When
    the requests pause and the rebuild thread has had the turns its backlog needs, the next
    cycle leaves the slot empty, and one of two things holds.  Either the thread is dead, and then some
    recorded parameters cannot be rendered.  Or it is idle with nothing unread, and there is a rendering [f] of the
    listed nodes, each from a kind and from parameters its registries held after the last event,
    hence from the present ones if these have not changed since that event, such that
    the cycle runs the graph of the listed topology with these nodes, one per listed node, one link per listed
    link, in order; no such graph exists only if an edge names an absent node or
    the graph library refuses an edge or the whole. *)
Theorem live_server_follows_api (sv : Server (counted S)) (g0 : G) (evs : list live_event) (n : nat) :
  let w0 := live_start sv g0 in
  NoDup (ids (live_topo w0)) -> build_graph (live_factory w0) (live_topo w0) = Ok g0 ->
  let w := live_run channel_capacity w0 evs in
  let h := live_history channel_capacity w0 evs in
  (live_backlog w <= n)%nat ->
  let w' := live_step channel_capacity (live_run channel_capacity w (replicate n RebuildTurn)) RtCycle in
  lw_ctl w' = lw_ctl w /\ lw_slot w' = None /\
  (lw_pc w' = LDead /\ unrenderable h \/
   lw_pc w' = LIdle /\ unread w' = 0%nat /\ exists f,
     (forall id, id ∈ ids (live_topo w) -> exists b, f id = Some b /\ rendered_from h (live_sent w) (lw_files w) id b) /\
     (forall id, id ∈ ids (live_topo w) -> entry_settled h w id -> f id = live_factory w id) /\
     match build_graph f (live_topo w) with
     | Ok g => evolved g (lw_graph w') /\ graph_of f (live_topo w) (edges (live_topo w)) g
     | Err (NoFactory _) => False
     | Err (EdgeFromUnknown id) => (id ∉ ids (live_topo w)) /\ exists e, e ∈ edges (live_topo w) /\ (e_from e).1 = id
     | Err (EdgeToUnknown id) => (id ∉ ids (live_topo w)) /\ exists e, e ∈ edges (live_topo w) /\ (e_to e).1 = id
     | Err (GraphError err) => library_refused f (live_topo w) err
     end).
Proof.
  intros w0 Hnd0 Hg0 w h Hn w'.
  assert (Hinv0 : live_inv h w0).
  { assert (Hin : lw_ctl w0 ∈ h) by (unfold h; destruct evs; left). split_and!; try done. right. exists (live_factory w0). split.
    - intros x Hx. pose proof (build_graph_cases (G := G) (live_factory w0) (live_topo w0) Hnd0) as Hb. rewrite Hg0 in Hb.
      destruct (Forall2_ids (live_factory w0) (live_topo w0) _ (ns_id x) (proj1 Hb)) as [b Hb']; [by apply list_elem_of_fmap_2|].
      exists b. split; [done|]. by exists (lw_ctl w0), (lw_ctl w0).
    - intros g Hg. right. split; [done|]. replace g with g0 by congruence. apply rtc_refl. }
  assert (Hinv : live_inv h w) by by apply live_run_inv.
  destruct (rebuilds_catch_up channel_capacity h n w Hinv Hn) as (Hinv1 & Hz & Hctl & Hfiles).
  set (w1 := live_run channel_capacity w (replicate n RebuildTurn)) in *.
  pose proof (live_cycle_inv h w1 Hinv1) as (_ & Hnd & _ & Hpc). change (live_cycle w1) with w' in Hnd, Hpc.
  assert (Hsame : lw_ctl w' = lw_ctl w /\ lw_files w' = lw_files w /\ lw_pc w' = lw_pc w1 /\ lw_seen w' = lw_seen w1 /\ lw_slot w' = None)
    by (unfold w'; cbn [live_step]; unfold live_cycle, engine_step; destruct (lw_slot w1); cbn; by rewrite Hctl, Hfiles).
  destruct Hsame as (Ec & Ef & Ep & Es & Esl). split; [done|]. split; [done|].
  assert (Hu : unread w' = unread w1) by (unfold unread, live_sent; by rewrite Ec, Es, Hctl).
  unfold live_sent, live_topo in Hpc, Hnd. rewrite Ec, Ef, Ep, Esl in Hpc. rewrite Ec in Hnd. rewrite Ep, Hu.
  destruct (live_backlog_zero w1 Hz) as [Hd|[Hd Hu0]]; rewrite Hd in Hpc |- *; cbn [pc_inv] in Hpc; [by left|right].
  split; [done|]. split; [done|]. destruct Hpc as [Hpc|(f & Hf & Hg)]; [lia|]. exists f.
  assert (Hf' : forall id, id ∈ ids (live_topo w) -> exists b, f id = Some b /\ rendered_from h (live_sent w) (lw_files w) id b).
  { intros id Hid. unfold ids in Hid. apply list_elem_of_fmap in Hid as (x & -> & Hx). by apply Hf. }
  split; [done|]. split.
  { intros id Hid He. destruct (Hf' id Hid) as (b & -> & Hb). symmetry. by eapply entry_settled_factory. }
  pose proof (build_graph_cases (G := G) f (live_topo w) Hnd) as Hb.
  destruct (build_graph f (live_topo w)) as [g|[id|id|id|err]] eqn:Eg; [|..|by destruct Hb]; try done.
  - split; [|done]. by destruct (Hg g Eg) as [|[]].
  - destruct Hb as [Hid Hnone]. destruct (Hf' id Hid) as (b & Hsome & _). congruence.
Qed.
End live_theorems.

(** ** Examples *)

Abbreviation example_engine := (engine_store (gmap Z Mutation)).
Definition live_example_server : Server (counted example_engine) := server_new {| cs_store := example_store; sent := 0 |}.
Definition tone_spec : NodeSpec :=
  {| sp_label := lit "tone"; sp_inputs := 0; sp_outputs := 1; sp_kind := None; sp_params := Some (Tone (lit "sine") F32.one F32.half) |}.
Definition tone_node : BuiltNode server_node := Plain (Engine (NTone (ToneGenerator_new Sine F32.one F32.half SAMPLE_RATE CHANNELS))).

(** A server after its first boot. *)
Definition live_booted_server : Server (counted example_engine) :=
  match boot {| cs_store := example_store; sent := 0 |} None None with Some (sv, _) => sv | None => live_example_server end.
Definition live_first_graph : list_graph server_node :=
  match build_graph (factory_build (H1 := flat_math) live_booted_server) (get_topology (sv_store live_booted_server)) with Ok g => g | Err _ => g_new end.
Definition live_booted_world : LiveWorld example_engine (list_graph server_node) := live_start live_booted_server live_first_graph.

Abbreviation demo_run evs := (live_run (M := flat_math) 64 live_booted_world evs).

(** A tone is created while the rebuild thread reads; then it is linked to the bridge. *)
Definition demo_events : list live_event :=
  [Arrive (CreateNode tone_spec); Worker 0; Worker 0; RebuildTurn; RebuildTurn; RtCycle; Worker 0; Worker 0; RebuildTurn; Worker 0;
   Arrive GetTopology; Arrive (CreateLink {| lr_from := 2; lr_to := 1; lr_from_port := None; lr_to_port := None |});
   Worker 2; RebuildTurn; Worker 2; Worker 1; RtCycle; Worker 2].

(** In its last stage, after the link's event, the registries do not change. *)
Lemma demo_history :
  Forall (fun c => sent (store c) = live_sent (demo_run demo_events) -> forall id,
    kinds c !! id = kinds (lw_ctl (demo_run demo_events)) !! id /\ params c !! id = params (lw_ctl (demo_run demo_events)) !! id)
    (live_history (M := flat_math) 64 live_booted_world demo_events).
Proof. vm_compute. repeat (constructor; [first [discriminate | done]|]). constructor. Qed.

Lemma live_server_follows_api_witness :
  let w := demo_run demo_events in
  let w' := live_step (M := flat_math) 64 (live_run (M := flat_math) 64 w (replicate 100 RebuildTurn)) RtCycle in
  lw_ctl w' = lw_ctl w /\ lw_pc w' = LIdle /\
  exists g, evolved g (lw_graph w') /\ length (g_nodes g) = 3%nat /\ length (g_links g) = 2%nat /\
    g_nodes g !! 2%nat = Some tone_node.
Proof.
  intros w w'.
  destruct (live_server_follows_api (M := flat_math) (G := list_graph server_node) 64 live_booted_server live_first_graph demo_events 100)
    as (Hc & _ & Hor).
  - apply (bool_decide_eq_true_1 _). vm_compute. reflexivity.
  - vm_compute. reflexivity.
  - apply Nat.leb_le. vm_compute. reflexivity.
  - fold live_booted_world in Hc, Hor. fold w in Hc, Hor. fold w' in Hc, Hor. split; [exact Hc|].
    destruct Hor as [[Hd _]|(Hi & _ & f & _ & Hset & Hm)]; [vm_compute in Hd; discriminate|]. split; [exact Hi|].
    assert (Hf : forall id, id ∈ ids (live_topo w) -> f id = live_factory (M := flat_math) w id).
    { intros id Hid. apply Hset; [exact Hid|]. intros c Hin.
      pose proof demo_history as Hh. rewrite Forall_forall in Hh. intros Hs. exact (Hh c Hin Hs id). }
    rewrite (build_graph_ext f (live_factory (M := flat_math) w)) in Hm by exact Hf.
    destruct (build_graph (live_factory (M := flat_math) w) (live_topo w)) as [g|e] eqn:Eg; [|vm_compute in Eg; discriminate].
    exists g. split; [exact (proj1 Hm)|]. vm_compute in Eg. injection Eg as <-. split; [reflexivity|]. split; [reflexivity|]. vm_compute. reflexivity.
Defined.

(** ** Races *)

(** [create_node] sends its event before it writes the registries.  A rebuild that runs in
    between renders the new node as a passthrough, and nothing asks for another: the request is
    answered, everything is idle, and the live graph has the wrong node. *)
Lemma live_create_race :
  let w := demo_run ([Arrive (CreateNode tone_spec); Worker 0; Worker 0] ++ replicate 9 RebuildTurn ++ [RtCycle; Worker 0; Worker 0; Worker 0] ++
                     replicate 9 RebuildTurn ++ [RtCycle]) in
  lw_jobs w = [Ret (201, CreateNodeResponse 2)] /\ unread w = 0%nat /\ lw_pc w = LIdle /\ lw_slot w = None /\
  g_nodes (lw_graph w) = [Plain BridgeSource; AudioEngine.Sink BridgeSink; Plain (Engine (NGain (Gain_new F32.one)))] /\
  params (lw_ctl w) !! 2 = Some (Tone (lit "sine") F32.one F32.half) /\
  live_factory (M := flat_math) w 2 = Some tone_node.
Proof. vm_compute. done. Qed.

(** A link checked before its node is deleted and added after it dangles, and the topology cannot be built. *)
Lemma live_link_race :
  let link := CreateLink {| lr_from := 2; lr_to := 1; lr_from_port := None; lr_to_port := None |} in
  let w := demo_run ([Arrive (CreateNode tone_spec)] ++ replicate 5 (Worker 0) ++ [Arrive link; Worker 1; Arrive (DeleteNode 2)] ++
                     replicate 5 (Worker 2) ++ replicate 2 (Worker 1)) in
  lw_jobs w = [Ret (201, CreateNodeResponse 2); Ret (201, LinkResponse 1); Ret (204, NoBody)] /\
  build_graph (G := list_graph server_node) (live_factory (M := flat_math) w) (live_topo w) = Err (EdgeFromUnknown 2).
Proof. vm_compute. done. Qed.

(** A delay longer than an allocation can be is accepted and ends the rebuild thread. *)
Definition huge_delay_spec : NodeSpec :=
  {| sp_label := lit "delay"; sp_inputs := 1; sp_outputs := 1; sp_kind := None;
     sp_params := Some (Delay 0x60AD78EC F32.one F32.half F32.half) |}.

Lemma huge_delay_kills_rebuilds :
  let w := demo_run ([Arrive (CreateNode huge_delay_spec)] ++ replicate 5 (Worker 0) ++ replicate 5 RebuildTurn) in
  lw_jobs w = [Ret (201, CreateNodeResponse 2)] /\ lw_pc (live_step (M := flat_math) 64 w RebuildTurn) = LDead.
Proof.
  intros w. split; [vm_compute; reflexivity|].
  assert (Hp : params (lw_ctl w) !! 2 = Some (Delay 0x60AD78EC F32.one F32.half F32.half)) by (vm_compute; reflexivity).
  assert (Hpc : exists t n todo g m, lw_pc w = LParams t n todo (Some (kind_name (Delay 0x60AD78EC F32.one F32.half F32.half))) g m /\ ns_id n = 2)
    by (vm_compute; repeat eexists).
  destruct Hpc as (t & n & todo & g & m & Hpc & Hn). cbn [live_step]. unfold live_rebuild. rewrite Hpc, Hn, Hp, render_described.
  unfold SAMPLE_RATE. by rewrite huge_delay_panics.
Qed.

(** A node created when the largest id is 0, or in an empty graph, gets id 1, which
    the factory keeps for the bridge's sink. *)
Lemma live_reserved_id :
  let w := live_run (M := flat_math) 64 (live_start (G := list_graph server_node) live_example_server g_new)
             (Arrive (CreateNode tone_spec) :: replicate 5 (Worker 0)) in
  lw_jobs w = [Ret (201, CreateNodeResponse 1)] /\ live_factory (M := flat_math) w 1 = Some (AudioEngine.Sink BridgeSink).
Proof. vm_compute. done. Qed.

(** ** Start-up *)

(** The server gives up on every topology with fewer than two nodes, and on two
    nodes without a link: no graph built from it ends the wait. *)
Lemma first_graph_needs_link {S} {M : MathOps} {G E : Type} `{GraphLaws G server_node E} (sv : Server S) (t : TopologySnapshot) (polls : list (option G)) :
  NoDup (ids t) -> pair_lt (length (nodes t)) (length (edges t)) 2 1 = true ->
  Forall (fun slot => forall g, slot = Some g -> build_graph (factory_build sv) t = Ok g) polls ->
  wait_first_graph polls = None.
Proof.
  intros Hnd Hlt. induction 1 as [|slot polls Hs _ IH]; [done|]. cbn [wait_first_graph]. destruct slot as [g|].
  - pose proof (build_graph_cases (G := G) (factory_build sv) t Hnd) as Hb. rewrite (Hs g eq_refl) in Hb.
    destruct Hb as [Hn Hl]. rewrite <- (Forall2_length _ _ _ Hn), <- (Forall2_length _ _ _ Hl), Hlt. exact IH.
  - exact IH.
Qed.

(** So a server whose only link was deleted before it was stopped does not
    start again: the saved topology is not empty, nothing is seeded. *)
Lemma unlinked_server_never_starts :
  let c := controller (RestApi_new_with_registries (store (lw_ctl live_booted_world)) ∅ ∅) in
  let '(c', status, _) := handle c (DeleteLink 0) in
  status = 204 /\
  match boot (store c') None None with
  | Some (sv, r) => r = Ok tt /\ nodes (get_topology (sv_store sv)) = [bridge_source; bridge_sink] /\
                    edges (get_topology (sv_store sv)) = [] /\ pair_lt 2 0 2 1 = true
  | None => False
  end.
Proof. vm_compute. done. Qed.

(** ** The real-time threads *)

Section rt.
Context {G N E : Type} `{GraphOps G N E}.

Record RtThread : Type := { rt_graph : G; rt_position : Z; rt_recorder : MetricsRecorder }.
Definition rt_start (graph : G) (recorder : MetricsRecorder) : RtThread :=
  {| rt_graph := graph; rt_position := 0; rt_recorder := recorder |}.

(** One iteration of the engine server's thread; [us] is the time the step took. *)
Definition rt_engine_iteration (t : RtThread) (slot : option G) (us : Z) : RtThread * option G :=
  let '(graph, slot) := engine_step (rt_graph t) slot in
  ({| rt_graph := graph; rt_position := wrap 64 (rt_position t + NUM_FRAMES); rt_recorder := record_cycle (rt_recorder t) us |}, slot).

(** One iteration of [run_rt_loop]: errors of the cycle and of the flush are
    reported and ignored. *)
Definition run_rt_iteration (t : RtThread) (us : Z) : RtThread :=
  let '(graph, _) := g_process_cycle (rt_graph t) in
  let '(graph, _) := g_flush_sinks graph in
  {| rt_graph := graph; rt_position := wrap 64 (rt_position t + NUM_FRAMES); rt_recorder := record_cycle (rt_recorder t) us |}.

Definition run_rt_loop (t : RtThread) (times : list Z) : RtThread := foldl run_rt_iteration t times.

(** The engine's thread with an empty slot is the plain loop: swapping costs a
    thread nothing until there is something to swap. *)
Lemma rt_engine_idle t us : rt_engine_iteration t None us = (run_rt_iteration t us, None).
Proof.
  unfold rt_engine_iteration, run_rt_iteration, engine_step, engine_cycle.
  destruct (g_process_cycle (rt_graph t)) as [g r]. cbn. by destruct (g_flush_sinks g) as [g' r'].
Qed.

(** After any number of cycles, failing ones included, the graph has run
    exactly that many, the position counts every frame, and the recorder holds
    the latest times. *)
Lemma rt_loop_counts times : forall t all, Z.of_nat (length times) * NUM_FRAMES + rt_position t < 2 ^ 64 ->
  0 <= rt_position t -> window (rt_recorder t) = latest all ->
  let t' := run_rt_loop t times in
  rt_graph t' = Nat.iter (length times) engine_cycle (rt_graph t) /\
  rt_position t' = rt_position t + Z.of_nat (length times) * NUM_FRAMES /\
  window (rt_recorder t') = latest (all ++ times).
Proof.
  assert (Hiter : forall (g : G) (us : Z) (p : Z) (r : MetricsRecorder), run_rt_iteration {| rt_graph := g; rt_position := p; rt_recorder := r |} us =
    {| rt_graph := engine_cycle g; rt_position := wrap 64 (p + NUM_FRAMES); rt_recorder := record_cycle r us |}).
  { intros g us p r. unfold run_rt_iteration, engine_cycle. cbn. destruct (g_process_cycle g) as [g1 r1]. cbn. by destruct (g_flush_sinks g1). }
  induction times as [|us times IH]; intros [g p r] all Hp H0 Hw; cbn [rt_position rt_graph rt_recorder] in *; unfold NUM_FRAMES in *.
  { cbn. rewrite app_nil_r, Z.add_0_r. done. }
  cbn [length] in Hp. cbn [run_rt_loop foldl]. rewrite Hiter. unfold NUM_FRAMES. rewrite (wrap_id 64) by (unfold uint; lia).
  destruct (IH {| rt_graph := engine_cycle g; rt_position := p + 256; rt_recorder := record_cycle r us |} (all ++ [us])) as (E1 & E2 & E3);
    cbn [rt_position rt_graph rt_recorder]; [lia|lia|cbn; rewrite Hw; apply record_latest|].
  cbn [rt_position rt_graph] in E1, E2. unfold run_rt_loop in E1, E2, E3. split; [rewrite E1; cbn; by rewrite Nat.iter_swap|].
  split; [rewrite E2; cbn [length]; lia|]. by rewrite E3, <- app_assoc.
Qed.
End rt.
Arguments RtThread G : clear implicits.
