(* ===== verification/Gateways.v ===== *)
(** * Gateway wiring and Bluetooth input

    [crates/gw-alsa/src/lib.rs] and [crates/gw-pulse/src/lib.rs]: the
    configuration of the two gateways and how they attach to a graph, as the RTP
    nodes of [crates/net-rtp-aes67/src/lib.rs] do; and the
    worker of [crates/sonicbrew/src/bt_input.rs] that feeds a capture device
    into a ring.  Addresses, the device and the graph are parameters; the graph
    ends of rings are {!BrowserGw}'s [RingNode]s. *)

From Stdlib Require Import String.
From S2P Require Import Prelude F32 External Topology AudioEngine BrowserGw.
Local Open Scope Z_scope.

(** ** The ALSA gateway *)

Module Alsa.

Inductive GatewayError : Type := Unimplemented (what : String.string) | AlsaError (msg : String.string).
Definition RING_CAPACITY : nat := 128.

Record AlsaGateway (Addr : Type) : Type := { listen_addr : Addr; channels : Z; sample_rate : Z; num_frames : nat }.
Arguments listen_addr {Addr}.
Arguments channels {Addr}.
Arguments sample_rate {Addr}.
Arguments num_frames {Addr}.
Arguments Build_AlsaGateway {Addr}.

Section alsa.
Context {Addr : Type} (loopback : Addr).
Implicit Types gw : AlsaGateway Addr.

Definition AlsaGateway_new : AlsaGateway Addr :=
  {| listen_addr := loopback; channels := 2; sample_rate := 48000; num_frames := 256 |}.
Definition with_listen_addr gw (addr : Addr) : AlsaGateway Addr :=
  {| listen_addr := addr; channels := channels gw; sample_rate := sample_rate gw; num_frames := num_frames gw |}.
Definition with_channels gw (c : Z) : AlsaGateway Addr :=
  {| listen_addr := listen_addr gw; channels := c; sample_rate := sample_rate gw; num_frames := num_frames gw |}.
Definition with_sample_rate gw (r : Z) : AlsaGateway Addr :=
  {| listen_addr := listen_addr gw; channels := channels gw; sample_rate := r; num_frames := num_frames gw |}.
Definition with_num_frames gw (n : nat) : AlsaGateway Addr :=
  {| listen_addr := listen_addr gw; channels := channels gw; sample_rate := sample_rate gw; num_frames := n |}.

(** Rings are numbered in the order they are allocated. *)
Definition register {G E : Type} `{GraphOps G RingNode E} (next_ring : nat) gw (graph : G) : G * (Z * Z * nat * nat) :=
  let inbound := next_ring in
  let outbound := S next_ring in
  let '(graph, src) := g_add_node graph {| rn_ring := inbound; rn_channels := channels gw; rn_rate := sample_rate gw; rn_frames := num_frames gw |} in
  let '(graph, sink) := g_add_sink graph {| rn_ring := outbound; rn_channels := channels gw; rn_rate := sample_rate gw; rn_frames := num_frames gw |} in
  (graph, (src, sink, inbound, outbound)).

(** [run] wires the graph, drops its ends and gives up. *)
Definition run {G E : Type} `{GraphOps G RingNode E} (next_ring : nat) gw (graph : G) : G * result unit GatewayError :=
  let '(graph, _) := register next_ring gw graph in (graph, Err (Unimplemented "live libasound .so plugin deferred")).
End alsa.
End Alsa.

(** ** The PulseAudio gateway *)

Module Pulse.

Inductive GatewayError : Type := Unimplemented (what : String.string) | PulseFailed (msg : String.string).
Definition RING_CAPACITY : nat := 128.

Record PulseGateway (Addr : Type) : Type := { listen_addr : Addr; channels : Z; sample_rate : Z; num_frames : nat }.
Arguments listen_addr {Addr}.
Arguments channels {Addr}.
Arguments sample_rate {Addr}.
Arguments num_frames {Addr}.
Arguments Build_PulseGateway {Addr}.

Section pulse.
Context {Addr : Type} (loopback : Addr).
Implicit Types gw : PulseGateway Addr.

Definition PulseGateway_new : PulseGateway Addr :=
  {| listen_addr := loopback; channels := 2; sample_rate := 48000; num_frames := 256 |}.
Definition with_listen_addr gw (addr : Addr) : PulseGateway Addr :=
  {| listen_addr := addr; channels := channels gw; sample_rate := sample_rate gw; num_frames := num_frames gw |}.
Definition with_channels gw (c : Z) : PulseGateway Addr :=
  {| listen_addr := listen_addr gw; channels := c; sample_rate := sample_rate gw; num_frames := num_frames gw |}.
Definition with_sample_rate gw (r : Z) : PulseGateway Addr :=
  {| listen_addr := listen_addr gw; channels := channels gw; sample_rate := r; num_frames := num_frames gw |}.
Definition with_num_frames gw (n : nat) : PulseGateway Addr :=
  {| listen_addr := listen_addr gw; channels := channels gw; sample_rate := sample_rate gw; num_frames := n |}.

Definition register {G E : Type} `{GraphOps G RingNode E} (next_ring : nat) gw (graph : G) : G * (Z * Z * nat * nat) :=
  let inbound := next_ring in
  let outbound := S next_ring in
  let '(graph, src) := g_add_node graph {| rn_ring := inbound; rn_channels := channels gw; rn_rate := sample_rate gw; rn_frames := num_frames gw |} in
  let '(graph, sink) := g_add_sink graph {| rn_ring := outbound; rn_channels := channels gw; rn_rate := sample_rate gw; rn_frames := num_frames gw |} in
  (graph, (src, sink, inbound, outbound)).

Definition run {G E : Type} `{GraphOps G RingNode E} (next_ring : nat) gw (graph : G) : G * result unit GatewayError :=
  let '(graph, _) := register next_ring gw graph in
  (graph, Err (Unimplemented "async daemon serve loop deferred (handshake: see `daemon`)")).
End pulse.
End Pulse.

(** ** RTP nodes

    [register_rtp_nodes] of [crates/net-rtp-aes67/src/lib.rs], and its transport
    stub. *)

Module Rtp.

Definition RING_CAPACITY : nat := 128.

Definition register_rtp_nodes {G E : Type} `{GraphOps G RingNode E} (next_ring : nat) (graph : G) (channels sample_rate : Z)
    (num_frames : nat) : G * (Z * Z * nat * nat) :=
  let inbound := next_ring in
  let outbound := S next_ring in
  let '(graph, src) := g_add_node graph {| rn_ring := inbound; rn_channels := channels; rn_rate := sample_rate; rn_frames := num_frames |} in
  let '(graph, sink) := g_add_sink graph {| rn_ring := outbound; rn_channels := channels; rn_rate := sample_rate; rn_frames := num_frames |} in
  (graph, (src, sink, inbound, outbound)).

Inductive StubTransport : Type := Stub.
Inductive StubError : Type := Unimplemented (what : String.string).
Definition stub_send_rtp (t : StubTransport) (payload : bytes) : result unit StubError := Err (Unimplemented "P1 module").
Definition stub_recv_rtp (t : StubTransport) : result bytes StubError := Err (Unimplemented "P1 module").
Definition stub_join_multicast {Group} (t : StubTransport) (group : Group) : result unit StubError := Err (Unimplemented "P1 module").
End Rtp.

(** ** Attaching gateways *)

Section attach.
Context {G E : Type} `{GraphLaws G RingNode E} {Addr : Type}.
Implicit Types g : G.

(** What a registration with the given block shape adds: a source on the first ring
    and a sink on the second, behind what was there, linking nothing. *)
Definition attached (next_ring : nat) (ch rate : Z) (frames : nat) g g' (ends : Z * Z * nat * nat) : Prop :=
  let node r := {| rn_ring := r; rn_channels := ch; rn_rate := rate; rn_frames := frames |} in
  g_nodes g' = g_nodes g ++ [Plain (node next_ring); Sink (node (S next_ring))] /\ g_links g' = g_links g /\
  ends = (Z.of_nat (length (g_nodes g)), Z.of_nat (S (length (g_nodes g))), next_ring, S next_ring).

Lemma attach_spec (a b : RingNode) g g1 g2 i j : g_add_node g a = (g1, i) -> g_add_sink g1 b = (g2, j) ->
  g_nodes g2 = g_nodes g ++ [Plain a; Sink b] /\ g_links g2 = g_links g /\
  i = Z.of_nat (length (g_nodes g)) /\ j = Z.of_nat (S (length (g_nodes g))).
Proof.
  intros H1 H2. apply g_add_node_spec in H1 as (N1 & L1 & ->). apply g_add_sink_spec in H2 as (N2 & L2 & ->).
  rewrite N2, L2, L1, N1, length_app. cbn. rewrite <- app_assoc, Nat.add_1_r. done.
Qed.

Lemma alsa_attached k (gw : Alsa.AlsaGateway Addr) g :
  attached k (Alsa.channels gw) (Alsa.sample_rate gw) (Alsa.num_frames gw) g (Alsa.register k gw g).1 (Alsa.register k gw g).2.
Proof.
  unfold Alsa.register. destruct (g_add_node g _) as [g1 i] eqn:H1. destruct (g_add_sink g1 _) as [g2 j] eqn:H2.
  destruct (attach_spec _ _ _ _ _ _ _ H1 H2) as (? & ? & -> & ->). by split.
Qed.

Lemma pulse_attached k (gw : Pulse.PulseGateway Addr) g :
  attached k (Pulse.channels gw) (Pulse.sample_rate gw) (Pulse.num_frames gw) g (Pulse.register k gw g).1 (Pulse.register k gw g).2.
Proof.
  unfold Pulse.register. destruct (g_add_node g _) as [g1 i] eqn:H1. destruct (g_add_sink g1 _) as [g2 j] eqn:H2.
  destruct (attach_spec _ _ _ _ _ _ _ H1 H2) as (? & ? & -> & ->). by split.
Qed.

Lemma rtp_attached k ch rate frames g :
  attached k ch rate frames g (Rtp.register_rtp_nodes k g ch rate frames).1 (Rtp.register_rtp_nodes k g ch rate frames).2.
Proof.
  unfold Rtp.register_rtp_nodes. destruct (g_add_node g _) as [g1 i] eqn:H1. destruct (g_add_sink g1 _) as [g2 j] eqn:H2.
  destruct (attach_spec _ _ _ _ _ _ _ H1 H2) as (? & ? & -> & ->). by split.
Qed.

Lemma browser_attached k (gw : BrowserGateway Addr) g :
  attached k (BrowserGw.channels (gw_spec gw)) (BrowserGw.sample_rate (gw_spec gw)) (gw_num_frames gw) g
    (BrowserGw.register k gw g).1 (BrowserGw.register k gw g).2.
Proof.
  unfold BrowserGw.register. destruct (g_add_node g _) as [g1 i] eqn:H1. destruct (g_add_sink g1 _) as [g2 j] eqn:H2.
  destruct (attach_spec _ _ _ _ _ _ _ H1 H2) as (? & ? & -> & ->). by split.
Qed.

(** Every gateway and the RTP pair attach the same way: a source on a
    fresh ring and a sink on the next, appended to the graph with the configured
    block shape and nothing linked; the gateways whose serve loop is deferred leave the graph
    so when [run] reports it. *)
Theorem gateways_attach (k : nat) (alsa : Alsa.AlsaGateway Addr) (pulse : Pulse.PulseGateway Addr) (browser : BrowserGateway Addr)
    (ch rate : Z) (frames : nat) g :
  attached k (Alsa.channels alsa) (Alsa.sample_rate alsa) (Alsa.num_frames alsa) g (Alsa.register k alsa g).1 (Alsa.register k alsa g).2 /\
  attached k (Pulse.channels pulse) (Pulse.sample_rate pulse) (Pulse.num_frames pulse) g (Pulse.register k pulse g).1 (Pulse.register k pulse g).2 /\
  attached k (BrowserGw.channels (gw_spec browser)) (BrowserGw.sample_rate (gw_spec browser)) (gw_num_frames browser) g
    (BrowserGw.register k browser g).1 (BrowserGw.register k browser g).2 /\
  attached k ch rate frames g (Rtp.register_rtp_nodes k g ch rate frames).1 (Rtp.register_rtp_nodes k g ch rate frames).2 /\
  (Alsa.run k alsa g).1 = (Alsa.register k alsa g).1 /\ is_ok (Alsa.run k alsa g).2 = false /\
  (Pulse.run k pulse g).1 = (Pulse.register k pulse g).1 /\ is_ok (Pulse.run k pulse g).2 = false.
Proof.
  split_and!; [apply alsa_attached|apply pulse_attached|apply browser_attached|apply rtp_attached|..];
    unfold Alsa.run, Pulse.run; first [by destruct (Alsa.register k alsa g)|by destruct (Pulse.register k pulse g)].
Qed.
End attach.

(** ** Bluetooth input

    The worker reads the device for ever; the graph pops the ring on its own
    thread, so a run is an interleaving of worker iterations and pops. *)

(** Milliseconds slept after a failed read. *)
Definition READ_ERROR_BACKOFF : Z := 20.

Section bluetooth.
Context {R Src Frame IoErr : Type} `{RingLaws R Frame} (read : Src -> Src * result Frame IoErr).

Record BtWorld : Type := { bw_source : Src; bw_ring : R; bw_slept : Z; bw_read : list Frame; bw_popped : list Frame }.
Inductive BtTurn : Type := Worker | Consumer.

(** One iteration of the loop of [spawn_bt_to_ring]; [bw_read] records the frames
    the device delivered. *)
Definition bt_iteration (w : BtWorld) : BtWorld :=
  let '(source, r) := read (bw_source w) in
  match r with
  | Ok frame =>
      let ring := match ring_push (bw_ring w) frame with Ok ring => ring | Err _ => bw_ring w end in
      {| bw_source := source; bw_ring := ring; bw_slept := bw_slept w; bw_read := bw_read w ++ [frame]; bw_popped := bw_popped w |}
  | Err _ =>
      {| bw_source := source; bw_ring := bw_ring w; bw_slept := bw_slept w + READ_ERROR_BACKOFF; bw_read := bw_read w; bw_popped := bw_popped w |}
  end.

(** A pop on the graph's side. *)
Definition bt_pop (w : BtWorld) : BtWorld :=
  match ring_pop (bw_ring w) with
  | Some (frame, ring) =>
      {| bw_source := bw_source w; bw_ring := ring; bw_slept := bw_slept w; bw_read := bw_read w; bw_popped := bw_popped w ++ [frame] |}
  | None => w
  end.

Definition bt_turn (w : BtWorld) (t : BtTurn) : BtWorld := match t with Worker => bt_iteration w | Consumer => bt_pop w end.
Definition bt_run : BtWorld -> list BtTurn -> BtWorld := foldl bt_turn.
Definition bt_start (source : Src) (ring : R) : BtWorld :=
  {| bw_source := source; bw_ring := ring; bw_slept := 0; bw_read := []; bw_popped := [] |}.

Definition bt_inv (cap : nat) (w : BtWorld) : Prop :=
  ring_capacity (bw_ring w) = cap /\ (length (ring_items (bw_ring w)) <= cap)%nat /\
  (bw_popped w ++ ring_items (bw_ring w)) `sublist_of` bw_read w.

Lemma bt_iteration_inv cap w : bt_inv cap w -> bt_inv cap (bt_iteration w).
Proof.
  intros (Hc & Hl & Hs). unfold bt_iteration. destruct (read _) as [s [f|e]]; [|done].
  destruct (ring_push_cases (bw_ring w) f) as [(r' & -> & Hi & Hc' & Hlt)|[-> Hfull]]; repeat split; cbn; try lia.
  - rewrite Hi, length_app. cbn. lia.
  - rewrite Hi, app_assoc. by apply sublist_app.
  - by apply sublist_inserts_r.
Qed.

Lemma bt_pop_keeps w : bw_popped (bt_pop w) ++ ring_items (bw_ring (bt_pop w)) = bw_popped w ++ ring_items (bw_ring w) /\
  bw_read (bt_pop w) = bw_read w /\ ring_capacity (bw_ring (bt_pop w)) = ring_capacity (bw_ring w) /\
  (length (ring_items (bw_ring (bt_pop w))) <= length (ring_items (bw_ring w)))%nat.
Proof.
  unfold bt_pop. destruct (ring_pop_cases (bw_ring w)) as [(f & r' & -> & Hi & Hc)|[-> _]]; [|done].
  cbn. rewrite Hi, <- app_assoc. repeat split; [done|cbn; lia].
Qed.

Lemma bt_run_inv cap ts w : bt_inv cap w -> bt_inv cap (bt_run w ts).
Proof.
  revert w. induction ts as [|[] ts IH]; intros w Hw; [done|..]; cbn; apply IH; [by apply bt_iteration_inv|].
  destruct Hw as (Hc & Hl & Hs), (bt_pop_keeps w) as (H1' & H2' & H3' & H4'). unfold bt_inv. cbn. rewrite H1', H2'.
  repeat split; [congruence|lia|done].
Qed.

(** Nothing has been lost so far. *)
Definition bt_intact (w : BtWorld) : Prop := bw_popped w ++ ring_items (bw_ring w) = bw_read w.

Lemma bt_turn_intact cap t w : bt_inv cap w -> bt_intact w ->
  (length (bw_read (bt_turn w t)) <= cap + length (bw_popped (bt_turn w t)))%nat -> bt_intact (bt_turn w t).
Proof.
  intros (Hc & _) Hi. unfold bt_intact in *. destruct t; cbn; [|destruct (bt_pop_keeps w) as (-> & -> & _); done].
  unfold bt_iteration. destruct (read _) as [s [f|e]]; [|done]. cbn. rewrite <- Hi, !length_app. cbn. intros Hl.
  destruct (ring_push_cases (bw_ring w) f) as [(r' & -> & -> & _)|[_ Hfull]]; [by rewrite app_assoc|lia].
Qed.

(** C38: Bluetooth input is a lossy queue: under every interleaving of the worker
    with the graph, what the graph popped followed by what is queued is an
    in-order selection of the frames read, never more than the ring's capacity
    is queued, and a frame is lost only to a full ring: while the device is never more
    than the ring's capacity ahead of the graph, every frame read is delivered or queued. *)
Theorem bt_input_fifo (source : Src) (ring : R) (ts : list BtTurn) (Hempty : ring_items ring = []) :
  let w := bt_run (bt_start source ring) ts in
  (bw_popped w ++ ring_items (bw_ring w)) `sublist_of` bw_read w /\
  (length (ring_items (bw_ring w)) <= ring_capacity ring)%nat /\
  ((forall k, let v := bt_run (bt_start source ring) (take k ts) in
     (length (bw_read v) <= ring_capacity ring + length (bw_popped v))%nat) ->
   bw_popped w ++ ring_items (bw_ring w) = bw_read w).
Proof.
  assert (Hinv : forall us, bt_inv (ring_capacity ring) (bt_run (bt_start source ring) us)).
  { intros us. apply bt_run_inv. unfold bt_inv. cbn. rewrite Hempty. repeat split; [cbn; lia|apply sublist_nil_l]. }
  cbn zeta. destruct (Hinv ts) as (_ & Hl & Hs). split; [done|]. split; [done|]. intros Hahead.
  change (bt_intact (bt_run (bt_start source ring) ts)). clear Hl Hs.
  induction ts as [|t us IH] using rev_ind; [by unfold bt_intact; cbn; rewrite Hempty|].
  pose proof (Hahead (length (us ++ [t]))) as Hlast. rewrite take_ge in Hlast by lia.
  unfold bt_run in *. rewrite foldl_app in Hlast |- *. cbn in Hlast |- *.
  apply (bt_turn_intact (ring_capacity ring)); [apply Hinv|apply IH|done].
  intros k. specialize (Hahead (Nat.min k (length us))). rewrite take_app_le in Hahead by lia.
  destruct (decide (k <= length us)%nat) as [Hk|Hk].
  - by rewrite Nat.min_l in Hahead by lia.
  - rewrite Nat.min_r, take_ge in Hahead by lia. by rewrite (take_ge us k) by lia.
Qed.
End bluetooth.

(** A device that fails on its second read, a two-slot ring. *)
Definition flaky_device (n : nat) : nat * result nat unit := (S n, if Nat.eqb n 1 then Err () else Ok n).
Lemma bt_input_fifo_witness :
  ring_items ({| vr_items := []; vr_capacity := 2 |} : vec_ring nat) = [] /\
  let w := bt_run flaky_device (bt_start 0%nat {| vr_items := []; vr_capacity := 2 |}) [Worker; Worker; Worker; Worker; Consumer; Worker] in
  (bw_popped w ++ ring_items (bw_ring w)) `sublist_of` bw_read w /\ bw_popped w ++ ring_items (bw_ring w) = [0; 2; 4]%nat /\ bw_read w = [0; 2; 3; 4]%nat.
Proof.
  split; [done|]. split; [|done].
  apply (bt_input_fifo flaky_device 0%nat ({| vr_items := []; vr_capacity := 2 |} : vec_ring nat)
    [Worker; Worker; Worker; Worker; Consumer; Worker]). reflexivity.
Defined.
