(* ===== verification/Diagnose.v ===== *)
(** * The diagnostic screen

    [crates/sonicbrew/src/diagnose.rs]: [Snapshot::capture], which runs a sine
    through an equaliser, a compressor, a limiter and a meter, the waveform line, the
    windows of the right pane, the scroll state and the key map.  Terminal drawing
    (layout, colours, the text of numbers) is [ratatui]'s and is left out: a label or a
    line keeps the numbers it shows. *)

From Stdlib Require Import String SpecFloat.
From S2P Require Import Prelude F32 RString AudioNodes PlanarNodes EffectNodes RoutingNodes.
Local Open Scope Z_scope.
Import F32.

Local Infix "*." := mul (at level 40, left associativity).
Local Infix "/." := div (at level 40, left associativity).

(** ** Capture *)

Inductive Label : Type :=
| LText (s : String.string)
| LSine (freq : f32)             (* SineSource {freq:.0}Hz 0.8 *)
| LMeter (peak rms : f32).       (* Meter peak={:.3} rms={:.3} *)

Record Snapshot : Type := {
  topology : list (String.string * Label); input : list f32; output : list f32; latency_us : Z;
  sn_rate : Z; sn_frames : nat; freq : f32; sn_gain : f32; input_peak : f32; output_peak : f32
}.

Definition f_440 : f32 := 0x43DC0000.
Definition f_0_8 : f32 := 0x3F4CCCCD.
Definition f_1000 : f32 := 0x447A0000.
Definition f_6 : f32 := 0x40C00000.
Definition f_m12 : f32 := 0xC1400000.
Definition f_50 : f32 := 0x42480000.
Definition f_3 : f32 := 0x40400000.

(** [signal.iter().fold(0.0, |a, &s| a.max(s.abs()))]. *)
Definition fold_peak (l : list f32) : f32 := foldl (fun a s => fmax a (abs s)) zero l.

(** [process] and then [snapshot] of a meter no other thread touches; a spurious
    failure of the exchange only repeats the loop. *)
Definition meter_alone (xs : list f32) : option Levels :=
  head (meter_run MeterNode_new [MProcess xs; MTurn false; MTurn false; MTurn false; MSnapshot; MSnapshot]).2.

Section capture.
Context {M : MathOps}.

Definition num_frames : nat := 256.
Definition sample_rate : Z := 48000.

Definition sine_input : list f32 :=
  map (fun i => m_sin (of_Z (Z.of_nat i) /. of_Z sample_rate *. f_440 *. TWO_PI) *. f_0_8) (seq 0 num_frames).

Definition mono (samples : list f32) : AudioFrame := {| fr_channels := 1; fr_rate := sample_rate; fr_samples := samples |}.
Definition silent : list AudioFrame := [mono (replicate num_frames zero)].

(** [elapsed] is the time the clock shows for the chain; an index out of range is [None]. *)
Definition capture (elapsed : Z) : option Snapshot :=
  let input_frame := mono sine_input in
  let eq := EqNode_new Peaking f_1000 f_6 one sample_rate 1 in
  let comp := CompressorNode_new f_m12 f_4 one f_50 f_3 sample_rate 1 in
  let lim := LimiterNode_new neg_one in
  '(_, eq_out) ← eq_process eq [input_frame] silent;
  '(_, comp_out) ← compressor_process comp eq_out silent;
  let lim_out := limiter_process lim comp_out silent in
  let meter_out := meter_process lim_out silent in
  first ← head lim_out;
  levels ← meter_alone (fr_samples first);
  out ← head meter_out;
  let input := fr_samples input_frame in
  let output := fr_samples out in
  let input_peak := fold_peak input in
  let output_peak := fold_peak output in
  Some {|
    topology := [("source"%string, LSine f_440); ("eq"%string, LText "EQ peak 1kHz +6dB"); ("dyn"%string, LText "Comp -12dB 4:1");
                 ("safe"%string, LText "Limiter -1dB"); ("meter"%string, LMeter (lv_peak levels) (lv_rms levels));
                 ("sink"%string, LText "Capture")];
    input := input; output := output; latency_us := elapsed; sn_rate := sample_rate; sn_frames := num_frames; freq := f_440;
    sn_gain := if ltb f_1e_9 input_peak then output_peak /. input_peak else zero;
    input_peak := input_peak; output_peak := output_peak |}.
End capture.

(** ** The waveform line *)

(** Doubles, for the two quotients of the screen. *)
Definition f64_of (z : Z) : spec_float := binary_normalize 53 1024 z 0 false.
Definition f64_div : spec_float -> spec_float -> spec_float := SFdiv 53 1024.
Definition f64_mul : spec_float -> spec_float -> spec_float := SFmul 53 1024.
Definition f64_max (a b : spec_float) : spec_float :=
  match a, b with
  | S754_nan, _ => b
  | _, S754_nan => a
  | _, _ => if SFltb a b then b else a
  end.
(** [x as u64]. *)
Definition f64_to_u64 (x : spec_float) : Z :=
  match x with
  | S754_nan | S754_zero _ => 0
  | S754_infinity s => if s then 0 else 2 ^ 64 - 1
  | S754_finite s m e => if s then 0 else Z.min (2 ^ 64 - 1) (mag_trunc (Z.pos m) e)
  end.

(** Code points of the bars. *)
Definition BARS : list Z := [0x2581; 0x2582; 0x2583; 0x2584; 0x2585; 0x2586; 0x2587; 0x2588; 0x2588].

Definition bar_index (x : f32) : nat := Z.to_nat (Z.min (to_uint 64 (abs x *. 0x40E00000)) 8).

(** The loop from index [i], by what is left of the samples; [step] is at least 1. *)
Fixpoint waveform_loop (fuel : nat) (samples : list f32) (width : nat) (step : Z) (i : nat) (out : list Z) : option (list Z) :=
  match fuel with
  | O => Some out
  | S fuel =>
      if (i <? length samples)%nat && (string_len out <? width)%nat then
        x ← samples !! i;
        bar ← BARS !! bar_index x;
        waveform_loop fuel samples width step (i + Z.to_nat step) (out ++ [bar])
      else Some out
  end.

Definition waveform_step (len width : nat) : Z :=
  f64_to_u64 (f64_max (f64_div (f64_of (Z.of_nat len)) (f64_of (Z.of_nat width))) (f64_of 1)).

(** Every turn advances [i] by at least 1, so the samples' length bounds the turns. *)
Definition waveform_line (samples : list f32) (width : nat) : option (list Z) :=
  match samples with
  | [] => Some []
  | _ => waveform_loop (S (length samples)) samples width (waveform_step (length samples) width) 0 []
  end.

(** ** The application *)

Inductive Msg : Type := Quit | ScrollDown | ScrollUp.
Record DiagnoseApp : Type := { snap : Snapshot; scroll : Z }.

Definition USIZE_MAX : Z := 2 ^ 64 - 1.
Definition DiagnoseApp_new (s : Snapshot) : DiagnoseApp := {| snap := s; scroll := 0 |}.

Definition update (app : DiagnoseApp) (msg : Msg) : DiagnoseApp :=
  match msg with
  | Quit => app
  | ScrollDown => {| snap := snap app; scroll := Z.min USIZE_MAX (scroll app + 4) |}
  | ScrollUp => {| snap := snap app; scroll := Z.max 0 (scroll app - 4) |}
  end.

(** What the key map reads of a terminal event. *)
Inductive KeyCode : Type := KChar (c : Z) | KEsc | KDown | KUp | KOther.
Inductive KeyEventKind : Type := Press | Repeat | Release.
Inductive Event : Type := EKey (kind : KeyEventKind) (code : KeyCode) | EOther.

Definition on_event (ev : Event) : option Msg :=
  match ev with
  | EKey Press code =>
      match code with
      | KChar c => if c =? 113 then Some Quit else if c =? 106 then Some ScrollDown else if c =? 107 then Some ScrollUp else None
      | KEsc => Some Quit
      | KDown => Some ScrollDown
      | KUp => Some ScrollUp
      | KOther => None
      end
  | _ => None
  end.

Definition should_quit (msg : Msg) : bool := match msg with Quit => true | _ => false end.

(** [&v[a..b]]. *)
Definition slice {A} (a b : nat) (v : list A) : option (list A) :=
  if (a <=? b)%nat && (b <=? length v)%nat then Some (take (b - a) (drop a v)) else None.

(** The lines of the right pane. *)
Inductive PaneLine : Type :=
| PeakLine (what : String.string) (peak : f32)
| BarLine (bars : list Z)
| BlankLine
| OffsetLine (start len : nat) (pct : Z).

(** [render_right_pane], for an inner area of [width] by [height]; a checked
    subtraction or a slice out of range is [None]. *)
Definition render_right_pane (app : DiagnoseApp) (width height : nat) : option (list PaneLine) :=
  let s := snap app in
  let start := Nat.min (Z.to_nat (scroll app)) (length (input s) - width) in
  rest ← (if (start <=? length (input s))%nat then Some (length (input s) - start)%nat else None);
  let win := Nat.min width rest in
  in_view ← slice start (start + win) (input s);
  out_view ← slice start (start + win) (output s);
  in_line ← waveform_line in_view width;
  out_line ← waveform_line out_view width;
  let lines := [PeakLine "input" (input_peak s); BarLine in_line; BlankLine; PeakLine "output" (output_peak s); BarLine out_line] in
  let lines := lines ++ replicate ((height - 1) - length lines) BlankLine in
  let pct := f64_to_u64 (f64_mul (f64_div (f64_of (Z.of_nat start)) (f64_of (Z.of_nat (length (input s))))) (f64_of 100)) in
  Some (lines ++ if decide (input s = []) then [] else [OffsetLine start (length (input s)) pct]).

(** The numbers of the metrics table. *)
Definition gain_ratio (s : Snapshot) : f32 := if ltb f_1e_9 (input_peak s) then output_peak s /. input_peak s else zero.
Definition latency_budget_us (s : Snapshot) : Z :=
  f64_to_u64 (f64_mul (f64_div (f64_of (Z.of_nat (sn_frames s))) (f64_of (sn_rate s))) (f64_of 1000000)).

(** ** The pane never panics *)

Lemma bar_index_small x : (bar_index x <= 8)%nat.
Proof. unfold bar_index. lia. Qed.

(** The bar of a sample. *)
Definition bar (x : f32) : Z := default 0 (BARS !! bar_index x).

Lemma bar_lookup x : BARS !! bar_index x = Some (bar x).
Proof.
  unfold bar. pose proof (bar_index_small x) as Hb.
  destruct (lookup_lt_is_Some_2 BARS (bar_index x)) as [b ->]; [unfold BARS; cbn [length]; lia|done].
Qed.

(** Every bar is three bytes long in UTF-8. *)
Lemma len_bar x : len_utf8 (bar x) = 3%nat.
Proof.
  unfold bar. pose proof (bar_index_small x) as Hb. destruct (bar_index x) as [|[|[|[|[|[|[|[|[|]]]]]]]]]; try reflexivity. lia.
Qed.

Lemma string_len_bars l : string_len (bar <$> l) = (3 * length l)%nat.
Proof.
  unfold string_len. induction l as [|x l IH]; [done|]. cbn [fmap list_fmap list_sum foldr length] in IH |- * .
  rewrite len_bar. unfold list_sum in IH. rewrite IH. lia.
Qed.

Lemma waveform_loop_some fuel samples width step i out : is_Some (waveform_loop fuel samples width step i out).
Proof.
  revert i out. induction fuel as [|fuel IH]; intros i out; cbn [waveform_loop]; [done|].
  destruct (Nat.ltb_spec i (length samples)) as [Hi|]; [|done]. cbn [andb]. destruct (Nat.ltb _ _); [|done].
  destruct (lookup_lt_is_Some_2 _ _ Hi) as [x ->]. cbn [mbind option_bind]. rewrite bar_lookup. apply IH.
Qed.

(** With a step of 1 the loop draws one bar for each of the first samples until
    the bytes, not the bars, reach the width. *)
Lemma waveform_loop_unit fuel samples width i :
  (length samples < i + fuel)%nat -> (i <= length samples)%nat -> (i <= (width + 2) / 3)%nat ->
  waveform_loop fuel samples width 1 i (bar <$> take i samples) = Some (bar <$> take ((width + 2) / 3) samples).
Proof.
  revert i. induction fuel as [|fuel IH]; intros i Hf Hi Hw; [lia|]. cbn [waveform_loop].
  rewrite string_len_bars, length_take, Nat.min_l by done.
  pose proof (Nat.div_mod (width + 2) 3 ltac:(lia)) as Hd. pose proof (Nat.mod_upper_bound (width + 2) 3 ltac:(lia)).
  destruct (Nat.ltb_spec i (length samples)) as [Hlt|Hge]; cbn [andb].
  - destruct (Nat.ltb_spec (3 * i) width) as [Hbar|Hbar].
    + destruct (lookup_lt_is_Some_2 _ _ Hlt) as [x Hx]. rewrite Hx. cbn [mbind option_bind]. rewrite bar_lookup. cbn [mbind option_bind].
      change (Z.to_nat 1) with 1%nat. rewrite Nat.add_1_r. change [bar x] with (bar <$> [x]).
      rewrite <- fmap_app, <- (take_S_r _ _ _ Hx). apply IH; lia.
    + do 3 f_equal. lia.
  - do 2 f_equal. rewrite !take_ge by lia. done.
Qed.

Lemma waveform_step_self w : (0 < w <= 256)%nat -> waveform_step w w = 1.
Proof.
  intros Hw. assert (Hall : forallb (fun v => waveform_step v v =? 1) (seq 1 256) = true) by (vm_compute; reflexivity).
  rewrite forallb_forall in Hall. apply Z.eqb_eq, Hall, in_seq. lia.
Qed.

(** A view as long as the line is wide. *)
Lemma waveform_line_full samples : (length samples <= 256)%nat ->
  waveform_line samples (length samples) = Some (bar <$> take ((length samples + 2) / 3) samples).
Proof.
  intros Hl. destruct samples as [|x l]; [done|]. unfold waveform_line.
  rewrite waveform_step_self by (cbn [length] in Hl |- * ; lia).
  apply (waveform_loop_unit (S (length (x :: l))) (x :: l) (length (x :: l)) 0); lia.
Qed.

Lemma waveform_line_some samples width : is_Some (waveform_line samples width).
Proof. destruct samples; [done|]. apply waveform_loop_some. Qed.

Lemma slice_some {A} a n (v : list A) : (a + n <= length v)%nat -> slice a (a + n) v = Some (take n (drop a v)).
Proof.
  intros Hl. unfold slice. destruct (Nat.leb_spec a (a + n)); [|lia]. destruct (Nat.leb_spec (a + n) (length v)); [|lia].
  cbn [andb]. do 2 f_equal. lia.
Qed.

(** The right pane of the diagnostic screen is drawn without a panic for every
    scroll position and area, as long as the two signals have one length; it has
    the two peaks, the two waveforms, blank lines down to the last row and the offset line;
    and while it is no wider than the signal, each waveform shows the samples from the
    same clamped scroll offset, one bar per sample, but only a third as many bars as
    there are columns, because the loop compares the line's bytes with the width. *)
Theorem diagnose_pane (app : DiagnoseApp) (width height : nat) (s := snap app) (n := length (input s))
    (start := Nat.min (Z.to_nat (scroll app)) (n - width)) (Hlen : length (output s) = n) :
  exists in_line out_line pct, render_right_pane app width height = Some (
    [PeakLine "input" (input_peak s); BarLine in_line; BlankLine; PeakLine "output" (output_peak s); BarLine out_line] ++
    replicate (height - 6) BlankLine ++ if decide (input s = []) then [] else [OffsetLine start n pct]) /\
  ((width <= n)%nat -> (width <= 256)%nat ->
    (start + width <= n)%nat /\
    in_line = bar <$> take ((width + 2) / 3) (drop start (input s)) /\
    out_line = bar <$> take ((width + 2) / 3) (drop start (output s))).
Proof.
  unfold render_right_pane. fold s n start.
  assert (Hs : (start <= n)%nat) by (unfold start; lia). rewrite (proj2 (Nat.leb_le _ _) Hs). cbn [mbind option_bind].
  set (win := Nat.min width (n - start)). assert (Hw : (start + win <= n)%nat) by (unfold win; lia).
  rewrite (slice_some start win (input s)), (slice_some start win (output s)) by (rewrite ?Hlen; done).
  cbn [mbind option_bind].
  destruct (waveform_line_some (take win (drop start (input s))) width) as [il Hil].
  destruct (waveform_line_some (take win (drop start (output s))) width) as [ol Hol].
  rewrite Hil, Hol. cbn [mbind option_bind]. exists il, ol. eexists. split.
  - rewrite <- app_assoc. cbn [length]. replace (height - 1 - 5)%nat with (height - 6)%nat by lia. reflexivity.
  - intros Hn H256. assert (win = width) by (unfold win, start; lia). split; [unfold start; lia|].
    assert (Hview : forall l line, length l = n -> waveform_line (take win (drop start l)) width = Some line ->
      line = bar <$> take ((width + 2) / 3) (drop start l)).
    { intros l line Hl Hline. assert (Hlw : length (take win (drop start l)) = width) by (rewrite length_take, length_drop; lia).
      pose proof (waveform_line_full (take win (drop start l)) ltac:(lia)) as Hfull. rewrite Hlw in Hfull. rewrite Hfull in Hline. apply (inj Some) in Hline as <-. f_equal.
      rewrite take_take, Nat.min_l; [done|]. apply Nat.lt_succ_r, Nat.Div0.div_lt_upper_bound. lia. }
    split; [by apply Hview|by apply Hview].
Qed.

(** A screen ten columns wide over a ramp of twelve samples, scrolled past the end. *)
Definition ramp_app : DiagnoseApp :=
  let ramp := (fun k => of_Z (Z.of_nat k) /. of_Z 8) <$> seq 0 12 in
  {| snap := {| topology := []; input := ramp; output := ramp; latency_us := 0; sn_rate := 48000; sn_frames := 12;
                freq := f_440; sn_gain := one; input_peak := one; output_peak := one |}; scroll := 8 |}.

Lemma diagnose_pane_witness : length (output (snap ramp_app)) = 12%nat /\
  exists in_line, render_right_pane ramp_app 10 7 = Some [PeakLine "input" one; BarLine in_line; BlankLine;
    PeakLine "output" one; BarLine in_line; BlankLine; OffsetLine 2 12 16] /\ in_line = [0x2582; 0x2583; 0x2584; 0x2585].
Proof.
  split; [reflexivity|].
  destruct (diagnose_pane ramp_app 10 7 ltac:(reflexivity)) as (il & ol & pct & E & _).
  exists il. assert (R : render_right_pane ramp_app 10 7 = Some [PeakLine "input" one; BarLine [0x2582; 0x2583; 0x2584; 0x2585]; BlankLine;
    PeakLine "output" one; BarLine [0x2582; 0x2583; 0x2584; 0x2585]; BlankLine; OffsetLine 2 12 16]) by (vm_compute; reflexivity).
  rewrite R in E |- * . injection E as <- _ _. split; reflexivity.
Defined.

(** ** What a capture shows *)

(** A product is a 32-bit pattern. *)
Lemma mul_u32 a b : u32 (a *. b).
Proof.
  unfold mul, lift2. apply encode_u32.
  pose proof (decode_valid a) as Ha. pose proof (decode_valid b) as Hb.
  destruct (decode a) as [s|s| |s m e], (decode b) as [s'|s'| |s' m' e']; cbn [SFmul]; try done.
  cbn [valid32] in Ha, Hb.
  set (k := fexp prec32 emax32 (Zdigits2 (Z.pos (m * m')) + (e + e')) - (e + e')).
  assert (Hk : 0 <= k).
  { unfold k, fexp, emin, prec32, emax32. simpl Zdigits2.
    pose proof (digits2_bounds (m * m')) as [_ Hd].
    assert (e + e' <= -149 \/ 24 <= Z.pos (digits2_pos (m * m'))); [|lia].
    assert (e + e' <= -149 \/ 2 ^ 23 <= Z.pos (m * m')) as [?|?] by nia; [by left|right].
    assert (23 < Z.pos (digits2_pos (m * m'))); [|lia].
    apply (Z.pow_lt_mono_r_iff 2); lia. }
  destruct (binary_round_aux_spec (xorb s s') (m * m') (e + e') Hk) as (n & -> & _ & _ & Hn & He & Hc).
  by apply norm32_valid.
Qed.

(** A NaN is skipped by [max]. *)
Lemma fmax_abs a x : 0 <= a <= inf -> u32 x -> fmax a (abs x) = Z.max a (magnitude x).
Proof.
  intros Ha Hx. pose proof (abs_bits x Hx) as Hb. unfold fmax, magnitude.
  assert (Hn : forall y, 0 <= y <= inf -> is_nan y = false).
  { intros y Hy. unfold is_nan, eqb, SFeqb. rewrite compare_bits, Z.compare_refl by done. done. }
  rewrite Hn by done. destruct (Z.leb_spec (abs x) inf) as [Hle|Hgt].
  - rewrite Hn, ltb_bits by lia. destruct (Z.ltb_spec a (abs x)); lia.
  - assert (is_nan (abs x) = true) as ->; [|lia]. unfold is_nan, eqb.
    rewrite (proj2 (decode_nan (abs x) ltac:(unfold uint; lia))); [done|].
    unfold abs at 1. destruct (Z.leb_spec (2 ^ 31) (abs x)); lia.
Qed.

Lemma magnitude_range x : u32 x -> 0 <= magnitude x <= inf.
Proof.
  intros Hx. pose proof (abs_bits x Hx). unfold magnitude, inf. destruct (Z.leb_spec (abs x) 0x7F800000); lia.
Qed.

Lemma fold_peak_spec l : Forall u32 l -> fold_peak l = peak_of (magnitude <$> l).
Proof.
  assert (Hgo : forall a, Forall u32 l -> 0 <= a <= inf -> foldl (fun a s => fmax a (abs s)) a l = Z.max a (peak_of (magnitude <$> l))).
  { induction l as [|x l IH]; intros a Hl Ha; [cbn; lia|]. apply Forall_cons in Hl as [Hx Hl].
    rewrite fmap_cons, peak_of_cons. cbn [foldl]. rewrite fmax_abs by done. pose proof (magnitude_range x Hx). rewrite IH by (done || lia). lia. }
  intros Hl. unfold fold_peak. rewrite Hgo by (done || (unfold zero, inf; lia)). pose proof (peak_of_nonneg (magnitude <$> l)). unfold zero. lia.
Qed.

(** A meter alone reports the block's measure. *)
Lemma meter_alone_spec x xs : Forall u32 (x :: xs) ->
  exists rms, meter_alone (x :: xs) = Some {| lv_peak := fold_peak (x :: xs); lv_rms := rms |}.
Proof.
  intros Hx. pose proof (measure_range _ Hx) as Hr. rewrite (fold_peak_spec _ Hx), <- (measure_peak _ Hx).
  unfold meter_alone. cbn [meter_run meter_step MeterNode_new mt_pc mt_peak mt_rms mt_swapped].
  destruct (measure (x :: xs)) as [peak rms]. cbn [fst] in Hr |- * . exists rms.
  unfold meter_turn at 3. cbn [mt_pc mt_peak mt_rms mt_swapped]. rewrite leb_bits by (unfold zero, inf in * |- * ; lia).
  destruct (Z.leb_spec peak zero) as [Hz|Hz].
  - assert (peak = 0) as -> by (unfold zero in Hz; lia). reflexivity.
  - unfold meter_turn at 2. cbn [mt_pc mt_peak mt_rms mt_swapped negb andb]. rewrite Z.eqb_refl. reflexivity.
Qed.

(** A mono block through a node whose step is total. *)
Lemma mono_node {D P S : Type} `{SampleNodeLaws D P S} (Q : f32 -> Prop) (d : D) (s0 : S) (l : list f32) :
  length l = num_frames -> sn_chan d 0 = Some s0 ->
  (forall st x, exists st' y, sn_step (sn_params d) st x = Some (st', y) /\ Q y) ->
  exists d' ys, planar_node sn_process d [mono l] silent = Some (d', [mono ys]) /\ length ys = num_frames /\ Forall Q ys.
Proof.
  intros Hl Hc Hstep.
  assert (Hs : forall xs st, exists st' ys, stream (sn_params d) st xs = Some (st', ys) /\ Forall Q ys).
  { induction xs as [|x xs IH]; intros st; [by exists st, []|]. destruct (Hstep st x) as (st1 & y & E & Hy).
    destruct (IH st1) as (st2 & ys & E2 & Hys). exists st2, (y :: ys). cbn [stream]. rewrite E. cbn [mbind option_bind].
    rewrite E2. split; [done|by constructor]. }
  destruct (Hs l s0) as (s1 & ys & E & HQ). pose proof (length_stream _ _ _ _ _ E) as Hys.
  destruct (planar_process_ok 1 num_frames (mono l) d (fun _ => s0) (fun _ => s1) (fun _ => ys)) as (d' & E' & _).
  - lia.
  - done.
  - cbn [fr_samples mono]. lia.
  - intros c Hc'. by replace c with 0%nat by lia.
  - intros c Hc'. replace c with 0%nat by lia. unfold chan. cbn [fr_samples mono]. rewrite Nat.mul_0_l, drop_0, take_ge by lia. done.
  - exists d', ys. split; [|split; [by rewrite Hys|done]]. unfold planar_node, silent. cbn [fr_samples mono] in E' |- * .
    rewrite <- Hl, E'. cbn [mbind option_bind seq mret]. cbn [mbind list_bind]. rewrite app_nil_r. done.
Qed.

Lemma map_into_full f (inp out : list f32) : length out = length inp -> map_into f inp out = f <$> inp.
Proof. revert out. induction inp as [|x inp IH]; intros [|o out] Hl; try done. cbn. f_equal. apply IH. by injection Hl. Qed.

Section captured.
Context {M : MathOps}.

Lemma hard_clip_u32 t x : u32 x -> u32 (hard_clip t x).
Proof. intros Hx. unfold hard_clip. destruct (ltb _ _); [apply mul_u32|done]. Qed.

(** C39: A capture runs the whole chain without a panic and shows 256 input and 256
    output samples.  Whatever the platform's sine, exponential and power return, no output sample exceeds the
    limiter's threshold and so the reported output peak does not either; the meter's label
    shows that same peak although the meter computes it with its own loop and
    atomics; and the gain reported is the metrics table's ratio. *)
Theorem diagnose_capture (elapsed : Z) (t := db_to_linear neg_one) (Ht : 0 <= t <= inf) :
  exists s rms, capture elapsed = Some s /\
    length (input s) = 256%nat /\ length (output s) = 256%nat /\
    Forall (fun y => ltb t (abs y) = false) (output s) /\ 0 <= output_peak s <= t /\
    ("meter"%string, LMeter (output_peak s) rms) ∈ topology s /\
    sn_gain s = gain_ratio s /\ latency_budget_us s = 5333.
Proof.
  unfold capture.
  assert (Hin : length sine_input = num_frames) by (unfold sine_input; by rewrite length_map, length_seq).
  destruct (mono_node (D := EqNode) (fun _ => True) (EqNode_new Peaking f_1000 f_6 one sample_rate 1) (zero, zero) sine_input)
    as (d1 & y1 & E1 & L1 & _); [done|done|intros st x; eexists _, _; split; [apply (f_equal Some), surjective_pairing|done]|].
  change (eq_process ?d) with (planar_node sn_process d). rewrite E1. cbn [mbind option_bind].
  destruct (mono_node (D := CompressorNode) u32 (CompressorNode_new f_m12 f_4 one f_50 f_3 sample_rate 1) zero y1)
    as (d2 & y2 & E2 & L2 & U2); [done|done|intros st x; eexists _, _; split; [reflexivity|apply mul_u32]|].
  change (compressor_process ?d) with (planar_node sn_process d). rewrite E2. cbn [mbind option_bind].
  unfold limiter_process, meter_process, silent. cbn [one_to_one head mbind option_bind with_out mono fr_samples fr_channels fr_rate LimiterNode_new lim_threshold].
  fold t. rewrite (map_into_full (hard_clip t)) by (by rewrite length_replicate).
  rewrite map_into_full by (by rewrite length_fmap, length_replicate). rewrite list_fmap_id.
  set (ys := hard_clip t <$> y2).
  assert (Hys : length ys = 256%nat) by (unfold ys; rewrite length_fmap; exact L2).
  assert (Uys : Forall u32 ys) by (apply Forall_fmap; eapply Forall_impl; [exact U2|]; intros x Hx; by apply hard_clip_u32).
  assert (Bys : Forall (fun y => ltb t (abs y) = false) ys)
    by (apply Forall_fmap; eapply Forall_impl; [exact U2|]; intros x Hx; by apply (hard_clip_bound t x)).
  clear E1. generalize dependent sine_input. intros inp Hin. destruct ys as [|y0 ys'] eqn:Ey; [done|]. destruct (meter_alone_spec y0 ys' Uys) as [rms ->]. cbn [mbind option_bind].
  eexists _, rms. split; [reflexivity|]. cbn [input output output_peak topology sn_gain lv_peak lv_rms].
  split; [exact Hin|]. split; [exact Hys|]. split; [exact Bys|].
  split; [|split; [|split; [unfold gain_ratio; cbn [input_peak output_peak]; reflexivity|]]].
  2: { do 4 apply list_elem_of_further. apply list_elem_of_here. }
  2: { unfold latency_budget_us. cbn [sn_frames sn_rate]. vm_compute. reflexivity. }
  rewrite fold_peak_spec by done. split; [apply peak_of_nonneg|].
  apply peak_of_bound; [lia|]. apply Forall_fmap, Forall_forall. intros y Hy. unfold compose, magnitude.
  rewrite Forall_forall in Bys, Uys. specialize (Bys y Hy). specialize (Uys y Hy). pose proof (abs_bits y Uys).
  destruct (Z.leb_spec (abs y) inf); [|lia]. rewrite ltb_bits in Bys by lia. apply Z.ltb_ge in Bys. lia.
Qed.
End captured.

Lemma diagnose_capture_witness : exists s, capture (M := flat_math) 7 = Some s /\ length (output s) = 256%nat /\ output_peak s <= one.
Proof.
  destruct (diagnose_capture (M := flat_math) 7) as (s & rms & E & _ & Hl & _ & [_ Hp] & _).
  - split; apply Z.leb_le; vm_compute; reflexivity.
  - exists s. split; [exact E|]. split; [exact Hl|]. eapply Z.le_trans; [exact Hp|]. apply Z.leb_le. vm_compute. reflexivity.
Defined.
