(* ===== verification/SelfTest.v ===== *)
(** * Metrics endpoint and self-tests

    [serve_metrics] and [NoopSink] of [crates/monitor/src/lib.rs], and the
    deterministic checks of [crates/sonicbrew/src/main.rs]: [run_self_test], with the nodes and the two
    rebuild checks that need no server.  The graph library and its rings are
    parameters: a check is a program over their operations. *)

From Stdlib Require Import String.
From S2P Require Import Prelude F32 RString Topology AudioNodes PlanarNodes EffectNodes RoutingNodes Monitor.
Local Open Scope Z_scope.
Import F32.

Local Infix "*." := mul (at level 40, left associativity).
Local Infix "/." := div (at level 40, left associativity).

(** ** The sink that collects nothing *)

Inductive NoopSink : Type := Noop.
Definition noop_record_latency (s : NoopSink) (p50_us p99_us : Z) : NoopSink := s.
Definition noop_record_xrun (s : NoopSink) (count : Z) : NoopSink := s.
Definition noop_export_prometheus (s : NoopSink) : rstring := [].

(** ** The [/metrics] endpoint *)

Definition crlf : rstring := [13; 10].

Definition http_response (body : rstring) : rstring :=
  lit "HTTP/1.1 200 OK" ++ crlf ++ lit "Content-Type: text/plain; version=0.0.4" ++ crlf ++
  lit "Content-Length: " ++ dec (Z.of_nat (string_len body)) ++ crlf ++ lit "Connection: close" ++ crlf ++ crlf ++ body.

(** A connection: up to 256 bytes are read, or nothing within half a second, and
    whatever they were the recorder's text is the answer. *)
Definition metrics_connection (request : option (list Z)) (r : MetricsRecorder) : rstring := http_response (export_prometheus r).

(** What a client does with an answer: the head up to the first empty line, its
    length field, and the rest. *)
Fixpoint split_head (s : rstring) : option (rstring * rstring) :=
  if starts_with [13; 10; 13; 10] s then Some ([], drop 4 s)
  else match s with
       | [] => None
       | c :: s => match split_head s with Some (h, b) => Some (c :: h, b) | None => None end
       end.

Definition http_read (s : rstring) : option (rstring * Z * rstring) :=
  '(head, body) ← split_head s;
  status ← lines head !! 0%nat;
  field ← List.find (starts_with (lit "Content-Length: ")) (lines head);
  token ← last_token field;
  len ← parse_u64 token;
  Some (status, len, body).

(** ** The acceptance check of the monitor *)

Inductive SelfTestError (E : Type) : Type :=
| PushFailed
| CycleFailed (e : E)
| SinkInputAbsent
| SinkSilent
| ExportEmpty
| NoMaxLine
| NoMaxValue
| MaxNotU64
| MaxBelowOne (max_val : Z)
| NothingFlushed
| FlushFailed (e : E)
| OutboundEmpty
| OutboundSilent (peak : f32).
Arguments PushFailed {E}.
Arguments CycleFailed {E}.
Arguments SinkInputAbsent {E}.
Arguments SinkSilent {E}.
Arguments ExportEmpty {E}.
Arguments NoMaxLine {E}.
Arguments NoMaxValue {E}.
Arguments MaxNotU64 {E}.
Arguments MaxBelowOne {E}.
Arguments NothingFlushed {E}.
Arguments FlushFailed {E}.
Arguments OutboundEmpty {E}.
Arguments OutboundSilent {E}.

(** The value of the first line that mentions the maximum. *)
Definition exported_max {E} (exported : rstring) : result Z (SelfTestError E) :=
  if decide (exported = []) then Err ExportEmpty else
  let? max_line := ok_or (List.find (contains_str (lit "process_latency_us_max")) (lines exported)) NoMaxLine in
  let? value := ok_or (last_token max_line) NoMaxValue in
  ok_or (parse_u64 value) MaxNotU64.

(** [samples.iter().copied().fold(0.0, f32::max).abs()]. *)
Definition positive_peak (l : list f32) : f32 := abs (foldl fmax zero l).

Definition f_440 : f32 := 0x43DC0000.
Definition f_1e_6 : f32 := 0x358637BD.
Definition SELF_TEST_CYCLES : nat := 10.
Definition CHANNELS : Z := 2.
Definition SAMPLE_RATE : Z := 48000.
Definition NUM_FRAMES : nat := 256.

(** The graph with its two rings, as the self-test drives them. *)
Class SelfTestIo (W E : Type) : Type := {
  st_push_inbound : W -> AudioFrame -> result W AudioFrame;
  st_process_cycle : W -> Z -> W * result unit E;
  st_read_input : W -> Z -> Z -> option AudioFrame;
  st_flush_sinks : W -> W * (Z * option E);
  st_pop_outbound : W -> option (AudioFrame * W)
}.

Section self_test.
Context {M : MathOps} {W E : Type} `{SelfTestIo W E}.

Definition sine_frame : AudioFrame :=
  {| fr_channels := CHANNELS; fr_rate := SAMPLE_RATE;
     fr_samples := seq 0 NUM_FRAMES ≫= fun i =>
       let phase := two *. PI *. (f_440 *. of_Z (Z.of_nat i) /. of_Z SAMPLE_RATE) in
       let s := m_sin phase *. half in [s; s] |}.

(** The cycles from [k] on; [latency] is what the clock shows for each. *)
Fixpoint self_test_cycles (latency : nat -> Z) (k n : nat) (w : W) (r : MetricsRecorder)
    : result (W * MetricsRecorder) (SelfTestError E) :=
  match n with
  | O => Ok (w, r)
  | S n =>
      let '(w, res) := st_process_cycle w (Z.of_nat k * Z.of_nat NUM_FRAMES) in
      let? _ := map_err CycleFailed res in
      self_test_cycles latency (S k) n w (record_cycle r (latency k))
  end.

Record SelfTestReport : Type := { rep_peak : f32; rep_out_peak : f32; rep_flushed : Z; rep_max : Z }.

Definition run_self_test (w : W) (sink : Z) (latency : nat -> Z) (r : MetricsRecorder) : result SelfTestReport (SelfTestError E) :=
  let? w := map_err (fun _ => PushFailed) (st_push_inbound w sine_frame) in
  let? (w, r) := self_test_cycles latency 0 SELF_TEST_CYCLES w r in
  let? received := ok_or (st_read_input w sink 0) SinkInputAbsent in
  let peak := positive_peak (fr_samples received) in
  if ltb peak f_1e_6 then Err SinkSilent else
  let? max_val := exported_max (export_prometheus r) in
  if max_val <? 1 then Err (MaxBelowOne max_val) else
  let '(w, (flushed, ferr)) := st_flush_sinks w in
  if flushed =? 0 then Err NothingFlushed else
  match ferr with
  | Some e => Err (FlushFailed e)
  | None =>
      let? (out_frame, w) := ok_or (st_pop_outbound w) OutboundEmpty in
      let out_peak := positive_peak (fr_samples out_frame) in
      if ltb out_peak f_1e_6 then Err (OutboundSilent out_peak)
      else Ok {| rep_peak := peak; rep_out_peak := out_peak; rep_flushed := flushed; rep_max := max_val |}
  end.
End self_test.

(** ** The exported text is read back *)

Definition plain (c : Z) : Prop := c <> 10 /\ c <> 13.
Definition plainb (c : Z) : bool := negb (c =? 10) && negb (c =? 13).

Lemma plain_all s : forallb plainb s = true -> Forall plain s.
Proof.
  rewrite forallb_forall. intros Hs. apply Forall_forall. intros c Hc%list_elem_of_In%Hs.
  unfold plainb, plain in Hc |- * . apply andb_true_iff in Hc as [H1 H2]. split; intros ->; done.
Qed.

Lemma plain_dec z : 0 <= z -> Forall plain (dec z).
Proof. intros Hz. eapply Forall_impl; [by apply dec_all|]. unfold is_digit, plain. lia. Qed.

Lemma lines_line l s : Forall plain l -> lines (line l ++ s) = l :: lines s.
Proof. intros Hl. unfold line. rewrite <- app_assoc. by apply lines_cons. Qed.

Ltac plains := repeat (apply Forall_app; split); first [apply plain_dec; lia|apply plain_all; reflexivity].

(** A pattern that differs inside [s], whatever follows it. *)
Fixpoint clash (p s : rstring) : bool :=
  match p, s with
  | a :: p, b :: s => negb (a =? b) || clash p s
  | _, _ => false
  end.
Fixpoint clash_all (p s : rstring) : bool :=
  match s with [] => true | _ :: s' => clash p s && clash_all p s' end.

Lemma clash_starts p s t : clash p s = true -> starts_with p (s ++ t) = false.
Proof.
  revert s. induction p as [|a p IH]; intros [|b s]; cbn [clash app starts_with]; try done.
  destruct (a =? b); cbn [negb orb andb]; [apply IH|done].
Qed.

Lemma contains_clash p s t : p <> [] -> clash_all p s = true -> contains_str p (s ++ t) = contains_str p t.
Proof.
  intros Hp. induction s as [|c s IH]; intros Hc; [done|]. cbn [clash_all] in Hc. apply andb_true_iff in Hc as [H1 H2].
  change ((c :: s) ++ t) with (c :: (s ++ t)). cbn [contains_str]. rewrite (clash_starts p (c :: s) t H1 : starts_with p (c :: s ++ t) = false).
  by apply IH.
Qed.

Lemma starts_with_app p s t : starts_with p s = true -> starts_with p (s ++ t) = true.
Proof.
  revert s. induction p as [|a p IH]; intros [|b s]; cbn [starts_with app]; try done.
  destruct (a =? b); [apply IH|done].
Qed.

Lemma contains_app p s t : contains_str p s = true -> contains_str p (s ++ t) = true.
Proof.
  induction s as [|c s IH]; intros Hc.
  - cbn in Hc. destruct p; [by destruct t|done].
  - cbn [app contains_str] in Hc |- * . apply orb_true_iff in Hc as [Hc|Hc]; apply orb_true_iff; [left|right; by apply IH].
    by apply (starts_with_app p (c :: s) t).
Qed.

Definition recorder_ok (r : MetricsRecorder) : Prop :=
  prefix r = lit "sonicbrew" /\ 0 <= last_p50 r /\ 0 <= last_p99 r /\ 0 <= xrun_total r /\
  Forall (fun x => 0 <= x <= u64_max) (window r).

Lemma stats_range w : Forall (fun x => 0 <= x <= u64_max) w ->
  0 <= st_min (from_samples w) /\ 0 <= st_max (from_samples w) <= u64_max.
Proof.
  intros Hw. destruct w as [|x w]; [done|].
  assert (G : forall l mn mx sum, Forall (fun x => 0 <= x <= u64_max) l -> 0 <= mn -> 0 <= mx <= u64_max ->
    0 <= (stats_loop l mn mx sum).1.1 /\ 0 <= (stats_loop l mn mx sum).1.2 <= u64_max).
  { induction l as [|y l IH]; intros mn mx sum Hl Hmn Hmx; [done|]. apply Forall_cons in Hl as [Hy Hl].
    cbn [stats_loop]. apply IH; [done|lia|lia]. }
  specialize (G (x :: w) u64_max 0 0 Hw ltac:(done) ltac:(done)). unfold from_samples.
  destruct (stats_loop (x :: w) u64_max 0 0) as [[mn mx] sum]. cbn [st_min st_max fst snd] in G |- * . done.
Qed.

Lemma exported_max_spec {E} (r : MetricsRecorder) : recorder_ok r ->
  exported_max (E := E) (export_prometheus r) = Ok (st_max (from_samples (window r))).
Proof.
  intros (Hp & H50 & H99 & Hx & Hw). destruct (stats_range _ Hw) as [Hmin Hmax].
  unfold export_prometheus. rewrite Hp. cbv zeta. set (st := from_samples (window r)) in * |- * .
  unfold exported_max. rewrite decide_False by done.
  do 6 (rewrite lines_line by plains).
  set (rest := lines _).
  assert (Hfind : List.find (contains_str (lit "process_latency_us_max"))
    ((lit "# HELP " ++ lit "sonicbrew" ++ lit "_process_latency_us Process-cycle latency in microseconds") ::
     (lit "# TYPE " ++ lit "sonicbrew" ++ lit "_process_latency_us summary") ::
     (lit "sonicbrew" ++ lit "_process_latency_us{quantile=" ++ quote ++ lit "0.5" ++ quote ++ lit "} " ++ dec (last_p50 r)) ::
     (lit "sonicbrew" ++ lit "_process_latency_us{quantile=" ++ quote ++ lit "0.99" ++ quote ++ lit "} " ++ dec (last_p99 r)) ::
     (lit "sonicbrew" ++ lit "_process_latency_us_min " ++ dec (st_min st)) ::
     (lit "sonicbrew" ++ lit "_process_latency_us_max " ++ dec (st_max st)) :: rest) =
    Some (lit "sonicbrew" ++ lit "_process_latency_us_max " ++ dec (st_max st))).
  { cbn [List.find].
    assert (Hdig : forall l z, 0 <= z -> clash_all (lit "process_latency_us_max") l = true ->
      contains_str (lit "process_latency_us_max") (l ++ dec z) = false).
    { intros l z Hz Hl. rewrite contains_clash by done. apply contains_digits; [unfold is_digit; cbn; lia|by apply dec_all]. }
    rewrite !(app_assoc _ _ (dec _)).
    assert (E0 : forall l, contains_str (lit "process_latency_us_max") l = false -> contains_str (lit "process_latency_us_max") l = false) by done.
    rewrite 2 E0 by (vm_compute; reflexivity). rewrite 3 Hdig by (done || (vm_compute; reflexivity)).
    by rewrite contains_app by (vm_compute; reflexivity). }
  rewrite Hfind. cbn [ok_or rbind].
  change (lit "sonicbrew" ++ lit "_process_latency_us_max " ++ dec (st_max st)) with
    (lit "sonicbrew_process_latency_us_max" ++ 32 :: dec (st_max st)).
  rewrite last_token_dec by lia. cbn [ok_or rbind]. unfold parse_u64.
  rewrite parse_uint_dec; [done|fold u64_max; lia|lia].
Qed.

(** The recorder after cycles of the given latencies. *)
Lemma self_test_cycles_recorder {W E} `{SelfTestIo W E} latency n k (w : W) r w' r' :
  self_test_cycles latency k n w r = Ok (w', r') -> r' = foldl record_cycle r (latency <$> seq k n).
Proof.
  revert k w r. induction n as [|n IH]; intros k w r; cbn [self_test_cycles seq fmap list_fmap foldl]; [by intros [= _ ->]|].
  destruct (st_process_cycle w _) as [w1 [[]|e]]; cbn [map_err rbind]; [apply IH|done].
Qed.

(** The greatest of the ten latencies. *)
Definition max_latency (latency : nat -> Z) : Z := foldr Z.max 0 (latency <$> seq 0 SELF_TEST_CYCLES).

Lemma stats_loop_max l mn mx sum : (stats_loop l mn mx sum).1.2 = foldl Z.max mx l.
Proof. revert mn mx sum. induction l as [|x l IH]; intros; [done|]. cbn [stats_loop foldl]. apply IH. Qed.

Lemma foldl_max_foldr (l : list Z) a : 0 <= a -> foldl Z.max a l = Z.max a (foldr Z.max 0 l).
Proof. revert a. induction l as [|x l IH]; intros a Ha; cbn [foldl foldr]; [lia|]. rewrite IH by lia. lia. Qed.

Lemma foldr_max_nonneg (l : list Z) : 0 <= foldr Z.max 0 l.
Proof. induction l as [|x l IH]; cbn [foldr]; lia. Qed.

Lemma self_test_max {E} latency : (forall k, 0 <= latency k <= u64_max) ->
  exported_max (E := E) (export_prometheus (foldl record_cycle MetricsRecorder_new (latency <$> seq 0 SELF_TEST_CYCLES))) = Ok (max_latency latency).
Proof.
  intros Hl. set (r := foldl record_cycle _ _).
  assert (Hr : window r = latency <$> seq 0 SELF_TEST_CYCLES /\ recorder_ok r).
  { unfold r, SELF_TEST_CYCLES, recorder_ok. cbn. repeat split; try done. repeat (apply Forall_cons; split); [apply Hl..|done]. }
  destruct Hr as [Hw Hr]. rewrite (exported_max_spec r Hr), Hw. f_equal. unfold max_latency.
  assert (Hs : forall l, l <> [] -> st_max (from_samples l) = foldr Z.max 0 l).
  { intros [|x l] Hne; [done|]. unfold from_samples. pose proof (stats_loop_max (x :: l) u64_max 0 0) as Hm.
    destruct (stats_loop (x :: l) u64_max 0 0) as [[mn mx] sum]. cbn [fst snd] in Hm. cbn [st_max]. rewrite Hm, foldl_max_foldr by lia.
    pose proof (foldr_max_nonneg (x :: l)). lia. }
  apply Hs. done.
Qed.

Section verdict.
Context {M : MathOps} {W E : Type} `{SelfTestIo W E}.

(** C29: What the self-test decides.  It succeeds exactly when the frame is accepted,
    ten cycles run, the sink's input and the frame that came out after the
    flush both have a sample above the silence threshold, at least one sink was flushed
    without an error, and some cycle took a whole microsecond: the text the monitor exports is read
    back to the greatest of the ten measured latencies, so a machine on which every
    cycle takes less than a microsecond fails the check although all ten were
    recorded. *)
Theorem self_test_verdict (w : W) (sink : Z) (latency : nat -> Z) (rep : SelfTestReport)
    (Hlat : forall k, 0 <= latency k <= u64_max) :
  run_self_test w sink latency MetricsRecorder_new = Ok rep <->
  exists w1 w2 r received w3 out w4,
    st_push_inbound w sine_frame = Ok w1 /\
    self_test_cycles latency 0 SELF_TEST_CYCLES w1 MetricsRecorder_new = Ok (w2, r) /\
    st_read_input w2 sink 0 = Some received /\ rep_peak rep = positive_peak (fr_samples received) /\
    ltb (rep_peak rep) f_1e_6 = false /\
    rep_max rep = max_latency latency /\ 1 <= rep_max rep /\
    st_flush_sinks w2 = (w3, (rep_flushed rep, None)) /\ rep_flushed rep <> 0 /\
    st_pop_outbound w3 = Some (out, w4) /\ rep_out_peak rep = positive_peak (fr_samples out) /\
    ltb (rep_out_peak rep) f_1e_6 = false.
Proof.
  unfold run_self_test. destruct (st_push_inbound w sine_frame) as [w1|] eqn:Hpush; cbn [map_err rbind].
  2: { split; [done|]. by intros (? & ? & ? & ? & ? & ? & ? & ? & _). }
  destruct (self_test_cycles latency 0 SELF_TEST_CYCLES w1 MetricsRecorder_new) as [[w2 r]|] eqn:Hcyc; cbn [rbind].
  2: { split; [done|]. intros (? & ? & ? & ? & ? & ? & ? & [= <-] & ? & _). congruence. }
  pose proof (self_test_cycles_recorder _ _ _ _ _ _ _ Hcyc) as Hr. rewrite Hr in Hcyc |- * . rewrite self_test_max by done. cbn [rbind]. clear r Hr.
  set (r := foldl record_cycle _ _) in Hcyc.
  destruct (st_read_input w2 sink 0) as [f|] eqn:Hin; cbn [ok_or rbind].
  2: { split; [done|]. intros (? & ? & ? & ? & ? & ? & ? & [= <-] & E2 & E3 & _). rewrite Hcyc in E2. injection E2 as <- <-. congruence. }
  destruct (st_flush_sinks w2) as [w3 [n ferr]] eqn:Hfl.
  split.
  - destruct (ltb (positive_peak (fr_samples f)) f_1e_6) eqn:Hp; [done|]. destruct (Z.ltb_spec (max_latency latency) 1); [done|].
    destruct (Z.eqb_spec n 0); [done|]. destruct ferr as [e|]; [done|].
    destruct (st_pop_outbound w3) as [[out w4]|] eqn:Hpop; cbn [ok_or rbind]; [|done].
    destruct (ltb (positive_peak (fr_samples out)) f_1e_6) eqn:Ho; [done|]. intros [= <-].
    exists w1, w2, r, f, w3, out, w4. cbn [rep_peak rep_out_peak rep_flushed rep_max]. repeat split; try done; lia.
  - intros (w1' & w2' & r' & f' & w3' & out & w4 & E1 & E2 & E3 & P1 & P2 & P3 & P4 & E4 & P5 & E5 & P6 & P7).
    injection E1 as <-. rewrite Hcyc in E2. injection E2 as <- <-. rewrite Hin in E3. injection E3 as <-.
    rewrite Hfl in E4. injection E4 as <- -> ->. rewrite <- P1, P2, <- P3. destruct (Z.ltb_spec (rep_max rep) 1); [lia|].
    destruct (Z.eqb_spec (rep_flushed rep) 0); [done|]. rewrite E5. cbn [ok_or rbind]. rewrite <- P6, P7. by destruct rep.
Qed.
End verdict.

(** A source linked to a sink: a cycle moves the next inbound frame, when there is
    one, to the sink, and a flush ships what the sink holds. *)
Record loop_world : Type := { lw_in : list AudioFrame; lw_sink : option AudioFrame; lw_out : list AudioFrame }.
#[export] Instance loop_io : SelfTestIo loop_world unit := {
  st_push_inbound w f := Ok {| lw_in := lw_in w ++ [f]; lw_sink := lw_sink w; lw_out := lw_out w |};
  st_process_cycle w _ :=
    (match lw_in w with f :: l => {| lw_in := l; lw_sink := Some f; lw_out := lw_out w |} | [] => w end, Ok tt);
  st_read_input w _ _ := lw_sink w;
  st_flush_sinks w :=
    ({| lw_in := lw_in w; lw_sink := lw_sink w; lw_out := lw_out w ++ option_list (lw_sink w) |}, (1, None));
  st_pop_outbound w := match lw_out w with f :: l => Some (f, {| lw_in := lw_in w; lw_sink := lw_sink w; lw_out := l |}) | [] => None end
}.

Definition unit_math : MathOps := {| m_sin _ := one; m_cos _ := one; m_exp _ := one; m_tanh x := x; m_powf _ _ := one |}.

(** Passing with a slowest cycle of 7 microseconds; failing when no cycle took one. *)
Lemma self_test_verdict_witness :
  let w := {| lw_in := []; lw_sink := None; lw_out := [] |} in
  let lat k := match k with 4%nat => 7 | _ => 0 end in
  exists rep, run_self_test (M := unit_math) (E := unit) w 1 lat MetricsRecorder_new = Ok rep /\
    rep_max rep = max_latency lat /\
    run_self_test (M := unit_math) (E := unit) w 1 (fun _ => 0) MetricsRecorder_new = Err (MaxBelowOne 0).
Proof.
  cbn zeta. exists {| rep_peak := half; rep_out_peak := half; rep_flushed := 1; rep_max := 7 |}.
  assert (R : run_self_test (M := unit_math) (E := unit) {| lw_in := []; lw_sink := None; lw_out := [] |} 1
    (fun k => match k with 4%nat => 7 | _ => 0 end) MetricsRecorder_new =
    Ok {| rep_peak := half; rep_out_peak := half; rep_flushed := 1; rep_max := 7 |}) by (vm_compute; reflexivity).
  split; [exact R|]. split; [|vm_compute; reflexivity].
  refine (match proj1 (self_test_verdict (M := unit_math) (E := unit) _ 1 _ _ _) R with
    ex_intro _ _ (ex_intro _ _ (ex_intro _ _ (ex_intro _ _ (ex_intro _ _ (ex_intro _ _ (ex_intro _ _
      (conj _ (conj _ (conj _ (conj _ (conj _ (conj P _)))))))))))) => P end).
  intros k. unfold u64_max. destruct k as [|[|[|[|[|]]]]]; lia.
Defined.

(** ** A scrape reads the exported text *)

Lemma clash_app p s t : clash p s = true -> clash p (s ++ t) = true.
Proof.
  revert s. induction p as [|a p IH]; intros [|b s]; cbn [clash app]; try done. destruct (a =? b); [apply IH|done].
Qed.

Lemma clash_all_app p s t : clash_all p s = true -> clash_all p t = true -> clash_all p (s ++ t) = true.
Proof.
  intros Hs Ht. induction s as [|c s IH]; [done|]. cbn [clash_all app] in Hs |- * . apply andb_true_iff in Hs as [H1 H2].
  apply andb_true_iff. split; [by apply (clash_app p (c :: s) t)|by apply IH].
Qed.

Lemma clash_digits p q s : ~ is_digit p -> Forall is_digit s -> clash_all (p :: q) s = true.
Proof.
  intros Hp. induction 1 as [|c s Hc _ IH]; [done|]. cbn [clash_all clash]. destruct (Z.eqb_spec p c) as [->|]; [done|]. exact IH.
Qed.

Lemma split_head_at h body : clash_all [13; 10; 13; 10] h = true -> split_head (h ++ [13; 10; 13; 10] ++ body) = Some (h, body).
Proof.
  induction h as [|c h IH]; intros Hc; [done|]. cbn [clash_all] in Hc. apply andb_true_iff in Hc as [H1 H2].
  change ((c :: h) ++ ?t) with (c :: (h ++ t)). cbn [split_head].
  change (c :: h ++ ?t) with ((c :: h) ++ t). rewrite (clash_starts _ _ _ H1). by rewrite IH.
Qed.

Lemma lines_crlf l s : Forall plain l -> lines (l ++ crlf ++ s) = l :: lines s.
Proof.
  intros Hl. unfold lines, crlf.
  assert (G : forall acc, lines_from acc (l ++ [13; 10] ++ s) = (rev acc ++ l) :: lines_from [] s).
  { induction l as [|c l IH]; intros acc.
    - cbn. rewrite app_nil_r. f_equal. unfold strip_cr. by rewrite last_snoc, removelast_last.
    - apply Forall_cons in Hl as [Hc Hl]. cbn [app lines_from]. destruct (Z.eqb_spec c 10) as [->|]; [by destruct Hc|].
      cbn [app] in IH. rewrite IH by done. cbn [rev]. by rewrite <- app_assoc. }
  apply (G []).
Qed.

(** Every scrape, whatever it asked for, is answered with a head that
    announces exactly the bytes that follow, and what follows is the recorder's text:
    a client that splits the answer at the first empty line and reads the length field
    gets the two back. *)
Theorem metrics_scrape_roundtrip (request : option (list Z)) (r : MetricsRecorder) (body := export_prometheus r)
    (Hlen : Z.of_nat (string_len body) < 2 ^ 64) :
  http_read (metrics_connection request r) = Some (lit "HTTP/1.1 200 OK", Z.of_nat (string_len body), body).
Proof.
  unfold metrics_connection, http_response, http_read. fold body. set (n := Z.of_nat (string_len body)) in * |- * .
  set (h := lit "HTTP/1.1 200 OK" ++ crlf ++ lit "Content-Type: text/plain; version=0.0.4" ++ crlf ++
            (lit "Content-Length: " ++ dec n) ++ crlf ++ lit "Connection: close").
  assert (Hh : split_head (h ++ [13; 10; 13; 10] ++ body) = Some (h, body)).
  { apply split_head_at. replace h with
      ((lit "HTTP/1.1 200 OK" ++ crlf ++ lit "Content-Type: text/plain; version=0.0.4" ++ crlf ++ lit "Content-Length: ") ++
       dec n ++ (crlf ++ lit "Connection: close")) by (unfold h; rewrite <- !app_assoc; reflexivity).
    apply clash_all_app; [vm_compute; reflexivity|]. apply clash_all_app; [|vm_compute; reflexivity].
    apply clash_digits; [unfold is_digit; lia|apply dec_all; unfold n; lia]. }
  assert (Hl : exists rest, lines h = lit "HTTP/1.1 200 OK" :: lit "Content-Type: text/plain; version=0.0.4" :: (lit "Content-Length: " ++ dec n) :: rest).
  { unfold h. rewrite lines_crlf by plains. rewrite lines_crlf by plains. rewrite lines_crlf by (unfold n; plains). by eexists. }
  destruct Hl as [rest Hl].
  match goal with |- context [split_head ?t] => replace t with (h ++ [13; 10; 13; 10] ++ body)
    by (unfold h; rewrite <- !app_assoc; reflexivity) end.
  rewrite Hh. cbn [mbind option_bind]. rewrite Hl.
  assert (Hf : List.find (starts_with (lit "Content-Length: "))
    (lit "HTTP/1.1 200 OK" :: lit "Content-Type: text/plain; version=0.0.4" :: (lit "Content-Length: " ++ dec n) :: rest) =
    Some (lit "Content-Length: " ++ dec n)).
  { cbn [List.find]. rewrite 2 (fun l H => H : starts_with (lit "Content-Length: ") l = false) by (vm_compute; reflexivity).
    by rewrite starts_with_app by (vm_compute; reflexivity). }
  cbn [lookup list_lookup mbind option_bind]. rewrite Hf. cbn [mbind option_bind].
  change (lit "Content-Length: " ++ dec n) with (lit "Content-Length:" ++ 32 :: dec n).
  rewrite last_token_dec by (unfold n; lia). cbn [mbind option_bind]. unfold parse_u64.
  rewrite parse_uint_dec by (unfold n in * |- * ; lia). done.
Qed.

Lemma metrics_scrape_roundtrip_witness :
  Z.of_nat (string_len (export_prometheus MetricsRecorder_new)) < 2 ^ 64 /\
  http_read (metrics_connection None MetricsRecorder_new) =
    Some (lit "HTTP/1.1 200 OK", Z.of_nat (string_len (export_prometheus MetricsRecorder_new)), export_prometheus MetricsRecorder_new).
Proof.
  assert (Hn : Z.of_nat (string_len (export_prometheus MetricsRecorder_new)) < 2 ^ 64) by (apply Z.ltb_lt; vm_compute; reflexivity).
  split; [exact Hn|]. exact (metrics_scrape_roundtrip None MetricsRecorder_new Hn).
Defined.
