(* ===== verification/Reload.v ===== *)
(** * The reload checks

    [run_hot_reload_test] and [run_live_rebuild_test] of
    [crates/sonicbrew/src/main.rs] with the nodes they use: a sine through a gain
    into a capturing sink, once with gain 1 and once, after the graph has been swapped
    or rebuilt from its snapshot, with gain 1/2.  The graph library is a parameter that runs
    a chain as its documentation says: each node once per cycle, in order, every
    input reading what its link's source wrote. *)

From stdpp Require Import gmap.
From Stdlib Require Import SpecFloat.
From S2P Require Import Prelude F32 Topology AudioEngine AudioNodes PlanarNodes EffectNodes RoutingNodes Monitor Diagnose SelfTest.
Local Open Scope Z_scope.
Import F32.

Local Infix "*." := mul (at level 40, left associativity).
Local Infix "/." := div (at level 40, left associativity).

(** ** The nodes *)

Inductive TestNode : Type :=
| SineSourceNode (sine : AudioFrame)
| GainNode (gain : f32)
| CaptureSinkNode.

Definition SineSourceNode_new `{MathOps} (freq amp : f32) : TestNode :=
  SineSourceNode {| fr_channels := 1; fr_rate := SAMPLE_RATE;
    fr_samples := map (fun i => m_sin (two *. PI *. freq *. of_Z (Z.of_nat i) /. of_Z SAMPLE_RATE) *. amp) (seq 0 NUM_FRAMES) |}.

(** [out[..n].copy_from_slice(&sine[..n])], and the frame's format. *)
Definition sine_process (sine : AudioFrame) (outs : list AudioFrame) : list AudioFrame :=
  match outs with
  | [] => []
  | out :: outs =>
      {| fr_channels := fr_channels sine; fr_rate := fr_rate sine;
         fr_samples := map_into id (fr_samples sine) (fr_samples out) |} :: outs
  end.

Definition test_gain_process (gain : f32) : list AudioFrame -> list AudioFrame -> list AudioFrame :=
  one_to_one (fun inp out => with_out out (map_into (fun x => x *. gain) (fr_samples inp) (fr_samples out))).

Definition test_process (n : TestNode) (ins outs : list AudioFrame) : list AudioFrame :=
  match n with
  | SineSourceNode sine => sine_process sine outs
  | GainNode gain => test_gain_process gain ins outs
  | CaptureSinkNode => outs
  end.

(** ** The graph library, as the checks use it *)

Class GraphRead (G : Type) : Type := { g_read_input : G -> Z -> Z -> option AudioFrame }.
Class FromSnapshot (G N E : Type) : Type := { g_from_snapshot : TopologySnapshot -> (Z -> option N) -> result G E }.

(** A handle through which the audio thread runs the graph installed last. *)
Class RtHandleOps (H G E : Type) : Type := {
  rt_new : G -> H;
  rt_install : H -> G -> H;
  rt_process_cycle : H -> H * result unit E;
  rt_graph : H -> G
}.

Definition edge (a b : Z * Z) : SnapshotEdge := {| e_from := a; e_to := b |}.

Section reload_ops.
Context {M : MathOps} {G H E : Type} `{GraphOps G TestNode E} `{GraphRead G} `{FromSnapshot G TestNode E} `{RtHandleOps H G E}.

Inductive ReloadError : Type :=
| ReloadGraph (e : E)
| Silence (peak : f32)
| BadRatio (ratio peak_a peak_b : f32).

Definition f_0_5_amp : f32 := half.
Definition f_1e_3 : f32 := 0x3A83126F.
Definition f_0_45 : f32 := 0x3EE66666.
Definition f_0_55 : f32 := 0x3F0CCCCD.

(** [build_graph] of the hot-reload check. *)
Definition build_test_graph (gain : f32) : result (G * Z) ReloadError :=
  let '(g, src) := g_add_node g_new (SineSourceNode_new f_440 f_0_5_amp) in
  let '(g, gn) := g_add_node g (GainNode gain) in
  let '(g, sink) := g_add_node g CaptureSinkNode in
  let? g := map_err ReloadGraph (g_link g (src, 0) (gn, 0)) in
  let? g := map_err ReloadGraph (g_link g (gn, 0) (sink, 0)) in
  let? g := map_err ReloadGraph (g_compile g) in
  Ok (g, sink).

Fixpoint rt_cycles (n : nat) (h : H) : H :=
  match n with O => h | S n => rt_cycles n (rt_process_cycle h).1 end.
Fixpoint graph_cycles (n : nat) (g : G) : G :=
  match n with O => g | S n => graph_cycles n (g_process_cycle g).1 end.

(** The peak of a frame, 0 when there is none. *)
Definition input_peak (g : G) (sink : Z) : f32 :=
  match g_read_input g sink 0 with Some frame => fold_peak (fr_samples frame) | None => zero end.

Definition peak_at_sink (h : H) (sink : Z) : H * f32 :=
  let h := rt_cycles 4 h in (h, input_peak (rt_graph h) sink).

(** The two checks at the end of both tests. *)
Definition compare_peaks (peak_a peak_b : f32) : result (f32 * f32 * f32) ReloadError :=
  let ratio := peak_b /. peak_a in
  if leb f_0_45 ratio && leb ratio f_0_55 then Ok (peak_a, peak_b, ratio) else Err (BadRatio ratio peak_a peak_b).

Definition run_hot_reload_test : result (f32 * f32 * f32) ReloadError :=
  let? (graph_a, sink_a) := build_test_graph one in
  let handle := rt_new graph_a in
  let '(handle, peak_a) := peak_at_sink handle sink_a in
  if leb peak_a f_1e_3 then Err (Silence peak_a) else
  let? (graph_b, sink_b) := build_test_graph half in
  let handle := rt_install handle graph_b in
  let '(handle, peak_b) := peak_at_sink handle sink_b in
  compare_peaks peak_a peak_b.

(** The registry of the live-rebuild check. *)
Inductive Kind : Type := KSine (freq amp : f32) | KGain (factor : f32) | KCapture.

Definition registry_factory (reg : gmap Z Kind) (id : Z) : option TestNode :=
  match reg !! id with
  | Some (KSine freq amp) => Some (SineSourceNode_new freq amp)
  | Some (KGain factor) => Some (GainNode factor)
  | Some KCapture => Some CaptureSinkNode
  | None => None
  end.

Definition build_from (topo : TopologySnapshot) (reg : gmap Z Kind) : result G ReloadError :=
  let? g := map_err ReloadGraph (g_from_snapshot topo (registry_factory reg)) in
  map_err ReloadGraph (g_compile g).

Definition mono_out : list PortMeta := [{| direction := Output; pm_channels := 1; sample_format := SF_F32 |}].
Definition mono_in : list PortMeta := [{| direction := Input; pm_channels := 1; sample_format := SF_F32 |}].

Definition chain_topology `{TopoOps} : TopologySnapshot :=
  foldl topo_apply topo_new
    [AddNode {| ns_id := 0; ns_inputs := []; ns_outputs := mono_out |};
     AddNode {| ns_id := 1; ns_inputs := mono_in; ns_outputs := mono_out |};
     AddNode {| ns_id := 2; ns_inputs := mono_in; ns_outputs := [] |};
     AddLink (edge (0, 0) (1, 0)); AddLink (edge (1, 0) (2, 0))].

Definition peak_of_graph (g : G) : G * f32 := let g := graph_cycles 4 g in (g, input_peak g 2).

Definition run_live_rebuild_test `{TopoOps} : result (f32 * f32 * f32) ReloadError :=
  let topo := chain_topology in
  let registry : gmap Z Kind := <[2 := KCapture]> (<[1 := KGain one]> (<[0 := KSine f_440 f_0_5_amp]> ∅)) in
  let? graph_a := build_from topo registry in
  let '(graph_a, peak_a) := peak_of_graph graph_a in
  if leb peak_a f_1e_3 then Err (Silence peak_a) else
  let registry := <[1 := KGain half]> registry in
  let? graph_b := build_from topo registry in
  let '(graph_b, peak_b) := peak_of_graph graph_b in
  compare_peaks peak_a peak_b.
End reload_ops.

(** ** Halving a peak *)

(** The magnitude of a number that is not a NaN, from its value. *)
Lemma magnitude_encode s m e : valid32 (S754_finite s m e) ->
  magnitude (encode (S754_finite s m e)) = encode (S754_finite false m e) /\ 0 < encode (S754_finite false m e) < inf.
Proof.
  intros (He & Hm & Hn). unfold magnitude, abs, encode, sign_bit, inf.
  destruct s, (Z.ltb_spec (Z.pos m) (2 ^ 23)); repeat match goal with |- context [?a <=? ?b] => destruct (Z.leb_spec a b)
    | Hc : context [?a <=? ?b] |- _ => destruct (Z.leb_spec a b) end; lia.
Qed.

Lemma mul_one_mag x : u32 x -> magnitude (x *. one) = magnitude x.
Proof.
  intros Hx. destruct (decode x) as [s|s| |s m e] eqn:E.
  3: { unfold mul, lift2. rewrite E. pose proof (proj1 (decode_nan x Hx) E). unfold magnitude at 2.
       destruct (Z.leb_spec (abs x) inf); [lia|]. reflexivity. }
  all: f_equal; rewrite <- (encode_decode x Hx) at 2 by (rewrite E; done); unfold mul, lift2; rewrite E;
    change (decode one) with (S754_finite false (Z.to_pos (2 ^ 23)) (-23)); cbn [SFmul]; f_equal; rewrite ?xorb_false_r; try done.
  pose proof (decode_valid x) as Hv. rewrite E in Hv. exact (round_unit s m e Hv).
Qed.

(** Halving a normal number lowers its exponent; below twice the least normal
    number the result is rounded but stays as small. *)
Lemma mul_half_mag x : u32 x -> magnitude x < inf ->
  (2 ^ 24 <= magnitude x -> magnitude (x *. half) = magnitude x - 2 ^ 23) /\
  (magnitude x < 2 ^ 24 -> magnitude (x *. half) <= 2 ^ 24).
Proof.
  intros Hx Hinf. destruct (decode x) as [s|s| |s m e] eqn:E.
  - assert (Hs : x = sign_bit s) by (rewrite <- (encode_decode x Hx) by (by rewrite E); by rewrite E).
    rewrite Hs. clear. destruct s; split; intros Hc;
      first [apply Z.leb_le; vm_compute; reflexivity|apply Z.leb_le in Hc; vm_compute in Hc; discriminate].
  - assert (Hs : x = sign_bit s + 0x7F800000) by (rewrite <- (encode_decode x Hx) by (by rewrite E); by rewrite E).
    rewrite Hs in Hinf. destruct s; apply Z.ltb_lt in Hinf; vm_compute in Hinf; discriminate.
  - unfold mul, lift2. rewrite E. pose proof (proj1 (decode_nan x Hx) E). unfold magnitude at 1.
    destruct (Z.leb_spec (abs x) inf); [lia|]. split; [lia|]. intros _. apply Z.leb_le. vm_compute. reflexivity.
  - pose proof (decode_valid x) as Hv. rewrite E in Hv.
    assert (Hm : magnitude x = encode (S754_finite false m e))
      by (rewrite <- (encode_decode x Hx) by (by rewrite E); rewrite E; by apply magnitude_encode).
    rewrite Hm. unfold mul, lift2. rewrite E. change (decode half) with (S754_finite false (Z.to_pos (2 ^ 23)) (-24)).
    cbn [SFmul]. rewrite xorb_false_r. destruct Hv as (He & Hml & Hn). split; intros Hbig.
    + assert (Hn2 : 2 ^ 23 <= Z.pos m /\ -149 < e) by (cbn [encode sign_bit] in Hbig; destruct (Z.ltb_spec (Z.pos m) (2 ^ 23)); lia).
      replace (e + -24) with ((e - 1) + -23) by lia.
      assert (Hv' : valid32 (S754_finite s m (e - 1))) by (cbn [valid32]; lia).
      rewrite (round_unit s m (e - 1) Hv'). rewrite (proj1 (magnitude_encode s m (e - 1) Hv')).
      cbn [encode sign_bit]. destruct (Z.ltb_spec (Z.pos m) (2 ^ 23)); lia.
    + assert (e = -149) as -> by (cbn [encode sign_bit] in Hbig; destruct (Z.ltb_spec (Z.pos m) (2 ^ 23)); lia).
      set (k := fexp prec32 emax32 (Zdigits2 (Z.pos (m * Z.to_pos (2 ^ 23))) + (-149 + -24)) - (-149 + -24)).
      assert (Hk : k = 24).
      { unfold k, fexp, emin, prec32, emax32. cbn [Zdigits2].
        assert (Z.pos (digits2_pos (m * Z.to_pos (2 ^ 23))) <= 47); [|lia].
        pose proof (digits2_bounds (m * Z.to_pos (2 ^ 23))) as [Hd _].
        assert (Z.pos (digits2_pos (m * Z.to_pos (2 ^ 23))) - 1 < 47); [|lia]. apply (Z.pow_lt_mono_r_iff 2); lia. }
      destruct (binary_round_aux_spec s (m * Z.to_pos (2 ^ 23)) (-149 + -24)) as (n & -> & _ & Hhi & Hn' & _); [fold k; lia|].
      fold k in Hhi |- * . rewrite Hk in Hhi |- * .
      assert (n <= 2 ^ 23) by lia. unfold norm32.
      destruct (Z.eqb_spec n 0) as [->|]; [destruct s; apply Z.leb_le; vm_compute; reflexivity|]. destruct (Z.eqb_spec n (2 ^ 24)); [lia|].
      change (-149 + -24 + 24 <=? 104) with true. cbv iota.
      assert (Hv' : valid32 (S754_finite s (Z.to_pos n) (-149 + -24 + 24))) by (cbn [valid32]; rewrite Z2Pos.id; lia).
      rewrite (proj1 (magnitude_encode _ _ _ Hv')). cbn [encode sign_bit]. rewrite Z2Pos.id by lia.
      destruct (Z.ltb_spec n (2 ^ 23)); lia.
Qed.

Lemma peak_of_in l : peak_of l = 0 \/ peak_of l ∈ l.
Proof.
  induction l as [|x l IH]; [by left|]. rewrite peak_of_cons.
  destruct (Z.max_spec x (peak_of l)) as [[_ ->]|[_ ->]]; [|right; left].
  destruct IH as [IH|IH]; [by left|right; by right].
Qed.

Lemma peak_of_ge l x : x ∈ l -> x <= peak_of l.
Proof. induction 1 as [x l|x y l _ IH]; rewrite peak_of_cons; lia. Qed.

(** A peak well above the least normal number is halved exactly. *)
Lemma fold_peak_half l : Forall u32 l -> 2 ^ 25 <= fold_peak l < inf ->
  fold_peak ((fun x => x *. half) <$> l) = fold_peak l - 2 ^ 23.
Proof.
  intros Hl. rewrite !fold_peak_spec by (done || (apply Forall_fmap, Forall_forall; intros x _; apply mul_u32)).
  rewrite <- list_fmap_compose. intros Hp. set (p := peak_of (magnitude <$> l)) in * |- * .
  assert (Hle : forall x, x ∈ l -> magnitude x <= p) by (intros x Hx; apply peak_of_ge, list_elem_of_fmap; by exists x).
  rewrite Forall_forall in Hl. apply Z.le_antisymm.
  - apply peak_of_bound; [lia|]. apply Forall_fmap, Forall_forall. intros x Hx. unfold compose.
    pose proof (Hle x Hx). destruct (mul_half_mag x (Hl x Hx)) as [H1 H2]; [lia|].
    destruct (Z_le_gt_dec (2 ^ 24) (magnitude x)); [rewrite H1 by lia; lia|]. pose proof (H2 ltac:(lia)). lia.
  - destruct (peak_of_in (magnitude <$> l)) as [Hz|Hin]; [unfold p in Hp; lia|].
    apply list_elem_of_fmap in Hin as (x & Ex & Hx). fold p in Ex.
    destruct (mul_half_mag x (Hl x Hx)) as [H1 _]; [lia|]. rewrite Ex, <- H1 by lia.
    apply peak_of_ge, list_elem_of_fmap. by exists x.
Qed.

Lemma fold_peak_one l : Forall u32 l -> fold_peak ((fun x => x *. one) <$> l) = fold_peak l.
Proof.
  intros Hl. rewrite !fold_peak_spec by (done || (apply Forall_fmap, Forall_forall; intros x _; apply mul_u32)).
  rewrite <- list_fmap_compose. f_equal. apply list_fmap_ext. intros i x Hx. unfold compose.
  apply mul_one_mag. by eapply Forall_lookup_1.
Qed.

(** The ratio of the two peaks is one half, exactly. *)
Lemma half_ratio p : 2 ^ 25 <= p < inf -> (p - 2 ^ 23) /. p = half.
Proof.
  intros Hp. unfold inf in Hp.
  assert (Hd : forall x, 2 ^ 23 <= x < 0x7F800000 -> decode x = S754_finite false (Z.to_pos (x mod 2 ^ 23 + 2 ^ 23)) (x / 2 ^ 23 - 150)).
  { intros x Hx. unfold decode. destruct (Z.leb_spec (2 ^ 31) x); [lia|].
    assert (1 <= x / 2 ^ 23 < 255) by (split; [apply Z.div_le_lower_bound; lia|apply Z.div_lt_upper_bound; lia]).
    rewrite (Z.mod_small (x / 2 ^ 23)) by lia. destruct (Z.eqb_spec (x / 2 ^ 23) 255); [lia|]. by destruct (Z.eqb_spec (x / 2 ^ 23) 0); [lia|]. }
  unfold div, lift2. rewrite !Hd by lia.
  replace (p - 2 ^ 23) with (p + -1 * 2 ^ 23) by lia. rewrite Z_mod_plus_full, Z_div_plus_full by lia.
  set (m := Z.to_pos _). set (e := p / 2 ^ 23 + -1 - 150). replace (p / 2 ^ 23 - 150) with (e + 1) by (unfold e; lia).
  unfold SFdiv, SFdiv_core_binary. set (d := Zdigits2 (Z.pos m)).
  replace (d + e - (d + (e + 1))) with (-1) by lia. replace (e - (e + 1)) with (-1) by lia.
  change (Z.min (fexp prec32 emax32 (-1)) (-1)) with (-25). change (-1 - -25) with 24. cbv iota.
  rewrite Z.shiftl_mul_pow2 by lia.
  assert (Hq : Z.div_eucl (Z.pos m * 2 ^ 24) (Z.pos m) = (2 ^ 24, 0)).
  { rewrite (surjective_pairing (Z.div_eucl _ _)). f_equal.
    - change ((Z.div_eucl ?a ?b).1) with (Z.div a b). rewrite Z.mul_comm. apply Z.div_mul. lia.
    - change ((Z.div_eucl ?a ?b).2) with (Z.modulo a b). rewrite Z.mul_comm. apply Z.mod_mul. lia. }
  rewrite Hq. unfold new_location. destruct (Z.even (Z.pos m)); vm_compute; reflexivity.
Qed.

(** ** What the library does with the chain *)

Definition test_nodes (sine : AudioFrame) (gain : f32) : list (BuiltNode TestNode) :=
  [Plain (SineSourceNode sine); Plain (GainNode gain); Plain CaptureSinkNode].
Definition test_links : list SnapshotEdge := [edge (0, 0) (1, 0); edge (1, 0) (2, 0)].

Class ChainRuns (G E : Type) `{GraphLaws G TestNode E} `{GraphRead G} `{FromSnapshot G TestNode E} : Type := {
  (* compiled *)
  g_ready : G -> Prop;
  g_compile_ready : forall g g', g_compile g = Ok g' -> g_ready g';
  g_cycle_keeps : forall g, g_ready g ->
    g_ready (g_process_cycle g).1 /\ g_nodes (g_process_cycle g).1 = g_nodes g /\ g_links (g_process_cycle g).1 = g_links g;
  (* the three nodes of a chain run in order on frames of the configured length *)
  g_cycle_flows : forall g a b c, g_ready g -> g_nodes g = [Plain a; Plain b; Plain c] -> g_links g = test_links ->
    exists oa ob, length (fr_samples oa) = NUM_FRAMES /\ length (fr_samples ob) = NUM_FRAMES /\
      g_read_input (g_process_cycle g).1 2 0 = head (test_process b (test_process a [] [oa]) [ob]);
  (* a snapshot's nodes are added in order *)
  g_from_snapshot_spec : forall topo f g, g_from_snapshot topo f = Ok g ->
    Forall2 (fun n b => exists a, f (ns_id n) = Some a /\ b = Plain a) (nodes topo) (g_nodes g) /\
    ((forall i n, nodes topo !! i = Some n -> ns_id n = Z.of_nat i) -> g_links g = edges topo);
  (* it accepts these graphs *)
  g_link_accepts : forall g sine gain k, g_nodes g = test_nodes sine gain -> k = 0 \/ k = 1 -> exists g', g_link g (k, 0) (k + 1, 0) = Ok g';
  g_compile_accepts : forall g sine gain, g_nodes g = test_nodes sine gain -> g_links g = test_links -> exists g', g_compile g = Ok g';
  g_snapshot_accepts : forall topo f, (forall n, n ∈ nodes topo -> is_Some (f (ns_id n))) -> exists g, g_from_snapshot topo f = Ok g
}.

Class RtHandleLaws (H G E : Type) `{RtHandleOps H G E} `{GraphOps G TestNode E} : Prop := {
  rt_new_graph : forall g, rt_graph (rt_new g) = g;
  rt_install_graph : forall h g, rt_graph (rt_install h g) = g;
  rt_cycle_graph : forall h, rt_graph (rt_process_cycle h).1 = (g_process_cycle (rt_graph h)).1
}.

Section reload_facts.
Context {M : MathOps} {G H E : Type} `{ChainRuns G E} `{!RtHandleOps H G E} `{!RtHandleLaws H G E} `{TopoLaws}.

Definition sine_samples : list f32 :=
  map (fun i => m_sin (two *. PI *. f_440 *. of_Z (Z.of_nat i) /. of_Z SAMPLE_RATE) *. f_0_5_amp) (seq 0 NUM_FRAMES).
Definition test_sine : AudioFrame := {| fr_channels := 1; fr_rate := SAMPLE_RATE; fr_samples := sine_samples |}.

Lemma sine_u32 : Forall u32 sine_samples.
Proof. apply Forall_map, Forall_forall. intros i _. apply mul_u32. Qed.

(** After cycles the sink's input is the gain applied to the sine. *)
Definition plays (g : G) (gain : f32) : Prop := g_ready g /\ g_nodes g = test_nodes test_sine gain /\ g_links g = test_links.

Lemma cycle_plays g gain : plays g gain -> plays (g_process_cycle g).1 gain /\
  input_peak (g_process_cycle g).1 2 = fold_peak ((fun x => x *. gain) <$> sine_samples).
Proof.
  intros (Hr & Hn & Hl). destruct (g_cycle_keeps g Hr) as (Hr' & Hn' & Hl'). split; [split_and!; congruence|].
  destruct (g_cycle_flows g _ _ _ Hr Hn Hl) as (oa & ob & La & Lb & E1). unfold input_peak. rewrite E1.
  cbn [test_process sine_process test_gain_process one_to_one head fr_samples with_out test_sine].
  assert (Ls : length sine_samples = NUM_FRAMES) by (unfold sine_samples; by rewrite length_map, length_seq).
  rewrite (map_into_full id) by congruence. rewrite list_fmap_id, map_into_full by congruence. done.
Qed.

Lemma graph_cycles_play n g gain : plays g gain -> plays (graph_cycles n g) gain /\
  (n <> 0%nat -> input_peak (graph_cycles n g) 2 = fold_peak ((fun x => x *. gain) <$> sine_samples)).
Proof.
  revert g. induction n as [|n IH]; intros g Hg; [done|]. destruct (cycle_plays g gain Hg) as [Hg' Hp]. cbn [graph_cycles].
  destruct (IH _ Hg') as [Hend Hpeak]. split; [done|]. intros _. destruct n as [|n]; [exact Hp|by apply Hpeak].
Qed.

Lemma rt_cycles_graph n h : rt_graph (rt_cycles n h) = graph_cycles n (rt_graph h).
Proof. revert h. induction n as [|n IH]; intros h; [done|]. cbn [rt_cycles graph_cycles]. by rewrite IH, rt_cycle_graph. Qed.

Lemma build_test_graph_plays gain : exists g, build_test_graph gain = Ok (g, 2) /\ plays g gain.
Proof.
  unfold build_test_graph. destruct g_new_empty as [N0 L0].
  destruct (g_add_node g_new _) as [g1 i1] eqn:A1. apply g_add_node_spec in A1 as (N1 & L1 & ->).
  destruct (g_add_node g1 _) as [g2 i2] eqn:A2. apply g_add_node_spec in A2 as (N2 & L2 & ->).
  destruct (g_add_node g2 _) as [g3 i3] eqn:A3. apply g_add_node_spec in A3 as (N3 & L3 & ->).
  rewrite N0 in N1. rewrite N1 in N2. rewrite N2 in N3. cbn [app] in N1, N2, N3.
  rewrite N0, N1, N2. cbn [length]. change (Z.of_nat 0) with 0. change (Z.of_nat 1) with 1. change (Z.of_nat 2) with 2.
  destruct (g_link_accepts g3 test_sine gain 0 N3 ltac:(by left)) as [g4 K4]. change (0 + 1) with 1 in K4. rewrite K4. cbn [map_err rbind].
  apply g_link_spec in K4 as [N4 L4]. rewrite L3, L2, L1, L0 in L4. cbn [app] in L4. rewrite N3 in N4.
  destruct (g_link_accepts g4 test_sine gain 1 N4 ltac:(by right)) as [g5 K5]. change (1 + 1) with 2 in K5. rewrite K5. cbn [map_err rbind].
  apply g_link_spec in K5 as [N5 L5]. rewrite L4 in L5. rewrite N4 in N5.
  destruct (g_compile_accepts g5 test_sine gain N5 L5) as [g6 K6]. rewrite K6. cbn [map_err rbind].
  exists g6. split; [done|]. split; [by eapply g_compile_ready|]. apply g_compile_spec in K6 as [-> ->]. done.
Qed.

Lemma chain_topology_eq : chain_topology =
  {| nodes := [{| ns_id := 0; ns_inputs := []; ns_outputs := mono_out |};
               {| ns_id := 1; ns_inputs := mono_in; ns_outputs := mono_out |};
               {| ns_id := 2; ns_inputs := mono_in; ns_outputs := [] |}]; edges := test_links |}.
Proof.
  unfold chain_topology. cbn [foldl].
  assert (Hfresh : forall s n, forallb (fun i => negb (i =? ns_id n)) (ids s) = true ->
    topo_apply s (AddNode n) = {| nodes := nodes s ++ [n]; edges := edges s |}).
  { intros s n Hn. apply topo_add_fresh. intros Hin. rewrite forallb_forall in Hn.
    apply list_elem_of_In, Hn in Hin. by rewrite Z.eqb_refl in Hin. }
  rewrite (Hfresh topo_new) by (unfold ids; by rewrite topo_new_nodes).
  rewrite topo_new_nodes, topo_new_edges. do 2 (rewrite (Hfresh (Build_TopologySnapshot _ _)) by reflexivity). by rewrite !topo_add_link.
Qed.

Definition test_registry (gain : f32) : gmap Z Kind := <[2 := KCapture]> (<[1 := KGain gain]> (<[0 := KSine f_440 f_0_5_amp]> ∅)).

Lemma registry_lookups gain :
  registry_factory (test_registry gain) 0 = Some (SineSourceNode test_sine) /\
  registry_factory (test_registry gain) 1 = Some (GainNode gain) /\
  registry_factory (test_registry gain) 2 = Some CaptureSinkNode.
Proof.
  unfold registry_factory, test_registry. split_and!.
  - by rewrite !lookup_insert_ne, lookup_insert_eq by done.
  - by rewrite lookup_insert_ne, lookup_insert_eq by done.
  - by rewrite lookup_insert_eq.
Qed.

Lemma build_from_plays gain : exists g, build_from (E := E) chain_topology (test_registry gain) = Ok g /\ plays g gain.
Proof.
  unfold build_from. rewrite chain_topology_eq. destruct (registry_lookups gain) as (R0 & R1 & R2).
  destruct (g_snapshot_accepts {| nodes := [{| ns_id := 0; ns_inputs := []; ns_outputs := mono_out |};
    {| ns_id := 1; ns_inputs := mono_in; ns_outputs := mono_out |};
    {| ns_id := 2; ns_inputs := mono_in; ns_outputs := [] |}]; edges := test_links |} (registry_factory (test_registry gain))) as [g K].
  { intros n Hn. cbn [nodes] in Hn. repeat (apply elem_of_cons in Hn as [->|Hn]; [by eexists; cbn [ns_id]; eassumption|]). by apply not_elem_of_nil in Hn. }
  rewrite K. cbn [map_err rbind]. apply g_from_snapshot_spec in K as [HF HL]. cbn [nodes edges] in HF, HL.
  inversion HF as [|? ? ? ? (a & Ea & ->) HF1]; subst. inversion HF1 as [|? ? ? ? (b & Eb & ->) HF2]; subst.
  inversion HF2 as [|? ? ? ? (c & Ec & ->) HF3]; subst. inversion HF3; subst.
  cbn [ns_id] in Ea, Eb, Ec. rewrite R0 in Ea. rewrite R1 in Eb. rewrite R2 in Ec. injection Ea as <-. injection Eb as <-. injection Ec as <-.
  match goal with HN : _ = g_nodes g |- _ => symmetry in HN; rename HN into Hn end.
  assert (HLk : g_links g = test_links) by (apply HL; intros [|[|[|i]]] nd Hnd; cbn in Hnd; simplify_eq; done).
  destruct (g_compile_accepts g test_sine gain Hn HLk) as [g' K']. rewrite K'. cbn [map_err].
  exists g'. split; [done|]. split; [by eapply g_compile_ready|]. apply g_compile_spec in K' as [-> ->]. done.
Qed.

Lemma registry_regain : <[1 := KGain half]> (test_registry one) = test_registry half.
Proof. unfold test_registry. rewrite (insert_insert_ne _ 1 2) by done. by rewrite insert_insert_eq. Qed.

(** The two reload checks decide alike and cannot fail on an audible sine.
    With [p] the peak of the generated sine: both report silence when [p] does not
    exceed 0.001; whenever it does (and is finite) both succeed, because the swapped-in graph's
    peak is exactly half of the first (one less in the exponent field) and so the
    ratio is exactly 0.5, with no use of the tolerance. *)
Theorem reload_checks_halve (p := fold_peak sine_samples) :
  (p <= f_1e_3 -> run_hot_reload_test (H := H) = Err (Silence (E := E) p) /\ run_live_rebuild_test (G := G) = Err (Silence (E := E) p)) /\
  (f_1e_3 < p < inf -> run_hot_reload_test (H := H) = Ok (E := ReloadError (E := E)) (p, p - 2 ^ 23, half) /\
     run_live_rebuild_test (G := G) = Ok (E := ReloadError (E := E)) (p, p - 2 ^ 23, half)).
Proof.
  assert (Hp : 0 <= p) by (unfold p; rewrite fold_peak_spec by apply sine_u32; apply peak_of_nonneg).
  unfold run_hot_reload_test, run_live_rebuild_test, peak_at_sink, peak_of_graph.
  destruct (build_test_graph_plays one) as (ga & -> & Pa). destruct (build_test_graph_plays half) as (gb & -> & Pb).
  fold (test_registry one). rewrite registry_regain.
  destruct (build_from_plays one) as (sa & -> & Qa). destruct (build_from_plays half) as (sb & -> & Qb).
  cbn [rbind]. cbv zeta. rewrite !rt_cycles_graph, rt_new_graph, rt_install_graph.
  rewrite !(proj2 (graph_cycles_play 4 _ _ Pa)), !(proj2 (graph_cycles_play 4 _ _ Pb)),
    !(proj2 (graph_cycles_play 4 _ _ Qa)), !(proj2 (graph_cycles_play 4 _ _ Qb)) by done.
  rewrite fold_peak_one by apply sine_u32. fold p. split.
  - intros Hle. rewrite leb_bits by (unfold f_1e_3, inf in * |- * ; lia). by rewrite (proj2 (Z.leb_le _ _) Hle).
  - intros Hgt. rewrite leb_bits by (unfold f_1e_3, inf in * |- * ; lia). rewrite (proj2 (Z.leb_gt _ _)) by lia.
    assert (H25 : 2 ^ 25 <= p < inf) by (unfold f_1e_3 in Hgt; lia).
    rewrite fold_peak_half by (apply sine_u32 || exact H25). fold p. unfold compare_peaks. rewrite half_ratio by done.
    split; reflexivity.
Qed.
End reload_facts.

(** ** A library that runs chains *)

Record chain_graph : Type := { cg_nodes : list (BuiltNode TestNode); cg_links : list SnapshotEdge; cg_input : option AudioFrame }.
Definition blank : AudioFrame := {| fr_channels := 1; fr_rate := SAMPLE_RATE; fr_samples := replicate NUM_FRAMES zero |}.
Definition cg_cycle (g : chain_graph) : chain_graph :=
  match cg_nodes g with
  | [Plain a; Plain b; _] =>
      {| cg_nodes := cg_nodes g; cg_links := cg_links g; cg_input := head (test_process b (test_process a [] [blank]) [blank]) |}
  | _ => g
  end.

#[export] Instance chain_graph_ops : GraphOps chain_graph TestNode unit := {
  g_new := {| cg_nodes := []; cg_links := []; cg_input := None |};
  g_add_node g n := ({| cg_nodes := cg_nodes g ++ [Plain n]; cg_links := cg_links g; cg_input := cg_input g |}, Z.of_nat (length (cg_nodes g)));
  g_add_sink g n := ({| cg_nodes := cg_nodes g ++ [Sink n]; cg_links := cg_links g; cg_input := cg_input g |}, Z.of_nat (length (cg_nodes g)));
  g_link g a b := Ok {| cg_nodes := cg_nodes g; cg_links := cg_links g ++ [edge a b]; cg_input := cg_input g |};
  g_compile g := Ok g;
  g_process_cycle g := (cg_cycle g, Ok tt);
  g_flush_sinks g := (g, Ok 0);
  g_nodes := cg_nodes;
  g_links := cg_links
}.
#[export] Instance chain_graph_laws : GraphLaws chain_graph TestNode unit.
Proof. split; cbn; intros; simplify_eq; done. Qed.
#[export] Instance chain_graph_read : GraphRead chain_graph := { g_read_input g _ _ := cg_input g }.
#[export] Instance chain_graph_snapshot : FromSnapshot chain_graph TestNode unit := {
  g_from_snapshot topo f :=
    match mapM (fun n => Plain <$> f (ns_id n)) (nodes topo) with
    | Some ns => Ok {| cg_nodes := ns; cg_links := edges topo; cg_input := None |}
    | None => Err tt
    end
}.
#[export] Instance chain_graph_handle : RtHandleOps chain_graph chain_graph unit := {
  rt_new g := g; rt_install _ g := g; rt_process_cycle h := (cg_cycle h, Ok tt); rt_graph h := h
}.
#[export] Instance chain_graph_handle_laws : RtHandleLaws chain_graph chain_graph unit.
Proof. by split. Qed.

#[export] Instance chain_graph_runs : ChainRuns chain_graph unit.
Proof.
  refine {| g_ready _ := True |}; cbn; try done.
  - intros g _. unfold cg_cycle. destruct (cg_nodes g) as [|[a|a] [|[b|b] [|c [|]]]] eqn:E; cbn; rewrite ?E; done.
  - intros g a b c _ Hn _. exists blank, blank. unfold cg_cycle. rewrite Hn. split_and!; try reflexivity; unfold blank; cbn [fr_samples]; apply length_replicate.
  - intros topo f g. destruct (mapM _ _) as [ns|] eqn:E; [|done]. intros [= <-]. split; [|done]. apply mapM_Some in E.
    eapply Forall2_impl; [exact E|]. cbn. intros n b Hb. apply fmap_Some in Hb as (a & ? & ->). by exists a.
  - intros. by eexists.
  - intros. by eexists.
  - intros topo f Hf. destruct (mapM_is_Some_2 (fun n => Plain <$> f (ns_id n)) (nodes topo)) as [ns ->]; [|by eexists].
    apply Forall_forall. intros n Hn. by apply fmap_is_Some, Hf.
Defined.

(** A platform whose sine is 1: the peaks are 1/2 and 1/4. *)
Lemma reload_checks_halve_witness :
  run_hot_reload_test (M := unit_math) (G := chain_graph) (H := chain_graph) (E := unit) = Ok (half, 0x3E800000, half) /\
  run_live_rebuild_test (M := unit_math) (G := chain_graph) (E := unit) = Ok (half, 0x3E800000, half).
Proof.
  destruct (reload_checks_halve (M := unit_math) (G := chain_graph) (H := chain_graph) (E := unit)) as [_ Hr].
  assert (Hp : fold_peak (sine_samples (M := unit_math)) = half) by (vm_compute; reflexivity).
  rewrite Hp in Hr. apply Hr. split; [apply Z.ltb_lt|apply Z.ltb_lt]; vm_compute; reflexivity.
Defined.
