(* ===== verification/EngineCheck.v ===== *)
(** * The engine's live-rebuild check

    [run_engine_live_rebuild_test] of [crates/sonicbrew/src/main.rs]: the main
    thread writes a topology to the store, waits for the rebuild thread of
    {!AudioEngine} to deposit its graph, runs it, changes a gain, and waits for the
    rebuilt graph to be swapped in.  A schedule says how many turns the rebuild
    thread gets before each action of the main thread and how often the main thread
    polls before its deadline; which writes the store accepts is an argument. *)

From stdpp Require Import gmap relations.
From Stdlib Require Import SpecFloat.
From S2P Require Import Prelude F32 Topology AudioEngine AudioNodes PlanarNodes EffectNodes RoutingNodes SourceNodes.
From S2P Require Import Diagnose SelfTest Reload.
Local Open Scope Z_scope.
Import F32.

Local Infix "*." := mul (at level 40, left associativity).
Local Infix "/." := div (at level 40, left associativity).

(** ** The factory *)

Inductive EngineNode : Type := ESine (d : SineSource) | EGain (d : Gain) | ECapture.

Definition engine_node_process (n : EngineNode) (ins outs : list AudioFrame) : list AudioFrame :=
  match n with
  | ESine d => SourceNodes.sine_process d outs
  | EGain d => gain_process d ins outs
  | ECapture => capture_process ins outs
  end.

Definition NF : nat := 64.
Definition SR : Z := 48000.
Definition f_1000_0 : f32 := 0x447A0000.
Definition f_0_6 : f32 := 0x3F19999A.
Definition f_0_20 : f32 := 0x3E4CCCCD.
Definition f_0_30 : f32 := 0x3E99999A.

(** [gain_milli as f32 / 1000.0]. *)
Definition milli (m : Z) : f32 := of_Z m /. f_1000_0.

(** [(lo..=hi).contains(&x)]. *)
Definition in_range (lo hi x : f32) : bool := leb lo x && leb x hi.

Definition EngineFactory_build `{MathOps} (gain_milli : Z) (id : Z) : option (BuiltNode EngineNode) :=
  if id =? 0 then Some (Plain (ESine (SineSource_new f_440 half NF SR)))
  else if id =? 1 then Some (Plain (EGain (Gain_new (milli gain_milli))))
  else if id =? 2 then Some (Plain ECapture)
  else None.

(** ** The check *)

Inductive CheckError : Type :=
| StoreFailed               (* a write was refused *)
| NeverLanded               (* phase A rebuild never landed *)
| TakePanicked              (* unwrap of an empty slot *)
| PhaseA (peak : f32)       (* phase A peak not ~0.5 *)
| NeverSwapped (peak : f32) (* phase B swap never reflected *)
| PhaseB (peak : f32).      (* phase B peak not ~0.25 *)

(** Turns of the rebuild thread: before each of the writes of phase A, before each poll
    of the slot (at least one), before taking the graph, before each of the four cycles, before the
    gain is stored and before the last write, and before each cycle of a round (at least one); and
    whether a rebuild under way when the gain is stored has loaded the old one. *)
Record Schedule : Type := {
  sc_writes : nat -> nat; sc_poll : nat; sc_polls : list nat; sc_take : nat; sc_cycles : nat -> nat;
  sc_store : nat; sc_loaded : bool; sc_rewrite : nat; sc_round : nat * nat; sc_rounds : list (nat * nat)
}.

Definition CHANNEL_CAPACITY : nat := 64.

Definition gain_node : NodeSnapshot := {| ns_id := 1; ns_inputs := mono_in; ns_outputs := mono_out |}.

Definition phase_a_writes : list Mutation :=
  [AddNode {| ns_id := 0; ns_inputs := []; ns_outputs := mono_out |};
   AddNode gain_node;
   AddNode {| ns_id := 2; ns_inputs := mono_in; ns_outputs := [] |};
   AddLink (edge (0, 0) (1, 0)); AddLink (edge (1, 0) (2, 0))].

(** [(node_count, link_count) < (3, 2)] of the slot's graph, [(0, 0)] of an empty slot. *)
Definition pending {G N E : Type} `{GraphOps G N E} (slot : option G) : bool :=
  let '(n, l) := match slot with Some g => (length (g_nodes g), length (g_links g)) | None => (0, 0)%nat end in
  (n <? 3)%nat || (n =? 3)%nat && (l <? 2)%nat.

Section check.
Context {M : MathOps} {G E : Type} `{GraphOps G EngineNode E} `{GraphRead G} `{TopoOps}.
Context (accepts : nat -> bool) (sc : Schedule).
Abbreviation W := (EngineWorld (G := G)).
Implicit Types w : W.

(** The rebuild thread runs while the shared gain is [gain_milli]. *)
Definition turns (gain_milli : Z) (n : nat) w : W :=
  Nat.iter n (thread_turn (E := E) (EngineFactory_build gain_milli) CHANNEL_CAPACITY) w.

(** After the gain has been stored: [held] is the old gain if a rebuild under way has
    loaded it. *)
Definition turn_b (hw : option Z * W) : option Z * W :=
  let '(held, w) := hw in
  match w_pc w with
  | RHave _ => (None, turns (default 500 held) 1 w)
  | _ => (held, turns 500 1 w)
  end.
Definition turns_b (n : nat) (hw : option Z * W) : option Z * W := Nat.iter n turn_b hw.

(** [gain_milli.store(500, ..)]. *)
Definition store_gain w : option Z * W :=
  (match w_pc w with RHave _ => if sc_loaded sc then Some 1000 else None | _ => None end, w).

(** [store.apply_mutation(m)?]. *)
Definition write (k : nat) (m : Mutation) w : result W CheckError :=
  if accepts k then
    Ok {| w_topo := topo_apply (w_topo w) m; w_unread := S (w_unread w); w_pc := w_pc w; w_slot := w_slot w; w_graph := w_graph w |}
  else Err StoreFailed.

Fixpoint writes (gain_milli : Z) (k : nat) (ms : list Mutation) w : result W CheckError :=
  match ms with
  | [] => Ok w
  | m :: ms =>
      let? w := write k m (turns gain_milli (sc_writes sc k) w) in
      writes gain_milli (S k) ms w
  end.

Fixpoint wait_landed (gain_milli : Z) (n : nat) (polls : list nat) w : result W CheckError :=
  let w := turns gain_milli n w in
  if pending (w_slot w) then
    match polls with
    | [] => Err NeverLanded
    | n :: polls => wait_landed gain_milli n polls w
    end
  else Ok w.

(** [slot.lock().take().unwrap()] and [GraphEngine::new]. *)
Definition take_graph w : result W CheckError :=
  match w_slot w with
  | Some g => Ok {| w_topo := w_topo w; w_unread := w_unread w; w_pc := w_pc w; w_slot := None; w_graph := g |}
  | None => Err TakePanicked
  end.

(** [eng.step(&mut ctx)]. *)
Definition step w : W :=
  let '(graph, slot) := engine_step (w_graph w) (w_slot w) in
  {| w_topo := w_topo w; w_unread := w_unread w; w_pc := w_pc w; w_slot := slot; w_graph := graph |}.

(** [for cycle in 0..4]. *)
Fixpoint cycles (gain_milli : Z) (k n : nat) w : W :=
  match n with
  | O => w
  | S n => cycles gain_milli (S k) n (step (turns gain_milli (sc_cycles sc k) w))
  end.

(** The peak at the capture node, 0 when it has no frame. *)
Definition read_peak w : f32 :=
  match g_read_input (w_graph w) 2 0 with Some frame => fold_peak (fr_samples frame) | None => zero end.

(** The loop of phase B; each round is two cycles and a reading. *)
Fixpoint wait_swapped (peak_a : f32) (n1 n2 : nat) (rounds : list (nat * nat)) (hw : option Z * W) : result f32 CheckError :=
  let '(held, w) := turns_b n1 hw in
  let '(held, w) := turns_b n2 (held, step w) in
  let w := step w in
  let pb := read_peak w in
  if ltb pb (peak_a *. f_0_6) then Ok pb else
  match rounds with
  | [] => Err (NeverSwapped pb)
  | (n1, n2) :: rounds => wait_swapped peak_a n1 n2 rounds (held, w)
  end.

Definition run_engine_live_rebuild_test : result (f32 * f32) CheckError :=
  let w := world_init topo_new g_new in
  let? w := writes 1000 0 phase_a_writes w in
  let? w := wait_landed 1000 (sc_poll sc) (sc_polls sc) w in
  let? w := take_graph (turns 1000 (sc_take sc) w) in
  let w := cycles 1000 0 4 w in
  let peak_a := read_peak w in
  if negb (in_range f_0_45 f_0_55 peak_a) then Err (PhaseA peak_a) else
  let '(held, w) := turns_b (sc_rewrite sc) (store_gain (turns 1000 (sc_store sc) w)) in
  let? w := write 5 (AddNode gain_node) w in
  let? peak_b := wait_swapped peak_a (sc_round sc).1 (sc_round sc).2 (sc_rounds sc) (held, w) in
  if negb (in_range f_0_20 f_0_30 peak_b) then Err (PhaseB peak_b) else Ok (peak_a, peak_b).
End check.

(** ** Six tenths of a peak *)

Lemma decode_normal x : 2 ^ 23 <= x < inf ->
  decode x = S754_finite false (Z.to_pos (x mod 2 ^ 23 + 2 ^ 23)) (x / 2 ^ 23 - 150).
Proof.
  unfold inf. intros Hx. unfold decode. destruct (Z.leb_spec (2 ^ 31) x); [lia|].
  assert (1 <= x / 2 ^ 23 < 255) by (split; [apply Z.div_le_lower_bound; lia|apply Z.div_lt_upper_bound; lia]).
  rewrite (Z.mod_small (x / 2 ^ 23)) by lia. destruct (Z.eqb_spec (x / 2 ^ 23) 255); [lia|].
  by destruct (Z.eqb_spec (x / 2 ^ 23) 0); [lia|].
Qed.

(** It lies strictly between half of it and it. *)
Lemma mul_0_6 p : 2 ^ 25 <= p < inf -> p - 2 ^ 23 < p *. f_0_6 < p.
Proof.
  intros Hp. unfold mul, lift2. rewrite decode_normal by lia.
  change (decode f_0_6) with (S754_finite false 10066330 (-24)).
  pose proof (Z.div_mod p (2 ^ 23) ltac:(lia)) as Hd. pose proof (Z.mod_pos_bound p (2 ^ 23) ltac:(lia)) as Hm.
  set (q := p / 2 ^ 23) in * |- * . set (r := p mod 2 ^ 23) in * |- * .
  assert (Hq : 4 <= q < 255) by (unfold q, inf in Hp |- * ; split; [apply Z.div_le_lower_bound; lia|apply Z.div_lt_upper_bound; lia]).
  assert (Hpm : exists m, Z.pos m = r + 2 ^ 23) by (exists (Z.to_pos (r + 2 ^ 23)); lia). destruct Hpm as [m Em].
  rewrite <- Em. cbn [Z.to_pos SFmul xorb]. clearbody q r.
  set (k := fexp prec32 emax32 (Zdigits2 (Z.pos (m * 10066330)) + (q - 150 + -24)) - (q - 150 + -24)).
  assert (Hk : k = 23 \/ k = 24).
  { pose proof (digits2_bounds (m * 10066330)) as [Hlo Hhi]. unfold k, fexp, emin, prec32, emax32. cbn [Zdigits2].
    set (d := Z.pos (digits2_pos (m * 10066330))) in * |- * .
    assert (46 < d) by (apply (Z.pow_lt_mono_r_iff 2); lia). assert (d - 1 < 48) by (apply (Z.pow_lt_mono_r_iff 2); lia). lia. }
  destruct (binary_round_aux_spec false (m * 10066330) (q - 150 + -24)) as (n & -> & Hlo & Hhi & Hn & He & Hc); [fold k; lia|].
  fold k in Hlo, Hhi, He, Hc |- * .
  assert (Hn23 : 2 ^ 23 <= n) by lia.
  unfold norm32. destruct (Z.eqb_spec n 0); [lia|].
  destruct Hk as [Hk|Hk]; rewrite Hk in Hlo, Hhi, He |- * ; clearbody k.
  - assert (Hmn : Z.pos m + 1 <= n) by (etransitivity; [|exact Hlo]; apply Z.div_le_lower_bound; lia).
    destruct (Z.eqb_spec n (2 ^ 24)) as [->|].
    + destruct (Z.leb_spec (q - 150 + -24 + 23 + 1) 104); [|lia].
      assert (En : encode (S754_finite false (Z.to_pos (2 ^ 23)) (q - 150 + -24 + 23 + 1)) = q * 2 ^ 23)
        by (cbn [encode sign_bit]; change (Z.pos (Z.to_pos (2 ^ 23))) with (2 ^ 23); rewrite Z.ltb_irrefl; lia).
      rewrite En. lia.
    + destruct (Z.leb_spec (q - 150 + -24 + 23) 104); [|lia]. cbn [encode sign_bit]. rewrite Z2Pos.id by lia.
      destruct (Z.ltb_spec n (2 ^ 23)); lia.
  - destruct (Z.eqb_spec n (2 ^ 24)); [lia|]. destruct (Z.leb_spec (q - 150 + -24 + 24) 104); [|lia].
    cbn [encode sign_bit]. rewrite Z2Pos.id by lia. destruct (Z.ltb_spec n (2 ^ 23)); lia.
Qed.

(** ** The library running a chain of nodes *)

Class ChainFlows (G N E : Type) (process : N -> list AudioFrame -> list AudioFrame -> list AudioFrame)
    (ports : N -> nat * nat) (frames : nat) `{GraphLaws G N E} `{GraphRead G} : Type := {
  g_fresh : G -> Prop;  (* compiled, no cycle run yet *)
  g_ran : G -> Prop;    (* compiled and run *)
  g_compile_fresh : forall g g', g_compile g = Ok g' -> g_fresh g';
  g_fresh_silent : forall g id port f, g_fresh g -> g_read_input g id port = Some f -> Forall (eq zero) (fr_samples f);
  (* each node of a chain runs once, in order, on frames of the configured length *)
  g_cycle_runs : forall g, g_fresh g \/ g_ran g ->
    g_ran (g_process_cycle g).1 /\ g_nodes (g_process_cycle g).1 = g_nodes g /\ g_links (g_process_cycle g).1 = g_links g;
  g_cycle_chain : forall g a b c, g_fresh g \/ g_ran g -> g_nodes g = [Plain a; Plain b; Plain c] -> g_links g = test_links ->
    exists oa ob, length (fr_samples oa) = frames /\ length (fr_samples ob) = frames /\
      g_read_input (g_process_cycle g).1 2 0 = head (process b (process a [] [oa]) [ob]);
  g_flush_keeps : forall g, g_ran g ->
    g_ran (g_flush_sinks g).1 /\ g_nodes (g_flush_sinks g).1 = g_nodes g /\ g_links (g_flush_sinks g).1 = g_links g /\
    forall id port, g_read_input (g_flush_sinks g).1 id port = g_read_input g id port;
  (* an existing output port links to an existing input port of a later node; such graphs compile *)
  g_link_forward : forall g i j a b p q, g_nodes g !! i = Some (Plain a) -> g_nodes g !! j = Some (Plain b) -> (i < j)%nat ->
    0 <= p < Z.of_nat (ports a).2 -> 0 <= q < Z.of_nat (ports b).1 ->
    exists g', g_link g (Z.of_nat i, p) (Z.of_nat j, q) = Ok g';
  g_compile_forward : forall g, Forall (fun e => (e_from e).1 < (e_to e).1) (g_links g) -> exists g', g_compile g = Ok g'
}.

(** Input and output ports. *)
Definition engine_ports (n : EngineNode) : nat * nat :=
  match n with ESine _ => (0, 1)%nat | EGain _ => (1, 1)%nat | ECapture => (1, 0)%nat end.

Section facts.
Context {M : MathOps} {G E : Type} `{ChainFlows G EngineNode E engine_node_process engine_ports NF} `{TopoLaws}.
Abbreviation W := (EngineWorld (G := G)).
Implicit Types (w : W) (g : G) (gm : Z).

Definition engine_sine : SineSource := SineSource_new f_440 half NF SR.
Definition chain gm : list (BuiltNode EngineNode) :=
  [Plain (ESine engine_sine); Plain (EGain (Gain_new (milli gm))); Plain ECapture].

(** *** Topologies *)

Definition chain_nodes : list NodeSnapshot :=
  [{| ns_id := 0; ns_inputs := []; ns_outputs := mono_out |}; gain_node; {| ns_id := 2; ns_inputs := mono_in; ns_outputs := [] |}].

(** The topology after the first [i] writes. *)
Definition prefix (i : nat) : TopologySnapshot := {| nodes := take i chain_nodes; edges := take (i - 3) test_links |}.

Lemma topo_new_eq : topo_new = prefix 0.
Proof. unfold prefix. destruct topo_new as [ns es] eqn:Et. pose proof topo_new_nodes. pose proof topo_new_edges. rewrite Et in * |- * . cbn in * |- . by subst. Qed.

Lemma prefix_next i m : phase_a_writes !! i = Some m -> topo_apply (prefix i) m = prefix (S i).
Proof.
  intros Hm. do 3 (destruct i as [|i]; [injection Hm as <-; rewrite topo_add_fresh; [done|]; apply (bool_decide_eq_true_1 _); vm_compute; reflexivity|]).
  do 2 (destruct i as [|i]; [injection Hm as <-; by rewrite topo_add_link|]). done.
Qed.

Lemma prefix_nodup i : NoDup (ids (prefix i)).
Proof.
  unfold ids, prefix. cbn [nodes]. rewrite fmap_take. apply (sublist_NoDup _ (ns_id <$> chain_nodes)).
  - apply (bool_decide_eq_true_1 _). vm_compute. reflexivity.
  - apply sublist_take.
Qed.

(** Writing the gain node again changes nothing. *)
Lemma rewrite_gain : topo_apply (prefix 5) (AddNode gain_node) = prefix 5.
Proof.
  destruct (topo_add_replace (prefix 5) gain_node) as (Hids & Hedges & Hnodes); [right; left|].
  destruct (topo_apply (prefix 5) (AddNode gain_node)) as [ns es]. cbn [edges nodes] in * |- * . rewrite Hedges. unfold prefix. f_equal.
  unfold ids in Hids. cbn in Hids. destruct ns as [|a [|b [|c [|]]]]; try done. injection Hids as Ha Hb Hc.
  assert (Hin : forall n, n ∈ [a; b; c] -> n ∈ chain_nodes).
  { intros n Hn. apply Hnodes in Hn as [->|[Hn _]]; [right; left|exact Hn]. }
  assert (Huniq : forall n k, n ∈ chain_nodes -> ns_id n = Z.of_nat k -> chain_nodes !! k = Some n).
  { intros n k Hn Hk. unfold chain_nodes in Hn. repeat (apply elem_of_cons in Hn as [->|Hn]; [cbn in Hk; by replace k with (Z.to_nat (Z.of_nat k)) by lia; rewrite <- Hk|]).
    by apply elem_of_nil in Hn. }
  pose proof (Huniq a 0%nat (Hin a ltac:(left)) Ha) as Ea. pose proof (Huniq b 1%nat (Hin b ltac:(right; left)) Hb) as Eb.
  pose proof (Huniq c 2%nat (Hin c ltac:(right; right; left)) Hc) as Ec. cbn in Ea, Eb, Ec. by simplify_eq.
Qed.

(** *** Graphs *)

Abbreviation built gm t := (build_graph (G := G) (E := E) (EngineFactory_build gm) t).

Definition plays gm g : Prop := g_nodes g = chain gm /\ g_links g = test_links.

Lemma build_chain gm : exists g, built gm (prefix 5) = Ok g /\ g_fresh g /\ plays gm g.
Proof.
  unfold build_graph, plays. destruct g_new_empty as [N0 L0]. cbn [prefix nodes edges chain_nodes take build_nodes ns_id gain_node].
  change (EngineFactory_build gm 0) with (Some (Plain (ESine engine_sine))).
  change (EngineFactory_build gm 1) with (Some (Plain (EGain (Gain_new (milli gm))))).
  change (EngineFactory_build gm 2) with (Some (Plain ECapture)). cbn [ok_or rbind add_built].
  destruct (g_add_node g_new _) as [g1 i1] eqn:A1. apply g_add_node_spec in A1 as (N1 & L1 & ->).
  destruct (g_add_node g1 _) as [g2 i2] eqn:A2. apply g_add_node_spec in A2 as (N2 & L2 & ->).
  destruct (g_add_node g2 _) as [g3 i3] eqn:A3. apply g_add_node_spec in A3 as (N3 & L3 & ->).
  rewrite N0 in N1. rewrite N1 in N2. rewrite N2 in N3. cbn [app] in N1, N2, N3. rewrite L2, L1, L0 in L3.
  rewrite N0, N1, N2. cbn [length build_nodes rbind test_links take link_edges Nat.sub edge e_from e_to fst snd].
  rewrite !lookup_insert_eq, !lookup_insert_ne, !lookup_insert_eq by done. cbn [ok_or rbind].
  rewrite !lookup_insert_ne, !lookup_insert_eq by done. cbn [ok_or rbind].
  destruct (g_link_forward g3 0 1 (ESine engine_sine) (EGain (Gain_new (milli gm))) 0 0) as [g4 K4]; try (rewrite N3; done); try (cbn; lia).
  rewrite K4. cbn [map_err rbind]. apply g_link_spec in K4 as [N4 L4]. rewrite L3 in L4. rewrite N3 in N4. cbn [app] in L4.
  destruct (g_link_forward g4 1 2 (EGain (Gain_new (milli gm))) ECapture 0 0) as [g5 K5]; try (rewrite N4; done); try (cbn; lia).
  rewrite K5. cbn [map_err rbind]. apply g_link_spec in K5 as [N5 L5]. rewrite L4 in L5. rewrite N4 in N5. cbn [app] in L5.
  destruct (g_compile_forward g5) as [g6 K6]; [rewrite L5; repeat constructor|]. rewrite K6. cbn [map_err].
  exists g6. split; [done|]. split; [by eapply g_compile_fresh|]. apply g_compile_spec in K6 as [-> ->]. done.
Qed.

Lemma built_plays gm g : built gm (prefix 5) = Ok g -> g_fresh g /\ plays gm g.
Proof. destruct (build_chain gm) as (g' & -> & Hg). by intros [= <-]. Qed.

(** How far a built graph is along the writes. *)
Lemma built_counts gm i g : (i <= 5)%nat -> built gm (prefix i) = Ok g ->
  length (g_nodes g) = Nat.min i 3 /\ length (g_links g) = (i - 3)%nat.
Proof.
  intros Hi Hb. pose proof (build_graph_cases (E := E) (EngineFactory_build gm) (prefix i) (prefix_nodup i)) as Hc.
  rewrite Hb in Hc. destruct Hc as [Hn Hl]. apply Forall2_length in Hn, Hl. unfold prefix in Hn, Hl. cbn [nodes edges] in Hn, Hl.
  rewrite length_take in Hn. rewrite length_take in Hl. cbn [length chain_nodes test_links] in Hn, Hl. lia.
Qed.

(** *** One cycle *)

Definition peak gm : f32 := fold_peak ((fun x => x *. milli gm) <$> fr_samples (sine engine_sine)).

Lemma engine_cycle_plays gm g : plays gm g -> g_fresh g \/ g_ran g ->
  plays gm (engine_cycle g) /\ g_ran (engine_cycle g) /\
  exists f, g_read_input (engine_cycle g) 2 0 = Some f /\ fold_peak (fr_samples f) = peak gm.
Proof.
  intros [Hn Hl] Hr. unfold engine_cycle. destruct (g_cycle_runs g Hr) as (Hran & Hn1 & Hl1).
  destruct (g_flush_keeps _ Hran) as (Hran' & Hn2 & Hl2 & Hread). split; [split; congruence|]. split; [done|]. rewrite Hread.
  destruct (g_cycle_chain g _ _ _ Hr Hn Hl) as (oa & ob & La & Lb & ->).
  cbn [engine_node_process SourceNodes.sine_process gain_process one_to_one head fr_samples with_out].
  eexists. split; [reflexivity|]. cbn [fr_samples with_out]. unfold peak.
  assert (Ls : length (fr_samples (sine engine_sine)) = NF) by (unfold engine_sine, SineSource_new; cbn [sine fr_samples]; by rewrite length_fmap, length_seq).
  rewrite (map_into_full id) by congruence. rewrite list_fmap_id, map_into_full by congruence. done.
Qed.

Lemma fold_peak_silent l : Forall (eq zero) l -> fold_peak l = zero.
Proof.
  intros Hl. rewrite fold_peak_spec by (eapply Forall_impl; [exact Hl|]; by intros x <-).
  induction Hl as [|x l <- _ IH]; [done|]. rewrite fmap_cons, peak_of_cons, IH. reflexivity.
Qed.

(** A graph just swapped in reads as silence. *)
Lemma fresh_silent w : g_fresh (w_graph w) -> read_peak w = zero.
Proof.
  intros Hf. unfold read_peak. destruct (g_read_input _ _ _) as [f|] eqn:Er; [|done]. by eapply fold_peak_silent, g_fresh_silent.
Qed.

(** *** Every schedule *)

(** [j] writes have been made; the slot's graph is of the first [lo] of them, with a
    gain in [X], and a topology being built is at least as recent. *)
Definition inv (X : Z -> Prop) (lo j : nat) w : Prop :=
  (lo <= j)%nat /\ w_topo w = prefix j /\ (forall t, w_pc w = RHave t -> exists k, (lo <= k <= j)%nat /\ t = prefix k) /\
  (forall g, w_slot w = Some g -> exists gm, X gm /\ built gm (prefix lo) = Ok g).

Definition live (X : Z -> Prop) w : Prop :=
  exists gm, X gm /\ plays gm (w_graph w) /\ (g_fresh (w_graph w) \/ g_ran (w_graph w)).

(** The rebuild thread leaves the running graph alone and never empties the slot. *)
Definition keeps w w' : Prop := w_graph w' = w_graph w /\ (w_slot w <> None -> w_slot w' <> None).

Lemma turn_inv (X : Z -> Prop) gm lo j w : X gm -> inv X lo j w ->
  exists lo', (lo <= lo')%nat /\ inv X lo' j (turns (E := E) gm 1 w) /\ keeps w (turns (E := E) gm 1 w).
Proof.
  intros Hgm (Hlo & Ht & Hpc & Hs). unfold turns, inv, keeps. cbn [Nat.iter nat_rect]. unfold thread_turn. destruct (w_pc w) as [|t|] eqn:Ep.
  - exists lo. cbn. split; [lia|]. split; [|done]. split_and!; try done. intros t [= <-]. exists j. split; [lia|done].
  - destruct (Hpc t eq_refl) as (k & Hk & ->). cbn. unfold rebuild_once. destruct (built gm (prefix k)) as [g|e] eqn:Eb.
    + exists k. split; [lia|]. split; [|done]. split_and!; try done; [lia|]. intros g' [= <-]. by exists gm.
    + exists lo. split; [lia|]. split; [|done]. split_and!; done.
  - exists lo. split; [lia|]. destruct (w_unread w =? 0)%nat; cbn; (split; [split_and!; try done|done]). by rewrite Ep.
Qed.

Lemma turns_S gm n w : turns (E := E) gm (S n) w = turns (E := E) gm 1 (turns (E := E) gm n w).
Proof. done. Qed.

Lemma turns_inv (X : Z -> Prop) gm n lo j w : X gm -> inv X lo j w ->
  exists lo', (lo <= lo')%nat /\ inv X lo' j (turns (E := E) gm n w) /\ keeps w (turns (E := E) gm n w).
Proof.
  intros Hgm Hi. induction n as [|n IH]; [by exists lo|]. destruct IH as (lo1 & Hl1 & Hi1 & Hg1 & Hs1).
  rewrite turns_S. destruct (turn_inv X gm lo1 j _ Hgm Hi1) as (lo2 & Hl2 & Hi2 & Hg2 & Hs2). exists lo2. split; [lia|].
  split; [done|]. split; [congruence|auto].
Qed.

(** With all writes made only the gain is open. *)
Definition good (X : Z -> Prop) w : Prop := inv X 5 5 w /\ live X w.

Lemma good_keeps (X : Z -> Prop) w w' : (exists lo, (5 <= lo)%nat /\ inv X lo 5 w' /\ keeps w w') -> live X w -> good X w'.
Proof.
  intros (lo & Hl & Hi & Hg & _) Hv. split.
  - assert (lo = 5%nat) as -> by (destruct Hi as (? & _); lia). done.
  - unfold live. by rewrite Hg.
Qed.

Lemma turns_good (X : Z -> Prop) gm n w : X gm -> good X w -> good X (turns (E := E) gm n w).
Proof. intros Hgm [Hi Hv]. eapply good_keeps; [by apply turns_inv|done]. Qed.

Lemma step_good (X : Z -> Prop) w : good X w -> good X (step w) /\
  (read_peak (step w) = zero \/ exists gm, X gm /\ read_peak (step w) = peak gm).
Proof.
  intros [(Hlo & Ht & Hpc & Hs) (gm & Hgm & Hp & Hf)]. unfold good, inv, live, step, engine_step.
  destruct (w_slot w) as [g|] eqn:Es; cbn [w_graph w_slot w_topo w_pc w_unread].
  - destruct (Hs g eq_refl) as (gm' & Hgm' & Hb). apply built_plays in Hb as [Hfr Hpl].
    split; [|left; by apply fresh_silent]. split; [split_and!; done|]. exists gm'. split_and!; [done|done|by left].
  - destruct (engine_cycle_plays gm _ Hp Hf) as (Hp' & Hr' & f & Ef & Epk). split.
    + split; [split_and!; done|]. exists gm. split_and!; [done|done|by right].
    + right. exists gm. split; [done|]. unfold read_peak. cbn [w_graph]. by rewrite Ef.
Qed.

Context (accepts : nat -> bool) (sc : Schedule).
Definition gain_a gm : Prop := gm = 1000.
Definition gain_ab gm : Prop := gm = 1000 \/ gm = 500.

Definition written (m : Mutation) w : W :=
  {| w_topo := topo_apply (w_topo w) m; w_unread := S (w_unread w); w_pc := w_pc w; w_slot := w_slot w; w_graph := w_graph w |}.

Lemma turns_pres (P : W -> Prop) gm n w : (forall w, P w -> P (turns (E := E) gm 1 w)) -> P w -> P (turns (E := E) gm n w).
Proof. intros Ht Hw. induction n as [|n IH]; [done|]. rewrite turns_S. by apply Ht. Qed.

(** What the thread and the writes preserve holds after the writes. *)
Lemma writes_pres (P : nat -> W -> Prop) :
  (forall k w, P k w -> P k (turns (E := E) 1000 1 w)) ->
  (forall k m w, phase_a_writes !! k = Some m -> P k w -> P (S k) (written m w)) ->
  forall w, P 0%nat w ->
  match writes (E := E) accepts sc 1000 0 phase_a_writes w with
  | Ok w' => P 5%nat w'
  | Err e => e = StoreFailed /\ exists k, (k < 6)%nat /\ accepts k = false
  end.
Proof.
  intros Ht Hm w Hw.
  assert (Hall : forall ms k w, drop k phase_a_writes = ms -> (k + length ms = 5)%nat -> P k w ->
    match writes (E := E) accepts sc 1000 k ms w with Ok w' => P 5%nat w' | Err e => e = StoreFailed /\ exists k, (k < 6)%nat /\ accepts k = false end).
  { clear w Hw. induction ms as [|m ms IH]; intros k w Hd Hl Hw; cbn [writes]; cbn [length] in Hl.
    - by replace 5%nat with k by lia.
    - unfold write. destruct (accepts k) eqn:Ea; cbn [rbind]; [|split; [done|exists k; split; [lia|done]]].
      apply IH; [|lia|].
      + change ms with (drop 1 (m :: ms)). rewrite <- Hd, drop_drop. by rewrite Nat.add_1_r.
      + apply (Hm k m); [|by apply turns_pres; [apply Ht|]].
        rewrite <- (Nat.add_0_r k), <- lookup_drop, Hd. done. }
  apply Hall; [done|done|exact Hw].
Qed.

Lemma written_inv (X : Z -> Prop) lo k m w : phase_a_writes !! k = Some m -> inv X lo k w -> inv X lo (S k) (written m w).
Proof.
  intros Hm (Hlo & Ht & Hpc & Hs). split_and!; [lia| |intros t Et; destruct (Hpc t Et) as (i & Hi & ->); exists i; split; [lia|done]|done].
  cbn [written w_topo]. rewrite Ht. by apply prefix_next.
Qed.

(** A graph with all nodes and links is of all the writes. *)
Lemma not_pending_built (X : Z -> Prop) lo w : inv X lo 5 w -> pending (w_slot w) = false -> lo = 5%nat /\ w_slot w <> None.
Proof.
  intros (Hlo & _ & _ & Hs) Hp. unfold pending in Hp. destruct (w_slot w) as [g|]; [|done]. split; [|done].
  destruct (Hs g eq_refl) as (gm & _ & Hb). destruct (built_counts gm lo g Hlo Hb) as [Hn Hl]. rewrite Hn, Hl in Hp.
  destruct (Nat.ltb_spec (Nat.min lo 3) 3), (Nat.eqb_spec (Nat.min lo 3) 3), (Nat.ltb_spec (lo - 3) 2); cbn in Hp; lia.
Qed.

Lemma wait_landed_cases n polls lo w : inv gain_a lo 5 w ->
  match wait_landed (E := E) 1000 n polls w with
  | Ok w' => inv gain_a 5 5 w' /\ w_slot w' <> None
  | Err e => e = NeverLanded
  end.
Proof.
  revert n lo w. induction polls as [|n' polls IH]; intros n lo w Hi; cbn [wait_landed];
    destruct (turns_inv gain_a 1000 n lo 5 w eq_refl Hi) as (lo' & _ & Hi' & _);
    destruct (pending (w_slot (turns (E := E) 1000 n w))) eqn:Hp;
    try (destruct (not_pending_built _ _ _ Hi' Hp) as [-> ?]; done).
  - done.
  - by eapply IH.
Qed.

Lemma take_good w : inv gain_a 5 5 w -> w_slot w <> None -> exists w', take_graph w = Ok w' /\ good gain_a w'.
Proof.
  intros (Hlo & Ht & Hpc & Hs) Hsome. unfold take_graph. destruct (w_slot w) as [g|]; [|done]. eexists. split; [reflexivity|].
  destruct (Hs g eq_refl) as (gm & Hgm & Hb). apply built_plays in Hb as [Hfr Hpl].
  split; [split_and!; done|]. exists gm. split_and!; [done|done|by left].
Qed.

Lemma cycles_good k n w : good gain_a w -> good gain_a (cycles (E := E) sc 1000 k n w) /\
  (n <> 0%nat -> read_peak (cycles (E := E) sc 1000 k n w) = zero \/ read_peak (cycles (E := E) sc 1000 k n w) = peak 1000).
Proof.
  revert k w. induction n as [|n IH]; intros k w Hg; [done|]. cbn [cycles].
  destruct (step_good gain_a (turns (E := E) 1000 (sc_cycles sc k) w)) as [Hg' Hr]; [by apply turns_good|].
  destruct (IH (S k) _ Hg') as [Hend Hpk]. split; [done|]. intros _.
  destruct n as [|n]; [|by apply Hpk]. cbn [cycles]. destruct Hr as [Hr|(gm & -> & Hr)]; auto.
Qed.

Definition good_b (hw : option Z * W) : Prop := good gain_ab hw.2 /\ forall gm, hw.1 = Some gm -> gain_ab gm.

Lemma turns_b_good n hw : good_b hw -> good_b (turns_b (E := E) n hw).
Proof.
  intros Hg. induction n as [|n IH]; [done|]. unfold turns_b. cbn [Nat.iter nat_rect]. fold (Nat.iter n (turn_b (E := E)) hw). fold (turns_b (E := E) n hw).
  destruct (turns_b n hw) as [held w]. destruct IH as [IHg IHh]. cbn [fst snd] in IHg, IHh. unfold turn_b.
  destruct (w_pc w); (split; [cbn [snd]; apply turns_good; [|done]|done]); try (by right).
  destruct held as [gm|]; [by apply IHh|by right].
Qed.

(** *** The peaks *)

#[local] Opaque fold_peak.

(** The peak of the generated sine. *)
Definition sine_peak : f32 := fold_peak (fr_samples (sine engine_sine)).

Lemma engine_sine_u32 : Forall u32 (fr_samples (sine engine_sine)).
Proof. unfold engine_sine, SineSource_new. cbn [sine fr_samples]. apply Forall_fmap, Forall_forall. intros i _. apply mul_u32. Qed.

Lemma peak_1000 : peak 1000 = sine_peak.
Proof. unfold peak, sine_peak. replace (milli 1000) with one by (vm_compute; reflexivity). apply fold_peak_one, engine_sine_u32. Qed.

Lemma peak_500 : 2 ^ 25 <= sine_peak < inf -> peak 500 = sine_peak - 2 ^ 23.
Proof.
  intros Hr. unfold peak, sine_peak. replace (milli 500) with half by (vm_compute; reflexivity).
  exact (fold_peak_half (fr_samples (sine engine_sine)) engine_sine_u32 Hr).
Qed.

Context (Hp : f_0_45 <= sine_peak <= f_0_55).

Lemma sine_peak_range : 2 ^ 25 <= sine_peak < inf.
Proof. unfold f_0_45, f_0_55, inf in Hp |- * . lia. Qed.

(** The thresholds decide exactly: half of the peak and silence are below six tenths
    of it, the peak is not; only half of it is about a quarter. *)
Lemma thresholds :
  ltb sine_peak (sine_peak *. f_0_6) = false /\ ltb (sine_peak - 2 ^ 23) (sine_peak *. f_0_6) = true /\
  ltb zero (sine_peak *. f_0_6) = true /\ in_range f_0_45 f_0_55 sine_peak = true /\
  in_range f_0_20 f_0_30 (sine_peak - 2 ^ 23) = true.
Proof.
  pose proof sine_peak_range as Hr. pose proof (mul_0_6 sine_peak Hr) as Hm.
  set (q := sine_peak *. f_0_6) in Hm |- * . clearbody q. unfold in_range, f_0_45, f_0_55, f_0_20, f_0_30, zero in Hp |- * .
  rewrite !ltb_bits, !leb_bits by (unfold inf in Hr |- * ; lia).
  split_and!; rewrite ?andb_true_iff, ?Z.ltb_lt, ?Z.leb_le, ?Z.ltb_ge; try split; lia.
Qed.

Lemma wait_swapped_cases n1 n2 rounds hw : good_b hw ->
  match wait_swapped (E := E) sine_peak n1 n2 rounds hw with
  | Ok pb => pb = zero \/ pb = sine_peak - 2 ^ 23
  | Err e => e = NeverSwapped sine_peak
  end.
Proof.
  destruct thresholds as (T1 & T2 & T3 & _).
  revert n1 n2 hw. induction rounds as [|[m1 m2] rounds IH]; intros n1 n2 hw Hg; cbn [wait_swapped];
    (destruct (turns_b n1 hw) as [held1 w1] eqn:E1; destruct (turns_b_good n1 hw Hg) as [Hg1 Hh1]; rewrite E1 in Hg1, Hh1; cbn [fst snd] in Hg1, Hh1;
     destruct (step_good gain_ab w1 Hg1) as [Hg2 _];
     destruct (turns_b n2 (held1, step w1)) as [held2 w2] eqn:E2; destruct (turns_b_good n2 (held1, step w1) (conj Hg2 Hh1)) as [Hg3 Hh3];
     rewrite E2 in Hg3, Hh3; cbn [fst snd] in Hg3, Hh3;
     destruct (step_good gain_ab w2 Hg3) as [Hg4 [Hz|(gm & [->| ->] & Hz)]]; rewrite Hz, ?peak_1000, ?(peak_500 sine_peak_range), ?T1, ?T2, ?T3; auto).
  by apply IH.
Qed.

(** *** Schedules on which the first graph is awaited long enough *)

Abbreviation pending_turns := (backlog (G := G)).

Lemma turns_run gm n w : turns (E := E) gm n w = world_run (E := E) (EngineFactory_build gm) CHANNEL_CAPACITY w (replicate n ThreadTurn).
Proof.
  revert w. induction n as [|n IH]; intros w; [done|]. unfold turns. rewrite Nat.iter_succ_r. fold (turns (E := E) gm n (thread_turn (E := E) (EngineFactory_build gm) CHANNEL_CAPACITY w)).
  rewrite IH. done.
Qed.

Lemma turns_idle gm n w : pending_turns w = 0%nat -> turns (E := E) gm n w = w.
Proof. intros Hb. induction n as [|n IH]; [done|]. rewrite turns_S, IH. cbn. by apply thread_idle. Qed.

(** During the writes of phase A. *)
Definition writing k w : Prop :=
  (exists lo, inv gain_a lo k w) /\ w_graph w = g_new /\ (pending_turns w <= 3 * k + 2)%nat /\ world_inv (EngineFactory_build 1000) w.

Lemma writing_turn k w : writing k w -> writing k (turns (E := E) 1000 1 w).
Proof.
  intros ((lo & Hi) & Hg & Hb & Hv). destruct (turn_inv gain_a 1000 lo k w eq_refl Hi) as (lo' & _ & Hi' & Hg' & _).
  split_and!; [by exists lo'|congruence| |].
  - change (turns (E := E) 1000 1 w) with (thread_turn (E := E) (EngineFactory_build 1000) CHANNEL_CAPACITY w).
    destruct (decide (pending_turns w = 0%nat)) as [Hz|]; [rewrite thread_idle by done; lia|].
    pose proof (thread_turn_backlog (E := E) (EngineFactory_build 1000) CHANNEL_CAPACITY w ltac:(lia)). lia.
  - exact (world_step_inv (EngineFactory_build 1000) CHANNEL_CAPACITY w ThreadTurn Hv).
Qed.

Lemma writing_write k m w : phase_a_writes !! k = Some m -> writing k w -> writing (S k) (written m w).
Proof.
  intros Hm ((lo & Hi) & Hg & Hb & Hv). split_and!; [exists lo; by apply written_inv|done| |].
  - unfold backlog in Hb |- * . cbn [written w_unread w_pc]. lia.
  - exact (world_step_inv (EngineFactory_build 1000) CHANNEL_CAPACITY w (Mutated m) Hv).
Qed.

Lemma evolved_plays gm g g' : plays gm g -> g_fresh g \/ g_ran g -> evolved g g' -> plays gm g'.
Proof.
  intros Hpl Hf Hev. revert Hpl Hf. induction Hev as [|x y z -> _ IH]; [done|]. intros Hpl Hf.
  destruct (engine_cycle_plays gm x Hpl Hf) as (? & ? & _). apply IH; [done|by right].
Qed.

(** Nothing left for the rebuild thread to do, slot empty. *)
Definition calm gm w : Prop :=
  pending_turns w = 0%nat /\ w_topo w = prefix 5 /\ w_slot w = None /\ plays gm (w_graph w) /\ (g_fresh (w_graph w) \/ g_ran (w_graph w)).

Lemma landed_in_time n polls k w : writing 5 w -> (17 <= n)%nat ->
  exists w', wait_landed (E := E) 1000 n polls w = Ok w' /\ exists w'', take_graph (turns (E := E) 1000 k w') = Ok w'' /\ calm 1000 w''.
Proof.
  intros ((lo & Hi) & Hg & Hb & Hv) Hn. exists (turns (E := E) 1000 n w).
  destruct (turns_inv gain_a 1000 n lo 5 w eq_refl Hi) as (lo' & _ & Hi' & Hg' & _).
  destruct (threads_catch_up (E := E) (EngineFactory_build 1000) CHANNEL_CAPACITY n w) as [Hb0 _]; [lia|]. rewrite <- turns_run in Hb0.
  assert (Hs : settled (E := E) (EngineFactory_build 1000) (turns (E := E) 1000 n w)).
  { pose proof (world_run_inv (EngineFactory_build 1000) CHANNEL_CAPACITY w (replicate n ThreadTurn) Hv) as Hv'. rewrite <- turns_run in Hv'.
    unfold world_inv, backlog in Hv', Hb0. destruct (w_pc _); [lia|lia|]. destruct Hv' as [?|?]; [lia|done]. }
  destruct (build_chain 1000) as (g & Eb & Hfr & Hpl). destruct Hi' as (_ & Ht & _).
  destruct (Hs g ltac:(by rewrite Ht)) as [Hslot|[_ Hev]].
  - split.
    + destruct polls; cbn [wait_landed]; unfold pending; rewrite Hslot; destruct Hpl as [-> ->]; done.
    + rewrite turns_idle by done. unfold take_graph. rewrite Hslot. eexists. split; [reflexivity|].
      split_and!; try done. by left.
  - rewrite Hg', Hg in Hev. apply (evolved_plays 1000) in Hev as [Hev _]; [|done|by left]. by rewrite (proj1 g_new_empty) in Hev.
Qed.

Lemma calm_step gm w : calm gm w -> calm gm (step w) /\ read_peak (step w) = peak gm.
Proof.
  intros (Hb & Ht & Hs & Hpl & Hf). unfold calm, step, engine_step. rewrite Hs. cbn [w_graph w_slot w_topo].
  destruct (engine_cycle_plays gm _ Hpl Hf) as (? & ? & f & Ef & Epk). split; [split_and!; try done; by right|].
  unfold read_peak. cbn [w_graph]. by rewrite Ef.
Qed.

Lemma calm_cycles gm k n w : calm gm w -> calm gm (cycles (E := E) sc 1000 k n w) /\
  (n <> 0%nat -> read_peak (cycles (E := E) sc 1000 k n w) = peak gm).
Proof.
  revert k w. induction n as [|n IH]; intros k w Hc; [done|]. cbn [cycles]. rewrite turns_idle by apply Hc.
  destruct (calm_step gm w Hc) as [Hc' Hr]. destruct (IH (S k) _ Hc') as [Hend Hpk]. split; [done|]. intros _.
  destruct n as [|n]; [done|by apply Hpk].
Qed.

(** Phase B: the thread needs [b] more turns to deposit the new graph. *)
Definition waiting (b : nat) w : Prop :=
  pending_turns w = b /\ (w_unread w <= 1)%nat /\ (forall t, w_pc w = RHave t -> t = prefix 5) /\
  w_topo w = prefix 5 /\ w_slot w = None /\ plays 1000 (w_graph w) /\ (g_fresh (w_graph w) \/ g_ran (w_graph w)).

(** It has deposited it. *)
Definition deposited w : Prop :=
  pending_turns w = 0%nat /\ w_topo w = prefix 5 /\ exists g, w_slot w = Some g /\ g_fresh g /\ plays 500 g.

Lemma idle_b n w : pending_turns w = 0%nat -> turns_b (E := E) n (None, w) = (None, w).
Proof.
  intros Hb. induction n as [|n IH]; [done|]. unfold turns_b. cbn [Nat.iter nat_rect]. fold (Nat.iter n (turn_b (E := E)) (None, w)).
  fold (turns_b (E := E) n (None, w)). rewrite IH. unfold turn_b. rewrite !turns_idle by done.
  unfold backlog in Hb. by destruct (w_pc w); [lia|lia|].
Qed.

Lemma waiting_turn b w : (b < 3)%nat -> waiting (S b) w -> exists w', turn_b (E := E) (None, w) = (None, w') /\
  if (b =? 0)%nat then deposited w' else waiting b w'.
Proof.
  intros Hlt (Hb & Hu & Hpc & Ht & Hs & Hpl & Hf). unfold turn_b, turns, backlog in Hb |- * . cbn [Nat.iter nat_rect]. unfold thread_turn.
  destruct (w_pc w) as [|t|] eqn:Ep.
  - eexists. split; [reflexivity|]. assert (b = 1%nat) as -> by lia. cbn [Nat.eqb]. unfold waiting, backlog. cbn.
    split_and!; try done; [lia|]. by intros t [= <-].
  - eexists. split; [reflexivity|]. assert (b = 0%nat) as -> by lia. cbn [Nat.eqb]. rewrite (Hpc t eq_refl). cbn [default].
    destruct (build_chain 500) as (g & Eb & Hg). unfold rebuild_once. rewrite Eb. unfold deposited, backlog. cbn.
    split_and!; [lia|done|by exists g].
  - destruct (Nat.eqb_spec (w_unread w) 0); [lia|]. eexists. split; [reflexivity|]. assert (b = 2%nat) as -> by lia. cbn [Nat.eqb].
    destruct (Nat.ltb_spec CHANNEL_CAPACITY (w_unread w)); [unfold CHANNEL_CAPACITY in *; lia|].
    unfold waiting, backlog. cbn. split_and!; try done; lia.
Qed.

Lemma waiting_turns n b w : (1 <= b <= 3)%nat -> waiting b w -> exists w', turns_b (E := E) n (None, w) = (None, w') /\
  if (b <=? n)%nat then deposited w' else waiting (b - n) w'.
Proof.
  revert b w. induction n as [|n IH]; intros b w Hb Hw.
  - exists w. split; [done|]. destruct (Nat.leb_spec b 0); [lia|]. by rewrite Nat.sub_0_r.
  - unfold turns_b. rewrite Nat.iter_succ_r. destruct b as [|b]; [lia|].
    destruct (waiting_turn b w ltac:(lia) Hw) as (w1 & -> & Hw1). fold (turns_b (E := E) n (None, w1)).
    destruct (Nat.eqb_spec b 0) as [->|Hnz].
    + exists w1. split; [apply idle_b, Hw1|]. done.
    + destruct (IH b w1 ltac:(lia) Hw1) as (w' & -> & Hw'). exists w'. split; [done|]. exact Hw'.
Qed.

Lemma waiting_step b w : waiting b w -> waiting b (step w) /\ read_peak (step w) = peak 1000.
Proof.
  intros (Hb & Hu & Hpc & Ht & Hs & Hpl & Hf). unfold waiting, step, engine_step. rewrite Hs. cbn [w_graph w_slot w_topo w_pc w_unread].
  destruct (engine_cycle_plays 1000 _ Hpl Hf) as (? & ? & f & Ef & Epk). split; [split_and!; try done; by right|].
  unfold read_peak. cbn [w_graph]. by rewrite Ef.
Qed.

(** The cycle that swaps the new graph in does not run it. *)
Lemma deposited_step w : deposited w -> calm 500 (step w) /\ read_peak (step w) = zero.
Proof.
  intros (Hb & Ht & g & Hs & Hfr & Hpl). unfold calm, step, engine_step. rewrite Hs. cbn [w_graph w_slot w_topo].
  split; [split_and!; try done; by left|]. by apply fresh_silent.
Qed.

(** The verdict of phase B when the thread needs [b] turns and has them as scheduled. *)
Fixpoint verdict (p : f32) (b n1 n2 : nat) (rounds : list (nat * nat)) : result (f32 * f32) CheckError :=
  if (b <=? n1)%nat then Ok (p, p - 2 ^ 23)
  else if (b <=? n1 + n2)%nat then Err (PhaseB zero)
  else match rounds with
       | [] => Err (NeverSwapped p)
       | (m1, m2) :: rounds => verdict p (b - n1 - n2) m1 m2 rounds
       end.

Lemma wait_swapped_verdict b n1 n2 rounds w : (1 <= b <= 3)%nat -> waiting b w ->
  (let? peak_b := wait_swapped (E := E) sine_peak n1 n2 rounds (None, w) in
   if negb (in_range f_0_20 f_0_30 peak_b) then Err (PhaseB peak_b) else Ok (sine_peak, peak_b)) =
  verdict sine_peak b n1 n2 rounds.
Proof.
  destruct thresholds as (T1 & T2 & T3 & _ & T5).
  revert b n1 n2 w. induction rounds as [|[m1 m2] rounds IH]; intros b n1 n2 w Hb Hw; cbn [wait_swapped verdict];
    destruct (waiting_turns n1 b w Hb Hw) as (w1 & -> & Hw1); destruct (Nat.leb_spec b n1) as [Hle1|Hle1].
  1, 3: destruct (deposited_step w1 Hw1) as [Hc _]; rewrite idle_b by apply Hc; rewrite (proj2 (calm_step 500 _ Hc)), (peak_500 sine_peak_range), T2;
    cbn [rbind]; by rewrite T5.
  all: destruct (waiting_step _ w1 Hw1) as [Hw2 _]; destruct (waiting_turns n2 (b - n1) _ ltac:(lia) Hw2) as (w3 & -> & Hw3);
    replace (b <=? n1 + n2)%nat with (b - n1 <=? n2)%nat by (destruct (Nat.leb_spec (b - n1) n2), (Nat.leb_spec b (n1 + n2)); lia);
    destruct (Nat.leb_spec (b - n1) n2) as [Hle2|Hle2].
  1, 3: rewrite (proj2 (deposited_step w3 Hw3)), T3; cbn [rbind]; reflexivity.
  all: destruct (waiting_step _ w3 Hw3) as [Hw4 ->]; rewrite peak_1000, T1.
  - done.
  - apply IH; [lia|done].
Qed.

Abbreviation check := (run_engine_live_rebuild_test (G := G) (E := E) accepts sc).

Lemma phase_a_writing :
  match writes (E := E) accepts sc 1000 0 phase_a_writes (world_init topo_new g_new : W) with
  | Ok w => writing 5 w
  | Err e => e = StoreFailed /\ exists k, (k < 6)%nat /\ accepts k = false
  end.
Proof.
  apply (writes_pres writing).
  - intros k w. apply writing_turn.
  - intros k m w. apply writing_write.
  - split_and!; [|done|cbn; lia|done]. exists 0%nat. split_and!; try done. apply topo_new_eq.
Qed.

Lemma good_written X w : good X w -> good X (written (AddNode gain_node) w).
Proof. intros [(Hlo & Ht & Hpc & Hs) Hl]. split; [|done]. split_and!; try done. cbn [written w_topo]. rewrite Ht. apply rewrite_gain. Qed.

Lemma good_store w : good gain_a w -> good_b (store_gain sc w).
Proof.
  intros [(Hlo & Ht & Hpc & Hs) (gm & -> & Hl)]. split; [|cbn; intros gm'; destruct (w_pc w); [done| |done]; destruct (sc_loaded sc); [intros [= <-]; by left|done]].
  split; [split_and!; try done|exists 1000; split; [by left|done]]. intros g Hg. destruct (Hs g Hg) as (gm & -> & Hb). exists 1000. split; [by left|done].
Qed.

Lemma check_outcomes :
  match check with
  | Ok (a, b) => a = sine_peak /\ b = sine_peak - 2 ^ 23
  | Err StoreFailed => exists k, (k < 6)%nat /\ accepts k = false
  | Err NeverLanded => True
  | Err TakePanicked => False
  | Err (PhaseA q) | Err (PhaseB q) => q = zero
  | Err (NeverSwapped q) => q = sine_peak
  end.
Proof.
  unfold run_engine_live_rebuild_test. destruct thresholds as (_ & _ & _ & T4 & T5). pose proof phase_a_writing as Hw.
  destruct (writes _ _ _ _ _ _) as [w|e]; cbn [rbind]; [|by destruct Hw as [-> ?]]. destruct Hw as ((lo & Hi) & _).
  pose proof (wait_landed_cases (sc_poll sc) (sc_polls sc) lo w Hi) as Hl.
  destruct (wait_landed _ _ _ _) as [w1|e]; cbn [rbind]; [|by subst]. destruct Hl as [Hi1 Hs1].
  destruct (turns_inv gain_a 1000 (sc_take sc) 5 5 w1 eq_refl Hi1) as (lo2 & Hlo2 & Hi2 & _ & Hs2).
  assert (lo2 = 5%nat) as -> by (destruct Hi2 as (? & _); lia).
  destruct (take_good _ Hi2 (Hs2 Hs1)) as (w2 & -> & Hg2). cbn [rbind].
  destruct (cycles_good 0 4 w2 Hg2) as [Hg3 Hr]. set (w3 := cycles sc 1000 0 4 w2) in * |- * . clearbody w3.
  destruct (Hr ltac:(done)) as [->| ->]; [reflexivity|]. rewrite peak_1000, T4. cbn [negb].
  pose proof (turns_b_good (sc_rewrite sc) _ (good_store _ (turns_good gain_a 1000 (sc_store sc) w3 eq_refl Hg3))) as [Hg4 Hh4].
  destruct (turns_b (sc_rewrite sc) _) as [held w4]. cbn [fst snd] in Hg4, Hh4. unfold write.
  destruct (accepts 5) eqn:Ea; cbn [rbind]; [|exists 5%nat; split; [lia|done]].
  pose proof (wait_swapped_cases (sc_round sc).1 (sc_round sc).2 (sc_rounds sc) (held, written (AddNode gain_node) w4)
    (conj (good_written _ _ Hg4) Hh4)) as Hc. fold (written (AddNode gain_node) w4).
  destruct (wait_swapped _ _ _ _ _) as [pb|e]; cbn [rbind]; [|by subst]. destruct Hc as [->| ->]; [reflexivity|]. by rewrite T5.
Qed.

Lemma check_timely : (forall k, (k < 6)%nat -> accepts k = true) -> (17 <= sc_poll sc)%nat ->
  check = verdict sine_peak 3 (sc_round sc).1 (sc_round sc).2 (sc_rounds sc).
Proof.
  intros Ha Hn. unfold run_engine_live_rebuild_test. destruct thresholds as (_ & _ & _ & T4 & _). pose proof phase_a_writing as Hw.
  destruct (writes _ _ _ _ _ _) as [w|e]; cbn [rbind]; [|destruct Hw as (_ & k & Hk & Hf); by rewrite Ha in Hf].
  destruct (landed_in_time (sc_poll sc) (sc_polls sc) (sc_take sc) w Hw Hn) as (w1 & -> & w2 & E2 & Hc). cbn [rbind]. rewrite E2. cbn [rbind].
  destruct (calm_cycles 1000 0 4 w2 Hc) as [Hc3 Hr]. set (w3 := cycles sc 1000 0 4 w2) in * |- * . clearbody w3.
  rewrite (Hr ltac:(done)), peak_1000, T4. cbn [negb]. rewrite turns_idle by apply Hc3.
  destruct Hc3 as (Hb & Ht & Hs & Hpl & Hf). assert (Hpc : w_pc w3 = RIdle) by (unfold backlog in Hb; destruct (w_pc w3); [lia|lia|done]).
  unfold store_gain. rewrite Hpc, idle_b by done. unfold write. rewrite (Ha 5%nat) by lia. cbn [rbind]. apply wait_swapped_verdict; [lia|].
  unfold waiting, backlog in Hb |- * . cbn [w_unread w_pc w_topo w_slot w_graph]. rewrite Hpc in Hb |- * . rewrite Ht, rewrite_gain.
  split_and!; try done; lia.
Qed.

(** C40: The engine's live-rebuild check, on every schedule of the rebuild thread.  When
    the generated sine's peak [p] lies between 0.45 and 0.55: the check succeeds only
    with the peaks [p] and exactly [p/2]; it fails only because a write was
    refused, a wait ran out (reporting [p] itself), or a reading was silent, never
    with another peak and never on an empty slot.  If the writes are accepted and the first
    poll leaves the rebuild thread the 17 turns it may need, the outcome is that of
    [verdict]: success when the thread's three turns for the new graph are complete
    before the first cycle of a round, but a failure with peak 0 when they are
    complete only before its second cycle, because the cycle that swaps a graph in
    does not run it. *)
Theorem engine_check_outcomes :
  match check with
  | Ok (a, b) => a = sine_peak /\ b = sine_peak - 2 ^ 23
  | Err StoreFailed => exists k, (k < 6)%nat /\ accepts k = false
  | Err NeverLanded => True
  | Err TakePanicked => False
  | Err (PhaseA q) | Err (PhaseB q) => q = zero
  | Err (NeverSwapped q) => q = sine_peak
  end /\
  ((forall k, (k < 6)%nat -> accepts k = true) -> (17 <= sc_poll sc)%nat ->
   check = verdict sine_peak 3 (sc_round sc).1 (sc_round sc).2 (sc_rounds sc)).
Proof. split; [exact check_outcomes|exact check_timely]. Qed.
End facts.

(** ** A library that runs chains, and two schedules *)

Record engine_graph : Type := { eg_nodes : list (BuiltNode EngineNode); eg_links : list SnapshotEdge; eg_input : option AudioFrame }.
Definition engine_blank : AudioFrame := {| fr_channels := 1; fr_rate := SR; fr_samples := replicate NF zero |}.
Definition eg_cycle (g : engine_graph) : engine_graph :=
  match eg_nodes g with
  | [Plain a; Plain b; _] =>
      {| eg_nodes := eg_nodes g; eg_links := eg_links g;
         eg_input := head (engine_node_process b (engine_node_process a [] [engine_blank]) [engine_blank]) |}
  | _ => g
  end.

#[export] Instance engine_graph_ops : GraphOps engine_graph EngineNode unit := {
  g_new := {| eg_nodes := []; eg_links := []; eg_input := None |};
  g_add_node g n := ({| eg_nodes := eg_nodes g ++ [Plain n]; eg_links := eg_links g; eg_input := eg_input g |}, Z.of_nat (length (eg_nodes g)));
  g_add_sink g n := ({| eg_nodes := eg_nodes g ++ [Sink n]; eg_links := eg_links g; eg_input := eg_input g |}, Z.of_nat (length (eg_nodes g)));
  g_link g a b := Ok {| eg_nodes := eg_nodes g; eg_links := eg_links g ++ [edge a b]; eg_input := eg_input g |};
  g_compile g := Ok {| eg_nodes := eg_nodes g; eg_links := eg_links g; eg_input := None |};
  g_process_cycle g := (eg_cycle g, Ok tt);
  g_flush_sinks g := (g, Ok 0);
  g_nodes := eg_nodes;
  g_links := eg_links
}.
#[export] Instance engine_graph_laws : GraphLaws engine_graph EngineNode unit.
Proof. split; cbn; intros; simplify_eq; done. Qed.
#[export] Instance engine_graph_read : GraphRead engine_graph := { g_read_input g _ _ := eg_input g }.
#[export] Instance engine_graph_flows : ChainFlows engine_graph EngineNode unit engine_node_process engine_ports NF.
Proof.
  refine {| g_fresh g := eg_input g = None; g_ran _ := True |}; cbn; try done.
  - by intros g g' [= <-].
  - by intros g id port f ->.
  - intros g _. unfold eg_cycle. destruct (eg_nodes g) as [|[a|a] [|[b|b] [|c [|]]]] eqn:E; cbn; rewrite ?E; done.
  - intros g a b c _ Hn _. exists engine_blank, engine_blank. unfold eg_cycle. rewrite Hn. split_and!; try reflexivity; apply length_replicate.
  - intros. by eexists.
  - intros. by eexists.
Defined.

(** A schedule whose rounds are [rounds], everything in phase A done in time. *)
Definition timely (round : nat * nat) (rounds : list (nat * nat)) : Schedule :=
  {| sc_writes _ := 0%nat; sc_poll := 17; sc_polls := []; sc_take := 0; sc_cycles _ := 0%nat; sc_store := 0;
     sc_loaded := false; sc_rewrite := 0; sc_round := round; sc_rounds := rounds |}.

(** On a platform whose sine is 1 the peaks are 1/2 and 1/4; two turns before the first
    cycle and one between the two make the check fail. *)
Lemma engine_check_outcomes_witness :
  run_engine_live_rebuild_test (M := unit_math) (G := engine_graph) (E := unit) (fun _ => true) (timely (1, 0)%nat [(2, 0)%nat]) = Ok (half, 0x3E800000) /\
  run_engine_live_rebuild_test (M := unit_math) (G := engine_graph) (E := unit) (fun _ => true) (timely (2, 1)%nat []) = Err (PhaseB zero).
Proof.
  assert (Hp : sine_peak (M := unit_math) = half) by (vm_compute; reflexivity).
  assert (Hr : f_0_45 <= sine_peak (M := unit_math) <= f_0_55) by (rewrite Hp; split; apply Z.leb_le; vm_compute; reflexivity).
  pose proof (engine_check_outcomes (M := unit_math) (G := engine_graph) (E := unit) (fun _ => true) (timely (1, 0)%nat [(2, 0)%nat]) Hr) as [_ H1].
  pose proof (engine_check_outcomes (M := unit_math) (G := engine_graph) (E := unit) (fun _ => true) (timely (2, 1)%nat []) Hr) as [_ H2].
  rewrite H1, H2 by (done || (cbn; lia)). rewrite Hp. split; reflexivity.
Defined.
