(* ===== verification/GatewayCheck.v ===== *)
(** * The gateway bridge's live-reload check

    [run_gateway_live_reload_test] of [crates/sonicbrew/src/main.rs]: a bridge source,
    a gain and a bridge sink, built and rebuilt by the rebuild thread while the main
    thread pushes a frame into the bridge, runs a cycle and pops the result.  A rebuild
    replaces the bridge's rings node by node, well before its graph is swapped in, so here a
    turn of the rebuild thread is one call of the factory. *)

From stdpp Require Import gmap.
From S2P Require Import BrowserGw.
From S2P Require Import Prelude F32 External Topology AudioEngine AudioNodes PlanarNodes EffectNodes RoutingNodes SourceNodes.
From S2P Require Import Diagnose SelfTest Reload EngineCheck.
Local Open Scope Z_scope.
Import F32.

Local Infix "*." := mul (at level 40, left associativity).
Local Infix "/." := div (at level 40, left associativity).

(** ** The factory *)

Inductive GwNode : Type := GwSource (n : RingNode) | GwGain (d : Gain) | GwSink (n : RingNode).

Definition map_built {A B} (f : A -> B) (n : BuiltNode A) : BuiltNode B :=
  match n with Plain n => Plain (f n) | Sink n => Sink (f n) end.

Definition f_0_40 : f32 := 0x3ECCCCCD.

Section ops.
Context {M : MathOps} {R : Type} `{RingAlloc R AudioFrame}.

Definition ServerFactory_build (gain_milli : Z) (bridge : GatewayBridge) (rings : list R) (id : Z)
    : GatewayBridge * list R * option (BuiltNode GwNode) :=
  if id =? 0 then let '(bridge, rings, n) := make_source_node bridge rings in (bridge, rings, Some (map_built GwSource n))
  else if id =? 1 then (bridge, rings, Some (Plain (GwGain (Gain_new (milli gain_milli)))))
  else if id =? 2 then let '(bridge, rings, n) := make_sink_node bridge rings in (bridge, rings, Some (map_built GwSink n))
  else (bridge, rings, None).

Definition gw_sine : AudioFrame :=
  {| fr_channels := 1; fr_rate := SR;
     fr_samples := (fun i => m_sin (two *. PI *. f_440 *. of_Z (Z.of_nat i) /. of_Z SR) *. half) <$> seq 0 NF |}.

(** ** The check *)

Inductive GatewayCheckError : Type :=
| GwStoreFailed               (* a write was refused *)
| GwNeverLanded               (* initial rebuild never landed *)
| GwTakePanicked              (* unwrap of an empty slot *)
| GwPushPanicked              (* expect of a refused push *)
| GwPhaseA (peak : f32)       (* phase A peak not ~0.5 *)
| GwNeverRebuilt              (* phase B rebuild never landed *)
| GwPhaseB (peak : f32).      (* phase B peak not ~0.25 *)

(** The main thread's actions, before each of which the rebuild thread runs. *)
Inductive point : Type :=
| AtWrite (k : nat) | AtTake | AtPushA | AtStepA | AtPopA | AtStore | AtRewrite | AtSwap | AtPushB | AtStepB | AtPopB.

(** Turns before each action and before each poll of the two waits. *)
Record GwSchedule : Type := {
  gs_turns : point -> nat; gs_poll : nat; gs_polls : list nat; gs_poll_b : nat; gs_polls_b : list nat
}.

(** The rebuild thread: about to read the topology, calling the factory for the rest of
    the nodes, or polling for events. *)
Inductive gw_pc : Type :=
| GWant
| GBuild (topo : TopologySnapshot) (rest : list NodeSnapshot) (made : gmap Z (BuiltNode GwNode))
| GIdle.

(** [process_cycle] and [flush_sinks] of a graph whose nodes hold ends of the rings. *)
Class RingRun (G R : Type) : Type := { g_run : G -> list R -> G * list R }.

Context {G E : Type} `{GraphOps G GwNode E} `{!RingRun G R} `{TopoOps}.
Context (accepts : nat -> bool) (sc : GwSchedule).

Record GwWorld : Type := {
  gx_topo : TopologySnapshot; gx_unread : nat; gx_pc : gw_pc;
  gx_bridge : GatewayBridge; gx_rings : list R; gx_slot : option G; gx_graph : G
}.
Implicit Types w : GwWorld.

Definition with_thread w (unread : nat) (pc : gw_pc) : GwWorld :=
  {| gx_topo := gx_topo w; gx_unread := unread; gx_pc := pc; gx_bridge := gx_bridge w; gx_rings := gx_rings w;
     gx_slot := gx_slot w; gx_graph := gx_graph w |}.
Definition with_bridge w (bridge : GatewayBridge) (rings : list R) : GwWorld :=
  {| gx_topo := gx_topo w; gx_unread := gx_unread w; gx_pc := gx_pc w; gx_bridge := bridge; gx_rings := rings;
     gx_slot := gx_slot w; gx_graph := gx_graph w |}.
Definition with_graph w (slot : option G) (graph : G) : GwWorld :=
  {| gx_topo := gx_topo w; gx_unread := gx_unread w; gx_pc := gx_pc w; gx_bridge := gx_bridge w; gx_rings := gx_rings w;
     gx_slot := slot; gx_graph := graph |}.

(** One turn of the rebuild thread while the shared gain is [gain_milli]: an unknown id
    ends the build, a finished one is linked, compiled and left in the slot. *)
Definition gw_turn (gain_milli : Z) w : GwWorld :=
  match gx_pc w with
  | GWant => with_thread w (gx_unread w) (GBuild (gx_topo w) (nodes (gx_topo w)) ∅)
  | GBuild topo (n :: rest) made =>
      let '(bridge, rings, built) := ServerFactory_build gain_milli (gx_bridge w) (gx_rings w) (ns_id n) in
      with_thread (with_bridge w bridge rings) (gx_unread w)
        match built with Some b => GBuild topo rest (<[ns_id n := b]> made) | None => GIdle end
  | GBuild topo [] made =>
      with_thread (with_graph w (rebuild_once (E := E) (fun id => made !! id) topo (gx_slot w)) (gx_graph w)) (gx_unread w) GIdle
  | GIdle =>
      if (gx_unread w =? 0)%nat then w
      else with_thread w (if (CHANNEL_CAPACITY <? gx_unread w)%nat then CHANNEL_CAPACITY else Nat.pred (gx_unread w)) GWant
  end.
Definition gw_turns (gain_milli : Z) (n : nat) w : GwWorld := Nat.iter n (gw_turn gain_milli) w.
Definition before (p : point) (gain_milli : Z) w : GwWorld := gw_turns gain_milli (gs_turns sc p) w.

Definition gw_written (m : Mutation) w : GwWorld :=
  {| gx_topo := topo_apply (gx_topo w) m; gx_unread := S (gx_unread w); gx_pc := gx_pc w; gx_bridge := gx_bridge w;
     gx_rings := gx_rings w; gx_slot := gx_slot w; gx_graph := gx_graph w |}.
Definition gw_write (k : nat) (m : Mutation) w : result GwWorld GatewayCheckError :=
  if accepts k then Ok (gw_written m w) else Err GwStoreFailed.

Fixpoint gw_writes (k : nat) (ms : list Mutation) w : result GwWorld GatewayCheckError :=
  match ms with
  | [] => Ok w
  | m :: ms => let? w := gw_write k m (before (AtWrite k) 1000 w) in gw_writes (S k) ms w
  end.

(** Both waits: poll [busy] on the slot until it is over or the deadline has passed. *)
Fixpoint gw_wait (busy : option G -> bool) (late : GatewayCheckError) (gain_milli : Z) (n : nat) (polls : list nat) w
    : result GwWorld GatewayCheckError :=
  let w := gw_turns gain_milli n w in
  if busy (gx_slot w) then
    match polls with
    | [] => Err late
    | n :: polls => gw_wait busy late gain_milli n polls w
    end
  else Ok w.

Definition gw_take w : result GwWorld GatewayCheckError :=
  match gx_slot w with Some g => Ok (with_graph w None g) | None => Err GwTakePanicked end.

(** [bridge.push_inbound(sine()).expect(..)]. *)
Definition gw_push w : result GwWorld GatewayCheckError :=
  match push_inbound (gx_bridge w) (gx_rings w) gw_sine with
  | (rings, Ok _) => Ok (with_bridge w (gx_bridge w) rings)
  | (_, Err _) => Err GwPushPanicked
  end.

Definition gw_step w : GwWorld :=
  let '(graph, rings) := g_run (gx_graph w) (gx_rings w) in
  let w := with_bridge w (gx_bridge w) rings in
  match gx_slot w with
  | Some new_graph => with_graph w None new_graph
  | None => with_graph w None graph
  end.

(** The peak of what the bridge delivers, 0 when that is nothing. *)
Definition gw_pop w : GwWorld * f32 :=
  let '(rings, r) := pop_outbound (gx_bridge w) (gx_rings w) in
  (with_bridge w (gx_bridge w) rings, match r with Some f => fold_peak (fr_samples f) | None => zero end).

Definition gw_init : GwWorld :=
  {| gx_topo := topo_new; gx_unread := 0; gx_pc := GWant; gx_bridge := GatewayBridge_new 1 SR NF; gx_rings := [];
     gx_slot := None; gx_graph := g_new |}.

Definition is_none {A} (o : option A) : bool := match o with None => true | Some _ => false end.

Definition run_gateway_live_reload_test : result (f32 * f32) GatewayCheckError :=
  let? w := gw_writes 0 phase_a_writes gw_init in
  let? w := gw_wait pending GwNeverLanded 1000 (gs_poll sc) (gs_polls sc) w in
  let? w := gw_take (before AtTake 1000 w) in
  let? w := gw_push (before AtPushA 1000 w) in
  let w := gw_step (before AtStepA 1000 w) in
  let '(w, peak_a) := gw_pop (before AtPopA 1000 w) in
  if negb (in_range f_0_40 f_0_6 peak_a) then Err (GwPhaseA peak_a) else
  let? w := gw_write 5 (AddNode gain_node) (before AtRewrite 500 (before AtStore 1000 w)) in
  let? w := gw_wait is_none GwNeverRebuilt 500 (gs_poll_b sc) (gs_polls_b sc) w in
  let w := gw_step (before AtSwap 500 w) in
  let? w := gw_push (before AtPushB 500 w) in
  let w := gw_step (before AtStepB 500 w) in
  let '(w, peak_b) := gw_pop (before AtPopB 500 w) in
  if negb (in_range f_0_20 f_0_30 peak_b) then Err (GwPhaseB peak_b) else Ok (peak_a, peak_b).
End ops.
Arguments GwWorld R G : clear implicits.

(** ** What the library does with the chain *)

(** Input and output ports. *)
Definition gw_ports (n : GwNode) : nat * nat :=
  match n with GwSource _ => (0, 1)%nat | GwGain _ => (1, 1)%nat | GwSink _ => (1, 0)%nat end.

Definition gw_chain (n : RingNode) (d : Gain) (m : RingNode) : list (BuiltNode GwNode) :=
  [Plain (GwSource n); Plain (GwGain d); Sink (GwSink m)].
Definition node_of (b : BuiltNode GwNode) : GwNode := match b with Plain n | Sink n => n end.

Class BridgeFlows (G R E : Type) `{GraphLaws G GwNode E} `{RingAlloc R AudioFrame} `{!RingRun G R} : Type := {
  b_ready : G -> Prop;  (* compiled *)
  b_compile_ready : forall g g', g_compile g = Ok g' -> b_ready g';
  b_run_keeps : forall g rings, b_ready g ->
    b_ready (g_run g rings).1 /\ g_nodes (g_run g rings).1 = g_nodes g /\ g_links (g_run g rings).1 = g_links g;
  (* a source takes a frame of its ring or is silent, a sink's input is flushed into its ring *)
  b_run_chain : forall g n d m rings, b_ready g -> g_nodes g = gw_chain n d m -> g_links g = test_links ->
    exists inp ob out, length (fr_samples inp) = NF /\ length (fr_samples ob) = NF /\
      match (pop_at rings (rn_ring n)).2 with
      | Some f => length (fr_samples f) = NF -> fr_samples inp = fr_samples f
      | None => Forall (eq zero) (fr_samples inp)
      end /\
      gain_process d [inp] [ob] = [out] /\
      (g_run g rings).2 = (push_at (pop_at rings (rn_ring n)).1 (rn_ring m) out).1;
  b_link_forward : forall g i j a b p q, g_nodes g !! i = Some a -> g_nodes g !! j = Some b -> (i < j)%nat ->
    0 <= p < Z.of_nat (gw_ports (node_of a)).2 -> 0 <= q < Z.of_nat (gw_ports (node_of b)).1 ->
    exists g', g_link g (Z.of_nat i, p) (Z.of_nat j, q) = Ok g';
  b_compile_forward : forall g, Forall (fun e => (e_from e).1 < (e_to e).1) (g_links g) -> exists g', g_compile g = Ok g'
}.

Section facts.
Context {M : MathOps} {G R E : Type} `{BridgeFlows G R E} `{!RingAllocLaws R AudioFrame} `{!RingLaws R AudioFrame} `{TopoLaws}.
Implicit Types (w : GwWorld R G) (g : G) (gm : Z) (X : Z -> Prop) (ks : list bool).

#[local] Opaque fold_peak.

(** *** Rings and nodes

    [ks] says which rings are inbound.  Those hold at most [c] frames, all the sine;
    the others at most [d], each silent or the sine at a gain in [X]. *)

Definition loud X (f : AudioFrame) : Prop :=
  fold_peak (fr_samples f) = zero \/ exists gm, X gm /\ fold_peak (fr_samples f) = peak gm.
Definition ring_ok X (c d : nat) (k : bool) (r : R) : Prop :=
  ring_capacity r = DEFAULT_CAPACITY /\
  if k then (length (ring_items r) <= c)%nat /\ Forall (eq gw_sine) (ring_items r)
  else (length (ring_items r) <= d)%nat /\ Forall (loud X) (ring_items r).

Definition node_ok X ks (id : Z) (b : BuiltNode GwNode) : Prop :=
  match b with
  | Plain (GwSource n) => id = 0 /\ ks !! rn_ring n = Some true
  | Plain (GwGain d) => id = 1 /\ exists gm, X gm /\ d = Gain_new (milli gm)
  | Sink (GwSink n) => id = 2 /\ ks !! rn_ring n = Some false
  | _ => False
  end.

(** The bridge holds the other end of the node's ring. *)
Definition aligned (bridge : GatewayBridge) (b : BuiltNode GwNode) : Prop :=
  match b with
  | Plain (GwSource n) => gb_inbound bridge = Some (rn_ring n)
  | Sink (GwSink n) => gb_outbound bridge = Some (rn_ring n)
  | _ => True
  end.

Definition slot_ok X ks (lo : nat) g : Prop :=
  exists f, (forall id b, f id = Some b -> node_ok X ks id b) /\ build_graph (E := E) f (prefix lo) = Ok g.
Definition playing X ks g : Prop :=
  b_ready g /\ g_links g = test_links /\ exists n gm m, X gm /\ ks !! rn_ring n = Some true /\ ks !! rn_ring m = Some false /\
    g_nodes g = gw_chain n (Gain_new (milli gm)) m.

Lemma node_ok_mono (X Y : Z -> Prop) ks ks' id b : (forall gm, X gm -> Y gm) -> ks `prefix_of` ks' -> node_ok X ks id b -> node_ok Y ks' id b.
Proof.
  intros HXY Hk. destruct b as [[n|d|n]|[n|d|n]]; cbn; try done.
  - intros [? Hn]. split; [done|by eapply prefix_lookup_Some].
  - intros (? & gm & ? & ?). split; [done|]. exists gm. auto.
  - intros [? Hn]. split; [done|by eapply prefix_lookup_Some].
Qed.

Lemma slot_ok_mono (X Y : Z -> Prop) ks ks' lo g : (forall gm, X gm -> Y gm) -> ks `prefix_of` ks' -> slot_ok X ks lo g -> slot_ok Y ks' lo g.
Proof. intros HXY Hk (f & Hf & Hb). exists f. split; [|done]. intros id b Hid. eapply node_ok_mono; eauto. Qed.

Lemma playing_mono (X Y : Z -> Prop) ks ks' g : (forall gm, X gm -> Y gm) -> ks `prefix_of` ks' -> playing X ks g -> playing Y ks' g.
Proof.
  intros HXY Hk (Hr & Hl & n & gm & m & Hgm & Hn & Hm & Hg). split; [done|]. split; [done|]. exists n, gm, m.
  split_and!; [auto|by eapply prefix_lookup_Some|by eapply prefix_lookup_Some|done].
Qed.

Lemma ring_ok_mono (X Y : Z -> Prop) c c' d d' k r :
  (forall gm, X gm -> Y gm) -> (c <= c')%nat -> (d <= d')%nat -> ring_ok X c d k r -> ring_ok Y c' d' k r.
Proof.
  intros HXY Hc' Hd [Hc Hk]. split; [done|]. destruct k, Hk as [Hl Ha]; (split; [lia|]); [done|].
  eapply Forall_impl; [exact Ha|]. intros f [Hf|(gm & ? & ?)]; [by left|right; exists gm; auto].
Qed.

Definition fits X (k : bool) (f : AudioFrame) : Prop := if k then f = gw_sine else loud X f.

Lemma pop_at_ok X c d ks (rings : list R) i k : Forall2 (ring_ok X c d) ks rings -> ks !! i = Some k ->
  Forall2 (ring_ok X c d) ks (pop_at rings i).1 /\ forall f, (pop_at rings i).2 = Some f -> fits X k f.
Proof.
  intros Hall Hi. destruct (Forall2_lookup_l _ _ _ _ _ Hall Hi) as (r & Hr & Hc & Hk). unfold pop_at. rewrite Hr.
  destruct (ring_pop_cases r) as [(a & r' & -> & Hit & Hcap)|[-> _]]; [|done]. rewrite Hit in Hk. cbn [fst snd]. split.
  - rewrite <- (list_insert_id ks i k Hi). apply Forall2_insert; [done|]. split; [congruence|].
    destruct k; destruct Hk as [Hl Ha]; cbn [length] in Hl; apply Forall_cons in Ha as [_ Ha]; (split; [lia|done]).
  - intros f [= <-]. destruct k; destruct Hk as [_ Ha]; by apply Forall_cons in Ha as [? _].
Qed.

Lemma push_at_ok X c d ks (rings : list R) i k f : Forall2 (ring_ok X c d) ks rings -> ks !! i = Some k -> fits X k f ->
  Forall2 (ring_ok X (if k then S c else c) (if k then d else S d)) ks (push_at rings i f).1 /\
  (k = true -> (c < DEFAULT_CAPACITY)%nat -> (push_at rings i f).2 = Ok tt).
Proof.
  intros Hall Hi Hf. destruct (Forall2_lookup_l _ _ _ _ _ Hall Hi) as (r & Hr & Hc & Hk).
  assert (Hall' : Forall2 (ring_ok X (if k then S c else c) (if k then d else S d)) ks rings)
    by (eapply Forall2_impl; [exact Hall|]; intros b r' Hr'; eapply ring_ok_mono; [done| | |exact Hr']; destruct k; lia).
  unfold push_at. rewrite Hr. destruct (ring_push_cases r f) as [(r' & -> & Hit & Hcap & _)|[-> Hfull]]; cbn [fst snd].
  - split; [|done]. rewrite <- (list_insert_id ks i k Hi). apply Forall2_insert; [done|]. split; [congruence|]. rewrite Hit, length_app.
    destruct k; destruct Hk as [Hl Ha]; cbn [length]; (split; [lia|]); apply Forall_app; (split; [done|]); apply Forall_singleton; done.
  - split; [done|]. intros -> Hlt. destruct Hk as [Hl _]. lia.
Qed.

(** *** Built graphs *)

Lemma build_ready f s g : build_graph (E := E) f s = Ok g -> b_ready g.
Proof.
  unfold build_graph. destruct (build_nodes _ _ _ _) as [[g1 m]|e]; cbn [rbind]; [|done].
  destruct (link_edges _ _ _) as [g2|e]; cbn [rbind]; [|done]. destruct (g_compile g2) as [g3|e] eqn:Ec; cbn [map_err]; [|done].
  intros [= <-]. by eapply b_compile_ready.
Qed.

Lemma slot_counts X ks lo g : (lo <= 5)%nat -> slot_ok X ks lo g -> length (g_nodes g) = Nat.min lo 3 /\ length (g_links g) = (lo - 3)%nat.
Proof.
  intros Hlo (f & _ & Hb). pose proof (build_graph_cases (E := E) f (prefix lo) (prefix_nodup lo)) as Hc.
  rewrite Hb in Hc. destruct Hc as [Hn Hl]. apply Forall2_length in Hn. apply Forall2_length in Hl. unfold prefix in Hn, Hl. cbn [nodes edges] in Hn, Hl.
  rewrite length_take in Hn. rewrite length_take in Hl. cbn [length chain_nodes test_links] in Hn, Hl. lia.
Qed.

Lemma endpoint_chain (k p : Z) q : endpoint_of (prefix 5) (k, p) q -> 0 <= k <= 2 -> q = (k, p).
Proof.
  intros (i & n & Hn & Hid & ->) Hk. cbn [prefix nodes chain_nodes take] in Hn. cbn [fst snd] in Hid |- * . f_equal. rewrite <- Hid.
  destruct i as [|[|[|i]]]; cbn in Hn; simplify_eq; done.
Qed.

(** The graph of all the writes runs the chain. *)
Lemma slot_plays X ks g : slot_ok X ks 5 g -> playing X ks g.
Proof.
  intros (f & Hf & Hb). split; [by eapply build_ready|]. pose proof (build_graph_cases (E := E) f (prefix 5) (prefix_nodup 5)) as Hc.
  rewrite Hb in Hc. destruct Hc as [Hn Hl]. cbn [prefix nodes edges chain_nodes test_links take Nat.sub] in Hn, Hl.
  revert Hn Hl. generalize (g_nodes g) (g_links g). intros ns ls Hn Hl.
  inversion Hn as [|? b0 ? bs0 H0' Hn1]; subst. inversion Hn1 as [|? b1 ? bs1 H1' Hn2]; subst. inversion Hn2 as [|? b2 ? bs2 H2' Hn3]; subst.
  inversion Hn3; subst. split.
  - inversion Hl as [|? e0 ? ? [F0 T0] Hl1]; subst. inversion Hl1 as [|? e1 ? ? [F1 T1] Hl2]; subst. inversion Hl2; subst.
    apply endpoint_chain in F0, T0, F1, T1; try lia. destruct e0, e1. cbn in F0, T0, F1, T1. by subst.
  - unfold built_for in H0', H1', H2'. apply Hf in H0', H1', H2'. cbn [ns_id gain_node] in H0', H1', H2'.
    destruct b0 as [[n0|d0|n0]|[n0|d0|n0]]; cbn in H0'; try (destruct H0' as [? _]; done); try done.
    destruct b1 as [[n1|d1|n1]|[n1|d1|n1]]; cbn in H1'; try (destruct H1' as [? _]; done); try done.
    destruct b2 as [[n2|d2|n2]|[n2|d2|n2]]; cbn in H2'; try (destruct H2' as [? _]; done); try done.
    destruct H0' as [_ K0], H1' as (_ & gm & Hgm & ->), H2' as [_ K2]. exists n0, gm, n2. done.
Qed.

(** *** The invariant *)

(** [j] writes have been made; the slot's graph is of the first [lo] of them. *)
Record ginv X (lo j c d : nat) ks w : Prop := {
  gi_lo : (lo <= j)%nat;
  gi_topo : gx_topo w = prefix j;
  gi_cap : gb_capacity (gx_bridge w) = DEFAULT_CAPACITY;
  gi_rings : Forall2 (ring_ok X c d) ks (gx_rings w);
  gi_in : forall i, gb_inbound (gx_bridge w) = Some i -> ks !! i = Some true;
  gi_out : forall o, gb_outbound (gx_bridge w) = Some o -> ks !! o = Some false;
  gi_pc : forall t rest made, gx_pc w = GBuild t rest made -> exists k n, (lo <= k <= j)%nat /\ t = prefix k /\ rest = drop n (nodes t) /\
    (forall i, (i < n)%nat -> (i < length (nodes t))%nat -> is_Some (made !! Z.of_nat i)) /\
    (forall id b, made !! id = Some b -> id < Z.of_nat n /\ node_ok X ks id b /\ aligned (gx_bridge w) b);
  gi_slot : forall g, gx_slot w = Some g -> slot_ok X ks lo g /\ ((0 < lo)%nat -> gb_inbound (gx_bridge w) <> None)
}.

(** What a turn of the rebuild thread never undoes. *)
Definition gkeeps w w' : Prop :=
  gx_graph w' = gx_graph w /\ (gx_slot w <> None -> gx_slot w' <> None) /\
  (gb_inbound (gx_bridge w) <> None -> gb_inbound (gx_bridge w') <> None).

Lemma next_node k n nd rest : nd :: rest = drop n (nodes (prefix k)) ->
  rest = drop (S n) (nodes (prefix k)) /\ ns_id nd = Z.of_nat n /\ (n < 3)%nat.
Proof.
  intros Hd. assert (Hl : nodes (prefix k) !! n = Some nd) by (rewrite <- (Nat.add_0_r n), <- lookup_drop, <- Hd; done).
  split.
  - change rest with (drop 1 (nd :: rest)). rewrite Hd, drop_drop. by rewrite Nat.add_1_r.
  - cbn [prefix nodes] in Hl. apply lookup_take_Some in Hl as [Hl _]. destruct n as [|[|[|n]]]; cbn in Hl; simplify_eq; split; done || lia.
Qed.

(** A factory call adds a ring for its node and nothing else. *)
Lemma factory_ok X gm c d ks bridge (rings : list R) (n : nat) : X gm -> (n < 3)%nat -> gb_capacity bridge = DEFAULT_CAPACITY ->
  Forall2 (ring_ok X c d) ks rings ->
  (forall i, gb_inbound bridge = Some i -> ks !! i = Some true) -> (forall o, gb_outbound bridge = Some o -> ks !! o = Some false) ->
  exists bridge' rings' b ks', ServerFactory_build gm bridge rings (Z.of_nat n) = (bridge', rings', Some b) /\
    ks `prefix_of` ks' /\ gb_capacity bridge' = DEFAULT_CAPACITY /\ Forall2 (ring_ok X c d) ks' rings' /\
    (forall i, gb_inbound bridge' = Some i -> ks' !! i = Some true) /\ (forall o, gb_outbound bridge' = Some o -> ks' !! o = Some false) /\
    node_ok X ks' (Z.of_nat n) b /\ aligned bridge' b /\
    (forall id b', id < Z.of_nat n -> node_ok X ks id b' -> aligned bridge b' -> aligned bridge' b') /\
    (gb_inbound bridge <> None -> gb_inbound bridge' <> None).
Proof.
  intros Hgm Hn Hcap Hr Hin Hout. pose proof (Forall2_length _ _ _ Hr) as Hlen. destruct (ring_new_empty (gb_capacity bridge)) as [Hni Hnc].
  assert (Hgrow : forall k, Forall2 (ring_ok X c d) (ks ++ [k]) (rings ++ [ring_new (gb_capacity bridge)])).
  { intros k. apply Forall2_app; [done|]. constructor; [|constructor]. split; [congruence|]. rewrite Hni. destruct k; (split; [cbn; lia|constructor]). }
  assert (Hnew : forall k : bool, (ks ++ [k]) !! length rings = Some k) by (intros k; by rewrite list_lookup_middle).
  assert (Hold : forall k i x, ks !! i = Some x -> (ks ++ [k]) !! i = Some x) by (intros; by apply lookup_app_l_Some).
  destruct n as [|[|[|n]]]; [| | |lia]; cbn.
  - eexists _, _, _, (ks ++ [true]). split; [reflexivity|]. split_and!; [by apply prefix_app_r|done|apply Hgrow| | | |done| |done].
    + intros i [= <-]. apply Hnew.
    + intros o Ho. by apply Hold, Hout.
    + cbn. split; [done|]. apply Hnew.
    + intros id b' Hid Hb'. destruct b' as [[]|[]]; cbn in Hb' |- * ; try done; lia.
  - eexists _, _, _, ks. split; [reflexivity|]. split_and!; try done. split; [done|]. by exists gm.
  - eexists _, _, _, (ks ++ [false]). split; [reflexivity|]. split_and!; [by apply prefix_app_r|done|apply Hgrow| | | |done| |done].
    + intros i Hi. by apply Hold, Hin.
    + intros o [= <-]. apply Hnew.
    + cbn. split; [done|]. apply Hnew.
    + intros id b' Hid Hb'. destruct b' as [[]|[]]; cbn in Hb' |- * ; try done; lia.
Qed.

Abbreviation turn := (gw_turn (R := R) (G := G) (E := E)).
Abbreviation turns := (gw_turns (R := R) (G := G) (E := E)).

(** A finished build has a source in the bridge. *)
Lemma made_source X ks k n (made : gmap Z (BuiltNode GwNode)) bridge :
  [] = drop n (nodes (prefix k)) -> (forall i, (i < n)%nat -> (i < length (nodes (prefix k)))%nat -> is_Some (made !! Z.of_nat i)) ->
  (forall id b, made !! id = Some b -> id < Z.of_nat n /\ node_ok X ks id b /\ aligned bridge b) ->
  (0 < k)%nat -> gb_inbound bridge <> None.
Proof.
  intros Hd Hall Hmade Hk. assert (Hl : (1 <= length (nodes (prefix k)))%nat) by (cbn [prefix nodes]; rewrite length_take; cbn; lia).
  apply (f_equal length) in Hd. rewrite length_drop in Hd. cbn [length] in Hd.
  destruct (Hall 0%nat) as [b Hb]; [lia|lia|]. destruct (Hmade _ _ Hb) as (_ & Hok & Hal).
  destruct b as [[n0|d0|n0]|[n0|d0|n0]]; cbn in Hok, Hal; try done; try (destruct Hok as [? _]; done). by rewrite Hal.
Qed.

Lemma gw_turn_inv X gm lo j c d ks w : X gm -> ginv X lo j c d ks w ->
  exists lo' ks', (lo <= lo')%nat /\ ks `prefix_of` ks' /\ ginv X lo' j c d ks' (turn gm w) /\ gkeeps w (turn gm w).
Proof.
  intros Hgm [Hlo Ht Hcap Hr Hin Hout Hpc Hs]. unfold gw_turn. destruct (gx_pc w) as [|t [|nd rest] made|] eqn:Ep.
  - exists lo, ks. split; [lia|]. split; [done|]. split; [|done]. split; try done. cbn. intros t rest made [= <- <- <-].
    exists j, 0%nat. split_and!; [lia|lia|done|done|lia|]. intros id b. by rewrite lookup_empty.
  - destruct (Hpc _ _ _ eq_refl) as (k & n & Hk & -> & Hrest & Hall & Hmade). unfold rebuild_once.
    destruct (build_graph _ (prefix k)) as [g|e] eqn:Eb.
    + exists k, ks. split; [lia|]. split; [done|]. split; [|done]. split; try done; [cbn; lia|]. cbn. intros g' [= <-]. split.
      * exists (fun id => made !! id). split; [|done]. intros id b Hb. by apply Hmade.
      * by apply (made_source X ks k n made).
    + exists lo, ks. split; [lia|]. split; [done|]. by split.
  - destruct (Hpc _ _ _ eq_refl) as (k & n & Hk & -> & Hrest & Hall & Hmade).
    destruct (next_node k n nd rest Hrest) as (Hrest' & Hid & Hn).
    destruct (factory_ok X gm c d ks (gx_bridge w) (gx_rings w) n Hgm Hn Hcap Hr Hin Hout) as (b' & rs' & b & ks' & Ef & Hks & ? & ? & ? & ? & Hok & Hal & Hpres & Hinb).
    rewrite Hid, Ef. exists lo, ks'. split; [lia|]. split; [done|]. split; [|by split]. split; try done; cbn.
    + intros t rest0 made0 [= <- <- <-]. exists k, (S n). split_and!; [lia|lia|done|done| |].
      * intros i Hi Hlen. destruct (decide (i = n)) as [->|]; [rewrite lookup_insert_eq; by eexists|].
        rewrite lookup_insert_ne by lia. apply Hall; [lia|done].
      * intros id b0. destruct (decide (id = Z.of_nat n)) as [->|]; [rewrite lookup_insert_eq; intros [= <-]; split_and!; [lia|done|done]|].
        rewrite lookup_insert_ne by done. intros Hb0. destruct (Hmade _ _ Hb0) as (? & Hok0 & Hal0).
        split_and!; [lia|by eapply node_ok_mono|by eapply Hpres].
    + intros g Hg. destruct (Hs g Hg) as [? Hnn]. split; [by eapply slot_ok_mono|]. intros Hl. by apply Hinb, Hnn.
  - exists lo, ks. split; [lia|]. split; [done|]. destruct (gx_unread w =? 0)%nat; (split; [|done]); split; try done. by rewrite Ep.
Qed.

Lemma gw_turns_S gm n w : turns gm (S n) w = turn gm (turns gm n w).
Proof. done. Qed.

Lemma gw_turns_0 gm w : turns gm 0 w = w.
Proof. done. Qed.

Lemma gkeeps_trans w1 w2 w3 : gkeeps w1 w2 -> gkeeps w2 w3 -> gkeeps w1 w3.
Proof. intros (? & ? & ?) (? & ? & ?). split_and!; [congruence|auto|auto]. Qed.

Lemma gw_turns_inv X gm n lo j c d ks w : X gm -> ginv X lo j c d ks w ->
  exists lo' ks', (lo <= lo')%nat /\ ks `prefix_of` ks' /\ ginv X lo' j c d ks' (turns gm n w) /\ gkeeps w (turns gm n w).
Proof.
  intros Hgm Hi. induction n as [|n IH]; [exists lo, ks; split_and!; done|]. destruct IH as (lo1 & ks1 & Hl1 & Hk1 & Hi1 & Hg1).
  rewrite gw_turns_S. destruct (gw_turn_inv X gm lo1 j c d ks1 _ Hgm Hi1) as (lo2 & ks2 & Hl2 & Hk2 & Hi2 & Hg2).
  exists lo2, ks2. split_and!; [lia|by etransitivity|done|by eapply gkeeps_trans].
Qed.

(** *** The engine's graph *)

Lemma gw_sine_engine : fr_samples gw_sine = fr_samples (sine engine_sine).
Proof. done. Qed.

(** One cycle of the chain: the sine at the gain, or silence. *)
Lemma run_chain g n gm m (rings : list R) : gain_ab gm -> b_ready g -> g_nodes g = gw_chain n (Gain_new (milli gm)) m -> g_links g = test_links ->
  (forall f, (pop_at rings (rn_ring n)).2 = Some f -> f = gw_sine) ->
  exists out, (g_run g rings).2 = (push_at (pop_at rings (rn_ring n)).1 (rn_ring m) out).1 /\
    fold_peak (fr_samples out) = match (pop_at rings (rn_ring n)).2 with Some _ => peak gm | None => zero end.
Proof.
  intros Hgm Hr Hn Hl Hpop. destruct (b_run_chain g n _ m rings Hr Hn Hl) as (inp & ob & out & Li & Lo & Hinp & Hout & ->).
  exists out. split; [done|]. cbn [gain_process one_to_one] in Hout. injection Hout as <-. cbn [with_out fr_samples].
  rewrite map_into_full by congruence. destruct (pop_at rings (rn_ring n)).2 as [f|].
  - rewrite (Hpop f eq_refl) in Hinp. rewrite Hinp by (rewrite gw_sine_engine; unfold engine_sine, SineSource_new; cbn [sine fr_samples]; by rewrite length_fmap, length_seq).
    done.
  - apply fold_peak_silent, Forall_fmap. eapply Forall_impl; [exact Hinp|]. intros x <-. unfold compose.
    destruct Hgm as [->| ->]; vm_compute; reflexivity.
Qed.

Definition glive X (c d : nat) w : Prop :=
  exists ks, ginv X 5 5 c d ks w /\ gb_inbound (gx_bridge w) <> None /\ playing X ks (gx_graph w).

Lemma glive_turns X gm n c d w : X gm -> glive X c d w -> glive X c d (turns gm n w) /\ (gx_slot w <> None -> gx_slot (turns gm n w) <> None).
Proof.
  intros Hgm (ks & Hi & Hin & Hpl). destruct (gw_turns_inv X gm n 5 5 c d ks w Hgm Hi) as (lo & ks' & Hlo & Hks & Hi' & Hg & Hs & Hin').
  assert (lo = 5%nat) as -> by (pose proof (gi_lo _ _ _ _ _ _ _ Hi'); lia). split; [|done]. exists ks'. split_and!; [done|auto|].
  rewrite Hg. by eapply playing_mono.
Qed.

(** Changing only the rings. *)
Lemma ginv_rings X lo j c d c' d' ks w rings : ginv X lo j c d ks w -> Forall2 (ring_ok X c' d') ks rings -> ginv X lo j c' d' ks (with_bridge w (gx_bridge w) rings).
Proof. intros [Hlo Ht Hcap Hr Hin Hout Hpc Hs] Hr'. by split. Qed.

Lemma glive_push X c d w : (c < DEFAULT_CAPACITY)%nat -> glive X c d w -> exists w', gw_push w = Ok w' /\ glive X (S c) d w'.
Proof.
  intros Hc (ks & Hi & Hin & Hpl). unfold gw_push, push_inbound. destruct (gb_inbound (gx_bridge w)) as [i|] eqn:Ei; [|done].
  pose proof (gi_in _ _ _ _ _ _ _ Hi i Ei) as Hk.
  destruct (push_at_ok X c d ks (gx_rings w) i true gw_sine (gi_rings _ _ _ _ _ _ _ Hi) Hk eq_refl) as [Hr Hok].
  specialize (Hok eq_refl Hc). destruct (push_at (gx_rings w) i gw_sine) as [rings r]. cbn [fst snd] in Hr, Hok. subst r.
  eexists. split; [reflexivity|]. exists ks. split_and!; [by eapply ginv_rings|cbn; congruence|done].
Qed.

Lemma glive_pop X c d w : glive X c d w -> glive X c d (gw_pop w).1 /\
  ((gw_pop w).2 = zero \/ exists gm, X gm /\ (gw_pop w).2 = peak gm).
Proof.
  intros (ks & Hi & Hin & Hpl). unfold gw_pop, pop_outbound. destruct (gb_outbound (gx_bridge w)) as [o|] eqn:Eo.
  - pose proof (gi_out _ _ _ _ _ _ _ Hi o Eo) as Hk.
    destruct (pop_at_ok X c d ks (gx_rings w) o false (gi_rings _ _ _ _ _ _ _ Hi) Hk) as [Hr Hf].
    destruct (pop_at (gx_rings w) o) as [rings r]. cbn [fst snd] in Hr, Hf |- * .
    split; [exists ks; split_and!; [by eapply ginv_rings|done|done]|]. destruct r as [f|]; [|by left]. exact (Hf f eq_refl).
  - cbn [fst snd]. split; [|by left]. exists ks. split_and!; [|done|done]. eapply ginv_rings; [done|]. by eapply gi_rings.
Qed.

Lemma glive_step X c d w : (forall gm, X gm -> gain_ab gm) -> glive X c d w -> glive X c (S d) (gw_step w) /\ gx_slot (gw_step w) = None.
Proof.
  intros HX (ks & Hi & Hin & Hpl). pose proof Hpl as (Hrd & Hl & n & gm & m & Hgm & Hn & Hm & Hnodes).
  pose proof (gi_rings _ _ _ _ _ _ _ Hi) as Hr. destruct (pop_at_ok X c d ks (gx_rings w) (rn_ring n) true Hr Hn) as [Hr1 Hpop].
  destruct (run_chain _ n gm m (gx_rings w) (HX gm Hgm) Hrd Hnodes Hl Hpop) as (out & Erun & Hout).
  assert (Hloud : loud X out) by (unfold loud; rewrite Hout; destruct (pop_at _ _).2; [right; by exists gm|by left]).
  destruct (push_at_ok X c d ks _ (rn_ring m) false out Hr1 Hm Hloud) as [Hr2 _]. rewrite <- Erun in Hr2. cbn [fits] in Hr2.
  destruct (b_run_keeps (gx_graph w) (gx_rings w) Hrd) as (Hrd' & Hn' & Hl').
  unfold gw_step. destruct (g_run (gx_graph w) (gx_rings w)) as [g' rings'] eqn:Eg. cbn [fst snd] in Hr2, Hrd', Hn', Hl' |- * .
  pose proof (ginv_rings X 5 5 c d c (S d) ks w rings' Hi Hr2) as Hi'. cbn [with_bridge gx_slot].
  destruct Hi' as [Hlo Ht Hcap Hrr Hin' Hout' Hpc Hs]. destruct (gx_slot w) as [g|] eqn:Es; (split; [|done]).
  - exists ks. split_and!; [|done|].
    + split; try done.
    + cbn. apply slot_plays. by apply (gi_slot _ _ _ _ _ _ _ Hi).
  - exists ks. split_and!; [|done|].
    + split; try done.
    + cbn. split; [done|]. split; [congruence|]. exists n, gm, m. split_and!; try done. congruence.
Qed.

(** *** Phase A, up to the first graph *)

(** A chain of ring, gain and ring nodes builds. *)
Lemma build_complete X ks f : (forall i : nat, (i < 3)%nat -> exists b, f (Z.of_nat i) = Some b /\ node_ok X ks (Z.of_nat i) b) ->
  exists g, build_graph (G := G) (E := E) f (prefix 5) = Ok g.
Proof.
  intros Hf. destruct (Hf 0%nat ltac:(lia)) as (b0 & F0 & K0). destruct (Hf 1%nat ltac:(lia)) as (b1 & F1 & K1). destruct (Hf 2%nat ltac:(lia)) as (b2 & F2 & K2).
  destruct b0 as [[n0|d0|n0]|[n0|d0|n0]]; cbn in K0; try done; try (destruct K0 as [? _]; done).
  destruct b1 as [[n1|d1|n1]|[n1|d1|n1]]; cbn in K1; try done; try (destruct K1 as [? _]; done).
  destruct b2 as [[n2|d2|n2]|[n2|d2|n2]]; cbn in K2; try done; try (destruct K2 as [? _]; done).
  change (Z.of_nat 0) with 0 in F0. change (Z.of_nat 1) with 1 in F1. change (Z.of_nat 2) with 2 in F2. clear K0 K1 K2 Hf.
  unfold build_graph. destruct g_new_empty as [N0 L0]. cbn [prefix nodes edges chain_nodes take build_nodes ns_id gain_node].
  rewrite F0, F1, F2. cbn [ok_or rbind add_built].
  destruct (g_add_node g_new _) as [g1 i1] eqn:A1. apply g_add_node_spec in A1 as (N1 & L1 & ->).
  destruct (g_add_node g1 _) as [g2 i2] eqn:A2. apply g_add_node_spec in A2 as (N2 & L2 & ->).
  destruct (g_add_sink g2 _) as [g3 i3] eqn:A3. apply g_add_sink_spec in A3 as (N3 & L3 & ->).
  rewrite N0 in N1. rewrite N1 in N2. rewrite N2 in N3. cbn [app] in N1, N2, N3. rewrite L2, L1, L0 in L3.
  rewrite N0, N1, N2. cbn [length build_nodes rbind test_links take link_edges Nat.sub edge e_from e_to fst snd].
  rewrite !lookup_insert_eq, !lookup_insert_ne, !lookup_insert_eq by done. cbn [ok_or rbind].
  rewrite !lookup_insert_ne, !lookup_insert_eq by done. cbn [ok_or rbind].
  destruct (b_link_forward g3 0 1 (Plain (GwSource n0)) (Plain (GwGain d1)) 0 0) as [g4 K4]; try (rewrite N3; done); try (cbn; lia).
  rewrite K4. cbn [map_err rbind]. apply g_link_spec in K4 as [N4 L4]. rewrite L3 in L4. rewrite N3 in N4. cbn [app] in L4.
  destruct (b_link_forward g4 1 2 (Plain (GwGain d1)) (Sink (GwSink n2)) 0 0) as [g5 K5]; try (rewrite N4; done); try (cbn; lia).
  rewrite K5. cbn [map_err rbind]. apply g_link_spec in K5 as [N5 L5]. rewrite L4 in L5. cbn [app] in L5.
  destruct (b_compile_forward g5) as [g6 K6]; [rewrite L5; repeat constructor|]. rewrite K6. by exists g6.
Qed.

(** The last rebuild sees the last write, and its graph holds the bridge's rings. *)
Definition late w : Prop :=
  match gx_pc w with
  | GWant => True
  | GBuild t _ _ => (0 < gx_unread w)%nat \/ t = gx_topo w
  | GIdle => (0 < gx_unread w)%nat \/ (gx_topo w = prefix 5 -> exists g f, gx_slot w = Some g /\
      build_graph (E := E) f (prefix 5) = Ok g /\ forall id b, f id = Some b -> aligned (gx_bridge w) b)
  end.

Lemma late_turn X gm lo j c d ks w : X gm -> ginv X lo j c d ks w -> late w -> late (turn gm w).
Proof.
  intros Hgm [Hlo Ht Hcap Hr Hin Hout Hpc Hs] Hlate. unfold late, gw_turn in * |- . unfold late, gw_turn. destruct (gx_pc w) as [|t [|nd rest] made|] eqn:Ep.
  - by right.
  - cbn. destruct Hlate as [?| ->]; [by left|]. right. intros Hfive. destruct (Hpc _ _ _ eq_refl) as (k & n & Hk & _ & Hrest & Hall & Hmade).
    rewrite Hfive in Hall, Hrest |- * . assert (Hn : (3 <= n)%nat) by (apply (f_equal length) in Hrest; rewrite length_drop in Hrest; cbn in Hrest; lia).
    destruct (build_complete X ks (fun id => made !! id)) as [g Eb].
    { intros i Hi. destruct (Hall i ltac:(lia) ltac:(cbn; lia)) as [b Hb]. exists b. split; [done|]. by apply Hmade. }
    exists g, (fun id => made !! id). unfold rebuild_once. rewrite Eb. split_and!; [done|done|]. intros id b Hb. by destruct (Hmade id b Hb) as (_ & _ & ?).
  - destruct (Hpc _ _ _ eq_refl) as (k & n & Hk & -> & Hrest & Hall & Hmade). destruct (next_node k n nd rest Hrest) as (Hrest' & Hid & Hn).
    destruct (factory_ok X gm c d ks (gx_bridge w) (gx_rings w) n Hgm Hn Hcap Hr Hin Hout) as (b' & rs' & b & ks' & Ef & _).
    rewrite Hid, Ef. cbn. exact Hlate.
  - destruct (gx_unread w =? 0)%nat eqn:Eu; [by rewrite Ep|done].
Qed.

(** Turns the thread needs to catch up: six per event. *)
Definition gbacklog w : nat :=
  (6 * gx_unread w + match gx_pc w with GWant => 5 | GBuild _ rest _ => 1 + length rest | GIdle => 0 end)%nat.

Lemma gbacklog_turn gm w : (length (nodes (gx_topo w)) <= 3)%nat -> (0 < gbacklog w)%nat -> (gbacklog (turn gm w) < gbacklog w)%nat.
Proof.
  unfold gbacklog, gw_turn. intros Hl. destruct (gx_pc w) as [|t [|nd rest] made|] eqn:Ep; cbn [with_thread gx_unread gx_pc length]; [lia|lia| |].
  - destruct (ServerFactory_build _ _ _ _) as [[b' rs'] [b|]]; cbn [with_thread gx_unread gx_pc length]; lia.
  - destruct (Nat.eqb_spec (gx_unread w) 0); [rewrite Ep; lia|]. cbn [with_thread gx_unread gx_pc length].
    destruct (Nat.ltb_spec CHANNEL_CAPACITY (gx_unread w)); lia.
Qed.

Lemma gidle gm n w : gbacklog w = 0%nat -> turns gm n w = w.
Proof.
  intros Hb. assert (Ht : turn gm w = w).
  { unfold gbacklog in Hb. unfold gw_turn. destruct (gx_pc w); [lia|lia|]. by destruct (Nat.eqb_spec (gx_unread w) 0); [|lia]. }
  induction n as [|n IH]; [done|]. by rewrite gw_turns_S, IH.
Qed.

(** During the writes. *)
Definition gwriting (b k : nat) w : Prop :=
  (exists lo ks, ginv gain_a lo k 0 0 ks w) /\ (gbacklog w <= b)%nat /\ late w.

Lemma gwriting_turn b k w : gwriting b k w -> gwriting (Nat.pred b) k (turn 1000 w).
Proof.
  intros ((lo & ks & Hi) & Hb & Hlate). destruct (gw_turn_inv gain_a 1000 lo k 0 0 ks w eq_refl Hi) as (lo' & ks' & _ & _ & Hi' & _).
  split_and!; [by exists lo', ks'| |exact (late_turn gain_a 1000 lo k 0 0 ks w eq_refl Hi Hlate)].
  destruct (decide (gbacklog w = 0%nat)) as [Hz|]; [rewrite (gidle 1000 1 w Hz : turn 1000 w = w); lia|].
  assert (Hl : (length (nodes (gx_topo w)) <= 3)%nat) by (rewrite (gi_topo _ _ _ _ _ _ _ Hi); cbn [prefix nodes]; rewrite length_take; cbn; lia).
  pose proof (gbacklog_turn 1000 w Hl). lia.
Qed.

Lemma gwriting_turns b k n w : gwriting b k w -> gwriting (b - n) k (turns 1000 n w).
Proof.
  intros Hw. induction n as [|n IH]; [by rewrite Nat.sub_0_r|]. rewrite gw_turns_S. apply gwriting_turn in IH.
  by replace (b - S n)%nat with (Nat.pred (b - n)) by lia.
Qed.

Lemma gwriting_write b k m w : phase_a_writes !! k = Some m -> gwriting b k w -> gwriting (b + 6) (S k) (gw_written m w).
Proof.
  intros Hm ((lo & ks & [Hlo Ht Hcap Hr Hin Hout Hpc Hs]) & Hb & Hlate). split_and!.
  - exists lo, ks. split; try done; cbn.
    + lia.
    + rewrite Ht. by apply prefix_next.
    + intros t rest made Ep. destruct (Hpc _ _ _ Ep) as (i & n & Hi & Hrest). exists i, n. split; [lia|done].
  - unfold gbacklog in Hb |- * . cbn [gw_written gx_unread gx_pc]. lia.
  - unfold late in Hlate |- * . cbn [gw_written gx_unread gx_pc]. destruct (gx_pc w); [done|left; lia|left; lia].
Qed.

Context (accepts : nat -> bool) (sc : GwSchedule).

Lemma gw_writes_ok ms k w : drop k phase_a_writes = ms -> (k + length ms = 5)%nat -> gwriting (5 + 6 * k) k w ->
  match gw_writes (E := E) accepts sc k ms w with
  | Ok w' => gwriting 35 5 w'
  | Err e => e = GwStoreFailed /\ exists k, (k < 6)%nat /\ accepts k = false
  end.
Proof.
  revert k w. induction ms as [|m ms IH]; intros k w Hd Hl Hw; cbn [gw_writes]; cbn [length] in Hl.
  - by assert (k = 5%nat) as -> by lia.
  - unfold gw_write. destruct (accepts k) eqn:Ea; cbn [rbind]; [|split; [done|exists k; split; [lia|done]]]. apply IH; [|lia|].
    + change ms with (drop 1 (m :: ms)). rewrite <- Hd, drop_drop. by rewrite Nat.add_1_r.
    + unfold before. apply (gwriting_turns _ _ (gs_turns sc (AtWrite k))) in Hw.
      apply (gwriting_write _ _ m) in Hw; [|by rewrite <- (Nat.add_0_r k), <- lookup_drop, Hd].
      destruct Hw as (? & Hb & ?). split_and!; [done|lia|done].
Qed.

Lemma gw_started : gwriting 5 0 (gw_init : GwWorld R G).
Proof.
  split_and!; [|cbn; lia|done]. exists 0%nat, []. split; try done; cbn. apply topo_new_eq.
Qed.

Lemma not_pending_slot X lo c d ks w : ginv X lo 5 c d ks w -> pending (gx_slot w) = false -> lo = 5%nat /\ gx_slot w <> None.
Proof.
  intros [Hlo _ _ _ _ _ _ Hs] Hp. unfold pending in Hp. destruct (gx_slot w) as [g|]; [|done]. split; [|done].
  destruct (Hs g eq_refl) as [Hok _]. destruct (slot_counts X ks lo g Hlo Hok) as [Hn Hl]. rewrite Hn, Hl in Hp.
  destruct (Nat.ltb_spec (Nat.min lo 3) 3), (Nat.eqb_spec (Nat.min lo 3) 3), (Nat.ltb_spec (lo - 3) 2); cbn in Hp; lia.
Qed.

Lemma gw_wait_landed n polls lo ks w : ginv gain_a lo 5 0 0 ks w ->
  match gw_wait (E := E) pending GwNeverLanded 1000 n polls w with
  | Ok w' => (exists ks, ginv gain_a 5 5 0 0 ks w') /\ gx_slot w' <> None
  | Err e => e = GwNeverLanded
  end.
Proof.
  revert n lo ks w. induction polls as [|n' polls IH]; intros n lo ks w Hi; cbn [gw_wait];
    destruct (gw_turns_inv gain_a 1000 n lo 5 0 0 ks w eq_refl Hi) as (lo' & ks' & _ & _ & Hi' & _);
    destruct (pending (gx_slot (turns 1000 n w))) eqn:Hp;
    try (destruct (not_pending_slot _ _ _ _ _ _ Hi' Hp) as [-> ?]; split; [by exists ks'|done]).
  - done.
  - by eapply IH.
Qed.

Lemma gw_take_ok c d ks w : ginv gain_a 5 5 c d ks w -> gx_slot w <> None -> exists w', gw_take w = Ok w' /\ glive gain_a c d w'.
Proof.
  intros [Hlo Ht Hcap Hr Hin Hout Hpc Hs] Hsome. unfold gw_take. destruct (gx_slot w) as [g|] eqn:Es; [|done].
  destruct (Hs g eq_refl) as [Hok Hnn]. eexists. split; [reflexivity|]. exists ks. split_and!; [by split|cbn; apply Hnn; lia|by apply slot_plays].
Qed.

Lemma gw_wait_rebuilt n polls c d w : glive gain_ab c d w ->
  match gw_wait (E := E) is_none GwNeverRebuilt 500 n polls w with
  | Ok w' => glive gain_ab c d w'
  | Err e => e = GwNeverRebuilt
  end.
Proof.
  revert n w. induction polls as [|n' polls IH]; intros n w Hw; cbn [gw_wait];
    destruct (glive_turns gain_ab 500 n c d w ltac:(by right) Hw) as [Hw' _]; destruct (gx_slot (turns 500 n w)) as [g|]; cbn [is_none]; try done.
  by apply IH.
Qed.

Lemma glive_mono (X Y : Z -> Prop) c d w : (forall gm, X gm -> Y gm) -> glive X c d w -> glive Y c d w.
Proof.
  intros HXY (ks & [Hlo Ht Hcap Hr Hin Hout Hpc Hs] & Hnn & Hpl). exists ks. split_and!; [|done|by eapply playing_mono].
  split; try done.
  - eapply Forall2_impl; [exact Hr|]. intros k r. by apply ring_ok_mono.
  - intros t rest made Ep. destruct (Hpc _ _ _ Ep) as (k & n & ? & ? & ? & ? & Hmade). exists k, n. split_and!; try done; try lia.
    intros id b Hb. destruct (Hmade _ _ Hb) as (? & ? & ?). split_and!; [done|by eapply node_ok_mono|done].
  - intros g Hg. destruct (Hs g Hg) as [? ?]. split; [by eapply slot_ok_mono|done].
Qed.

Lemma glive_write c d w : glive gain_ab c d w -> glive gain_ab c d (gw_written (AddNode gain_node) w).
Proof.
  intros (ks & [Hlo Ht Hcap Hr Hin Hout Hpc Hs] & Hnn & Hpl). exists ks. split_and!; [|done|done]. split; try done.
  cbn. rewrite Ht. apply rewrite_gain.
Qed.

(** *** Every schedule *)

Context (Hp : f_0_40 <= sine_peak <= f_0_6).

Lemma gw_peak_range : 2 ^ 25 <= sine_peak < inf.
Proof. unfold f_0_40, f_0_6, inf in Hp |- * . lia. Qed.

Lemma gw_thresholds : in_range f_0_40 f_0_6 sine_peak = true /\ in_range f_0_20 f_0_30 (sine_peak - 2 ^ 23) = true /\
  in_range f_0_20 f_0_30 sine_peak = false.
Proof.
  pose proof gw_peak_range as Hr. unfold in_range, f_0_40, f_0_6, f_0_20, f_0_30 in Hp |- * .
  rewrite !leb_bits by (unfold inf in Hr |- * ; lia).
  split_and!; [rewrite andb_true_iff, !Z.leb_le; lia|rewrite andb_true_iff, !Z.leb_le; lia|].
  apply andb_false_iff. right. apply Z.leb_gt. lia.
Qed.

Abbreviation gcheck := (run_gateway_live_reload_test (G := G) (R := R) (E := E) accepts sc).

Lemma gw_outcomes :
  match gcheck with
  | Ok (a, b) => a = sine_peak /\ b = sine_peak - 2 ^ 23
  | Err GwStoreFailed => exists k, (k < 6)%nat /\ accepts k = false
  | Err GwNeverLanded | Err GwNeverRebuilt => True
  | Err GwTakePanicked | Err GwPushPanicked => False
  | Err (GwPhaseA q) => q = zero
  | Err (GwPhaseB q) => q = zero \/ q = sine_peak
  end.
Proof.
  destruct gw_thresholds as (T1 & T2 & T3). assert (Hab : forall gm, gain_a gm -> gain_ab gm) by (intros gm ->; by left).
  unfold run_gateway_live_reload_test. pose proof (gw_writes_ok phase_a_writes 0 gw_init eq_refl eq_refl gw_started) as Hw.
  destruct (gw_writes _ _ _ _ _) as [w|e]; cbn [rbind]; [|by destruct Hw as [-> ?]]. destruct Hw as ((lo & ks & Hi) & _).
  pose proof (gw_wait_landed (gs_poll sc) (gs_polls sc) lo ks w Hi) as Hl.
  destruct (gw_wait _ _ _ _ _ w) as [w1|e]; cbn [rbind]; [|by subst]. destruct Hl as [[ks1 Hi1] Hs1].
  destruct (gw_turns_inv gain_a 1000 (gs_turns sc AtTake) 5 5 0 0 ks1 w1 eq_refl Hi1) as (lo2 & ks2 & Hlo2 & _ & Hi2 & _ & Hs2 & _).
  assert (lo2 = 5%nat) as -> by (pose proof (gi_lo _ _ _ _ _ _ _ Hi2); lia). unfold before.
  destruct (gw_take_ok _ _ _ _ Hi2 (Hs2 Hs1)) as (w2 & -> & Hg2). cbn [rbind].
  destruct (glive_turns gain_a 1000 (gs_turns sc AtPushA) _ _ w2 eq_refl Hg2) as [Hg3 _].
  destruct (glive_push gain_a 0 0 _ ltac:(unfold DEFAULT_CAPACITY; lia) Hg3) as (w4 & -> & Hg4). cbn [rbind].
  destruct (glive_turns gain_a 1000 (gs_turns sc AtStepA) _ _ w4 eq_refl Hg4) as [Hg5 _].
  destruct (glive_step gain_a _ _ _ Hab Hg5) as [Hg6 _].
  destruct (glive_turns gain_a 1000 (gs_turns sc AtPopA) _ _ _ eq_refl Hg6) as [Hg7 _].
  destruct (glive_pop _ _ _ _ Hg7) as [Hg8 Hpk]. destruct (gw_pop _) as [w8 pa]. cbn [fst snd] in Hg8, Hpk.
  destruct Hpk as [->|(gm & -> & ->)]; [reflexivity|]. rewrite peak_1000, T1. cbn [negb].
  destruct (glive_turns gain_a 1000 (gs_turns sc AtStore) _ _ w8 eq_refl Hg8) as [Hg9 _]. apply (glive_mono _ _ _ _ _ Hab) in Hg9.
  destruct (glive_turns gain_ab 500 (gs_turns sc AtRewrite) _ _ _ ltac:(by right) Hg9) as [Hg10 _]. apply glive_write in Hg10.
  unfold gw_write. destruct (accepts 5) eqn:Ea; cbn [rbind]; [|exists 5%nat; split; [lia|done]].
  pose proof (gw_wait_rebuilt (gs_poll_b sc) (gs_polls_b sc) _ _ _ Hg10) as Hl. clear Hg10.
  destruct (gw_wait _ _ _ _ _ _) as [w11|e]; cbn [rbind]; [|by subst].
  destruct (glive_turns gain_ab 500 (gs_turns sc AtSwap) _ _ _ ltac:(by right) Hl) as [Hg12 _].
  destruct (glive_step gain_ab _ _ _ (fun gm H => H) Hg12) as [Hg13 _].
  destruct (glive_turns gain_ab 500 (gs_turns sc AtPushB) _ _ _ ltac:(by right) Hg13) as [Hg14 _].
  destruct (glive_push gain_ab 1 2 _ ltac:(unfold DEFAULT_CAPACITY; lia) Hg14) as (w15 & -> & Hg15). cbn [rbind].
  destruct (glive_turns gain_ab 500 (gs_turns sc AtStepB) _ _ w15 ltac:(by right) Hg15) as [Hg16 _].
  destruct (glive_step gain_ab _ _ _ (fun gm H => H) Hg16) as [Hg17 _].
  destruct (glive_turns gain_ab 500 (gs_turns sc AtPopB) _ _ _ ltac:(by right) Hg17) as [Hg18 _].
  destruct (glive_pop _ _ _ _ Hg18) as [_ Hpk]. destruct (gw_pop _) as [w18 pb]. cbn [snd] in Hpk.
  destruct Hpk as [->|(gm & [->| ->] & ->)]; [left; reflexivity| |].
  - rewrite peak_1000, T3. by right.
  - rewrite (peak_500 gw_peak_range), T2. done.
Qed.

(** *** With the thread at rest *)

(** The bridge holds the other ends of the live graph's rings, and both are empty. *)
Record linked gm w : Prop := {
  lk_rest : gbacklog w = 0%nat;
  lk_topo : gx_topo w = prefix 5;
  lk_slot : gx_slot w = None;
  lk_cap : gb_capacity (gx_bridge w) = DEFAULT_CAPACITY;
  lk_ready : b_ready (gx_graph w) /\ g_links (gx_graph w) = test_links;
  lk_ends : exists n m ri ro, g_nodes (gx_graph w) = gw_chain n (Gain_new (milli gm)) m /\
    gb_inbound (gx_bridge w) = Some (rn_ring n) /\ gb_outbound (gx_bridge w) = Some (rn_ring m) /\ rn_ring n <> rn_ring m /\
    gx_rings w !! rn_ring n = Some ri /\ ring_items ri = [] /\ ring_capacity ri = DEFAULT_CAPACITY /\
    gx_rings w !! rn_ring m = Some ro /\ ring_items ro = [] /\ ring_capacity ro = DEFAULT_CAPACITY
}.

Lemma push_empty (rings : list R) i r f : rings !! i = Some r -> ring_items r = [] -> ring_capacity r = DEFAULT_CAPACITY ->
  exists r', push_at rings i f = (<[i := r']> rings, Ok tt) /\ ring_items r' = [f] /\ ring_capacity r' = DEFAULT_CAPACITY.
Proof.
  intros Hr Hi Hc. unfold push_at. rewrite Hr. destruct (ring_push_ok r f) as (r' & -> & Hi' & Hc'); [rewrite Hi, Hc; cbn; unfold DEFAULT_CAPACITY; lia|].
  exists r'. split_and!; [done|by rewrite Hi', Hi|congruence].
Qed.

Lemma pop_single (rings : list R) i r f : rings !! i = Some r -> ring_items r = [f] ->
  exists r', pop_at rings i = (<[i := r']> rings, Some f) /\ ring_items r' = [] /\ ring_capacity r' = ring_capacity r.
Proof. intros Hr Hi. unfold pop_at. rewrite Hr. destruct (ring_pop_cons r f [] Hi) as (r' & -> & Hi' & Hc'). by exists r'. Qed.

(** A frame pushed, run and popped comes back at the gain. *)
Lemma linked_trip gm w : gain_ab gm -> linked gm w -> exists w1, gw_push w = Ok w1 /\ gbacklog w1 = 0%nat /\
  gbacklog (gw_step w1) = 0%nat /\ (gw_pop (gw_step w1)).2 = peak gm /\ linked gm (gw_pop (gw_step w1)).1.
Proof.
  intros Hgm [Hrest Ht Hs Hcap [Hrd Hl] (n & m & ri & ro & Hn & Hin & Hout & Hne & Ri & Ii & Ci & Ro & Io & Co)].
  unfold gw_push, push_inbound. rewrite Hin. destruct (push_empty _ _ _ gw_sine Ri Ii Ci) as (r1 & -> & I1 & C1).
  eexists. split; [reflexivity|]. set (rings1 := <[rn_ring n := r1]> (gx_rings w)).
  assert (R1 : rings1 !! rn_ring n = Some r1) by (apply list_lookup_insert_eq; by eapply lookup_lt_Some).
  destruct (pop_single rings1 _ r1 gw_sine R1 I1) as (r2 & Epop & I2 & C2).
  destruct (run_chain (gx_graph w) n gm m rings1 Hgm Hrd Hn Hl) as (out & Erun & Hpk); [by rewrite Epop; intros f [= <-]|].
  rewrite Epop in Erun, Hpk. cbn [fst snd] in Erun, Hpk. set (rings2 := <[rn_ring n := r2]> rings1) in Erun |- * .
  assert (Ro2 : rings2 !! rn_ring m = Some ro) by (unfold rings2, rings1; by rewrite !list_lookup_insert_ne by done).
  destruct (push_empty rings2 _ ro out Ro2 Io Co) as (r3 & Epush & I3 & C3). rewrite Epush in Erun. cbn [fst] in Erun.
  set (rings3 := <[rn_ring m := r3]> rings2) in Erun |- * .
  assert (Ro3 : rings3 !! rn_ring m = Some r3) by (apply list_lookup_insert_eq; by eapply lookup_lt_Some).
  destruct (pop_single rings3 _ r3 out Ro3 I3) as (r4 & Epop4 & I4 & C4).
  destruct (b_run_keeps (gx_graph w) rings1 Hrd) as (Hrd' & Hn' & Hl').
  unfold gw_step. cbn [with_bridge gx_graph gx_rings gx_slot gx_bridge]. destruct (g_run (gx_graph w) rings1) as [g' rings'].
  cbn [fst snd] in Erun, Hrd', Hn', Hl'. subst rings'. rewrite Hs.
  unfold gw_pop, pop_outbound. cbn [with_graph with_bridge gx_bridge gx_rings fst snd]. rewrite Hout, Epop4. cbn [fst snd].
  split_and!; try done. split; try done; cbn.
  - split; [done|congruence].
  - exists n, m, r2, r4. split_and!; try done; try congruence.
    + unfold rings3, rings2. rewrite !list_lookup_insert_ne by done. apply list_lookup_insert_eq. by eapply lookup_lt_Some.
    + apply list_lookup_insert_eq. by eapply lookup_lt_Some.
Qed.

(** From the last write on, the first graph. *)
Lemma build_counts f g : build_graph (G := G) (E := E) f (prefix 5) = Ok g -> pending (Some g) = false.
Proof.
  intros Hb. pose proof (build_graph_cases (E := E) f (prefix 5) (prefix_nodup 5)) as Hc. rewrite Hb in Hc.
  destruct Hc as [Hn Hl]. apply Forall2_length in Hn. apply Forall2_length in Hl. cbn in Hn, Hl. unfold pending. by rewrite <- Hn, <- Hl.
Qed.

Lemma landed_linked n polls k w : gwriting 35 5 w -> (35 <= n)%nat -> exists w', gw_wait (E := E) pending GwNeverLanded 1000 n polls w = Ok w' /\
  exists w'', gw_take (turns 1000 k w') = Ok w'' /\ linked 1000 w''.
Proof.
  intros Hw Hn. apply (gwriting_turns _ _ n) in Hw. replace (35 - n)%nat with 0%nat in Hw by lia. exists (turns 1000 n w).
  set (w1 := turns 1000 n w) in * |- * . destruct Hw as ((lo & ks & Hi) & Hb & Hlate). assert (Hb0 : gbacklog w1 = 0%nat) by lia.
  unfold late, gbacklog in Hlate, Hb. destruct (gx_pc w1) eqn:Ep; [lia|lia|]. destruct Hlate as [?|Hlate]; [lia|].
  destruct (Hlate (gi_topo _ _ _ _ _ _ _ Hi)) as (g & f & Es & Eb & Hal).
  pose proof (build_counts f g Eb) as Hpend. destruct (not_pending_slot _ _ _ _ _ _ Hi ltac:(by rewrite Es)) as [-> _].
  split; [destruct polls; cbn [gw_wait]; fold w1; by rewrite Es, Hpend|]. rewrite gidle by done. unfold gw_take. rewrite Es.
  eexists. split; [reflexivity|]. destruct Hi as [_ Ht Hcap Hr _ _ _ Hs]. destruct (Hs g Es) as [Hok _].
  destruct (slot_plays _ _ _ Hok) as (Hrd & Hl & n0 & gm & m0 & -> & Kn & Km & Hnodes). split; try done. cbn.
  pose proof (build_graph_cases (E := E) f (prefix 5) (prefix_nodup 5)) as Hc. rewrite Eb, Hnodes in Hc. destruct Hc as [Hf _].
  cbn [prefix nodes chain_nodes take gw_chain] in Hf. inversion Hf as [|? ? ? ? F0 Hf1]; subst. inversion Hf1 as [|? ? ? ? F1 Hf2]; subst.
  inversion Hf2 as [|? ? ? ? F2 _]; subst. apply Hal in F0. apply Hal in F2. cbn in F0, F2.
  destruct (Forall2_lookup_l _ _ _ _ _ Hr Kn) as (ri & Ri & Ci & Li & _). destruct (Forall2_lookup_l _ _ _ _ _ Hr Km) as (ro & Ro & Co & Lo & _).
  exists n0, m0, ri, ro. split_and!; try done.
  - intros Heq. rewrite Heq in Kn. congruence.
  - by destruct (ring_items ri); [|cbn in Li; lia].
  - by destruct (ring_items ro); [|cbn in Lo; lia].
Qed.

(** *** One rebuild *)

Definition new_ring : R := ring_new DEFAULT_CAPACITY.
Definition new_node bridge (r : nat) : RingNode := ring_node bridge r.
Definition rebuilt_bridge bridge (len : nat) : GatewayBridge :=
  {| gb_channels := gb_channels bridge; gb_sample_rate := gb_sample_rate bridge; gb_num_frames := gb_num_frames bridge;
     gb_capacity := gb_capacity bridge; gb_inbound := Some len; gb_outbound := Some (len + 1)%nat |}.
Definition rebuilt_nodes gm bridge (len : nat) : gmap Z (BuiltNode GwNode) :=
  <[2 := Sink (GwSink (new_node bridge (len + 1)))]> (<[1 := Plain (GwGain (Gain_new (milli gm)))]> (<[0 := Plain (GwSource (new_node bridge len))]> ∅)).

(** The graph of these nodes. *)
Lemma rebuilt_graph gm bridge len (made := rebuilt_nodes gm bridge len) : exists g, build_graph (G := G) (E := E) (fun id => made !! id) (prefix 5) = Ok g /\
  b_ready g /\ g_links g = test_links /\ g_nodes g = gw_chain (new_node bridge len) (Gain_new (milli gm)) (new_node bridge (len + 1)).
Proof.
  set (ks := replicate len true ++ [true; false]).
  assert (K : forall k x, [true; false] !! k = Some x -> ks !! (len + k)%nat = Some x)
    by (intros k x Hk; unfold ks; rewrite lookup_app_r, length_replicate by (rewrite length_replicate; lia); by replace (len + k - len)%nat with k by lia).
  pose proof (K 0%nat true eq_refl) as K0. rewrite Nat.add_0_r in K0. pose proof (K 1%nat false eq_refl) as K1.
  assert (Hall : forall id b, made !! id = Some b -> node_ok (eq gm) ks id b).
  { intros id b. unfold made, rebuilt_nodes. destruct (decide (id = 2)) as [->|]; [rewrite lookup_insert_eq; intros [= <-]; split; [done|exact K1]|].
    destruct (decide (id = 1)) as [->|]; [rewrite lookup_insert_ne, lookup_insert_eq by done; intros [= <-]; split; [done|by exists gm]|].
    destruct (decide (id = 0)) as [->|]; [rewrite !lookup_insert_ne, lookup_insert_eq by done; intros [= <-]; split; [done|exact K0]|].
    rewrite !lookup_insert_ne, lookup_empty by done. done. }
  destruct (build_complete (eq gm) ks (fun id => made !! id)) as [g Eb].
  { intros [|[|[|i]]] Hi; [| | |lia]; eexists; (split; [reflexivity|]); apply Hall; reflexivity. }
  exists g. split; [done|]. split; [by eapply build_ready|].
  destruct (slot_plays (eq gm) ks g) as (_ & Hl & _); [by exists (fun id => made !! id)|]. split; [done|].
  pose proof (build_graph_cases (E := E) (fun id => made !! id) (prefix 5) (prefix_nodup 5)) as Hc. rewrite Eb in Hc. destruct Hc as [Hf _].
  revert Hf. generalize (g_nodes g). intros ns Hf. cbn [prefix nodes chain_nodes take] in Hf.
  inversion Hf as [|? b0 ? ? F0 Hf1]; subst. inversion Hf1 as [|? b1 ? ? F1 Hf2]; subst. inversion Hf2 as [|? b2 ? ? F2 Hf3]; subst. inversion Hf3; subst.
  unfold built_for in F0, F1, F2. cbn [ns_id gain_node] in F0, F1, F2.
  assert (M0 : made !! 0 = Some (Plain (GwSource (new_node bridge len)))) by reflexivity.
  assert (M1 : made !! 1 = Some (Plain (GwGain (Gain_new (milli gm))))) by reflexivity.
  assert (M2 : made !! 2 = Some (Sink (GwSink (new_node bridge (len + 1))))) by reflexivity.
  unfold gw_chain. congruence.
Qed.

(** From reading the topology to the deposited graph: five turns, the slot untouched in
    the first four. *)
Lemma rebuild_turns gm w : gx_topo w = prefix 5 -> gx_pc w = GWant -> gb_capacity (gx_bridge w) = DEFAULT_CAPACITY ->
  (forall n, (n <= 4)%nat -> gx_slot (turns gm n w) = gx_slot w) /\
  exists g, turns gm 5 w = {| gx_topo := prefix 5; gx_unread := gx_unread w; gx_pc := GIdle;
      gx_bridge := rebuilt_bridge (gx_bridge w) (length (gx_rings w)); gx_rings := gx_rings w ++ [new_ring; new_ring];
      gx_slot := Some g; gx_graph := gx_graph w |} /\
    b_ready g /\ g_links g = test_links /\
    g_nodes g = gw_chain (new_node (gx_bridge w) (length (gx_rings w))) (Gain_new (milli gm)) (new_node (gx_bridge w) (length (gx_rings w) + 1)).
Proof.
  destruct w as [topo unread pc bridge rings slot graph]. cbn [gx_topo gx_pc gx_bridge gx_rings gx_slot gx_graph gx_unread]. intros -> -> Hcap.
  set (len := length rings).
  set (at_ := fun b (rs : list R) p (sl : option G) => {| gx_topo := prefix 5; gx_unread := unread; gx_pc := p; gx_bridge := b; gx_rings := rs; gx_slot := sl; gx_graph := graph |}).
  set (b1 := {| gb_channels := gb_channels bridge; gb_sample_rate := gb_sample_rate bridge; gb_num_frames := gb_num_frames bridge;
    gb_capacity := gb_capacity bridge; gb_inbound := Some len; gb_outbound := gb_outbound bridge |}).
  set (m1 := <[0 := Plain (GwSource (new_node bridge len))]> (∅ : gmap Z (BuiltNode GwNode))).
  set (m2 := <[1 := Plain (GwGain (Gain_new (milli gm)))]> m1).
  assert (S1 : turn gm (at_ bridge rings GWant slot) = at_ bridge rings (GBuild (prefix 5) (drop 0 chain_nodes) ∅) slot) by reflexivity.
  assert (S2 : turn gm (at_ bridge rings (GBuild (prefix 5) (drop 0 chain_nodes) ∅) slot) = at_ b1 (rings ++ [new_ring]) (GBuild (prefix 5) (drop 1 chain_nodes) m1) slot)
    by (unfold new_ring; rewrite <- Hcap; reflexivity).
  assert (S3 : turn gm (at_ b1 (rings ++ [new_ring]) (GBuild (prefix 5) (drop 1 chain_nodes) m1) slot) =
    at_ b1 (rings ++ [new_ring]) (GBuild (prefix 5) (drop 2 chain_nodes) m2) slot) by reflexivity.
  assert (S4 : turn gm (at_ b1 (rings ++ [new_ring]) (GBuild (prefix 5) (drop 2 chain_nodes) m2) slot) =
    at_ (rebuilt_bridge bridge len) (rings ++ [new_ring; new_ring]) (GBuild (prefix 5) [] (rebuilt_nodes gm bridge len)) slot).
  { transitivity (at_ {| gb_channels := gb_channels bridge; gb_sample_rate := gb_sample_rate bridge; gb_num_frames := gb_num_frames bridge;
      gb_capacity := gb_capacity bridge; gb_inbound := Some len; gb_outbound := Some (length (rings ++ [new_ring])) |}
      ((rings ++ [new_ring]) ++ [new_ring])
      (GBuild (prefix 5) [] (<[2 := Sink (GwSink (new_node bridge (length (rings ++ [new_ring]))))]> m2)) slot); [unfold new_ring; rewrite <- Hcap; reflexivity|].
    rewrite length_app, <- app_assoc. reflexivity. }
  destruct (rebuilt_graph gm bridge len) as (g & Eb & Hg).
  assert (S5 : turn gm (at_ (rebuilt_bridge bridge len) (rings ++ [new_ring; new_ring]) (GBuild (prefix 5) [] (rebuilt_nodes gm bridge len)) slot) =
    at_ (rebuilt_bridge bridge len) (rings ++ [new_ring; new_ring]) GIdle (Some g)).
  { cbn [gw_turn gx_pc at_]. unfold rebuild_once. by rewrite Eb. }
  change {| gx_topo := prefix 5; gx_unread := unread; gx_pc := GWant; gx_bridge := bridge; gx_rings := rings; gx_slot := slot; gx_graph := graph |}
    with (at_ bridge rings GWant slot). split.
  - intros n Hn. do 5 (destruct n as [|n]; [rewrite ?gw_turns_S, gw_turns_0, ?S1, ?S2, ?S3, ?S4; reflexivity|]). lia.
  - exists g. split; [|done]. by rewrite !gw_turns_S, gw_turns_0, S1, S2, S3, S4, S5.
Qed.

(** *** Phase B *)

(** For one event the thread needs six turns. *)
Lemma rewrite_turns gm u w : gx_topo w = prefix 5 -> gx_unread w = S u -> (u < CHANNEL_CAPACITY)%nat -> gx_pc w = GIdle -> gb_capacity (gx_bridge w) = DEFAULT_CAPACITY ->
  (forall n, (n <= 5)%nat -> gx_slot (turns gm n w) = gx_slot w) /\
  exists g, turns gm 6 w = {| gx_topo := prefix 5; gx_unread := u; gx_pc := GIdle;
      gx_bridge := rebuilt_bridge (gx_bridge w) (length (gx_rings w)); gx_rings := gx_rings w ++ [new_ring; new_ring];
      gx_slot := Some g; gx_graph := gx_graph w |} /\
    b_ready g /\ g_links g = test_links /\
    g_nodes g = gw_chain (new_node (gx_bridge w) (length (gx_rings w))) (Gain_new (milli gm)) (new_node (gx_bridge w) (length (gx_rings w) + 1)).
Proof.
  intros Ht Hu Hlt Hpc Hcap. assert (E1 : turn gm w = with_thread w u GWant) by (unfold gw_turn; rewrite Hpc, Hu; by rewrite (proj2 (Nat.ltb_ge _ _)) by lia).
  destruct (rebuild_turns gm (turn gm w)) as [Hs (g & E5 & Hg)]; try (by rewrite E1).
  assert (Hshift : forall n, turns gm (S n) w = turns gm n (turn gm w)) by (intros n; unfold gw_turns; by rewrite Nat.iter_succ_r).
  rewrite E1 in Hs, E5, Hg. cbn [with_thread gx_slot gx_unread gx_bridge gx_rings gx_graph] in Hs, E5, Hg. split.
  - intros [|n] Hn; [done|]. rewrite Hshift, E1. apply Hs. lia.
  - exists g. by rewrite Hshift, E1, E5.
Qed.

Definition sum (l : list nat) : nat := foldr Nat.add 0%nat l.

Lemma turns_add gm n m w : turns gm n (turns gm m w) = turns gm (n + m) w.
Proof. unfold gw_turns. by rewrite Nat.iter_add. Qed.

(** The wait of phase B, [a] turns after the write. *)
Lemma wait_rewrite n polls a w : gx_topo w = prefix 5 -> gx_unread w = 1%nat -> gx_pc w = GIdle ->
  gb_capacity (gx_bridge w) = DEFAULT_CAPACITY -> gx_slot w = None -> (a < 6)%nat ->
  gw_wait (E := E) is_none GwNeverRebuilt 500 n polls (turns 500 a w) =
  if (6 <=? a + n + sum polls)%nat then Ok (turns 500 6 w) else Err GwNeverRebuilt.
Proof.
  intros Ht Hu Hpc Hcap Hs. destruct (rewrite_turns 500 0 w Ht Hu ltac:(unfold CHANNEL_CAPACITY; lia) Hpc Hcap) as [Hnone (g & E6 & _)].
  assert (Hlate : forall k, (6 <= k)%nat -> turns 500 k w = turns 500 6 w)
    by (intros k Hk; replace k with (k - 6 + 6)%nat by lia; rewrite <- turns_add; apply gidle; by rewrite E6).
  revert n a. induction polls as [|n' polls IH]; intros n a Ha; cbn [gw_wait sum foldr]; rewrite turns_add;
    destruct (Nat.le_gt_cases 6 (n + a)).
  1, 3: rewrite Hlate, E6 by lia; cbn [gx_slot is_none]; rewrite <- E6; by rewrite (proj2 (Nat.leb_le _ _)) by lia.
  all: rewrite Hnone, Hs by lia; cbn [is_none].
  - by rewrite (proj2 (Nat.leb_gt _ _)) by lia.
  - rewrite IH by lia. unfold sum. by replace (n + a + n' + foldr Nat.add 0 polls)%nat with (a + n + (n' + foldr Nat.add 0 polls))%nat by lia.
Qed.

Lemma pop_at_ne (rings : list R) i k : i <> k -> (pop_at rings i).1 !! k = rings !! k.
Proof. intros Hne. unfold pop_at. destruct (rings !! i); [|done]. destruct (ring_pop _) as [[]|]; [|done]. by apply list_lookup_insert_ne. Qed.
Lemma push_at_ne (rings : list R) i k f : i <> k -> (push_at rings i f).1 !! k = rings !! k.
Proof. intros Hne. unfold push_at. destruct (rings !! i); [|done]. destruct (ring_push _ _); [|done]. by apply list_lookup_insert_ne. Qed.

(** The cycle of the old graph that swaps the new one in leaves the new rings alone. *)
Lemma swap_linked gm w : linked gm w -> gain_ab gm -> let w' := turns 500 6 (gw_written (AddNode gain_node) w) in
  gbacklog w' = 0%nat /\ linked 500 (gw_step w').
Proof.
  intros [Hrest Ht Hs Hcap [Hrd Hl] (n & m & ri & ro & Hn & Hin & Hout & Hne & Ri & Ii & Ci & Ro & Io & Co)] Hgm w'.
  assert (Hpc : gx_pc w = GIdle /\ gx_unread w = 0%nat) by (unfold gbacklog in Hrest; destruct (gx_pc w); [lia|lia|split; [done|lia]]).
  destruct Hpc as [Hpc Hu].
  destruct (rewrite_turns 500 0 (gw_written (AddNode gain_node) w)) as [_ (g & E6 & Hgr & Hgl & Hgn)];
    [cbn; rewrite Ht; apply rewrite_gain|cbn; by rewrite Hu|unfold CHANNEL_CAPACITY; lia|done|done|]. unfold w'. rewrite E6.
  cbn [gw_written gx_rings gx_bridge gx_graph] in Hgn |- * . set (len := length (gx_rings w)) in Hgn |- * . split; [done|].
  set (rings := gx_rings w ++ [new_ring; new_ring]).
  assert (Hlt : (rn_ring n < len)%nat /\ (rn_ring m < len)%nat) by (split; by eapply lookup_lt_Some).
  assert (Hpop : (pop_at rings (rn_ring n)).2 = None).
  { unfold pop_at, rings. rewrite lookup_app_l by apply Hlt. rewrite Ri, ring_pop_empty by done. done. }
  destruct (run_chain (gx_graph w) n gm m rings Hgm Hrd Hn Hl) as (out & Erun & _); [by rewrite Hpop|].
  unfold gw_step. cbn [gx_graph gx_rings gx_slot gx_bridge with_bridge]. destruct (g_run (gx_graph w) rings) as [g' rings']. cbn [snd] in Erun.
  assert (Hnew : forall k r, [new_ring; new_ring] !! k = Some r -> rings' !! (len + k)%nat = Some r).
  { intros k r Hk. rewrite Erun, push_at_ne, pop_at_ne by lia. unfold rings. rewrite lookup_app_r by (unfold len; lia).
    by replace (len + k - length (gx_rings w))%nat with k by (unfold len; lia). }
  pose proof (Hnew 0%nat new_ring eq_refl) as R0. rewrite Nat.add_0_r in R0. pose proof (Hnew 1%nat new_ring eq_refl) as R1.
  destruct (ring_new_empty DEFAULT_CAPACITY) as [In Cn]. split; try done; cbn.
  exists (new_node (gx_bridge w) len), (new_node (gx_bridge w) (len + 1)), new_ring, new_ring. cbn. split_and!; try done. lia.
Qed.

Lemma gw_timely : (forall k, (k < 6)%nat -> accepts k = true) -> (35 <= gs_poll sc)%nat ->
  gcheck = if (6 <=? gs_poll_b sc + sum (gs_polls_b sc))%nat then Ok (sine_peak, sine_peak - 2 ^ 23) else Err GwNeverRebuilt.
Proof.
  intros Ha Hn. destruct gw_thresholds as (T1 & T2 & _). unfold run_gateway_live_reload_test.
  pose proof (gw_writes_ok phase_a_writes 0 gw_init eq_refl eq_refl gw_started) as Hw.
  destruct (gw_writes _ _ _ _ _) as [w|e]; cbn [rbind]; [|destruct Hw as (_ & k & Hk & Hf); by rewrite Ha in Hf].
  destruct (landed_linked (gs_poll sc) (gs_polls sc) (gs_turns sc AtTake) w Hw Hn) as (w1 & -> & w2 & E2 & Hlk). cbn [rbind].
  unfold before. rewrite E2. cbn [rbind]. rewrite gidle by apply Hlk.
  destruct (linked_trip 1000 w2 ltac:(by left) Hlk) as (w3 & -> & B3 & B4 & Hpk & Hlk5). cbn [rbind]. rewrite (gidle _ _ w3) by done. rewrite gidle by done.
  destruct (gw_pop (gw_step w3)) as [w5 pa]. cbn [fst snd] in Hpk, Hlk5. rewrite Hpk, peak_1000, T1. cbn [negb].
  rewrite (gidle _ (gs_turns sc AtStore)), gidle by apply Hlk5. unfold gw_write. rewrite (Ha 5%nat) by lia. cbn [rbind].
  destruct (swap_linked 1000 w5 Hlk5 ltac:(by left)) as [B6 Hlk6]. pose proof Hlk5 as [Hrest Ht Hs Hcap _ _].
  assert (Hpc : gx_pc w5 = GIdle /\ gx_unread w5 = 0%nat) by (unfold gbacklog in Hrest; destruct (gx_pc w5); [lia|lia|split; [done|lia]]).
  destruct Hpc as [Hpc Hu]. pose proof (wait_rewrite (gs_poll_b sc) (gs_polls_b sc) 0 (gw_written (AddNode gain_node) w5)) as Hwait.
  change (turns 500 0 (gw_written (AddNode gain_node) w5)) with (gw_written (AddNode gain_node) w5) in Hwait.
  rewrite Hwait; [|cbn; rewrite Ht; apply rewrite_gain|cbn; by rewrite Hu|done|done|done|lia]. clear Hwait. cbn [Nat.add].
  destruct (6 <=? gs_poll_b sc + sum (gs_polls_b sc))%nat; cbn [rbind]; [|done].
  set (w6 := turns 500 6 (gw_written (AddNode gain_node) w5)) in B6, Hlk6 |- * . rewrite (gidle _ _ w6) by done. rewrite (gidle _ _ (gw_step w6)) by apply Hlk6.
  destruct (linked_trip 500 _ ltac:(by right) Hlk6) as (w7 & -> & B7 & B8 & Hpk8 & _). cbn [rbind]. rewrite (gidle _ _ w7) by done. rewrite gidle by done.
  destruct (gw_pop (gw_step w7)) as [w9 pb]. cbn [fst snd] in Hpk8. by rewrite Hpk8, (peak_500 gw_peak_range), T2.
Qed.

(** *** A rebuild between the take and the push *)

(** The writes while the thread does not run. *)
Lemma writes_at_once ms k w : (forall k, (k < 6)%nat -> accepts k = true) -> (forall k, gs_turns sc (AtWrite k) = 0%nat) ->
  drop k phase_a_writes = ms -> (k + length ms = 5)%nat -> gx_topo w = prefix k ->
  gw_writes (E := E) accepts sc k ms w = Ok {| gx_topo := prefix 5; gx_unread := (gx_unread w + length ms)%nat; gx_pc := gx_pc w;
    gx_bridge := gx_bridge w; gx_rings := gx_rings w; gx_slot := gx_slot w; gx_graph := gx_graph w |}.
Proof.
  intros Ha Hz. revert k w. induction ms as [|m ms IH]; intros k w Hd Hl Ht; cbn [gw_writes length]; cbn [length] in Hl.
  - rewrite Nat.add_0_r in Hl |- * . subst k. destruct w. cbn in Ht. by subst.
  - unfold gw_write, before. rewrite Ha, Hz by lia. cbn [rbind gw_turns Nat.iter nat_rect]. rewrite IH.
    + cbn [gw_written gx_unread gx_pc gx_bridge gx_rings gx_slot gx_graph]. do 2 f_equal. lia.
    + change ms with (drop 1 (m :: ms)). rewrite <- Hd, drop_drop. by rewrite Nat.add_1_r.
    + lia.
    + cbn. rewrite Ht. apply prefix_next. by rewrite <- (Nat.add_0_r k), <- lookup_drop, Hd.
Qed.

Lemma gw_race : (forall k, (k < 6)%nat -> accepts k = true) -> (forall k, gs_turns sc (AtWrite k) = 0%nat) -> gs_poll sc = 5%nat ->
  gs_turns sc AtTake = 0%nat -> gs_turns sc AtPushA = 6%nat -> gs_turns sc AtStepA = 0%nat -> gs_turns sc AtPopA = 0%nat ->
  gcheck = Err (GwPhaseA zero).
Proof.
  intros Ha Hz Hpoll Htake Hpush Hstep Hpop. unfold run_gateway_live_reload_test.
  rewrite (writes_at_once phase_a_writes 0 gw_init Ha Hz eq_refl eq_refl topo_new_eq). cbn [rbind].
  set (w := {| gx_topo := prefix 5 |}). destruct (rebuild_turns 1000 w eq_refl eq_refl eq_refl) as [_ (g & E5 & Hr & Hl & Hn)].
  assert (Hwait : gw_wait (E := E) pending GwNeverLanded 1000 5 (gs_polls sc) w = Ok (turns 1000 5 w)).
  { destruct (gs_polls sc); cbn [gw_wait]; rewrite E5; cbn [gx_slot]; unfold pending; rewrite Hn, Hl; done. }
  rewrite Hpoll, Hwait. cbn [rbind]. unfold before. rewrite Htake, Hpush, Hstep, Hpop, E5, gw_turns_0. cbn [gw_take gx_slot rbind].
  match goal with |- context [with_graph ?a None g] => set (w1 := with_graph a None g) end.
  destruct (rewrite_turns 1000 4 w1) as [_ (g2 & E6 & _)]; [done|done|unfold CHANNEL_CAPACITY; lia|done|done|].
  rewrite E6. unfold gw_push, push_inbound.
  cbn [rebuilt_bridge gb_inbound gx_bridge gx_rings w1 with_graph w gw_init app length].
  destruct (ring_new_empty DEFAULT_CAPACITY) as [In Cn].
  destruct (push_empty [new_ring; new_ring; new_ring; new_ring] 2 new_ring gw_sine eq_refl In Cn) as (r1 & -> & _). cbn [rbind]. rewrite !gw_turns_0.
  unfold gw_step. cbn [with_bridge gx_graph gx_rings gx_slot gx_bridge].
  assert (Hempty : forall f, (pop_at [new_ring; new_ring; r1; new_ring] 0).2 = Some f -> f = gw_sine)
    by (intros f; unfold pop_at; cbn; by rewrite ring_pop_empty).
  destruct (run_chain g (new_node (gx_bridge w) 0) 1000 (new_node (gx_bridge w) 1) [new_ring; new_ring; r1; new_ring] ltac:(by left) Hr Hn Hl Hempty)
    as (out & Erun & _).
  cbn [insert list_insert]. change (gx_graph w1) with g. destruct (g_run g _) as [g' rings']. cbn [snd] in Erun.
  assert (H3' : rings' !! 3%nat = Some new_ring) by (rewrite Erun, push_at_ne, pop_at_ne by done; done).
  unfold gw_pop, pop_outbound. cbn [with_graph with_bridge gx_bridge gx_rings gb_outbound rebuilt_bridge].
  unfold pop_at. cbn [Nat.add]. rewrite H3', ring_pop_empty by done. reflexivity.
Qed.

(** C28: The gateway live-reload check, on every schedule of the rebuild thread, a
    factory call at a time.  When the sine's peak [p] lies between 0.4 and 0.6: the
    check never panics and succeeds only with [p] and exactly [p/2]; it fails only because a
    write was refused, a wait ran out, phase A was silent, or phase B was silent or
    still at the first gain.  If the first poll leaves the thread the 35 turns it
    may need, the check succeeds exactly when the polls of phase B leave it the six
    turns of one rebuild.  If all writes are made before the thread runs, the first graph
    lands with five events still unread, and a rebuild for the first of them between taking that
    graph and pushing makes the check fail: the frame goes into the ring of a graph
    that is not running yet. *)
Theorem gateway_check_outcomes :
  match gcheck with
  | Ok (a, b) => a = sine_peak /\ b = sine_peak - 2 ^ 23
  | Err GwStoreFailed => exists k, (k < 6)%nat /\ accepts k = false
  | Err GwNeverLanded | Err GwNeverRebuilt => True
  | Err GwTakePanicked | Err GwPushPanicked => False
  | Err (GwPhaseA q) => q = zero
  | Err (GwPhaseB q) => q = zero \/ q = sine_peak
  end /\
  ((forall k, (k < 6)%nat -> accepts k = true) ->
   ((35 <= gs_poll sc)%nat ->
    gcheck = if (6 <=? gs_poll_b sc + sum (gs_polls_b sc))%nat then Ok (sine_peak, sine_peak - 2 ^ 23) else Err GwNeverRebuilt) /\
   ((forall k, gs_turns sc (AtWrite k) = 0%nat) -> gs_poll sc = 5%nat -> gs_turns sc AtTake = 0%nat -> gs_turns sc AtPushA = 6%nat ->
    gs_turns sc AtStepA = 0%nat -> gs_turns sc AtPopA = 0%nat -> gcheck = Err (GwPhaseA zero))).
Proof. split; [exact gw_outcomes|]. intros Ha. split; [by apply gw_timely|by apply gw_race]. Qed.
End facts.

(** ** A library that runs chains of ring nodes, and two schedules *)

Record gw_graph : Type := { gg_nodes : list (BuiltNode GwNode); gg_links : list SnapshotEdge }.
Definition gw_silence : AudioFrame := {| fr_channels := 1; fr_rate := SR; fr_samples := replicate NF zero |}.

#[export] Instance gw_graph_ops : GraphOps gw_graph GwNode unit := {
  g_new := {| gg_nodes := []; gg_links := [] |};
  g_add_node g n := ({| gg_nodes := gg_nodes g ++ [Plain n]; gg_links := gg_links g |}, Z.of_nat (length (gg_nodes g)));
  g_add_sink g n := ({| gg_nodes := gg_nodes g ++ [Sink n]; gg_links := gg_links g |}, Z.of_nat (length (gg_nodes g)));
  g_link g a b := Ok {| gg_nodes := gg_nodes g; gg_links := gg_links g ++ [edge a b] |};
  g_compile g := Ok g;
  g_process_cycle g := (g, Ok tt);
  g_flush_sinks g := (g, Ok 0);
  g_nodes := gg_nodes;
  g_links := gg_links
}.
#[export] Instance gw_graph_laws : GraphLaws gw_graph GwNode unit.
Proof. split; cbn; intros; simplify_eq; done. Qed.

(** A frame of another length is played from its start, with silence after it. *)
Definition source_frame (popped : option AudioFrame) : AudioFrame :=
  match popped with
  | Some f => {| fr_channels := 1; fr_rate := SR; fr_samples := map_into id (fr_samples f) (fr_samples gw_silence) |}
  | None => gw_silence
  end.
#[export] Instance gw_graph_run : RingRun gw_graph (vec_ring AudioFrame) := {
  g_run g rings :=
    match gg_nodes g with
    | [Plain (GwSource n); Plain (GwGain d); Sink (GwSink m)] =>
        let '(rings, popped) := pop_at rings (rn_ring n) in
        match gain_process d [source_frame popped] [gw_silence] with
        | [out] => (g, (push_at rings (rn_ring m) out).1)
        | _ => (g, rings)
        end
    | _ => (g, rings)
    end
}.

Lemma source_frame_length popped : length (fr_samples (source_frame popped)) = NF.
Proof. destruct popped; cbn [source_frame fr_samples]; [rewrite length_map_into|]; apply length_replicate. Qed.

#[export] Instance gw_graph_flows : BridgeFlows gw_graph (vec_ring AudioFrame) unit.
Proof.
  refine {| b_ready _ := True |}; try done.
  - intros g rings _. assert (Hg : (g_run g rings).1 = g) by (unfold g_run, gw_graph_run; repeat case_match; done). by rewrite Hg.
  - intros g n d m rings _ Hn _. exists (source_frame (pop_at rings (rn_ring n)).2), gw_silence. eexists.
    split; [apply source_frame_length|]. split; [apply length_replicate|]. split; [|split; [reflexivity|]].
    + destruct (pop_at rings (rn_ring n)).2 as [f|]; [|by apply Forall_replicate].
      intros Hl. cbn [source_frame fr_samples]. rewrite map_into_full by (by rewrite Hl). apply list_fmap_id.
    + cbn in Hn |- * . rewrite Hn. cbn. by destruct (pop_at rings (rn_ring n)).
  - intros. by eexists.
  - intros. by eexists.
Defined.

(** The thread runs as often as [a] says before the push of phase A. *)
Definition gw_schedule (poll a poll_b : nat) : GwSchedule :=
  {| gs_turns p := match p with AtPushA => a | _ => 0%nat end; gs_poll := poll; gs_polls := []; gs_poll_b := poll_b; gs_polls_b := [] |}.

(** On a platform whose sine is 1: success with 1/2 and 1/4, and the silent phase A. *)
Lemma gateway_check_outcomes_witness :
  run_gateway_live_reload_test (M := unit_math) (R := vec_ring AudioFrame) (G := gw_graph) (E := unit) (fun _ => true) (gw_schedule 35 0 6) = Ok (half, 0x3E800000) /\
  run_gateway_live_reload_test (M := unit_math) (R := vec_ring AudioFrame) (G := gw_graph) (E := unit) (fun _ => true) (gw_schedule 5 6 6) = Err (GwPhaseA zero).
Proof.
  assert (Hp : sine_peak (M := unit_math) = half) by (vm_compute; reflexivity).
  assert (Hr : f_0_40 <= sine_peak (M := unit_math) <= f_0_6) by (rewrite Hp; split; apply Z.leb_le; vm_compute; reflexivity).
  pose proof (gateway_check_outcomes (M := unit_math) (R := vec_ring AudioFrame) (G := gw_graph) (E := unit) (fun _ => true) (gw_schedule 35 0 6) Hr) as [_ H1].
  pose proof (gateway_check_outcomes (M := unit_math) (R := vec_ring AudioFrame) (G := gw_graph) (E := unit) (fun _ => true) (gw_schedule 5 6 6) Hr) as [_ H2].
  split.
  - rewrite (proj1 (H1 ltac:(done))) by (cbn; lia). rewrite Hp. reflexivity.
  - by apply (proj2 (H2 ltac:(done))).
Defined.
