(* ===== verification/Ephemeral.v ===== *)
(** * Ephemeral stores and who keeps them alive

    [RaftEngine::new], its [Drop] and [unique_temp_path] of
    [crates/session-store/src/lib.rs], and the end of the thread of
    [spawn_rebuild_task] in [crates/audio-engine/src/lib.rs].  An engine is shared: the
    main program and every rebuild thread hold a reference, and the last one dropped
    drops the engine and removes its file.  A process is its stores and threads over a
    directory of temporary files that outlives it. *)

From Stdlib Require Import String.
From stdpp Require Import gmap fin_maps.
From S2P Require Import Prelude F32 RString External Topology SessionStore.
Local Open Scope Z_scope.

Record StoreObj (T : Type) : Type := {
  so_engine : EngineState T;
  ephemeral_path : option rstring;
  so_main : nat  (* references held by the main program *)
}.
Arguments so_engine {T}.
Arguments ephemeral_path {T}.
Arguments so_main {T}.
Arguments Build_StoreObj {T}.

(** A rebuild thread, the store it was spawned for, and whether it has panicked. *)
Record RebuildTask : Type := { rt_store : Z; rt_running : bool; rt_panicked : bool }.

(** Stores are numbered by the counter their path was made with. *)
Record Process (T : Type) : Type := {
  p_pid : Z;
  p_counter : Z;
  p_files : gmap rstring T;
  p_stores : gmap Z (StoreObj T);
  p_tasks : list RebuildTask
}.
Arguments p_pid {T}.
Arguments p_counter {T}.
Arguments p_files {T}.
Arguments p_stores {T}.
Arguments p_tasks {T}.
Arguments Build_Process {T}.

Definition temp_name (pid n : Z) : rstring := (lit "sb-session-store-" ++ dec pid ++ 45 :: dec n ++ lit ".redb")%list.

(** [COUNTER.fetch_add(1, ..)] wraps around. *)
Definition unique_temp_path {T} (w : Process T) : rstring * Process T :=
  (temp_name (p_pid w) (p_counter w),
   {| p_pid := p_pid w; p_counter := wrap 64 (p_counter w + 1); p_files := p_files w; p_stores := p_stores w; p_tasks := p_tasks w |}).

Section ops.
Context `{TopoOps} {T B : Type} `{TableOps T B} `{Encoding Mutation B}.
Implicit Types w : Process T.

Definition with_stores w (files : gmap rstring T) (stores : gmap Z (StoreObj T)) : Process T :=
  {| p_pid := p_pid w; p_counter := p_counter w; p_files := files; p_stores := stores; p_tasks := p_tasks w |}.
Definition with_tasks w (tasks : list RebuildTask) : Process T :=
  {| p_pid := p_pid w; p_counter := p_counter w; p_files := p_files w; p_stores := p_stores w; p_tasks := tasks |}.

(** [Arc::new(RaftEngine::new())]; a failure to open panics, having created the file
    unless that is what failed. *)
Definition RaftEngine_new (io : faults) w : Process T * option Z :=
  let n := p_counter w in
  let '(path, w) := unique_temp_path w in
  let file := default tbl_empty (p_files w !! path) in
  match RaftEngine_open io file with
  | Ok engine =>
      (with_stores w (<[path := file]> (p_files w))
         (<[n := {| so_engine := engine; ephemeral_path := Some path; so_main := 1 |}]> (p_stores w)), Some n)
  | Err _ => (with_stores w (if io OpenDb then p_files w else <[path := file]> (p_files w)) (p_stores w), None)
  end.

Definition holds (s : Z) (t : RebuildTask) : bool := rt_running t && (rt_store t =? s).
Definition strong_count w (s : Z) (so : StoreObj T) : nat := (so_main so + length (filter (holds s) (p_tasks w)))%nat.

(** [Drop] for the engine; [removed] is whether [remove_file] succeeds. *)
Definition drop_engine (removed : bool) w (s : Z) (so : StoreObj T) : Process T :=
  with_stores w
    match ephemeral_path so with Some path => if removed then delete path (p_files w) else p_files w | None => p_files w end
    (delete s (p_stores w)).

(** The main program gives one of its references back. *)
Definition release (removed : bool) w (s : Z) (so : StoreObj T) : Process T :=
  let so := {| so_engine := so_engine so; ephemeral_path := ephemeral_path so; so_main := Nat.pred (so_main so) |} in
  if (strong_count w s so =? 0)%nat then drop_engine removed w s so
  else with_stores w (p_files w) (<[s := so]> (p_stores w)).

(** One poll of a rebuild thread: the channel is closed once the store, which owns the
    sender, is gone.  The rebuild an event asks for changes no ownership, unless it panics. *)
Definition poll_task w (t : RebuildTask) : RebuildTask :=
  if rt_running t then
    match p_stores w !! rt_store t with
    | Some _ => t
    | None => {| rt_store := rt_store t; rt_running := false; rt_panicked := false |}
    end
  else t.

(** [rebuild_once] panics: the factory does, or the slot's lock is poisoned.  The thread
    ends, its reference is dropped, and with the last one the engine. *)
Definition panic_task (removed : bool) w (k : nat) (t : RebuildTask) : Process T :=
  let w := with_tasks w (<[k := {| rt_store := rt_store t; rt_running := false; rt_panicked := true |}]> (p_tasks w)) in
  match p_stores w !! rt_store t with
  | Some so => if (strong_count w (rt_store t) so =? 0)%nat then drop_engine removed w (rt_store t) so else w
  | None => w
  end.

Inductive op : Type :=
| ONew (io : faults)
| OClone (s : Z)
| ORelease (s : Z) (removed : bool)
| OSpawn (s : Z)                             (* [spawn_rebuild_task(store.clone(), ..)] *)
| OApply (s : Z) (io : faults) (m : Mutation)
| OPoll (k : nat)
| OPanic (k : nat) (removed : bool).

(** Only what the main program holds can be cloned, released, spawned for or written to. *)
Definition step w (o : op) : Process T :=
  let on s (f : StoreObj T -> Process T) :=
    match p_stores w !! s with Some so => if (so_main so =? 0)%nat then w else f so | None => w end in
  match o with
  | ONew io => (RaftEngine_new io w).1
  | OClone s => on s (fun so => with_stores w (p_files w)
      (<[s := {| so_engine := so_engine so; ephemeral_path := ephemeral_path so; so_main := S (so_main so) |}]> (p_stores w)))
  | ORelease s removed => on s (release removed w s)
  | OSpawn s => on s (fun _ => with_tasks w (p_tasks w ++ [{| rt_store := s; rt_running := true; rt_panicked := false |}]))
  | OApply s io m => on s (fun so =>
      let engine := (engine_apply_mutation io (so_engine so) m).1 in
      with_stores w (match ephemeral_path so with Some path => <[path := db engine]> (p_files w) | None => p_files w end)
        (<[s := {| so_engine := engine; ephemeral_path := ephemeral_path so; so_main := so_main so |}]> (p_stores w)))
  | OPoll k => with_tasks w (alter (poll_task w) k (p_tasks w))
  | OPanic k removed =>
      match p_tasks w !! k with Some t => if rt_running t then panic_task removed w k t else w | None => w end
  end.

Definition run w (os : list op) : Process T := foldl step w os.

(** A process starts with nothing but the files the others left. *)
Definition start (pid : Z) (files : gmap rstring T) : Process T :=
  {| p_pid := pid; p_counter := 0; p_files := files; p_stores := ∅; p_tasks := [] |}.
End ops.

(** ** Names *)

Lemma dec_inj a b : 0 <= a < 2 ^ 64 -> 0 <= b < 2 ^ 64 -> dec a = dec b -> a = b.
Proof.
  intros Ha Hb Hd. pose proof (parse_uint_dec (2 ^ 64 - 1) a ltac:(lia) ltac:(lia)) as Pa.
  pose proof (parse_uint_dec (2 ^ 64 - 1) b ltac:(lia) ltac:(lia)) as Pb. rewrite Hd in Pa. congruence.
Qed.

Lemma temp_name_inj pid a b : 0 <= a < 2 ^ 64 -> 0 <= b < 2 ^ 64 -> temp_name pid a = temp_name pid b -> a = b.
Proof.
  intros Ha Hb Hn. unfold temp_name in Hn. apply app_inv_head in Hn. apply app_inv_head in Hn. injection Hn as Hn.
  apply app_inv_tail in Hn. by apply dec_inj.
Qed.

(** ** The invariant of a process *)

Section facts.
Context `{TopoOps} {T B : Type} `{TableLaws T B} `{EncodingLaws Mutation B}.
Implicit Types (w : Process T) (s : Z) (so : StoreObj T).

(** An open that succeeds read everything there is. *)
Lemma replay_no_faults io rows k snap next r : replay io k rows snap next = Ok r -> replay no_faults k rows snap next = Ok r.
Proof.
  revert k snap next. induction rows as [|[key v] rows IH]; intros k snap next; [done|]. cbn [replay]. unfold guard_io.
  destruct (io (ReadEntry k)); cbn [rbind no_faults]; [done|]. destruct (decode_value v); cbn [ok_or rbind]; [apply IH|done].
Qed.

Lemma open_no_faults io file st : RaftEngine_open io file = Ok st -> RaftEngine_open no_faults file = Ok st.
Proof.
  unfold RaftEngine_open, guard_io. destruct (io OpenDb), (io BeginWrite), (io OpenTable), (io Commit), (io BeginRead), (io IterTable); cbn [rbind no_faults]; try done.
  destruct (replay io 0 _ topo_new 0) as [r|e] eqn:Er; cbn [rbind]; [|done]. rewrite (replay_no_faults _ _ _ _ _ _ Er). done.
Qed.

Lemma open_wal io file st ms : wal_holds file ms -> RaftEngine_open io file = Ok st -> wal_inv st ms /\ db st = file.
Proof. intros Hw Ho. apply open_no_faults in Ho. rewrite (open_replays file ms Hw) in Ho. injection Ho as <-. split; [|done]. split_and!; done. Qed.

Definition logs_ok (files : gmap rstring T) : Prop := forall p f, files !! p = Some f -> exists ms, wal_holds f ms.

(** A live store is the only user of its file, which holds its log. *)
Definition store_ok w s so : Prop :=
  0 <= s < p_counter w /\ ephemeral_path so = Some (temp_name (p_pid w) s) /\
  p_files w !! temp_name (p_pid w) s = Some (db (so_engine so)) /\ exists ms, wal_inv (so_engine so) ms.

Record pinv (k : Z) w : Prop := {
  pi_count : 0 <= p_counter w <= k;
  pi_store : forall s so, p_stores w !! s = Some so -> store_ok w s so;
  pi_files : logs_ok (p_files w);
  pi_tasks : forall t, t ∈ p_tasks w -> rt_running t = negb (rt_panicked t) /\ (rt_running t = true -> is_Some (p_stores w !! rt_store t))
}.

Lemma logs_insert files p f ms : logs_ok files -> wal_holds f ms -> logs_ok (<[p := f]> files).
Proof.
  intros Hl Hf p' f' Hp'. destruct (decide (p = p')) as [<-|Hne]; [|rewrite lookup_insert_ne in Hp' by done; by eapply Hl].
  rewrite lookup_insert_eq in Hp'. injection Hp' as <-. by exists ms.
Qed.
Lemma logs_delete files p : logs_ok files -> logs_ok (delete p files).
Proof. intros Hl p' f' Hp'. apply lookup_delete_Some in Hp' as [_ Hp']. by eapply Hl. Qed.

Lemma leftover_log w path : logs_ok (p_files w) -> exists ms, wal_holds (default tbl_empty (p_files w !! path)) ms.
Proof.
  intros Hl. destruct (p_files w !! path) as [f|] eqn:Ep; cbn; [by eapply Hl|]. exists []. exact (proj1 wal_inv_open).
Qed.

(** Changing a store and its file alone. *)
Lemma pinv_update k w s so so' : k < 2 ^ 64 -> pinv k w -> p_stores w !! s = Some so -> ephemeral_path so' = ephemeral_path so ->
  (exists ms, wal_inv (so_engine so') ms) ->
  pinv k (with_stores w (<[temp_name (p_pid w) s := db (so_engine so')]> (p_files w)) (<[s := so']> (p_stores w))).
Proof.
  intros Hk [Hc Hst Hf Ht] Hs Hp (ms & Hms). destruct (Hst s so Hs) as (Hr & Hpath & _ & _). split; cbn; [done| | |].
  - intros s0 so0. destruct (decide (s = s0)) as [<-|Hne].
    + rewrite lookup_insert_eq. intros [= <-]. unfold store_ok. cbn. rewrite lookup_insert_eq, Hp. split_and!; try done; try lia. by exists ms.
    + rewrite lookup_insert_ne by done. intros Hs0. destruct (Hst s0 so0 Hs0) as (Hr0 & Hp0 & Hf0 & Hw0). unfold store_ok. cbn.
      rewrite lookup_insert_ne; [split_and!; done || lia|]. intros Heq. apply temp_name_inj in Heq; lia.
  - eapply logs_insert; [done|]. apply Hms.
  - intros t Hin. destruct (Ht t Hin) as [? Hso]. split; [done|]. intros Hrun.
    destruct (decide (s = rt_store t)) as [<-|]; [rewrite lookup_insert_eq; by eexists|]. rewrite lookup_insert_ne by done. by apply Hso.
Qed.

Lemma pinv_mono k k' w : k <= k' -> pinv k w -> pinv k' w.
Proof. intros Hk [Hc Hst Hf Ht]. split; try done. lia. Qed.

(** Rewriting a file with what it holds. *)
Lemma same_file w s so : store_ok w s so -> <[temp_name (p_pid w) s := db (so_engine so)]> (p_files w) = p_files w.
Proof. intros (_ & _ & Hf & _). by apply insert_id. Qed.

Lemma new_inv k io w : k + 1 < 2 ^ 64 -> pinv k w -> pinv (k + 1) (RaftEngine_new io w).1.
Proof.
  intros Hk [Hc Hst Hf Ht]. assert (Hwrap : wrap 64 (p_counter w + 1) = p_counter w + 1) by (apply wrap_id; unfold uint; lia).
  unfold RaftEngine_new, unique_temp_path. cbn [p_files]. set (path := temp_name (p_pid w) (p_counter w)).
  destruct (leftover_log w path Hf) as [ms Hms]. set (file := default tbl_empty (p_files w !! path)) in * |- * .
  assert (Hother : forall s so, p_stores w !! s = Some so -> path <> temp_name (p_pid w) s).
  { intros s so Hs Heq. destruct (Hst s so Hs) as (Hr & _). apply temp_name_inj in Heq; lia. }
  destruct (RaftEngine_open io file) as [engine|e] eqn:Eo; cbn [fst].
  - destruct (open_wal io file engine ms Hms Eo) as [Hinv Hdb]. split; cbn; [lia| | |].
    + intros s so. destruct (decide (p_counter w = s)) as [<-|Hne].
      * rewrite lookup_insert_eq. intros Hso. apply (inj Some) in Hso as <-. unfold store_ok. cbn. fold path. rewrite lookup_insert_eq, Hdb. split_and!; try done; try lia. by exists ms.
      * rewrite lookup_insert_ne by done. intros Hs. destruct (Hst s so Hs) as (Hr & ? & ? & ?). unfold store_ok. cbn.
        rewrite lookup_insert_ne by (by eapply Hother). split_and!; try done; lia.
    + by eapply logs_insert.
    + intros t Hin. destruct (Ht t Hin) as [? Hso]. split; [done|]. intros Hrun.
      destruct (decide (p_counter w = rt_store t)) as [<-|]; [rewrite lookup_insert_eq; by eexists|]. rewrite lookup_insert_ne by done. by apply Hso.
  - split; cbn; [lia| |destruct (io OpenDb); [done|by eapply logs_insert]|done]. intros s so Hs. destruct (Hst s so Hs) as (Hr & ? & ? & ?). unfold store_ok. cbn.
    split_and!; try done; try lia. destruct (io OpenDb); [done|]. by rewrite lookup_insert_ne by (by eapply Hother).
Qed.

(** Dropping a store no thread holds. *)
Lemma drop_inv k removed w s so : k < 2 ^ 64 -> pinv k w -> store_ok w s so -> (forall t, t ∈ p_tasks w -> rt_running t = true -> rt_store t <> s) ->
  pinv k (drop_engine removed w s so).
Proof.
  intros Hk [Hc Hst Hf Ht] (Hr & Hpath & _) Hfree. unfold drop_engine. rewrite Hpath. split; cbn; [done| | |].
  - intros s0 so0 Hs0. apply lookup_delete_Some in Hs0 as [Hne Hs0]. destruct (Hst s0 so0 Hs0) as (Hr0 & ? & ? & ?). unfold store_ok. cbn.
    split_and!; try done; try lia. destruct removed; [|done]. rewrite lookup_delete_ne; [done|]. intros Heq. apply temp_name_inj in Heq; lia.
  - destruct removed; [by apply logs_delete|done].
  - intros t Hin. destruct (Ht t Hin) as [? Hso]. split; [done|]. intros Hrun. rewrite lookup_delete_ne; [by apply Hso|]. intros ->. by eapply Hfree.
Qed.

(** No reference is left only if no running thread holds one. *)
Lemma count_zero w s so : strong_count w s so = 0%nat -> forall t, t ∈ p_tasks w -> rt_running t = true -> rt_store t <> s.
Proof.
  intros Hz t Hin Hrun Hs. unfold strong_count in Hz.
  assert (Hf : t ∈ filter (holds s) (p_tasks w)) by (apply list_elem_of_filter; unfold holds; by rewrite Hrun, Hs, Z.eqb_refl).
  destruct (filter (holds s) (p_tasks w)); [by apply elem_of_nil in Hf|cbn in Hz; lia].
Qed.

(** A poll changes nothing: the store of a running thread is there. *)
Lemma poll_same k w i : pinv k w -> alter (poll_task w) i (p_tasks w) = p_tasks w.
Proof.
  intros Hi. apply list_eq. intros j. destruct (decide (i = j)) as [<-|]; [|by rewrite list_lookup_alter_ne]. rewrite list_lookup_alter_eq.
  destruct (p_tasks w !! i) as [x|] eqn:Ex; [|done]. cbn. f_equal. unfold poll_task.
  destruct (pi_tasks _ _ Hi x) as [_ Hso]; [by eapply list_elem_of_lookup_2|]. destruct (rt_running x); [|done]. by destruct (Hso eq_refl) as [so ->].
Qed.

Lemma panic_inv k removed w i t : k < 2 ^ 64 -> pinv k w -> p_tasks w !! i = Some t -> pinv k (panic_task removed w i t).
Proof.
  intros Hk Hi Ht. unfold panic_task. set (t' := {| rt_store := rt_store t; rt_running := false; rt_panicked := true |}).
  assert (Hw : pinv k (with_tasks w (<[i := t']> (p_tasks w)))).
  { destruct Hi as [Hc Hst Hf Hts]. split; try done. cbn. intros x Hx. apply list_elem_of_lookup_1 in Hx as [j Hj].
    destruct (decide (i = j)) as [<-|Hne].
    - rewrite list_lookup_insert_eq in Hj by (by eapply lookup_lt_Some). by injection Hj as <-.
    - rewrite list_lookup_insert_ne in Hj by done. apply Hts. by eapply list_elem_of_lookup_2. }
  cbn [p_stores with_tasks]. destruct (p_stores w !! rt_store t) as [so|] eqn:Es; [|done].
  destruct (Nat.eqb_spec (strong_count (with_tasks w (<[i := t']> (p_tasks w))) (rt_store t) so) 0) as [Hz|]; [|done].
  apply drop_inv; [done|done|by apply (pi_store _ _ Hw)|]. by eapply count_zero.
Qed.

Lemma step_inv k w o : k + 1 < 2 ^ 64 -> pinv k w -> pinv (k + 1) (step w o).
Proof.
  intros Hk Hi. assert (Hi' : pinv (k + 1) w) by (eapply pinv_mono; [|exact Hi]; lia).
  destruct o as [io|s|s removed|s|s io m|t|t removed]; cbn [step]; [by apply new_inv|..];
    try (destruct (p_stores w !! s) as [so|] eqn:Es; [|done]; destruct (so_main so =? 0)%nat; [done|];
         pose proof (pi_store _ _ Hi' s so Es) as Hok; pose proof Hok as (Hr & Hpath & Hfile & Hwal)).
  - rewrite <- (same_file w s so Hok). by eapply (pinv_update (k + 1) w s so {| so_engine := so_engine so |}).
  - unfold release. destruct (Nat.eqb_spec (strong_count w s {| so_engine := so_engine so; ephemeral_path := ephemeral_path so; so_main := Nat.pred (so_main so) |}) 0) as [Hz|].
    + apply drop_inv; [lia|done|done|]. by eapply count_zero.
    + rewrite <- (same_file w s so Hok). by eapply (pinv_update (k + 1) w s so {| so_engine := so_engine so |}).
  - destruct Hi' as [Hc Hst Hf Ht]. split; try done. cbn. intros t. rewrite elem_of_app. intros [Hin|Hin]; [by apply Ht|].
    apply list_elem_of_singleton in Hin as ->. split; [done|]. by exists so.
  - rewrite Hpath. destruct Hwal as [ms Hms].
    apply (pinv_update (k + 1) w s so {| so_engine := (engine_apply_mutation io (so_engine so) m).1; ephemeral_path := Some (temp_name (p_pid w) s) |}); [lia|done|done|done|].
    cbn. destruct (engine_apply_inv io (so_engine so) m ms Hms) as [(st' & -> & ? & _)|(e & ->)]; eauto.
  - rewrite (poll_same _ _ _ Hi). by destruct w, Hi'.
  - destruct (p_tasks w !! t) as [x|] eqn:Ex; [|done]. destruct (rt_running x); [|done]. by apply panic_inv; [lia|..].
Qed.

Lemma run_inv os k w : k + Z.of_nat (length os) < 2 ^ 64 -> pinv k w -> pinv (k + Z.of_nat (length os)) (run w os).
Proof.
  revert k w. induction os as [|o os IH]; intros k w Hk Hi; [by rewrite Z.add_0_r|]. cbn [length run foldl] in Hk |- * .
  replace (k + Z.of_nat (S (length os))) with (k + 1 + Z.of_nat (length os)) by lia. apply IH; [lia|]. apply step_inv; [lia|done].
Qed.

Lemma start_inv pid files : logs_ok files -> pinv 0 (start pid files).
Proof. intros Hl. split; cbn; [lia| |done|]. - intros s so. by rewrite lookup_empty. - intros t Hin. by apply elem_of_nil in Hin. Qed.

Lemma run_pid os w : p_pid (run w os) = p_pid w.
Proof.
  revert w. induction os as [|o os IH]; intros w; [done|]. cbn [run foldl]. fold (run (step w o) os). rewrite IH.
  destruct o; cbn [step]; try done; try (destruct (p_stores w !! s) as [so|]; [|done]; destruct (so_main so =? 0)%nat; [done|]); try done.
  - unfold RaftEngine_new, unique_temp_path. by destruct (RaftEngine_open _ _).
  - unfold release. by destruct (_ =? 0)%nat.
  - destruct (p_tasks w !! k) as [t|]; [|done]. destruct (rt_running t); [|done]. unfold panic_task. cbn.
    destruct (p_stores w !! rt_store t); [|done]. by destruct (_ =? 0)%nat.
Qed.

(** Only a panic ends a thread. *)
Lemma run_no_panic os : forall k w, k + Z.of_nat (length os) < 2 ^ 64 -> pinv k w -> (forall i r, OPanic i r ∉ os) ->
  (forall t, t ∈ p_tasks w -> rt_panicked t = false) -> forall t, t ∈ p_tasks (run w os) -> rt_panicked t = false.
Proof.
  induction os as [|o os IH]; intros k w Hk Hi Hos Hw; [done|]. cbn [length] in Hk. cbn [run foldl].
  apply (IH (k + 1)); [lia|apply step_inv; [lia|done]|by intros i r Hin; apply (Hos i r); right|].
  destruct o as [io|s|s removed|s|s io m|i|i removed]; cbn [step];
    try (destruct (p_stores w !! s) as [so|]; [|done]; destruct (so_main so =? 0)%nat; [done|]); try done.
  - unfold RaftEngine_new, unique_temp_path. by destruct (RaftEngine_open _ _).
  - unfold release. by destruct (_ =? 0)%nat.
  - intros t. cbn. rewrite elem_of_app. intros [?|Hin]; [by apply Hw|]. by apply list_elem_of_singleton in Hin as ->.
  - by rewrite (poll_same _ _ _ Hi).
  - destruct (Hos i removed). left.
Qed.

(** C35: A rebuild thread keeps its store alive until it panics.  Over every sequence of
    opening, sharing, writing, spawning, polling, releasing and panicking rebuilds in one process: every
    rebuild thread that has not panicked is still running and its store is still there, with
    its log in its file, even after the main program has given up all its references,
    since the thread waits for a channel to close whose sender it keeps alive; without a panic that
    is every thread ever spawned.  Live
    stores never share a file; a store no running thread holds is dropped, and its file
    removed, with the last reference, and so is one whose last holder is a thread that panics.  A file that stays behind is read again: the first
    store of a later process with the same pid starts with the topology the first
    store of this one had, if a running rebuild thread held it. *)
Theorem rebuild_thread_keeps_store (pid : Z) (files : gmap rstring T) (os : list op) :
  logs_ok files -> Z.of_nat (length os) < 2 ^ 64 ->
  let w := run (start pid files) os in
  (forall t, t ∈ p_tasks w -> rt_panicked t = false -> rt_running t = true /\ exists so, p_stores w !! rt_store t = Some so /\
     p_files w !! temp_name pid (rt_store t) = Some (db (so_engine so))) /\
  ((forall k r, OPanic k r ∉ os) -> forall t, t ∈ p_tasks w -> rt_panicked t = false) /\
  (forall s s' so so', p_stores w !! s = Some so -> p_stores w !! s' = Some so' -> ephemeral_path so = ephemeral_path so' -> s = s') /\
  (forall s so, p_stores w !! s = Some so -> so_main so = 1%nat -> (forall t, t ∈ p_tasks w -> rt_running t = true -> rt_store t <> s) ->
     p_stores (step w (ORelease s true)) !! s = None /\ p_files (step w (ORelease s true)) !! temp_name pid s = None) /\
  (forall k t so, p_tasks w !! k = Some t -> rt_running t = true -> p_stores w !! rt_store t = Some so -> so_main so = 0%nat ->
     (forall j u, p_tasks w !! j = Some u -> rt_running u = true -> rt_store u = rt_store t -> j = k) ->
     p_stores (step w (OPanic k true)) !! rt_store t = None /\ p_files (step w (OPanic k true)) !! temp_name pid (rt_store t) = None) /\
  (forall t, t ∈ p_tasks w -> rt_panicked t = false -> rt_store t = 0 -> exists so so', p_stores w !! 0 = Some so /\
     p_stores (step (start pid (p_files w)) (ONew no_faults)) !! 0 = Some so' /\ snapshot (so_engine so') = snapshot (so_engine so)).
Proof.
  intros Hl Hlen w. pose proof (run_inv os 0 _ ltac:(lia) (start_inv pid files Hl)) as Hi. fold w in Hi.
  assert (Hpid : p_pid w = pid) by apply run_pid. pose proof Hi as [Hc Hst Hf Ht]. unfold store_ok in Hst. rewrite Hpid in Hst.
  assert (Hlive : forall t, t ∈ p_tasks w -> rt_panicked t = false -> rt_running t = true /\ is_Some (p_stores w !! rt_store t)).
  { intros t Hin Hp. destruct (Ht t Hin) as [Hr Hso]. rewrite Hp in Hr. split; [done|by apply Hso]. }
  assert (Hfree : forall tasks s, (forall t, t ∈ tasks -> rt_running t = true -> rt_store t <> s) -> filter (holds s) tasks = []).
  { intros tasks s Hn. destruct (filter (holds s) tasks) as [|t l] eqn:Ef; [done|]. exfalso.
    assert (Hin : t ∈ filter (holds s) tasks) by (rewrite Ef; left). apply list_elem_of_filter in Hin as [Hh Hin].
    unfold holds in Hh. apply Is_true_true_1, andb_prop in Hh as [Hr Hh]. apply (Hn t Hin Hr). by apply Z.eqb_eq. }
  split_and!.
  - intros t Hin Hp. destruct (Hlive t Hin Hp) as [? [so Hso]]. split; [done|]. exists so. split; [done|]. by destruct (Hst _ _ Hso) as (_ & _ & ? & _).
  - intros Hos. apply (run_no_panic os 0); [lia|by apply start_inv|done|]. by intros t ?%elem_of_nil.
  - intros s s' so so' Hs Hs' Heq. destruct (Hst _ _ Hs) as (Hr & Hp & _). destruct (Hst _ _ Hs') as (Hr' & Hp' & _).
    rewrite Hp, Hp' in Heq. apply (inj Some) in Heq. apply temp_name_inj in Heq; lia.
  - intros s so Hs Hm Hn. destruct (Hst _ _ Hs) as (_ & Hp & _). cbn [step]. rewrite Hs, Hm. cbn [Nat.eqb]. unfold release, strong_count. rewrite Hm.
    rewrite (Hfree _ _ Hn). cbn. unfold drop_engine. cbn. rewrite Hp. split; apply lookup_delete_eq.
  - intros k t so Hk Hr Hs Hm Hn. destruct (Hst _ _ Hs) as (_ & Hp & _). cbn [step]. rewrite Hk, Hr. unfold panic_task. cbn [p_stores with_tasks].
    rewrite Hs. unfold strong_count. rewrite Hm. cbn [p_tasks with_tasks]. rewrite Hfree.
    + cbn. unfold drop_engine. cbn. rewrite Hp. split; apply lookup_delete_eq.
    + intros u Hu Hru Hsu. apply list_elem_of_lookup_1 in Hu as [j Hj]. destruct (decide (k = j)) as [<-|Hne].
      * rewrite list_lookup_insert_eq in Hj by (by eapply lookup_lt_Some). by injection Hj as <-.
      * rewrite list_lookup_insert_ne in Hj by done. by apply Hne; symmetry; eapply Hn.
  - intros t Hin Hpt Ht0. destruct (Hlive t Hin Hpt) as [_ [so Hso]]. rewrite Ht0 in Hso. exists so. destruct (Hst _ _ Hso) as (_ & _ & Hfile & ms & Hms).
    cbn [step]. unfold RaftEngine_new, unique_temp_path. cbn [start p_files p_pid p_counter]. rewrite Hfile. cbn [default].
    rewrite (open_replays (db (so_engine so)) ms (proj1 Hms)). cbn [fst with_stores p_stores]. rewrite lookup_insert_eq. eexists. split; [done|]. split; [reflexivity|].
    cbn. by destruct Hms as (_ & _ & ->).
Qed.
End facts.

(** A store with a rebuild thread, given up by the main program: the next process
    with the same pid sees its node. *)
Definition leak_ops : list op :=
  [ONew no_faults; OSpawn 0; OApply 0 no_faults (AddNode (wal_example_node 7)); ORelease 0 true; OPoll 0].

Lemma rebuild_thread_keeps_store_witness :
  let w := run (start 1 (∅ : gmap rstring (gmap Z Mutation))) leak_ops in
  rt_running <$> p_tasks w = [true] /\ exists so so', p_stores w !! 0 = Some so /\ ids (snapshot (so_engine so)) = [7] /\
    p_stores (step (start 1 (p_files w)) (ONew no_faults)) !! 0 = Some so' /\ snapshot (so_engine so') = snapshot (so_engine so).
Proof.
  intros w. assert (Hl : logs_ok (∅ : gmap rstring (gmap Z Mutation))) by (intros p f; by rewrite lookup_empty).
  destruct (rebuild_thread_keeps_store 1 ∅ leak_ops Hl ltac:(cbn; lia)) as (_ & _ & _ & _ & _ & Hnext). fold w in Hnext.
  split; [vm_compute; reflexivity|]. destruct (Hnext {| rt_store := 0; rt_running := true; rt_panicked := false |}) as (so & so' & Hs & Hs' & E); [left|done|done|].
  exists so, so'. split_and!; try done. assert (Hso : p_stores w !! 0 = Some so) by exact Hs. vm_compute in Hso. injection Hso as <-. vm_compute. reflexivity.
Defined.
